(* ===== verification/_CoqProject ===== *)
-Q . S2P
Prelude.v
JsNumber.v
FloatRound.v
JsCollections.v
JsString.v
Types.v
Format.v
Store.v
Hooks.v
Socket.v
FloatInterval.v
Mock.v
MockFacts.v
View.v
Chart.v
ChartFloat.v
Charts.v
Topo.v
TopoFacts.v
TopoFloat.v
Detail.v
DetailFacts.v
ListView.v
Heatmap.v
Metrics.v
App.v
AppFacts.v
AppMap.v
Hub.v
Live.v
Recovery.v
DesignEngine.v
Design.v
DesignFacts.v
FlowGraph.v
DesignCanvas.v
DesignFloat.v
DesignCharts.v
DesignViews.v
DesignApp.v
DesignAppFacts.v
