(* ===== verification/Prelude.v ===== *)
(** * MicroTrace dashboard: a verification development

    MicroTrace shows the latency of the TCP connections between services.  A
    collector sends JSON messages over a WebSocket; the dashboard, the
    TypeScript under [src/frontend], keeps them in a store and draws a map, a
    list, a matrix, charts, a detail panel and a log.  This library models the
    dashboard, the simulated source that can feed it, the prototype it was built
    from ([src/design_handoff_microtrace]), and of the collector the hub that
    talks to the dashboard.

    ** The parts and how they interact

    A data source (the WebSocket hook or the simulated one) owns the store: the
    last snapshot of every connection, the history of every connection, the
    resource figures of every service, and the log of spikes.  [App] holds the
    selection (a connection, a service) and the mounted view; it hands the store
    and the selection to the views, whose clicks change the selection, and to
    the detail panel, which may ask the collector for older history.  Messages
    and clicks come in any order; React applies queued state updates later, and
    answers of the collector come later still.  The hub of the collector sends a
    history to every connection it accepts and broadcasts everything else to the
    connections it has; the page reconnects two seconds after it lost its own.

    ** The files

    The runtime:
    - [Prelude]: notations, hint databases, tactics, list and option lemmas.
    - [JsNumber]: the operators on numbers as a class [Num] with two instances,
      binary64 ([number]) and the rationals, and the order they share.
    - [FloatRound], [FloatInterval]: rounding of binary64 as arithmetic on
      integers, monotonicity, interval bounds.
    - [JsCollections]: objects as dictionaries, sets, [slice], stable [sort].
    - [JsString]: text of numbers, [toFixed], [Date] fields, string order.
    - [View]: rendered trees, and which handler a click reaches.

    The dashboard:
    - [Types]: [types.ts], [constants/causes.ts], [constants/topology.ts].
    - [Format]: [utils/format.ts].
    - [Store]: the message handler of [hooks/useWebSocket.ts], applied one
      message at a time; [Hooks]: the same handler queueing updaters that each
      hook drains on its own; [Socket]: its connection, timers and cleanup.
    - [Mock], [MockFacts]: [hooks/useMockData.ts].
    - [Chart]: [components/chartShared.ts]; [ChartFloat]: its window in binary64;
      [Charts]: [LatencyChart.tsx], [ResourceChart.tsx].
    - [Topo], [TopoFacts], [TopoFloat]: [TopoGraph.tsx]; the last proves the
      bounds of the map of its binary64 program.
    - [Detail], [DetailFacts]: [DetailPanel.tsx].
    - [ListView], [Heatmap]: [ConnectionListView.tsx], [HeatmapMatrixView.tsx].
    - [Metrics]: [StatCard.tsx], [GlobalMetrics.tsx], [TopBar.tsx],
      [SpikeLog.tsx].
    - [App], [AppFacts]: [App.tsx], [SectionHeader.tsx], [ViewSwitcher.tsx], and
      the composition of everything above in one machine ([app_step]).
      [AppMap]: the map inside it.
    - [Hub]: [collector/hub/hub.go].  [Live]: hub, connections with the bytes in
      flight, sockets and dashboard as one machine ([sys_step]); [Recovery]: its
      progress.
    - [FlowGraph]: [TopologyGraph.tsx], the map the dashboard had first, and the
      fixed example of [TopologyTest.tsx].

    The prototype ([design_handoff_microtrace]):
    - [DesignEngine]: the data engine [mt-data.js], translated on its own;
      [Design]: the formats, the tables, row filters and sorting, which the views
      repeat file by file; [DesignFacts]: the dashboard compared with both.
    - [DesignCanvas]: the drawings of [mt-chart.jsx]; [DesignFloat]: where they go,
      in binary64; [DesignCharts]: the effects that draw them.
    - [DesignViews]: [mt-views.jsx], [mt-topology.jsx].
    - [DesignApp], [DesignAppFacts]: [mt-panels.jsx], [mt-app.jsx], the page as
      one machine ([page_step]).

    A file [XFacts] proves what its file [X] defines; the other files hold
    both.  Definitions carry the names of the source; the fields of a record of
    the source keep their names inside a Module of two or three letters.

    ** What the theorems show

    - The store.  It refines a specification on the trace of messages (last
      snapshot, rising edges, windows of 3600 points): [store_refines_trace],
      [history_is_window], [store_invariant].  No schedule of the hooks can be
      told from handling messages one at a time, and draining ends:
      [schedule_independent], [rendering_catches_up].
    - The connection.  A mounted hook always has exactly one attempt open, and
      what the cleanup leaves behind: [one_connection_outstanding],
      [cleanup_leaves_timers].
    - The live system.  It is the connection machine, the dashboard and the hub
      put together ([live_refines]); messages come from the present socket only
      ([messages_from_current_socket]), each once and in order after the history
      ([connection_in_order]); from every state the page can come back
      ([reconnection_recovers]), but a removal it misses is never made up for
      ([outage_keeps_removed]).
    - The simulated source.  It never throws and keeps its invariant in IEEE
      arithmetic ([mock_correct]), logs rising edges
      ([mock_events_are_edges]), its spikes end ([spikes_and_stress_end]), and it
      is the engine of the prototype draw for draw: two translations of two
      programs are proved equal ([simulation_is_the_design]).
    - The charts.  The zoom window under any session and the way back to live
      data, in binary64 and exactly in the rationals ([session_in_binary64],
      [zoom_out_in_binary64]; [session_window], [zoom_out_returns_live]), the
      cursor kept ([wheel_in_keeps_cursor]), the life cycle of plots
      ([canvas_lifecycle]).
    - The map.  Clicks, drags, zoom, placement: [map_click],
      [drag_is_not_click], [wheel_keeps_point], [map_stays_visible],
      [placement]; the first map: [layout_geometry], [nodes_follow_services].
    - List, matrix, figures: [list_rows], [matrix_cells], [figures_agree], and
      the counts and colours that are not what they seem ([chip_counts],
      [red_means_unknown]).
    - The panel.  What history it shows, in the good case and in the bad ones:
      [panel_shows_selection], [stale_response_shown], and that a failed request
      cannot be told from one that is still pending ([failed_request_is_silent]);
      its request and its bar:
      [history_url_parses], [close_bar_full].
    - The dashboard.  The composed machine refines the store and the panel, and
      what is on display after a pick, a removal and a return, any click:
      [dashboard_well_formed], [app_refines_panel], [picked_connection_is_shown],
      [removed_and_back], [log_click_hidden], [page_clicks].
    - The prototype.  Its engine is the simulated source
      ([simulation_is_the_design]) and its page shows what that publishes
      ([page_is_the_simulation]); its formats and list agree with the dashboard's
      but for the cases listed ([formats_and_the_design], [list_is_the_design]);
      its charts draw their present props ([chart_follows_props]) and stay in their
      frame but for the upper edge of the jitter band ([drawings_stay_inside]); its
      map selects what is clicked ([prototype_map]).

    ** Conventions and bounds

    Numbers are binary64, computed by the kernel; geometry is written once over
    [Num].  Bounds are proved of binary64 ([mock_correct], [map_stays_visible],
    [session_in_binary64], [drawings_stay_inside]); equalities between points are
    about the rationals, where they are facts of the formulas and not of rounding.  Counters that stay
    far below 2^53 are [Z].  Only the text conversions have fuel: [Number::toString] tries up to 17
    digits, which determine every binary64, over its whole range of exponents;
    splitting a query string has fuel for its length.  Random numbers and clock
    readings are tapes, any function of a position; a [TypeError] of the source
    is [None].

    Parameters, because their code is not under [src]: uPlot (the interface
    [UPlot] of [Chart]) and React Flow's node changes; of the collector, how it
    marshals a message and what history it keeps.  A WebSocket connection is
    ordered and loses nothing while both ends are up, and its writes fail for
    good once one has failed, as gorilla/websocket documents.  Of the language,
    what the platform decides is a parameter too: [localeCompare], the local time
    zone, the last bits of the trigonometric functions; the square root is IEEE's.
    React is used through two documented rules: updaters of one hook run once, in
    order; the effects of a commit run after it.  The composed machine commits
    after every event; what a render of several messages at once changes is
    stated where it matters ([removed_and_back]).

    ** Not modelled

    - Style attributes that no data flows into, hover effects, fonts, icons'
      paths: they change no behaviour.
    - [main.tsx], [vite.config.ts], [eslint.config.js]: mounting and build
      configuration.
    - The collector but for its hub, the resource agent (Go), the tracer (C,
      eBPF), scripts and test beds: other languages; their messages are the
      arbitrary inputs of the hub and of the store.
    - JSON parsing of a message is the browser's, a parameter of [Live]; a message
      the parser rejects changes nothing.
    - Of the prototype: the content of the messages the page posts to its parent
      window (only their types are kept). *)

From Stdlib Require Export ZArith Lia.
From stdpp Require Export base tactics numbers list strings pretty option.

#[global] Set Default Goal Selector "!".
#[global] Set Warnings "-clear-no-such-hyp".

(** ** Hint databases

    [js] holds the rewriting and resolution lemmas of the JavaScript runtime
    model (objects, sets, arrays); components add the lemmas that automate
    their common cases. *)
Create HintDb js discriminated.
Create Rewrite HintDb js.

(** ** Notations of the development *)
Declare Scope js_scope.
Delimit Scope js_scope with js.

(** [a ?? b]: the nullish coalescing operator on an optional field, [None]
    standing for [undefined] and [null]. *)
Notation "a ?? b" := (default b a) (at level 51, right associativity) : js_scope.
#[global] Open Scope js_scope.

(** ** Tactics *)

(** Split every boolean test of the goal, keeping its equation. *)
Ltac case_if :=
  match goal with
  | |- context [if ?b then _ else _] =>
      lazymatch b with
      | context [if _ then _ else _] => fail
      | _ => let E := fresh "Hif" in destruct b eqn:E
      end
  end.

(** Split every boolean test of a hypothesis. *)
Ltac case_if_in H :=
  match type of H with
  | context [if ?b then _ else _] =>
      lazymatch b with
      | context [if _ then _ else _] => fail
      | _ => let E := fresh "Hif" in destruct b eqn:E
      end
  end.

(** Turn boolean connectives into propositional ones. *)
Ltac bool_to_prop :=
  repeat match goal with
  | H : _ && _ = true |- _ => apply andb_true_iff in H as [? ?]
  | H : _ || _ = false |- _ => apply orb_false_iff in H as [? ?]
  | H : negb _ = true |- _ => apply negb_true_iff in H
  | H : negb _ = false |- _ => apply negb_false_iff in H
  | H : Z.leb _ _ = true |- _ => apply Z.leb_le in H
  | H : Z.leb _ _ = false |- _ => apply Z.leb_gt in H
  | H : Z.ltb _ _ = true |- _ => apply Z.ltb_lt in H
  | H : Z.ltb _ _ = false |- _ => apply Z.ltb_ge in H
  | H : Z.eqb _ _ = true |- _ => apply Z.eqb_eq in H
  | H : Z.eqb _ _ = false |- _ => apply Z.eqb_neq in H
  | H : Nat.ltb _ _ = true |- _ => apply Nat.ltb_lt in H
  | H : Nat.ltb _ _ = false |- _ => apply Nat.ltb_ge in H
  end.

(** ** Generic lemmas on lists *)
Section ListFacts.
Context {A B : Type}.
Implicit Types l k : list A.

(** Folding a list of functions over a state, oldest function first. *)
Definition run_all (fs : list (A → A)) (a : A) : A := foldl (λ a f, f a) a fs.

Lemma run_all_app fs gs a : run_all (fs ++ gs) a = run_all gs (run_all fs a).
Proof. apply foldl_app. Qed.

Lemma list_filter_all (P : A → Prop) `{!∀ x, Decision (P x)} l : Forall P l → filter P l = l.
Proof. induction 1; [done|]. rewrite filter_cons_True by done. by f_equal. Qed.
Lemma list_filter_none (P : A → Prop) `{!∀ x, Decision (P x)} l :
  Forall (λ x, ¬ P x) l → filter P l = [].
Proof. induction 1; [done|]. by rewrite filter_cons_False. Qed.

Lemma length_drop_last (n : nat) l : length (drop (length l - n) l) = n `min` length l.
Proof. rewrite length_drop. lia. Qed.

(** Dropping to the last [n] elements twice is dropping once. *)
Lemma drop_last_app (n : nat) l k :
  length k ≤ n →
  drop (length (l ++ k) - n) (l ++ k)
    = drop (length l - (n - length k)) l ++ k.
Proof.
  intros Hk. rewrite length_app.
  rewrite drop_app_le by lia. do 2 f_equal. lia.
Qed.
End ListFacts.
