(* ===== verification/JsNumber.v ===== *)
(** * JavaScript numbers

    A [number] of the source is an IEEE binary64 value.  [Num] collects the
    operators the source applies to numbers; it has two instances: [float], the
    kernel's binary64 type, on which every component computes, and [Q], the
    exact rationals, for the statements that are about the arithmetic of a
    formula and not about its rounding.  [NumOrder] is the interface the
    comparison-only theorems are proved against: a total preorder on the values
    that are not NaN, which both instances discharge. *)

From Stdlib Require Export QArith Qround Floats Lqa.
From S2P Require Export Prelude.

(** ** The operators *)
Class Num (T : Type) := {
  nadd : T → T → T;
  nsub : T → T → T;
  nmul : T → T → T;
  ndiv : T → T → T;
  nltb : T → T → bool;          (* a < b *)
  nleb : T → T → bool;          (* a <= b *)
  neqb : T → T → bool;          (* a === b *)
  nofZ : Z → T;                 (* the number nearest to an integer *)
  nval : T → option Q;          (* exact value; none for NaN and infinities *)
  nnan : T → bool;              (* Number.isNaN *)
}.

Declare Scope num_scope.
Delimit Scope num_scope with num.
Infix "+" := nadd : num_scope.
Infix "-" := nsub : num_scope.
Infix "*" := nmul : num_scope.
Infix "/" := ndiv : num_scope.
Infix "<?" := nltb : num_scope.
Infix "<=?" := nleb : num_scope.
Infix "===" := neqb (at level 70) : num_scope.
Notation "a >? b" := (nltb b a) (only parsing) : num_scope.
Notation "a >=? b" := (nleb b a) (only parsing) : num_scope.
Notation "N[ z ]" := (nofZ z%Z) (format "N[ z ]") : num_scope.

(** ** The operations of [Math] the source uses *)
Section Ops.
Context {T : Type} `{Num T}.
Local Open Scope num_scope.

(** A decimal literal [n / d]: numerator and denominator are exact, so the
    quotient is the number nearest to the literal. *)
Definition nlit (n d : Z) : T := N[n] / N[d].
Definition nneg (x : T) : T := N[0] - x.

(** [Math.max] and [Math.min] on two arguments: NaN if either is NaN (the
    sign of a zero is not distinguished). *)
Definition nmax (a b : T) : T :=
  if nnan a then a else if nnan b then b else if a <? b then b else a.
Definition nmin (a b : T) : T :=
  if nnan a then a else if nnan b then b else if b <? a then b else a.
Definition nabs (x : T) : T := if x <? N[0] then nneg x else x.

(** [Math.floor], [Math.ceil] and [Math.round] as integers; none on NaN and
    infinities. [Math.round] rounds half up. *)
Definition nfloorZ (x : T) : option Z := Qfloor <$> nval x.
Definition nceilZ (x : T) : option Z := Qceiling <$> nval x.
Definition nroundZ (x : T) : option Z := (λ q, Qfloor (q + (1 # 2))) <$> nval x.
(** ... and as numbers: NaN and infinities are returned unchanged. *)
Definition nfloor (x : T) : T := from_option nofZ x (nfloorZ x).
Definition nround (x : T) : T := from_option nofZ x (nroundZ x).

(** [xs.reduce((s, v) => s + v, 0)] *)
Definition nsum (xs : list T) : T := foldl nadd N[0] xs.
End Ops.

(** ** binary64 *)
Definition float_ofZ (z : Z) : float :=
  if (Z.abs z <? 2 ^ 62)%Z then
    let f := PrimFloat.of_uint63 (Uint63.of_Z (Z.abs z)) in
    if (z <? 0)%Z then PrimFloat.opp f else f
  else SF2Prim (SpecFloat.binary_normalize FloatOps.prec FloatOps.emax z 0 false).

(** The exact value [± m * 2^e] of a finite float. *)
Definition sf_val (x : spec_float) : option Q :=
  match x with
  | S754_zero _ => Some 0%Q
  | S754_finite s m e =>
      let z := SpecFloat.cond_Zopp s (Zpos m) in
      Some (match e with
            | Z0 => inject_Z z
            | Zpos p => inject_Z (z * 2 ^ Zpos p)%Z
            | Zneg p => z # (2 ^ p)
            end)
  | _ => None
  end.
Definition float_val (x : float) : option Q := sf_val (Prim2SF x).

#[export] Instance num_float : Num float := {|
  nadd := PrimFloat.add; nsub := PrimFloat.sub;
  nmul := PrimFloat.mul; ndiv := PrimFloat.div;
  nltb := PrimFloat.ltb; nleb := PrimFloat.leb; neqb := PrimFloat.eqb;
  nofZ := float_ofZ; nval := float_val; nnan := PrimFloat.is_nan
|}.

(** ** Exact rationals (no NaN, no infinities; [x / 0] is [0]) *)
Definition Qlt_bool (x y : Q) : bool := negb (Qle_bool y x).
#[export] Instance num_Q : Num Q := {|
  nadd := Qplus; nsub := Qminus; nmul := Qmult; ndiv := Qdiv;
  nltb := Qlt_bool; nleb := Qle_bool; neqb := Qeq_bool;
  nofZ := inject_Z; nval := Some; nnan := λ _, false
|}.

(** ** The order interface *)
Class NumOrder (T : Type) `{Num T} := {
  nleb_refl (x : T) : nnan x = false → nleb x x = true;
  nleb_trans (x y z : T) : nleb x y = true → nleb y z = true → nleb x z = true;
  nleb_total (x y : T) : nnan x = false → nnan y = false → nleb x y = true ∨ nleb y x = true;
  nltb_nleb (x y : T) : nltb x y = true ↔ nleb x y = true ∧ nleb y x = false;
  nleb_ok (x y : T) : nleb x y = true → nnan x = false ∧ nnan y = false;
  nofZ_ok (z : Z) : (Z.abs z < 2 ^ 62)%Z → nnan (nofZ z) = false;
}.

Section OrderFacts.
Context {T : Type} `{NumOrder T}.
Implicit Types x y z : T.

Lemma nltb_false x y :
  nnan x = false → nnan y = false → nltb x y = false ↔ nleb y x = true.
Proof.
  intros Hx Hy. destruct (nltb x y) eqn:E.
  - apply nltb_nleb in E as [_ E]. split; congruence.
  - split; [intros _|done]. destruct (nleb_total x y Hx Hy) as [Hxy|Hyx]; [|done].
    destruct (nleb y x) eqn:Eyx; [done|].
    assert (nltb x y = true) by (apply nltb_nleb; done). congruence.
Qed.

Lemma nltb_leb x y : nltb x y = true → nleb x y = true.
Proof. by intros [? _]%nltb_nleb. Qed.

Lemma nltb_trans_l x y z : nltb x y = true → nleb y z = true → nltb x z = true.
Proof.
  intros [Hxy Hyx]%nltb_nleb Hyz. apply nltb_nleb. split; [by eapply nleb_trans|].
  destruct (nleb z x) eqn:E; [|done]. by rewrite (nleb_trans y z x) in Hyx.
Qed.

Lemma nltb_trans_r x y z : nleb x y = true → nltb y z = true → nltb x z = true.
Proof.
  intros Hxy [Hyz Hzy]%nltb_nleb. apply nltb_nleb. split; [by eapply nleb_trans|].
  destruct (nleb z x) eqn:E; [|done]. by rewrite (nleb_trans z x y) in Hzy.
Qed.

Lemma nltb_irrefl x : nltb x x = false.
Proof.
  destruct (nltb x x) eqn:E; [|done]. apply nltb_nleb in E as [? ?]. congruence.
Qed.

Lemma nltb_nan_l x y : nnan x = true → nltb x y = false.
Proof.
  intros Hx. destruct (nltb x y) eqn:E; [|done].
  apply nltb_leb, nleb_ok in E as [? ?]. congruence.
Qed.

(** [Math.max] and [Math.min] are the join and the meet of the preorder. *)
Lemma nmax_cases x y : nmax x y = x ∨ nmax x y = y.
Proof. unfold nmax. repeat case_if; auto. Qed.
Lemma nmin_cases x y : nmin x y = x ∨ nmin x y = y.
Proof. unfold nmin. repeat case_if; auto. Qed.

Lemma nmax_ok x y : nnan x = false → nnan y = false → nnan (nmax x y) = false.
Proof. intros. by destruct (nmax_cases x y) as [-> | ->]. Qed.
Lemma nmin_ok x y : nnan x = false → nnan y = false → nnan (nmin x y) = false.
Proof. intros. by destruct (nmin_cases x y) as [-> | ->]. Qed.

Lemma nmax_ub_l x y : nnan x = false → nnan y = false → nleb x (nmax x y) = true.
Proof.
  intros Hx Hy. unfold nmax. rewrite Hx, Hy. case_if.
  - by apply nltb_leb.
  - by apply nleb_refl.
Qed.
Lemma nmax_ub_r x y : nnan x = false → nnan y = false → nleb y (nmax x y) = true.
Proof.
  intros Hx Hy. unfold nmax. rewrite Hx, Hy. case_if.
  - by apply nleb_refl.
  - by apply nltb_false.
Qed.
Lemma nmin_lb_l x y : nnan x = false → nnan y = false → nleb (nmin x y) x = true.
Proof.
  intros Hx Hy. unfold nmin. rewrite Hx, Hy. case_if.
  - by apply nltb_leb.
  - by apply nleb_refl.
Qed.
Lemma nmin_lb_r x y : nnan x = false → nnan y = false → nleb (nmin x y) y = true.
Proof.
  intros Hx Hy. unfold nmin. rewrite Hx, Hy. case_if.
  - by apply nleb_refl.
  - by apply nltb_false.
Qed.
Lemma nmax_lub x y z : nleb x z = true → nleb y z = true → nleb (nmax x y) z = true.
Proof. intros. by destruct (nmax_cases x y) as [-> | ->]. Qed.
Lemma nmin_glb x y z : nleb z x = true → nleb z y = true → nleb z (nmin x y) = true.
Proof. intros. by destruct (nmin_cases x y) as [-> | ->]. Qed.
End OrderFacts.

#[export] Hint Resolve nleb_refl nltb_leb nmax_ok nmin_ok nmax_ub_l nmax_ub_r
  nmin_lb_l nmin_lb_r nmax_lub nmin_glb nofZ_ok : js.

(** ** The order of the rationals *)
#[export] Instance num_order_Q : NumOrder Q.
Proof.
  split; simpl; intros *; unfold Qlt_bool.
  - intros _. apply Qle_bool_iff, Qle_refl.
  - rewrite !Qle_bool_iff. apply Qle_trans.
  - intros _ _. rewrite !Qle_bool_iff. destruct (Qlt_le_dec x y); auto using Qlt_le_weak.
  - destruct (Qle_bool y x) eqn:E; simpl.
    + split; [done|]. by intros [_ ?].
    + split; [intros _|done]. split; [|done].
      assert (¬ (y <= x)%Q) as Hn by (rewrite <-Qle_bool_iff; congruence).
      apply Qle_bool_iff, Qlt_le_weak. by apply Qnot_le_lt.
  - done.
  - done.
Qed.

(** ** The order of binary64

    [SFcompare] compares sign, exponent and mantissa in that order: it is the
    lexicographic order of the keys below. *)
Definition sf_key (x : spec_float) : Z * Z * Z :=
  match x with
  | S754_zero _ | S754_nan => (0, 0, 0)%Z
  | S754_infinity s => ((if s then -2 else 2), 0, 0)%Z
  | S754_finite s m e =>
      if s then (-1, - e, - Zpos m)%Z else (1, e, Zpos m)%Z
  end.

Definition key_compare (k1 k2 : Z * Z * Z) : comparison :=
  let '(a1, b1, c1) := k1 in let '(a2, b2, c2) := k2 in
  match (a1 ?= a2)%Z with
  | Eq => match (b1 ?= b2)%Z with Eq => (c1 ?= c2)%Z | c => c end
  | c => c
  end.

Definition sf_is_nan (x : spec_float) : bool :=
  match x with S754_nan => true | _ => false end.

Lemma SFcompare_key x y :
  SFcompare x y =
    if sf_is_nan x || sf_is_nan y then None else Some (key_compare (sf_key x) (sf_key y)).
Proof.
  destruct x as [sx|sx| |sx mx ex], y as [sy|sy| |sy my ey]; try done;
    try (destruct sx, sy; done); try (destruct sx; done); try (destruct sy; done).
  destruct sx, sy; simpl; try done.
  rewrite Z.compare_opp, (Z.compare_antisym ex ey). by destruct (ex ?= ey)%Z.
Qed.

Lemma key_compare_lt_trans a b c :
  key_compare a b ≠ Gt → key_compare b c ≠ Gt → key_compare a c ≠ Gt.
Proof.
  destruct a as [[a1 a2] a3], b as [[b1 b2] b3], c as [[c1 c2] c3]. unfold key_compare.
  repeat match goal with
  | |- context [Z.compare ?x ?y] => destruct (Z.compare_spec x y)
  end; subst; try done; lia.
Qed.

Lemma key_compare_refl a : key_compare a a = Eq.
Proof. destruct a as [[a b] c]. unfold key_compare. by rewrite !Z.compare_refl. Qed.

Lemma key_compare_antisym a b : key_compare b a = CompOpp (key_compare a b).
Proof.
  destruct a as [[a1 a2] a3], b as [[b1 b2] b3]. unfold key_compare.
  rewrite (Z.compare_antisym a1 b1), (Z.compare_antisym a2 b2), (Z.compare_antisym a3 b3).
  by destruct (a1 ?= b1)%Z, (a2 ?= b2)%Z, (a3 ?= b3)%Z.
Qed.

Lemma float_nan_key x : PrimFloat.is_nan x = sf_is_nan (Prim2SF x).
Proof.
  unfold PrimFloat.is_nan. rewrite FloatAxioms.eqb_spec. unfold SFeqb. rewrite SFcompare_key.
  destruct (Prim2SF x) as [s|s| |s m e]; try done; simpl.
  - by destruct s.
  - destruct s; by rewrite key_compare_refl.
Qed.

Lemma float_leb_key x y :
  PrimFloat.leb x y = true ↔
    PrimFloat.is_nan x = false ∧ PrimFloat.is_nan y = false
    ∧ key_compare (sf_key (Prim2SF x)) (sf_key (Prim2SF y)) ≠ Gt.
Proof.
  rewrite FloatAxioms.leb_spec, !float_nan_key. unfold SFleb. rewrite SFcompare_key.
  destruct (sf_is_nan (Prim2SF x)), (sf_is_nan (Prim2SF y)); simpl; try naive_solver.
  destruct (key_compare _ _); naive_solver.
Qed.

Lemma float_ltb_key x y :
  PrimFloat.ltb x y = true ↔
    PrimFloat.is_nan x = false ∧ PrimFloat.is_nan y = false
    ∧ key_compare (sf_key (Prim2SF x)) (sf_key (Prim2SF y)) = Lt.
Proof.
  rewrite FloatAxioms.ltb_spec, !float_nan_key. unfold SFltb. rewrite SFcompare_key.
  destruct (sf_is_nan (Prim2SF x)), (sf_is_nan (Prim2SF y)); simpl; try naive_solver.
  destruct (key_compare _ _); naive_solver.
Qed.

(** Rounding a non-negative mantissa never produces NaN. *)
Lemma shr_1_nonneg mrs : (0 <= shr_m mrs)%Z → (0 <= shr_m (shr_1 mrs))%Z.
Proof. destruct mrs as [[|[]|[]] r s]; simpl; lia. Qed.

Lemma iter_pos_inv {A} (P : A → Prop) (f : A → A) (n : positive) (a : A) :
  (∀ a, P a → P (f a)) → P a → P (SpecFloat.iter_pos f n a).
Proof. intros Hf. revert a. induction n; simpl; eauto. Qed.

Lemma shr_nonneg mrs e n : (0 <= shr_m mrs)%Z → (0 <= shr_m (shr mrs e n).1)%Z.
Proof.
  intros Hm. unfold shr. destruct n; simpl; try done.
  by apply (iter_pos_inv (λ r, (0 <= shr_m r)%Z)); [apply shr_1_nonneg|].
Qed.

Lemma round_nearest_even_nonneg m l : (0 <= m)%Z → (0 <= round_nearest_even m l)%Z.
Proof. destruct l as [|[]]; simpl; try case_if; lia. Qed.

Lemma binary_round_aux_not_nan prec emax s m e l :
  (0 <= m)%Z → sf_is_nan (binary_round_aux prec emax s m e l) = false.
Proof.
  intros Hm. unfold binary_round_aux, shr_fexp.
  destruct (shr _ _ _) as [mrs e'] eqn:E1.
  assert (0 <= shr_m mrs)%Z as H1.
  { change mrs with ((mrs, e').1). rewrite <-E1. apply shr_nonneg.
    by destruct l as [|[]]. }
  destruct (shr (shr_record_of_loc _ loc_Exact) _ _) as [mrs2 e2] eqn:E2.
  assert (0 <= shr_m mrs2)%Z as H2.
  { change mrs2 with ((mrs2, e2).1). rewrite <-E2. apply shr_nonneg. simpl.
    by apply round_nearest_even_nonneg. }
  destruct (shr_m mrs2); [done| |lia]. by case_if.
Qed.

Lemma binary_normalize_not_nan prec emax m e b :
  sf_is_nan (binary_normalize prec emax m e b) = false.
Proof.
  destruct m; simpl; [done|unfold binary_round..];
    destruct (shl_align _ _ _); by apply binary_round_aux_not_nan.
Qed.

Lemma float_ofZ_ok z : (Z.abs z < 2 ^ 62)%Z → PrimFloat.is_nan (float_ofZ z) = false.
Proof.
  intros Hz. rewrite float_nan_key. unfold float_ofZ.
  rewrite (proj2 (Z.ltb_lt _ _) Hz). case_if.
  - rewrite FloatAxioms.opp_spec, FloatAxioms.of_uint63_spec.
    destruct (binary_normalize _ _ _ _ _) eqn:E; try done.
    pose proof (binary_normalize_not_nan FloatOps.prec FloatOps.emax
      (Uint63.to_Z (Uint63.of_Z (Z.abs z))) 0 false) as Hn. by rewrite E in Hn.
  - rewrite FloatAxioms.of_uint63_spec. apply binary_normalize_not_nan.
Qed.

#[export] Instance num_order_float : NumOrder float.
Proof.
  split; simpl; intros *.
  - intros Hx. apply float_leb_key. split_and!; [done..|].
    by rewrite key_compare_refl.
  - rewrite !float_leb_key. intros (?&?&?) (?&?&?). split_and!; [done..|].
    by eapply key_compare_lt_trans.
  - intros Hx Hy. rewrite !float_leb_key.
    rewrite (key_compare_antisym (sf_key (Prim2SF x))).
    destruct (key_compare _ _); simpl; naive_solver.
  - rewrite <-not_true_iff_false, float_ltb_key, !float_leb_key.
    rewrite (key_compare_antisym (sf_key (Prim2SF x))).
    destruct (key_compare _ _); simpl; naive_solver.
  - rewrite float_leb_key. naive_solver.
  - apply float_ofZ_ok.
Qed.
