(* ===== verification/FloatRound.v ===== *)
(** * Rounding of binary64

    The value of a float as an integer multiple of [2^-2200] ([fv]; infinities
    are [±2^1024]), the IEEE rounding of such an integer to nearest, ties to even
    ([rnd]), and the theorems that the kernel's operations are the exact
    operations followed by [rnd].  Monotonicity of the operations, the sign of a
    difference and range bounds computed at the end points follow. *)

From S2P Require Export JsNumber.

Local Open Scope Z_scope.

(** ** The grid *)
Definition U : Z := 2200.
Definition g0 : Z := 1126.   (* exponent of the smallest float, on the grid *)
Definition INF : Z := 2 ^ 3224.
#[local] Opaque U g0 INF.
#[local] Arguments Z.pow : simpl never.

Lemma U_val : U = 2200. Proof. reflexivity. Qed.
Lemma g0_val : g0 = 1126. Proof. reflexivity. Qed.
Lemma INF_val : INF = 2 ^ 3224. Proof. reflexivity. Qed.

(** ** Rounding to nearest even *)
Definition dig (v : Z) : Z := Z.log2 v + 1.
Definition ex (v : Z) : Z := Z.max (dig v - 53) g0.
Definition rne (v k : Z) : Z :=
  let q := v / 2 ^ k in
  match 2 * (v mod 2 ^ k) ?= 2 ^ k with
  | Lt => q
  | Eq => if Z.even q then q else q + 1
  | Gt => q + 1
  end.
Definition rndp (v : Z) : Z := Z.min (rne v (ex v) * 2 ^ ex v) INF.
Definition rnd (v : Z) : Z := if v <? 0 then - rndp (- v) else rndp v.

Lemma pow_pos k : 0 < 2 ^ k ∨ k < 0.
Proof. destruct (decide (k < 0)); [by right|left]. apply Z.pow_pos_nonneg; lia. Qed.

Lemma pow_gt0 k : 0 ≤ k → 0 < 2 ^ k.
Proof. intros. apply Z.pow_pos_nonneg; lia. Qed.

Lemma ex_ge v : g0 ≤ ex v.
Proof. unfold ex. lia. Qed.
Lemma ex_nonneg v : 0 ≤ ex v.
Proof. pose proof (ex_ge v). rewrite g0_val in *. lia. Qed.

Lemma dig_bound v : 0 < v → 2 ^ (dig v - 1) ≤ v < 2 ^ dig v.
Proof.
  intros Hv. unfold dig. pose proof (Z.log2_spec v Hv).
  replace (Z.log2 v + 1 - 1) with (Z.log2 v) by lia.
  by replace (Z.log2 v + 1) with (Z.succ (Z.log2 v)) by lia.
Qed.

Lemma dig_mono v w : v ≤ w → dig v ≤ dig w.
Proof. intros. unfold dig. pose proof (Z.log2_le_mono v w). lia. Qed.
Lemma ex_mono v w : v ≤ w → ex v ≤ ex w.
Proof. intros H%dig_mono. unfold ex. lia. Qed.

Lemma rne_cases v k : rne v k = v / 2 ^ k ∨ rne v k = v / 2 ^ k + 1.
Proof. unfold rne. destruct (_ ?= _); [case_if|..]; auto. Qed.

Lemma rne_nonneg v k : 0 ≤ v → 0 ≤ k → 0 ≤ rne v k.
Proof.
  intros Hv Hk. pose proof (Z.div_pos v (2 ^ k) Hv (pow_gt0 k Hk)).
  destruct (rne_cases v k) as [-> | ->]; lia.
Qed.

Lemma rne_mono v w k : 0 ≤ v ≤ w → 0 ≤ k → rne v k ≤ rne w k.
Proof.
  intros Hvw Hk. pose proof (pow_gt0 k Hk) as Hp.
  pose proof (Z.div_le_mono v w (2 ^ k) Hp ltac:(lia)) as Hq.
  destruct (decide (v / 2 ^ k = w / 2 ^ k)) as [Heq|Hne].
  - pose proof (Z.div_mod v (2 ^ k) ltac:(lia)). pose proof (Z.div_mod w (2 ^ k) ltac:(lia)).
    unfold rne. rewrite <-Heq in *.
    destruct (Z.compare_spec (2 * (v mod 2 ^ k)) (2 ^ k));
      destruct (Z.compare_spec (2 * (w mod 2 ^ k)) (2 ^ k)); try case_if; lia.
  - destruct (rne_cases v k), (rne_cases w k); lia.
Qed.

(** A mantissa has at most 53 bits after rounding, or is [2^53]. *)
Lemma rne_ub v : 0 < v → rne v (ex v) ≤ 2 ^ 53.
Proof.
  intros Hv. pose proof (ex_nonneg v) as He. destruct (dig_bound v Hv) as [_ Hub].
  assert (v / 2 ^ ex v < 2 ^ 53).
  { apply Z.div_lt_upper_bound; [by apply pow_gt0|]. rewrite <-Z.pow_add_r by lia.
    eapply Z.lt_le_trans; [done|]. apply Z.pow_le_mono_r; [lia|]. unfold ex. lia. }
  destruct (rne_cases v (ex v)); lia.
Qed.

Lemma rne_lb v : 0 < v → g0 < ex v → 2 ^ 52 ≤ rne v (ex v).
Proof.
  intros Hv Hex. pose proof (ex_nonneg v) as He. destruct (dig_bound v Hv) as [Hlb _].
  assert (2 ^ 52 ≤ v / 2 ^ ex v).
  { apply Z.div_le_lower_bound; [by apply pow_gt0|]. rewrite <-Z.pow_add_r by lia.
    replace (ex v + 52) with (dig v - 1) by (unfold ex in *; lia). done. }
  destruct (rne_cases v (ex v)); lia.
Qed.

Lemma rndp_mono v w : 0 < v ≤ w → rndp v ≤ rndp w.
Proof.
  intros Hvw. unfold rndp. pose proof (ex_mono v w ltac:(lia)) as Hex.
  pose proof (ex_nonneg v). apply Z.min_le_compat_r.
  destruct (decide (ex v = ex w)) as [Heq|Hne].
  - rewrite Heq. apply Z.mul_le_mono_nonneg_r.
    + apply Z.lt_le_incl, pow_gt0. lia.
    + apply rne_mono; lia.
  - transitivity (2 ^ 53 * 2 ^ ex v).
    { apply Z.mul_le_mono_nonneg_r; [apply Z.lt_le_incl, pow_gt0; lia|].
      apply rne_ub. lia. }
    transitivity (2 ^ 52 * 2 ^ ex w).
    { rewrite <-!Z.pow_add_r by lia. apply Z.pow_le_mono_r; lia. }
    apply Z.mul_le_mono_nonneg_r; [apply Z.lt_le_incl, pow_gt0; lia|].
    apply rne_lb; [lia|]. pose proof (ex_ge v). lia.
Qed.

Lemma INF_pos : 0 < INF.
Proof. rewrite INF_val. by apply pow_gt0. Qed.

Lemma rndp_0 : rndp 0 = 0.
Proof.
  unfold rndp, rne. rewrite Z.div_0_l, Z.mod_0_l by (pose proof (pow_gt0 _ (ex_nonneg 0)); lia).
  pose proof (pow_gt0 _ (ex_nonneg 0)). rewrite (proj2 (Z.compare_lt_iff _ _)) by lia.
  pose proof INF_pos. lia.
Qed.
Lemma rndp_nonneg v : 0 ≤ v → 0 ≤ rndp v.
Proof.
  intros Hv. unfold rndp. pose proof INF_pos.
  pose proof (rne_nonneg v (ex v) Hv (ex_nonneg v)). pose proof (pow_gt0 _ (ex_nonneg v)). nia.
Qed.

Lemma rnd_0 : rnd 0 = 0.
Proof. unfold rnd. simpl. apply rndp_0. Qed.
Lemma rnd_opp v : rnd (- v) = - rnd v.
Proof.
  unfold rnd. destruct (decide (v = 0)) as [->|]; [simpl; rewrite rndp_0; done|].
  destruct (v <? 0) eqn:E1, (- v <? 0) eqn:E2; bool_to_prop; try lia.
  - by rewrite Z.opp_involutive.
Qed.
Lemma rnd_nonneg v : 0 ≤ v → 0 ≤ rnd v.
Proof.
  intros Hv. unfold rnd. rewrite (proj2 (Z.ltb_ge _ _) Hv). by apply rndp_nonneg.
Qed.

Lemma rnd_mono v w : v ≤ w → rnd v ≤ rnd w.
Proof.
  intros Hvw. assert (∀ a b, 0 ≤ a ≤ b → rnd a ≤ rnd b) as Hpos.
  { intros a b Hab. destruct (decide (a = 0)) as [->|].
    - rewrite rnd_0. apply rnd_nonneg. lia.
    - unfold rnd. rewrite !(proj2 (Z.ltb_ge _ 0)) by lia. apply rndp_mono. lia. }
  destruct (decide (0 ≤ v)); [apply Hpos; lia|].
  destruct (decide (w ≤ 0)).
  - rewrite <-(Z.opp_involutive v), <-(Z.opp_involutive w), (rnd_opp (- v)), (rnd_opp (- w)).
    pose proof (Hpos (- w) (- v)). lia.
  - rewrite <-(Z.opp_involutive v), rnd_opp.
    pose proof (rnd_nonneg (- v)). pose proof (rnd_nonneg w). lia.
Qed.

#[local] Arguments rnd : simpl never.
#[local] Arguments rndp : simpl never.

(** ** Representable values are fixed points *)
Definition repr (v : Z) : Prop :=
  ∃ m k, v = m * 2 ^ k ∧ 0 ≤ m < 2 ^ 53 ∧ g0 ≤ k ∧ v < INF.

Lemma rndp_repr v : repr v → rndp v = v.
Proof.
  intros (m & k & Hv & Hm & Hk & Hinf).
  destruct (decide (m = 0)) as [->|Hm0]; [rewrite Hv, Z.mul_0_l; apply rndp_0|].
  assert (0 ≤ k) as Hk0 by (rewrite g0_val in *; lia).
  pose proof (pow_gt0 k Hk0). assert (0 < v) as Hv0 by nia.
  assert (ex v ≤ k) as Hex.
  { destruct (decide (k < dig v - 53)); [|unfold ex; lia].
    destruct (dig_bound v Hv0) as [Hlb _].
    assert (2 ^ (53 + k) ≤ v) by (etrans; [|done]; apply Z.pow_le_mono_r; lia).
    rewrite Z.pow_add_r in * by lia. nia. }
  pose proof (ex_nonneg v) as He. pose proof (pow_gt0 _ He) as Hpe.
  assert (v = (m * 2 ^ (k - ex v)) * 2 ^ ex v) as Hv'.
  { rewrite <-Z.mul_assoc, <-Z.pow_add_r by lia. by rewrite Z.sub_add. }
  assert (rne v (ex v) = v / 2 ^ ex v) as Hr.
  { unfold rne. rewrite Hv' at 1. rewrite Z.mod_mul by lia.
    rewrite (proj2 (Z.compare_lt_iff _ _)) by lia. done. }
  unfold rndp. rewrite Hr. replace (v / 2 ^ ex v * 2 ^ ex v) with v; [lia|].
  rewrite Hv' at 2. rewrite Z.div_mul by lia. done.
Qed.

Lemma rndp_INF v : INF ≤ v → rndp v = INF.
Proof.
  intros Hv. pose proof INF_pos as Hi.
  assert (INF ≤ rndp INF) as H1.
  { unfold rndp. assert (rne INF (ex INF) * 2 ^ ex INF = INF) as ->; [|lia].
    assert (ex INF = 3172) as ->.
    { unfold ex, dig. rewrite INF_val, g0_val, Z.log2_pow2; lia. }
    unfold rne. rewrite INF_val. replace 3224 with (52 + 3172) by done.
    rewrite Z.pow_add_r, Z.mod_mul, Z.div_mul by lia.
    rewrite (proj2 (Z.compare_lt_iff _ _)); [done|].
    pose proof (pow_gt0 3172). lia. }
  pose proof (rndp_mono INF v ltac:(lia)). unfold rndp in *. lia.
Qed.

(** ** The value of a float on the grid *)
Definition sgn (s : bool) (v : Z) : Z := if s then - v else v.
Definition sfv (x : spec_float) : Z :=
  match x with
  | S754_zero _ | S754_nan => 0
  | S754_infinity s => sgn s INF
  | S754_finite s m e => sgn s (Zpos m * 2 ^ (e + U))
  end.
Definition fv (x : float) : Z := sfv (Prim2SF x).
Definition sf_fin (x : spec_float) : bool :=
  match x with S754_zero _ | S754_finite _ _ _ => true | _ => false end.
Definition finite (x : float) : Prop := sf_fin (Prim2SF x) = true.
Abbreviation valid x := (SpecFloat.valid_binary FloatOps.prec FloatOps.emax x = true).
Abbreviation fexp64 := (SpecFloat.fexp FloatOps.prec FloatOps.emax).

Lemma fexp64_val d : fexp64 d = Z.max (d - 53) (-1074).
Proof. reflexivity. Qed.

Lemma digits2_dig m : Zpos (digits2_pos m) = dig (Zpos m).
Proof.
  unfold dig. induction m as [m IH|m IH|]; cbn [digits2_pos]; [| |done]; rewrite Pos2Z.inj_succ, IH.
  - change (Zpos m~1) with (2 * Zpos m + 1). rewrite Z.log2_succ_double by lia. lia.
  - change (Zpos m~0) with (2 * Zpos m). rewrite Z.log2_double by lia. lia.
Qed.

Lemma valid_finite s m e :
  valid (S754_finite s m e) ↔ e = Z.max (dig (Zpos m) + e - 53) (-1074) ∧ e ≤ 971.
Proof.
  simpl. unfold bounded, canonical_mantissa. rewrite andb_true_iff, Z.eqb_eq, Z.leb_le, fexp64_val.
  rewrite digits2_dig. change (FloatOps.emax - FloatOps.prec) with 971. intuition lia.
Qed.

Lemma valid_repr s m e : valid (S754_finite s m e) → repr (Zpos m * 2 ^ (e + U)).
Proof.
  intros [He Hmax]%valid_finite. exists (Zpos m), (e + U). rewrite U_val, g0_val in *.
  pose proof (dig_bound (Zpos m) ltac:(lia)) as [_ Hub].
  assert (Zpos m < 2 ^ 53).
  { eapply Z.lt_le_trans; [done|]. apply Z.pow_le_mono_r; lia. }
  split_and!; [done|lia|done|lia|].
  rewrite INF_val. pose proof (pow_gt0 (e + 2200) ltac:(lia)).
  apply (Z.lt_le_trans _ (2 ^ 53 * 2 ^ (e + 2200))); [nia|].
  rewrite <-Z.pow_add_r by lia. apply Z.pow_le_mono_r; lia.
Qed.

Lemma fv_repr x : finite x → repr (Z.abs (fv x)).
Proof.
  unfold finite, fv. pose proof (FloatAxioms.Prim2SF_valid x) as Hv.
  destruct (Prim2SF x) as [s|s| |s m e]; simpl in *; try done; intros _.
  - exists 0, g0. pose proof INF_pos. split_and!; lia.
  - apply (valid_repr s) in Hv.
    assert (0 ≤ Zpos m * 2 ^ (e + U)) as Hp.
    { destruct (pow_pos (e + U)) as [?|?]; [lia|]. rewrite Z.pow_neg_r by lia. lia. }
    destruct s; simpl; rewrite ?Z.abs_opp, Z.abs_eq by done; done.
Qed.

(** A float is its own rounding. *)
Lemma rnd_fv x : finite x → rnd (fv x) = fv x.
Proof.
  intros Hx%fv_repr. destruct (decide (fv x < 0)).
  - rewrite Z.abs_neq in Hx by lia. rewrite <-(Z.opp_involutive (fv x)), rnd_opp.
    unfold rnd. rewrite (proj2 (Z.ltb_ge _ 0)) by lia. by rewrite rndp_repr.
  - rewrite Z.abs_eq in Hx by lia. unfold rnd. rewrite (proj2 (Z.ltb_ge _ 0)) by lia.
    by apply rndp_repr.
Qed.

(** The order of the floats is the order of their values. *)
Lemma mant_lt m1 e1 m2 e2 s1 s2 :
  valid (S754_finite s1 m1 e1) → valid (S754_finite s2 m2 e2) → e1 < e2 →
  Zpos m1 * 2 ^ (e1 + U) < Zpos m2 * 2 ^ (e2 + U).
Proof.
  intros [H1 _]%valid_finite [H2 _]%valid_finite Hlt. rewrite U_val.
  pose proof (dig_bound (Zpos m1) ltac:(lia)) as [_ Hub].
  pose proof (dig_bound (Zpos m2) ltac:(lia)) as [Hlb _].
  pose proof (pow_gt0 (e1 + 2200) ltac:(lia)). pose proof (pow_gt0 (e2 + 2200) ltac:(lia)).
  apply (Z.lt_le_trans _ (2 ^ dig (Zpos m1) * 2 ^ (e1 + 2200))); [nia|].
  apply (Z.le_trans _ (2 ^ (dig (Zpos m2) - 1) * 2 ^ (e2 + 2200))); [|nia].
  assert (0 ≤ dig (Zpos m1)) by (unfold dig; pose proof (Z.log2_nonneg (Zpos m1)); lia).
  rewrite <-!Z.pow_add_r by lia. apply Z.pow_le_mono_r; lia.
Qed.

Lemma sfv_lt_INF s m e : valid (S754_finite s m e) → 0 < Zpos m * 2 ^ (e + U) < INF.
Proof.
  intros Hv. pose proof Hv as [He _]%valid_finite. destruct (valid_repr _ _ _ Hv) as (?&?&?&?&?&?).
  split; [|done]. rewrite U_val. pose proof (pow_gt0 (e + 2200) ltac:(lia)). lia.
Qed.

Lemma finite_compare sx mx e1 sy my e2 :
  valid (S754_finite sx mx e1) → valid (S754_finite sy my e2) →
  SFcompare (S754_finite sx mx e1) (S754_finite sy my e2)
    = Some (sgn sx (Zpos mx * 2 ^ (e1 + U)) ?= sgn sy (Zpos my * 2 ^ (e2 + U))).
Proof.
  intros Hx Hy. pose proof (sfv_lt_INF _ _ _ Hx). pose proof (sfv_lt_INF _ _ _ Hy).
  assert ((Zpos mx * 2 ^ (e1 + U) ?= Zpos my * 2 ^ (e2 + U))
          = match e1 ?= e2 with Eq => (Zpos mx ?= Zpos my) | c => c end) as Hpos.
  { destruct (Z.compare_spec e1 e2) as [<-|Hlt|Hlt].
    - symmetry. apply Zmult_compare_compat_r.
      apply valid_finite in Hx as [? _]. rewrite U_val. apply Z.lt_gt, pow_gt0. lia.
    - apply Z.compare_lt_iff. by eapply mant_lt.
    - apply Z.compare_gt_iff. by eapply mant_lt. }
  destruct sx, sy; cbn [sgn SFcompare]; f_equal.
  - rewrite <-Zcompare_opp, (Z.compare_antisym (Zpos mx * 2 ^ (e1 + U))), Hpos.
    by destruct (e1 ?= e2).
  - symmetry. apply Z.compare_lt_iff. lia.
  - symmetry. apply Z.compare_gt_iff. lia.
  - rewrite Hpos. by destruct (e1 ?= e2).
Qed.

Lemma sfv_compare x y :
  valid x → valid y → sf_is_nan x = false → sf_is_nan y = false →
  SFcompare x y = Some (sfv x ?= sfv y).
Proof.
  intros Hx Hy Hnx Hny. pose proof INF_pos as Hi.
  destruct x as [sx|sx| |sx mx ex'], y as [sy|sy| |sy my ey]; try done;
    try (apply finite_compare; done);
    try (pose proof (sfv_lt_INF _ _ _ Hx)); try (pose proof (sfv_lt_INF _ _ _ Hy));
    try destruct sx; try destruct sy; cbn [SFcompare sfv sgn]; f_equal; symmetry;
    first [apply Z.compare_eq_iff; lia | apply Z.compare_lt_iff; lia | apply Z.compare_gt_iff; lia].
Qed.

Lemma finite_not_nan x : finite x → nnan x = false.
Proof. unfold finite. simpl. rewrite float_nan_key. by destruct (Prim2SF x). Qed.
#[export] Hint Resolve finite_not_nan : js.

Lemma nltb_fv x y : nnan x = false → nnan y = false → nltb x y = (fv x <? fv y).
Proof.
  simpl. rewrite !float_nan_key, FloatAxioms.ltb_spec. intros. unfold SFltb, fv.
  rewrite sfv_compare by auto using FloatAxioms.Prim2SF_valid. unfold Z.ltb. by destruct (_ ?= _).
Qed.
Lemma nleb_fv x y : nnan x = false → nnan y = false → nleb x y = (fv x <=? fv y).
Proof.
  simpl. rewrite !float_nan_key, FloatAxioms.leb_spec. intros. unfold SFleb, fv.
  rewrite sfv_compare by auto using FloatAxioms.Prim2SF_valid. unfold Z.leb. by destruct (_ ?= _).
Qed.
Lemma neqb_fv x y : nnan x = false → nnan y = false → neqb x y = (fv x =? fv y).
Proof.
  simpl. rewrite !float_nan_key, FloatAxioms.eqb_spec. intros. unfold SFeqb, fv.
  rewrite sfv_compare by auto using FloatAxioms.Prim2SF_valid.
  destruct (Z.compare_spec (sfv (Prim2SF x)) (sfv (Prim2SF y))) as [E|E|E]; symmetry;
    [apply Z.eqb_eq|apply Z.eqb_neq..]; lia.
Qed.

Lemma finite_abs x : finite x → Z.abs (fv x) < INF.
Proof. intros (?&?&?&?&?&?)%fv_repr. done. Qed.
Lemma finite_iff x : nnan x = false → finite x ↔ - INF < fv x < INF.
Proof.
  intros Hn. split; [intros ?%finite_abs; lia|]. simpl in Hn. rewrite float_nan_key in Hn.
  unfold finite, fv. destruct (Prim2SF x) as [s|s| |s m e]; try done. destruct s; simpl; lia.
Qed.

(** ** The kernel's rounding is [rnd] *)
Lemma iter_pos_count {A} (P : Z → A → Prop) (f : A → A) p n a :
  (∀ n a, 0 ≤ n → P n a → P (n + 1) (f a)) → 0 ≤ n → P n a →
  P (n + Zpos p) (SpecFloat.iter_pos f p a).
Proof.
  intros Hf. revert n a. induction p as [p IH|p IH|]; intros n a Hn Ha; simpl.
  - replace (n + Zpos p~1) with (n + 1 + Zpos p + Zpos p) by lia.
    apply IH; [lia|]. apply IH; [lia|]. by apply Hf.
  - replace (n + Zpos p~0) with (n + Zpos p + Zpos p) by lia.
    apply IH; [lia|]. by apply IH.
  - by apply Hf.
Qed.

(** [n] shifts of [m0]: quotient, and the remainder by its round and sticky bits. *)
Definition shifted (m0 n : Z) (r : shr_record) : Prop :=
  0 ≤ shr_m r ∧ ∃ rem, m0 = shr_m r * 2 ^ n + rem ∧ 0 ≤ rem < 2 ^ n ∧
    match shr_r r, shr_s r with
    | false, false => rem = 0
    | false, true => 0 < 2 * rem < 2 ^ n
    | true, false => 2 * rem = 2 ^ n
    | true, true => 2 ^ n < 2 * rem
    end.

Lemma shr_1_eq r :
  0 ≤ shr_m r →
  shr_m (shr_1 r) = shr_m r / 2 ∧ shr_r (shr_1 r) = Z.odd (shr_m r)
  ∧ shr_s (shr_1 r) = shr_r r || shr_s r.
Proof.
  destruct r as [[|[p|p|]|p] rr ss]; simpl; intros H; try lia; split_and!; try done.
  - apply (Z.div_unique _ 2 _ 1); lia.
  - apply (Z.div_unique _ 2 _ 0); lia.
Qed.

Lemma shifted_step m0 n r : 0 ≤ n → shifted m0 n r → shifted m0 (n + 1) (shr_1 r).
Proof.
  intros Hn (Hm & rem & Heq & Hrem & Hbits).
  destruct (shr_1_eq r Hm) as (Em & Er & Es). unfold shifted. rewrite Em, Er, Es.
  pose proof (pow_gt0 n Hn). rewrite Z.pow_add_r, Z.pow_1_r by lia.
  pose proof (Z.div2_odd (shr_m r)) as Hodd. rewrite Z.div2_div in Hodd.
  assert (shr_r r || shr_s r = negb (rem =? 0)) as ->.
  { destruct (shr_r r), (shr_s r); simpl; destruct (Z.eqb_spec rem 0); simpl; lia. }
  split; [apply Z.div_pos; lia|].
  exists (rem + Z.b2z (Z.odd (shr_m r)) * 2 ^ n).
  destruct (Z.odd (shr_m r)); cbn [Z.b2z] in *;
    (split_and!; [rewrite Heq, Hodd at 1; ring|lia|lia|]);
    destruct (Z.eqb_spec rem 0); simpl; lia.
Qed.

Lemma shifted_0 m0 : 0 ≤ m0 → shifted m0 0 (Build_shr_record m0 false false).
Proof. intros. split; [done|]. exists 0. simpl. rewrite Z.pow_0_r. lia. Qed.

Lemma shifted_shr m0 k r e n :
  0 ≤ k → 0 ≤ n → shifted m0 k r →
  shifted m0 (k + n) (shr r e n).1 ∧ (shr r e n).2 = e + n.
Proof.
  intros Hk Hn Hr. destruct n as [|p|p]; [| |lia]; simpl.
  - rewrite Z.add_0_r. split; [done|lia].
  - split; [|done]. apply (iter_pos_count (shifted m0)); [apply shifted_step|lia|done].
Qed.

Lemma shifted_round m0 n r :
  0 ≤ n → shifted m0 n r →
  shr_m r = m0 / 2 ^ n ∧ round_nearest_even (shr_m r) (loc_of_shr_record r) = rne m0 n.
Proof.
  intros Hn (Hm & rem & Heq & Hrem & Hbits). pose proof (pow_gt0 n Hn).
  assert (m0 / 2 ^ n = shr_m r) as Hq.
  { rewrite Heq, Z.div_add_l, Z.div_small by lia. lia. }
  assert (m0 mod 2 ^ n = rem) as Hr.
  { rewrite Heq, Z.add_comm, Z.mod_add, Z.mod_small; lia. }
  split; [done|]. unfold rne. rewrite Hq, Hr.
  destruct r as [m [] []]; simpl in *;
    destruct (Z.compare_spec (2 * rem) (2 ^ n)); try lia; done.
Qed.

Lemma shr_nonpos r e n : n ≤ 0 → shr r e n = (r, e).
Proof. by destruct n. Qed.

Lemma zdigits2_dig m : 0 < m → Zdigits2 m = dig m.
Proof. intros. destruct m as [|m|m]; [lia| |lia]. apply digits2_dig. Qed.

(** The normalisation after rounding: only [2^53] moves to the next exponent. *)
Lemma second_shift M E :
  0 ≤ M ≤ 2 ^ 53 → -1074 ≤ E →
  let '(r, e) := shr_fexp FloatOps.prec FloatOps.emax M E loc_Exact in
  0 ≤ shr_m r ≤ M ∧ shr_m r < 2 ^ 53 ∧ E ≤ e ∧ shr_m r * 2 ^ (e - E) = M
  ∧ (e = E ∨ e = E + 1 ∧ shr_m r = 2 ^ 52).
Proof.
  intros HM HE. unfold shr_fexp. cbn [shr_record_of_loc]. rewrite fexp64_val.
  destruct (decide (M = 2 ^ 53)) as [->|Hne].
  - assert (Z.max (Zdigits2 (2 ^ 53) + E - 53) (-1074) - E = 1) as ->.
    { rewrite zdigits2_dig by done. unfold dig. rewrite Z.log2_pow2 by done. lia. }
    destruct (shifted_shr (2 ^ 53) 0 _ E 1 ltac:(done) ltac:(done) (shifted_0 (2 ^ 53) ltac:(done))) as [Hs He].
    destruct (shr _ E 1) as [r e]. simpl in *. subst e.
    destruct (shifted_round _ 1 _ ltac:(done) Hs) as [-> _].
    replace (E + 1 - E) with 1 by lia. split_and!; try done; try lia.
    by right.
  - rewrite shr_nonpos.
    + simpl. rewrite Z.sub_diag, Z.pow_0_r. lia.
    + destruct (decide (M = 0)) as [->|]; [simpl; lia|].
      rewrite zdigits2_dig by lia. pose proof (dig_bound M ltac:(lia)) as [Hlb _].
      assert (dig M - 1 < 53); [|lia].
      apply (Z.pow_lt_mono_r_iff 2); [lia..|]. lia.
Qed.

Lemma dig_shift m k : 0 < m → 0 ≤ k → dig (m * 2 ^ k) = dig m + k.
Proof. intros. unfold dig. rewrite Z.log2_mul_pow2 by lia. lia. Qed.

Lemma rne_shift m k n : 0 ≤ k → 0 ≤ n → rne (m * 2 ^ k) (n + k) = rne m n.
Proof.
  intros Hk Hn. pose proof (pow_gt0 k Hk). pose proof (pow_gt0 n Hn). unfold rne.
  rewrite Z.pow_add_r, Z.div_mul_cancel_r, Z.mul_mod_distr_r by lia.
  rewrite Z.mul_assoc, <-Zmult_compare_compat_r by lia. done.
Qed.

Lemma digits_bound m : 0 ≤ m → 0 ≤ Zdigits2 m ∧ m < 2 ^ Zdigits2 m ∧ (0 < m → 2 ^ (Zdigits2 m - 1) ≤ m).
Proof.
  intros Hm. destruct (decide (m = 0)) as [->|]; [split_and!; done|].
  rewrite zdigits2_dig by lia. pose proof (dig_bound m ltac:(lia)). unfold dig in *.
  pose proof (Z.log2_nonneg m). lia.
Qed.

(** The exponent the kernel rounds to is the one of [rnd]. *)
Lemma ex_of_digits m e k m0 :
  0 ≤ m → 0 ≤ k → m * 2 ^ k ≤ m0 < (m + 1) * 2 ^ k → k - U ≤ e →
  e ≤ Z.max (Zdigits2 m + e - 53) (-1074) →
  ex (m0 * 2 ^ (e - k + U)) = Z.max (Zdigits2 m + e - 53) (-1074) + U.
Proof.
  intros Hm Hk Hm0 He Hx. rewrite U_val in *. pose proof (pow_gt0 k Hk).
  destruct (decide (m = 0)) as [->|].
  - change (Zdigits2 0) with 0 in *. unfold ex. rewrite g0_val.
    destruct (decide (m0 = 0)) as [->|]; [unfold dig; simpl; lia|].
    rewrite dig_shift by lia. unfold dig. pose proof (Z.log2_lt_pow2 m0 k ltac:(lia)). lia.
  - rewrite zdigits2_dig by lia. unfold ex. rewrite g0_val, dig_shift by nia.
    assert (dig m0 = dig m + k) as ->; [|lia].
    pose proof (dig_bound m ltac:(lia)) as [Hlb Hub]. unfold dig in *.
    rewrite (Z.log2_unique m0 (Z.log2 m + k)); [lia| |].
    + pose proof (Z.log2_nonneg m). lia.
    + pose proof (Z.log2_nonneg m). rewrite <-Z.add_succ_l, !Z.pow_add_r by lia.
      replace (Z.log2 m + 1 - 1) with (Z.log2 m) in Hlb by lia.
      replace (Z.log2 m + 1) with (Z.succ (Z.log2 m)) in Hub by lia. nia.
Qed.

Lemma shifted_range m0 k r : 0 ≤ k → shifted m0 k r → shr_m r * 2 ^ k ≤ m0 < (shr_m r + 1) * 2 ^ k.
Proof. intros Hk (_ & rem & -> & ? & _). lia. Qed.

Lemma rne_range m0 j k :
  0 ≤ m0 → 0 ≤ j → 0 ≤ k → ex (m0 * 2 ^ j) = k + j →
  0 ≤ rne m0 k ≤ 2 ^ 53 ∧ (g0 < k + j → 2 ^ 52 ≤ rne m0 k).
Proof.
  intros Hm Hj Hk Hex. pose proof (pow_gt0 j Hj).
  destruct (decide (m0 = 0)) as [->|].
  - assert (rne 0 k = 0) as ->; [|split; [lia|]].
    { unfold rne. rewrite Zmod_0_l, Zdiv_0_l. pose proof (pow_gt0 k Hk).
      destruct (Z.compare_spec (2 * 0) (2 ^ k)); [lia|done|lia]. }
    intros. rewrite Z.mul_0_l in Hex. unfold ex, dig in Hex. rewrite g0_val in *. simpl in Hex. lia.
  - rewrite <-(rne_shift m0 j k), <-Hex by lia. split; [split|].
    + apply rne_nonneg; [nia|apply ex_nonneg].
    + apply rne_ub. nia.
    + apply rne_lb. nia.
Qed.

(** [m] with the location [l] of what was cut off stands for [m0 / 2 ^ k]. *)
Lemma round_aux_loc s m e l m0 k :
  0 ≤ k → shr_m (shr_record_of_loc m l) = m → shifted m0 k (shr_record_of_loc m l) → k - U ≤ e →
  e ≤ Z.max (Zdigits2 m + e - 53) (-1074) →
  sfv (binary_round_aux FloatOps.prec FloatOps.emax s m e l) = sgn s (rndp (m0 * 2 ^ (e - k + U))).
Proof.
  intros Hk Em Hsh HU He. pose proof (shifted_range _ _ _ Hk Hsh) as Hm0. pose proof (proj1 Hsh) as Hm.
  rewrite Em in Hm0, Hm. pose proof (pow_gt0 k Hk).
  pose proof (ex_of_digits m e k m0 Hm Hk Hm0 HU He) as Hex. rewrite U_val in *. unfold binary_round_aux.
  set (E := Z.max (Zdigits2 m + e - 53) (-1074)) in *. set (n := E - e).
  unfold shr_fexp at 1. rewrite fexp64_val. fold E. fold n.
  destruct (shifted_shr m0 k _ e n Hk ltac:(lia) Hsh) as [Hs He'].
  destruct (shr _ e n) as [r1 e1]. cbn [fst snd] in *. subst e1. replace (e + n) with E by lia.
  destruct (shifted_round _ (k + n) _ ltac:(lia) Hs) as [_ ->].
  replace (E + 2200) with (k + n + (e - k + 2200)) in Hex by lia.
  destruct (rne_range m0 (e - k + 2200) (k + n) ltac:(nia) ltac:(lia) ltac:(lia) Hex) as [HM HM52].
  assert (rndp (m0 * 2 ^ (e - k + 2200)) = Z.min (rne m0 (k + n) * 2 ^ (E + 2200)) INF) as Hr.
  { unfold rndp. rewrite Hex, rne_shift by lia. do 3 f_equal. lia. }
  set (M := rne m0 (k + n)) in *. pose proof (second_shift M E HM ltac:(lia)) as H2.
  destruct (shr_fexp _ _ M E loc_Exact) as [r2 e2].
  destruct H2 as (Hr2 & Hr53 & HE2 & Hval & Hcase). rewrite Hr, <-Hval.
  rewrite <-Z.mul_assoc, <-Z.pow_add_r by lia. replace (e2 - E + (E + 2200)) with (e2 + 2200) by lia.
  pose proof INF_pos as Hi. change (FloatOps.emax - FloatOps.prec) with 971.
  destruct (shr_m r2) as [|p|p] eqn:Ep; [simpl; destruct s; simpl; lia| |lia].
  pose proof (pow_gt0 (e2 + 2200) ltac:(lia)) as Hpe. case_if; bool_to_prop; simpl; f_equal.
  - rewrite U_val, Z.min_l; [done|]. rewrite INF_val.
    apply (Z.le_trans _ (2 ^ 53 * 2 ^ (e2 + 2200))); [nia|].
    rewrite <-Z.pow_add_r by lia. apply Z.pow_le_mono_r; lia.
  - rewrite Z.min_r; [done|]. rewrite INF_val.
    assert (2 ^ 52 ≤ Zpos p).
    { destruct Hcase as [He2|[_ He2]]; [|lia].
      replace (Zpos p) with M; [apply HM52; rewrite g0_val; lia|].
      rewrite <-Hval, He2, Z.sub_diag, Z.pow_0_r. lia. }
    apply (Z.le_trans _ (2 ^ 52 * 2 ^ (e2 + 2200))); [|nia].
    rewrite <-Z.pow_add_r by lia. apply Z.pow_le_mono_r; lia.
Qed.

Lemma round_aux_fv s m e :
  0 < m → - U ≤ e → e ≤ Z.max (dig m + e - 53) (-1074) →
  sfv (binary_round_aux FloatOps.prec FloatOps.emax s m e loc_Exact) = sgn s (rndp (m * 2 ^ (e + U))).
Proof.
  intros Hm HU He. rewrite (round_aux_loc s m e loc_Exact m 0), Z.sub_0_r; try done; try lia.
  - apply shifted_0. lia.
  - by rewrite zdigits2_dig.
Qed.

Lemma pos_iter_xO m d : Zpos (Pos.iter xO m d) = Zpos m * 2 ^ Zpos d.
Proof.
  revert m. induction d as [|d IH] using Pos.peano_ind; intros m; [simpl; lia|].
  rewrite Pos.iter_succ, Pos2Z.inj_succ, Z.pow_succ_r by lia.
  rewrite Pos2Z.inj_xO, IH. lia.
Qed.

Lemma shl_align_spec m e e' :
  let '(m', e1) := shl_align m e e' in
  Zpos m' = Zpos m * 2 ^ (e - e1) ∧ e1 = Z.min e e'.
Proof.
  unfold shl_align. destruct (e' - e) as [|d|d] eqn:E; rewrite ?Z.sub_diag, ?Z.pow_0_r.
  - lia.
  - lia.
  - rewrite pos_iter_xO. split; [|lia]. do 2 f_equal. lia.
Qed.

Lemma binary_round_fv s m e :
  -1074 ≤ e →
  sfv (binary_round FloatOps.prec FloatOps.emax s m e) = sgn s (rndp (Zpos m * 2 ^ (e + U))).
Proof.
  intros He. unfold binary_round. rewrite fexp64_val, digits2_dig.
  set (f := Z.max _ _). pose proof (shl_align_spec m e f) as Hs.
  destruct (shl_align m e f) as [m' e'], Hs as [Hm He'].
  assert (0 ≤ e - e') by lia. rewrite round_aux_fv.
  - rewrite Hm, <-Z.mul_assoc, <-Z.pow_add_r by (rewrite ?U_val; lia). do 4 f_equal. lia.
  - lia.
  - rewrite U_val. lia.
  - rewrite Hm, dig_shift by lia. lia.
Qed.

Lemma binary_normalize_fv m e b :
  -1074 ≤ e →
  sfv (binary_normalize FloatOps.prec FloatOps.emax m e b) = rnd (m * 2 ^ (e + U)).
Proof.
  intros He. pose proof (pow_gt0 (e + U) ltac:(rewrite U_val; lia)) as Hp.
  destruct m as [|m|m]; simpl; [by rewrite Z.mul_0_l, rnd_0|..]; rewrite binary_round_fv by done;
    simpl; unfold rnd.
  - rewrite (proj2 (Z.ltb_ge _ _)) by lia. done.
  - rewrite (proj2 (Z.ltb_lt _ _)) by lia. do 2 f_equal. lia.
Qed.

(** ** The operations *)
Lemma valid_emin s m e : valid (S754_finite s m e) → -1074 ≤ e.
Proof. intros [H _]%valid_finite. lia. Qed.

Lemma cond_Zopp_sgn s v : cond_Zopp s v = sgn s v.
Proof. done. Qed.

Lemma SFadd_fv x y :
  valid x → valid y → sf_fin x = true → sf_fin y = true →
  rnd (sfv x) = sfv x → rnd (sfv y) = sfv y →
  sfv (SFadd FloatOps.prec FloatOps.emax x y) = rnd (sfv x + sfv y)
  ∧ sf_is_nan (SFadd FloatOps.prec FloatOps.emax x y) = false.
Proof.
  intros Hx Hy Fx Fy Rx Ry.
  destruct x as [sx|sx| |sx mx ex1], y as [sy|sy| |sy my ey1]; try done.
  - change (sfv (S754_zero sx) + sfv (S754_zero sy)) with 0. rewrite rnd_0. by destruct sx, sy.
  - split; [|done]. change (sfv (S754_zero sy)) with 0. by rewrite Z.add_0_r, Rx.
  - cbn [SFadd]. split; [|apply binary_normalize_not_nan].
    apply valid_emin in Hx, Hy. rewrite binary_normalize_fv by lia.
    pose proof (shl_align_spec mx ex1 (Z.min ex1 ey1)) as H1.
    pose proof (shl_align_spec my ey1 (Z.min ex1 ey1)) as H2.
    destruct (shl_align mx _ _) as [mx' ex'], (shl_align my _ _) as [my' ey'].
    cbn [fst] in *. destruct H1 as [-> ->], H2 as [-> ->]. f_equal.
    set (ez := Z.min ex1 ey1).
    replace (Z.min ex1 ez) with ez by lia. replace (Z.min ey1 ez) with ez by lia.
    rewrite !cond_Zopp_sgn, Z.mul_add_distr_r. cbn [sfv].
    assert (∀ s a e, -1074 ≤ e → ez ≤ e → -1074 ≤ ez →
      sgn s (a * 2 ^ (e - ez)) * 2 ^ (ez + U) = sgn s (a * 2 ^ (e + U))) as Hscale.
    { intros s a e He1 He2 He3. replace (e + U) with ((e - ez) + (ez + U)) by lia.
      rewrite (Z.pow_add_r 2 (e - ez)) by (rewrite ?U_val; lia). destruct s; cbn [sgn]; ring. }
    assert (ez ≤ ex1 ∧ ez ≤ ey1 ∧ -1074 ≤ ez) as (? & ? & ?) by lia.
    by rewrite !Hscale by lia.
Qed.

Section Ops.
Implicit Types x y : float.

Lemma fadd_fv x y :
  finite x → finite y → fv (x + y)%num = rnd (fv x + fv y) ∧ nnan (x + y)%num = false.
Proof.
  intros Hx Hy. simpl. rewrite float_nan_key. unfold fv. rewrite FloatAxioms.add_spec.
  apply SFadd_fv; try done; auto using FloatAxioms.Prim2SF_valid; by apply rnd_fv.
Qed.

Lemma fopp_fv x : fv (PrimFloat.opp x) = - fv x.
Proof.
  unfold fv. rewrite FloatAxioms.opp_spec.
  destruct (Prim2SF x) as [s|s| |s m e]; try done; destruct s; simpl; lia.
Qed.
Lemma fopp_finite x : finite x → finite (PrimFloat.opp x).
Proof. unfold finite. rewrite FloatAxioms.opp_spec. by destruct (Prim2SF x). Qed.

Lemma SFsub_add (x y : spec_float) :
  sfv (SFsub FloatOps.prec FloatOps.emax x y) = sfv (SFadd FloatOps.prec FloatOps.emax x (SFopp y))
  ∧ sf_is_nan (SFsub FloatOps.prec FloatOps.emax x y)
    = sf_is_nan (SFadd FloatOps.prec FloatOps.emax x (SFopp y)).
Proof.
  destruct x as [sx|sx| |sx mx ex1], y as [sy|sy| |sy my ey1]; simpl; try done;
    by destruct sx, sy.
Qed.

Lemma fsub_fv x y :
  finite x → finite y → fv (x - y)%num = rnd (fv x - fv y) ∧ nnan (x - y)%num = false.
Proof.
  intros Hx Hy. pose proof (fadd_fv x (PrimFloat.opp y) Hx (fopp_finite _ Hy)) as [Hv Hn].
  rewrite fopp_fv in Hv. simpl in *. rewrite float_nan_key in *. unfold fv in *.
  rewrite FloatAxioms.sub_spec. rewrite FloatAxioms.add_spec, FloatAxioms.opp_spec in *.
  unfold FloatAxioms.SF64sub, FloatAxioms.SF64add in *.
  by destruct (SFsub_add (Prim2SF x) (Prim2SF y)) as [-> ->].
Qed.

Lemma mul_exponent sx mx e1 sy my e2 :
  valid (S754_finite sx mx e1) → valid (S754_finite sy my e2) →
  e1 + e2 ≤ Z.max (dig (Zpos (mx * my)) + (e1 + e2) - 53) (-1074).
Proof.
  intros [H1 _]%valid_finite [H2 _]%valid_finite.
  pose proof (dig_mono (Zpos mx) (Zpos (mx * my)) ltac:(nia)).
  pose proof (dig_mono (Zpos my) (Zpos (mx * my)) ltac:(nia)). lia.
Qed.

Lemma fmul_fv x y :
  finite x → finite y →
  (∃ p, p * 2 ^ U = fv x * fv y ∧ fv (x * y)%num = rnd p) ∧ nnan (x * y)%num = false.
Proof.
  intros Hx Hy. simpl. rewrite float_nan_key. unfold fv, finite in *. rewrite FloatAxioms.mul_spec.
  pose proof (FloatAxioms.Prim2SF_valid x) as Vx. pose proof (FloatAxioms.Prim2SF_valid y) as Vy.
  destruct (Prim2SF x) as [sx|sx| |sx mx ex1], (Prim2SF y) as [sy|sy| |sy my ey1]; try done;
    try (split; [|done]; exists 0; cbn [sfv]; rewrite rnd_0; simpl; lia).
  split; [|by apply binary_round_aux_not_nan].
  pose proof (valid_emin _ _ _ Vx) as Ex. pose proof (valid_emin _ _ _ Vy) as Ey.
  exists (sgn (xorb sx sy) (Zpos (mx * my) * 2 ^ (ex1 + ey1 + U))). split.
  - cbn [sfv]. rewrite Pos2Z.inj_mul.
    assert (2 ^ (ex1 + U) * 2 ^ (ey1 + U) = 2 ^ (ex1 + ey1 + U) * 2 ^ U) as Hpow.
    { rewrite <-!Z.pow_add_r by (rewrite ?U_val; lia). f_equal. lia. }
    destruct sx, sy; cbn [sgn xorb]; rewrite ?Z.mul_opp_l, ?Z.mul_opp_r, ?Z.opp_involutive;
      rewrite <-Z.mul_assoc, <-Hpow; ring.
  - unfold FloatAxioms.SF64mul. cbn [SFmul].
    pose proof (pow_gt0 (ex1 + ey1 + U) ltac:(rewrite U_val; lia)).
    rewrite round_aux_fv; [| |rewrite U_val|]; try lia.
    + destruct (xorb sx sy); cbn [sgn]; [rewrite rnd_opp; f_equal|];
        unfold rnd; rewrite (proj2 (Z.ltb_ge _ 0)) by lia; done.
    + pose proof (mul_exponent sx mx ex1 sy my ey1 Vx Vy). lia.
Qed.

(** Division: the quotient, and the place of the remainder between its neighbours. *)
Definition loc_code (l : location) : Z :=
  match l with loc_Exact => 0 | loc_Inexact Lt => 1 | loc_Inexact Eq => 2 | loc_Inexact Gt => 3 end.
Lemma loc_shifted q l :
  0 ≤ q → shr_m (shr_record_of_loc q l) = q ∧ shifted (4 * q + loc_code l) 2 (shr_record_of_loc q l).
Proof.
  intros Hq. split; [by destruct l as [|[]]|]. split; [by destruct l as [|[]]|].
  exists (loc_code l). change (2 ^ 2) with 4. destruct l as [|[]]; simpl; lia.
Qed.

Lemma SFdiv_core m1 e1 m2 e2 :
  0 < m1 → 0 < m2 →
  let '(q, e, l) := SFdiv_core_binary FloatOps.prec FloatOps.emax m1 e1 m2 e2 in
  0 ≤ q ∧ e = Z.min (Z.max (dig m1 + e1 - (dig m2 + e2) - 53) (-1074)) (e1 - e2)
  ∧ (∃ r, q * m2 + r = m1 * 2 ^ (e1 - e2 - e) ∧ 0 ≤ r < m2 ∧ (r = 0 → l = loc_Exact))
  ∧ e ≤ Z.max (Zdigits2 q + e - 53) (-1074).
Proof.
  intros H1 H2. unfold SFdiv_core_binary. rewrite fexp64_val, !zdigits2_dig by done.
  set (e := Z.min _ _). set (s := e1 - e2 - e).
  assert (match s with 0 => m1 | Z.pos _ => Z.shiftl m1 s | Z.neg _ => 0 end = m1 * 2 ^ s) as ->.
  { assert (0 ≤ s) by lia. destruct s; [rewrite Z.pow_0_r; lia|by rewrite Z.shiftl_mul_pow2|lia]. }
  pose proof (Z_div_mod_full (m1 * 2 ^ s) m2 ltac:(lia)) as Hdm.
  destruct (Z.div_eucl (m1 * 2 ^ s) m2) as [q r]. destruct Hdm as [Heq Hr].
  unfold Remainder in Hr. pose proof (pow_gt0 s ltac:(lia)). assert (0 ≤ q) by nia.
  assert (-1074 < e → 2 ^ 52 ≤ q) as Hq.
  { intros He. pose proof (dig_bound (m1 * 2 ^ s) ltac:(nia)) as [Hlb _]. rewrite dig_shift in Hlb by lia.
    pose proof (dig_bound m2 H2) as [Hl2 Hub]. assert (0 ≤ dig m2) by (unfold dig; pose proof (Z.log2_nonneg m2); lia).
    assert (2 ^ (dig m2 + 52) ≤ 2 ^ (dig m1 + s - 1)) by (apply Z.pow_le_mono_r; lia).
    rewrite Z.pow_add_r in * by lia. nia. }
  split_and!; [done|done| |].
  - exists r. split_and!; [fold s; lia|lia|lia|]. intros ->. unfold new_location. by destruct (Z.even m2).
  - destruct (decide (-1074 < e)); [|lia]. pose proof (digits_bound q ltac:(done)) as (? & ? & _).
    assert (52 < Zdigits2 q); [|lia]. apply (Z.pow_lt_mono_r_iff 2); lia.
Qed.

Lemma fdiv_not_nan x y :
  nnan x = false → finite y → fv y ≠ 0 → nnan (x / y)%num = false.
Proof.
  simpl. rewrite !float_nan_key. unfold fv, finite. rewrite FloatAxioms.div_spec.
  destruct (Prim2SF x) as [sx|sx| |sx mx e1], (Prim2SF y) as [sy|sy| |sy my e2]; try done.
  intros _ _ _. unfold FloatAxioms.SF64div. cbn [SFdiv].
  pose proof (SFdiv_core (Zpos mx) e1 (Zpos my) e2 ltac:(lia) ltac:(lia)) as H.
  destruct (SFdiv_core_binary _ _ _ _ _ _) as [[q e] l]. apply binary_round_aux_not_nan. lia.
Qed.

Lemma abs_sgn s v : Z.abs (sgn s v) = Z.abs v.
Proof. destruct s; simpl; lia. Qed.

(** The rounding of a quotient: on the grid of step [2^e'], [q] is its integral
    part and [v] stands for it when rounding. *)
Definition quotient_at (X Y : Z) (e' q v : Z) : Prop :=
  0 ≤ e' ∧ 0 ≤ q ∧ q * 2 ^ e' * Y ≤ X * 2 ^ U < (q + 1) * 2 ^ e' * Y
  ∧ q * 2 ^ e' ≤ v < (q + 1) * 2 ^ e' ∧ (q * 2 ^ e' * Y = X * 2 ^ U → v = q * 2 ^ e')
  ∧ (g0 < e' → 2 ^ 52 ≤ q).

Lemma quotient_scale q r e c m1 e1 m2 e2 :
  0 < m2 → 0 ≤ q → 0 ≤ c ≤ 3 → (r = 0 → c = 0) → 0 ≤ r < m2 → -2100 ≤ e → -1074 ≤ e1 → -1074 ≤ e2 → e ≤ e1 - e2 →
  q * m2 + r = m1 * 2 ^ (e1 - e2 - e) → (-1074 < e → 2 ^ 52 ≤ q) →
  quotient_at (m1 * 2 ^ (e1 + U)) (m2 * 2 ^ (e2 + U)) (e + U) q ((4 * q + c) * 2 ^ (e - 2 + U)).
Proof.
  intros Hm2 Hq Hc Hrc Hr He He1 He2 He12 Hqm Hbig. rewrite U_val in *.
  pose proof (pow_gt0 (e - 2 + 2200) ltac:(lia)) as Hw. pose proof (pow_gt0 (e2 + 2200) ltac:(lia)) as Hz.
  assert (2 ^ (e + 2200) = 4 * 2 ^ (e - 2 + 2200)) as E4.
  { change 4 with (2 ^ 2). rewrite <-Z.pow_add_r by lia. f_equal. lia. }
  assert (2 ^ (e1 + 2200) * 2 ^ 2200 = 2 ^ (e1 - e2 - e) * 2 ^ (e + 2200) * 2 ^ (e2 + 2200)) as E1.
  { rewrite <-!Z.pow_add_r by lia. f_equal. lia. }
  unfold quotient_at. rewrite U_val, g0_val, <-(Z.mul_assoc m1), E1, !Z.mul_assoc, <-Hqm, E4.
  set (w := 2 ^ (e - 2 + 2200)) in *. set (z := 2 ^ (e2 + 2200)) in *. clearbody w z. clear E1 E4.
  pose proof (Z.mul_pos_pos w z Hw Hz) as Hwz. pose proof (Z.mul_pos_pos m2 z Hm2 Hz).
  replace ((q * m2 + r) * (4 * w) * z) with (q * (4 * w) * (m2 * z) + 4 * r * (w * z)) by ring.
  replace ((q + 1) * (4 * w) * (m2 * z)) with (q * (4 * w) * (m2 * z) + 4 * m2 * (w * z)) by ring.
  split_and!; try lia.
  - nia.
  - nia.
Qed.

Lemma fdiv_quotient x y :
  finite x → finite y → fv y ≠ 0 → fv x ≠ 0 →
  ∃ e' q v, Z.abs (fv (x / y)%num) = rndp v ∧ quotient_at (Z.abs (fv x)) (Z.abs (fv y)) e' q v.
Proof.
  intros Hx Hy Hy0 Hx0. simpl in *. unfold fv, finite in *. rewrite FloatAxioms.div_spec.
  pose proof (FloatAxioms.Prim2SF_valid x) as Vx. pose proof (FloatAxioms.Prim2SF_valid y) as Vy.
  destruct (Prim2SF x) as [sx|sx| |sx mx e1], (Prim2SF y) as [sy|sy| |sy my e2]; try done.
  unfold FloatAxioms.SF64div. cbn [SFdiv].
  pose proof (SFdiv_core (Zpos mx) e1 (Zpos my) e2 ltac:(lia) ltac:(lia)) as HD.
  destruct (SFdiv_core_binary _ _ _ _ _ _) as [[q e] l]. destruct HD as (Hq & Ee & (r & Hqm & Hr & Hl0) & Hd).
  pose proof (proj1 (valid_finite _ _ _) Vx) as [Ex Ex']. pose proof (proj1 (valid_finite _ _ _) Vy) as [Ey Ey'].
  pose proof (pow_gt0 (e1 + U) ltac:(rewrite U_val; lia)). pose proof (pow_gt0 (e2 + U) ltac:(rewrite U_val; lia)).
  cbn [sfv] in *. rewrite !abs_sgn, !(Z.abs_eq (Zpos _ * _)) by lia.
  assert (0 ≤ loc_code l ≤ 3) as Hl by (destruct l as [|[]]; simpl; lia).
  destruct (loc_shifted q l Hq) as [Em Hs].
  assert (-2100 ≤ e) as He by lia.
  rewrite (round_aux_loc _ _ _ _ _ 2 ltac:(done) Em Hs) by (rewrite ?U_val; lia). rewrite abs_sgn.
  exists (e + U), q, ((4 * q + loc_code l) * 2 ^ (e - 2 + U)). split.
  - rewrite Z.abs_eq; [done|]. apply rndp_nonneg. pose proof (pow_gt0 (e - 2 + U) ltac:(rewrite U_val; lia)). nia.
  - apply (quotient_scale q r); try done; try lia.
    + intros Hr0. by rewrite (Hl0 Hr0).
    + intros Hge. assert (52 < Zdigits2 q) by lia. pose proof (digits_bound q Hq) as (_ & _ & Hlb).
      destruct (decide (q = 0)) as [->|]; [done|].
      apply (Z.le_trans _ (2 ^ (Zdigits2 q - 1))); [apply Z.pow_le_mono_r; lia|apply Hlb; lia].
Qed.

(** A bound that is a float bounds the rounded quotient. *)
Lemma repr_grid B e' :
  repr B → 0 ≤ e' → (∃ K, B = K * 2 ^ e') ∨ (g0 < e' ∧ B < 2 ^ 52 * 2 ^ e').
Proof.
  intros (m & k & -> & Hm & Hk & _) He. destruct (decide (e' ≤ k)).
  - left. exists (m * 2 ^ (k - e')). rewrite <-Z.mul_assoc, <-Z.pow_add_r by lia. f_equal. f_equal. lia.
  - right. split; [lia|]. rewrite g0_val in *. replace e' with (k + 1 + (e' - k - 1)) by lia.
    rewrite Z.pow_add_r, Z.pow_add_r, Z.pow_1_r by lia. pose proof (pow_gt0 k ltac:(lia)).
    pose proof (pow_gt0 (e' - k - 1) ltac:(lia)).
    apply (Z.lt_le_trans _ (2 ^ 53 * 2 ^ k)); [nia|]. change (2 ^ 53) with (2 ^ 52 * 2). nia.
Qed.

Lemma quotient_le X Y e' q v B :
  0 < Y → quotient_at X Y e' q v → repr B → X * 2 ^ U ≤ B * Y → v ≤ B.
Proof.
  intros HY (He & Hq & [H1 H2] & [Hv1 Hv2] & Hv0 & Hbig) HB HXB.
  pose proof (pow_gt0 e' He) as Hp. set (p := 2 ^ e') in *.
  assert (q * p ≤ B) by nia.
  destruct (repr_grid B e' HB He) as [[K EK]|[Hg Hlt]]; [fold p in EK|fold p in Hlt].
  - assert (q ≤ K) by nia. destruct (decide (q = K)) as [->|]; [|nia].
    rewrite Hv0; [lia|]. nia.
  - specialize (Hbig Hg). nia.
Qed.
Lemma quotient_ge X Y e' q v B :
  0 < Y → quotient_at X Y e' q v → repr B → B * Y ≤ X * 2 ^ U → B ≤ v.
Proof.
  intros HY (He & Hq & [H1 H2] & [Hv1 Hv2] & Hv0 & Hbig) HB HXB.
  pose proof (pow_gt0 e' He) as Hp. set (p := 2 ^ e') in *.
  assert (B < (q + 1) * p) by nia.
  destruct (repr_grid B e' HB He) as [[K EK]|[Hg Hlt]]; [fold p in EK|fold p in Hlt].
  - assert (K < q + 1) by nia. nia.
  - specialize (Hbig Hg). nia.
Qed.

Lemma repr_nonneg B : repr B → 0 ≤ B < INF.
Proof.
  intros (m & k & -> & Hm & Hk & ?). split; [|done]. rewrite g0_val in *. pose proof (pow_gt0 k ltac:(lia)). nia.
Qed.

Lemma fdiv_zero x y : finite x → finite y → fv y ≠ 0 → fv x = 0 → fv (x / y)%num = 0.
Proof.
  intros Hx Hy Hy0 Hx0. simpl in *. unfold fv, finite in *. rewrite FloatAxioms.div_spec.
  pose proof (FloatAxioms.Prim2SF_valid x) as Vx. pose proof (FloatAxioms.Prim2SF_valid y) as Vy.
  destruct (Prim2SF x) as [sx|sx| |sx mx e1], (Prim2SF y) as [sy|sy| |sy my e2]; try done.
  pose proof (sfv_lt_INF _ _ _ Vx). cbn [sfv] in Hx0. destruct sx; cbn [sgn] in Hx0; lia.
Qed.

Lemma fdiv_abs_le x y B :
  finite x → finite y → fv y ≠ 0 → repr B → Z.abs (fv x) * 2 ^ U ≤ B * Z.abs (fv y) →
  finite (x / y)%num ∧ Z.abs (fv (x / y)%num) ≤ B.
Proof.
  intros Hx Hy Hy0 HB Hle. pose proof (repr_nonneg B HB). cut (Z.abs (fv (x / y)%num) ≤ B).
  { intros Hb. split; [|done]. apply finite_iff; [apply fdiv_not_nan; auto with js|lia]. }
  destruct (decide (fv x = 0)) as [Hx0|Hx0]; [rewrite fdiv_zero by done; lia|].
  destruct (fdiv_quotient x y Hx Hy Hy0 Hx0) as (e' & q & v & -> & Hv).
  pose proof (quotient_le (Z.abs (fv x)) (Z.abs (fv y)) _ _ _ B ltac:(lia) Hv HB Hle) as Hvb.
  destruct Hv as (He & Hq & _ & [Hv1 _] & _). pose proof (pow_gt0 e' He). assert (0 ≤ v) by nia.
  rewrite <-(rndp_repr B HB). destruct (decide (v = 0)) as [->|]; [rewrite rndp_0; by apply rndp_nonneg|].
  apply rndp_mono. lia.
Qed.
Lemma fdiv_abs_ge x y B :
  finite x → finite y → fv y ≠ 0 → repr B → B * Z.abs (fv y) ≤ Z.abs (fv x) * 2 ^ U →
  B ≤ Z.abs (fv (x / y)%num).
Proof.
  intros Hx Hy Hy0 HB Hle. pose proof (repr_nonneg B HB).
  destruct (decide (B = 0)) as [->|]; [lia|].
  destruct (decide (fv x = 0)) as [Hx0|Hx0]; [rewrite Hx0 in Hle; nia|].
  destruct (fdiv_quotient x y Hx Hy Hy0 Hx0) as (e' & q & v & -> & Hv).
  pose proof (quotient_ge (Z.abs (fv x)) (Z.abs (fv y)) _ _ _ B ltac:(lia) Hv HB Hle) as Hvb.
  rewrite <-(rndp_repr B HB). apply rndp_mono. lia.
Qed.

Lemma fdiv_nonneg x y : finite x → finite y → 0 ≤ fv x → 0 < fv y → 0 ≤ fv (x / y)%num.
Proof.
  intros Hx Hy Hx0 Hy0. destruct (decide (fv x = 0)); [rewrite fdiv_zero; (done || lia)|].
  simpl in *. unfold fv, finite in *. rewrite FloatAxioms.div_spec.
  pose proof (FloatAxioms.Prim2SF_valid x) as Vx. pose proof (FloatAxioms.Prim2SF_valid y) as Vy.
  destruct (Prim2SF x) as [sx|sx| |sx mx e1], (Prim2SF y) as [sy|sy| |sy my e2]; try done.
  pose proof (sfv_lt_INF _ _ _ Vx). pose proof (sfv_lt_INF _ _ _ Vy). cbn [sfv] in *.
  destruct sx, sy; cbn [sgn] in *; try lia. unfold FloatAxioms.SF64div. cbn [SFdiv].
  pose proof (SFdiv_core (Zpos mx) e1 (Zpos my) e2 ltac:(lia) ltac:(lia)) as HD.
  destruct (SFdiv_core_binary _ _ _ _ _ _) as [[q e] l]. destruct HD as (Hq & Ee & _ & Hd).
  pose proof (proj1 (valid_finite _ _ _) Vx) as [Ex Ex']. pose proof (proj1 (valid_finite _ _ _) Vy) as [Ey Ey'].
  assert (0 ≤ loc_code l ≤ 3) as Hl by (destruct l as [|[]]; simpl; lia).
  destruct (loc_shifted q l Hq) as [Em Hs].
  rewrite (round_aux_loc _ _ _ _ _ 2 ltac:(done) Em Hs) by (rewrite ?U_val; lia).
  apply rndp_nonneg. pose proof (pow_gt0 (e - 2 + U) ltac:(rewrite U_val; lia)). nia.
Qed.

(** Dividing by at least one increases nothing, rounding included. *)
Lemma fdiv_bound x y :
  finite x → finite y → 2 ^ U ≤ Z.abs (fv y) →
  finite (x / y)%num ∧ Z.abs (fv (x / y)%num) ≤ Z.abs (fv x).
Proof.
  intros Hx Hy Hy1. pose proof (pow_gt0 U ltac:(rewrite U_val; lia)).
  apply fdiv_abs_le; [done|done|lia|by apply fv_repr|]. apply Z.mul_le_mono_nonneg_l; lia.
Qed.

Lemma fadd_not_nan x y : finite x → nnan y = false → nnan (x + y)%num = false.
Proof.
  simpl. rewrite !float_nan_key. unfold finite. rewrite FloatAxioms.add_spec.
  destruct (Prim2SF x) as [[]| | |s m e], (Prim2SF y) as [[]|[]| |s' m' e']; try done;
    intros _ _; apply binary_normalize_not_nan.
Qed.

(** ** Consequences: exact integers, monotonicity, signs *)
Lemma nofZ_fv z : Z.abs z < 2 ^ 53 → fv (nofZ z) = z * 2 ^ U ∧ finite (nofZ z).
Proof.
  intros Hz. assert (Z.abs z < 2 ^ 62) as Hz' by (change (2 ^ 62) with (512 * 2 ^ 53); lia).
  assert (∀ n, 0 ≤ n < 2 ^ 53 → rnd (n * 2 ^ (0 + U)) = n * 2 ^ U ∧ n * 2 ^ U < INF) as Hr.
  { intros n Hn. rewrite Z.add_0_l. pose proof (pow_gt0 U ltac:(rewrite U_val; lia)).
    assert (n * 2 ^ U < INF) as Hlt.
    { rewrite INF_val. apply (Z.lt_le_trans _ (2 ^ 53 * 2 ^ U)); [nia|].
      rewrite <-Z.pow_add_r by (rewrite ?U_val; lia). apply Z.pow_le_mono_r; rewrite ?U_val; lia. }
    split; [|done]. unfold rnd. rewrite (proj2 (Z.ltb_ge _ 0)) by nia.
    apply rndp_repr. exists n, U. rewrite U_val, g0_val in *. split_and!; try done; lia. }
  assert (fv (nofZ z) = z * 2 ^ U) as Hv.
  { unfold fv. simpl. unfold float_ofZ. rewrite (proj2 (Z.ltb_lt _ _) Hz').
    assert (∀ f, Prim2SF f = binary_normalize FloatOps.prec FloatOps.emax (Z.abs z) 0 false →
      sfv (Prim2SF f) = Z.abs z * 2 ^ U) as Hf.
    { intros f ->. rewrite binary_normalize_fv by lia. apply Hr. lia. }
    assert (Prim2SF (PrimFloat.of_uint63 (Uint63.of_Z (Z.abs z)))
      = binary_normalize FloatOps.prec FloatOps.emax (Z.abs z) 0 false) as Hu.
    { rewrite FloatAxioms.of_uint63_spec, Uint63.of_Z_spec, Z.mod_small; [done|].
      change Uint63.wB with (2 * 2 ^ 62). lia. }
    case_if; bool_to_prop.
    - fold (fv (PrimFloat.opp (PrimFloat.of_uint63 (Uint63.of_Z (Z.abs z))))). rewrite fopp_fv.
      unfold fv. rewrite (Hf _ Hu). lia.
    - rewrite (Hf _ Hu). lia. }
  split; [done|]. apply finite_iff.
  - by apply nofZ_ok.
  - rewrite Hv. destruct (Hr (Z.abs z) ltac:(lia)) as [_ ?]. lia.
Qed.

Lemma finite_between lo x hi :
  finite lo → finite hi → nleb lo x = true → nleb x hi = true → finite x.
Proof.
  intros Hlo Hhi H1 H2. pose proof (nleb_ok _ _ H1) as [? ?]. pose proof (nleb_ok _ _ H2) as [? ?].
  rewrite nleb_fv in H1, H2 by done. bool_to_prop.
  apply finite_iff; [done|]. pose proof (finite_abs lo Hlo). pose proof (finite_abs hi Hhi). lia.
Qed.

Lemma fadd_mono x x' y y' :
  finite x → finite x' → finite y → finite y' →
  nleb x x' = true → nleb y y' = true → nleb (x + y)%num (x' + y')%num = true.
Proof.
  intros Hx Hx' Hy Hy'. rewrite !nleb_fv by auto with js.
  destruct (fadd_fv x y) as [E ?], (fadd_fv x' y') as [E' ?]; try done. intros Hxx Hyy.
  bool_to_prop. rewrite nleb_fv, E, E' by done. apply Z.leb_le, rnd_mono. lia.
Qed.

Lemma fsub_mono x x' y y' :
  finite x → finite x' → finite y → finite y' →
  nleb x x' = true → nleb y' y = true → nleb (x - y)%num (x' - y')%num = true.
Proof.
  intros Hx Hx' Hy Hy'. rewrite !nleb_fv by auto with js.
  destruct (fsub_fv x y) as [E ?], (fsub_fv x' y') as [E' ?]; try done. intros Hxx Hyy.
  bool_to_prop. rewrite nleb_fv, E, E' by done. apply Z.leb_le, rnd_mono. lia.
Qed.

Lemma fmul_mono x x' y y' :
  finite x → finite x' → finite y → finite y' → 0 ≤ fv x → 0 ≤ fv y →
  nleb x x' = true → nleb y y' = true → nleb (x * y)%num (x' * y')%num = true.
Proof.
  intros Hx Hx' Hy Hy' ? ?. rewrite !nleb_fv by auto with js.
  destruct (fmul_fv x y) as [(p & Hp & Ep) ?], (fmul_fv x' y') as [(q & Hq & Eq) ?]; try done.
  intros Hxx Hyy. bool_to_prop. rewrite nleb_fv by done. apply Z.leb_le.
  rewrite Ep, Eq. apply rnd_mono. pose proof (pow_gt0 U ltac:(rewrite U_val; lia)).
  assert (fv x * fv y ≤ fv x' * fv y') by nia. nia.
Qed.

(** A difference has the sign of the comparison (gradual underflow). *)
Lemma fv_multiple x : finite x → ∃ z, fv x = z * 2 ^ g0.
Proof.
  unfold finite, fv. pose proof (FloatAxioms.Prim2SF_valid x) as Hv.
  destruct (Prim2SF x) as [s|s| |s m e]; try done; intros _; [by exists 0|].
  apply valid_emin in Hv. exists (sgn s (Zpos m * 2 ^ (e + 1074))). cbn [sfv].
  rewrite U_val, g0_val. replace (e + 2200) with (e + 1074 + 1126) by lia.
  rewrite Z.pow_add_r by lia. destruct s; cbn [sgn]; ring.
Qed.

Lemma rnd_pos v : 0 < v → (∃ z, v = z * 2 ^ g0) → 0 < rnd v.
Proof.
  intros Hv [z ->]. pose proof (pow_gt0 g0 ltac:(rewrite g0_val; lia)) as Hp.
  assert (rnd (2 ^ g0) = 2 ^ g0) as Hg.
  { unfold rnd. rewrite (proj2 (Z.ltb_ge _ 0)) by lia. apply rndp_repr. exists 1, g0.
    split_and!; try lia. rewrite INF_val, g0_val. apply Z.pow_lt_mono_r; lia. }
  assert (1 ≤ z) by nia.
  pose proof (rnd_mono (2 ^ g0) (z * 2 ^ g0) ltac:(nia)). lia.
Qed.

Lemma fsub_sign x y :
  finite x → finite y →
  ((x - y)%num >? N[0])%num = (x >? y)%num ∧ ((x - y)%num <? N[0])%num = (x <? y)%num.
Proof.
  intros Hx Hy. destruct (fsub_fv x y Hx Hy) as [Hv Hn].
  destruct (nofZ_fv 0 ltac:(done)) as [H0 F0]. rewrite Z.mul_0_l in H0.
  rewrite !nltb_fv by auto with js. rewrite H0, Hv.
  destruct (fv_multiple x Hx) as [a Ha], (fv_multiple y Hy) as [b Hb].
  destruct (Z.lt_trichotomy (fv x) (fv y)) as [Hlt|[Heq|Hgt]].
  - pose proof (rnd_pos (fv y - fv x) ltac:(lia)
      ltac:(exists (b - a); rewrite Ha, Hb; ring)) as Hr.
    replace (fv x - fv y) with (- (fv y - fv x)) by lia. rewrite rnd_opp. lia.
  - rewrite Heq, Z.sub_diag, rnd_0. lia.
  - pose proof (rnd_pos (fv x - fv y) ltac:(lia)
      ltac:(exists (a - b); rewrite Ha, Hb; ring)) as Hr. lia.
Qed.

(** [Math.floor] on the grid. *)
Lemma nfloorZ_fv x : finite x → nfloorZ x = Some (fv x / 2 ^ U).
Proof.
  unfold nfloorZ, finite, fv. simpl. unfold float_val.
  pose proof (FloatAxioms.Prim2SF_valid x) as Hv.
  destruct (Prim2SF x) as [s|s| |s m e]; try done; intros _; simpl; f_equal.
  apply valid_emin in Hv. rewrite U_val. fold (sgn s (Zpos m * 2 ^ (e + 2200))).
  assert (∀ a, sgn s (Zpos m * a) = sgn s (Zpos m) * a) as Hs by (intros; destruct s; simpl; lia).
  fold (cond_Zopp s (Zpos m)) in *. rewrite !Hs. fold (sgn s (Zpos m)).
  change (cond_Zopp s (Zpos m)) with (sgn s (Zpos m)). generalize (sgn s (Zpos m)). intros z.
  destruct e as [|p|p].
  - simpl. rewrite Z.div_1_r, Z.div_mul; [done|]. pose proof (pow_gt0 2200 ltac:(lia)). lia.
  - simpl. rewrite Z.div_1_r, Z.pow_add_r, Z.mul_assoc, Z.div_mul; try lia.
  - simpl. rewrite Pos2Z.inj_pow.
    replace (2 ^ 2200) with (2 ^ Zpos p * 2 ^ (Zneg p + 2200)).
    + rewrite Z.div_mul_cancel_r; [done| |].
      * pose proof (pow_gt0 (Zpos p) ltac:(lia)). lia.
      * pose proof (pow_gt0 (Zneg p + 2200) ltac:(lia)). lia.
    + rewrite <-Z.pow_add_r by lia. f_equal. lia.
Qed.

Lemma nfloorZ_range x a b :
  Z.abs a < 2 ^ 53 → Z.abs b < 2 ^ 53 →
  nleb (nofZ a) x = true → nltb x (nofZ b) = true →
  ∃ k, nfloorZ x = Some k ∧ a ≤ k < b.
Proof.
  intros Ha Hb H1 H2. destruct (nofZ_fv a Ha) as [Va Fa], (nofZ_fv b Hb) as [Vb Fb].
  assert (finite x) as Hx by (apply (finite_between _ _ _ Fa Fb); [done|by apply nltb_leb]).
  exists (fv x / 2 ^ U). split; [by apply nfloorZ_fv|].
  rewrite nleb_fv, Va in H1 by auto with js. rewrite nltb_fv, Vb in H2 by auto with js.
  bool_to_prop. pose proof (pow_gt0 U ltac:(rewrite U_val; lia)). split.
  - apply Z.div_le_lower_bound; lia.
  - apply Z.div_lt_upper_bound; lia.
Qed.
End Ops.
