(* ===== verification/JsCollections.v ===== *)
(** * JavaScript objects used as maps, sets and arrays

    - [jsobj V]: an object used as a dictionary ([Record<string, V>]), the list
      of its own properties in creation order.  Enumeration follows the
      language: array-index keys in ascending order first, then the other keys
      in creation order.  [obj_to_map] abstracts it to a [gmap], and every
      operation commutes with the abstraction.
    - [set_add]: a [Set<string>], in insertion order.
    - [js_slice]: [Array.prototype.slice] with relative indices.
    - [js_sort]: [Array.prototype.sort] with a comparator (stable).

    Property names of [Object.prototype] are not treated specially: no service
    of the dashboard is called [constructor] or [__proto__]. *)

From S2P Require Export JsNumber.
From stdpp Require Export base list gmap fin_maps sorting strings.

(** ** Objects *)
Abbreviation jsobj V := (list (string * V)).

Module Obj.
Section Obj.
Context {V : Type}.
Implicit Types o : jsobj V.

Definition obj_empty : jsobj V := [].

(** [o[k]]: [undefined] is [None]. *)
Fixpoint obj_get o (k : string) : option V :=
  match o with
  | [] => None
  | (k', v) :: o' => if bool_decide (k = k') then Some v else obj_get o' k
  end.

(** [o[k] = v] and [{ ...o, [k]: v }]: an existing key keeps its place. *)
Fixpoint obj_set o (k : string) (v : V) : jsobj V :=
  match o with
  | [] => [(k, v)]
  | (k', v') :: o' =>
      if bool_decide (k = k') then (k, v) :: o' else (k', v') :: obj_set o' k v
  end.

(** [delete o[k]] *)
Definition obj_delete o (k : string) : jsobj V :=
  filter (λ p, p.1 ≠ k) o.

(** No key twice: the invariant of a dictionary. *)
Definition obj_wf o : Prop := NoDup o.*1.

Definition obj_to_map o : gmap string V := list_to_map o.

Lemma obj_get_to_map o k : obj_get o k = obj_to_map o !! k.
Proof.
  induction o as [|[k' v] o IH]; simpl; [by rewrite lookup_empty|].
  unfold obj_to_map in *. simpl. rewrite lookup_insert. repeat case_decide; naive_solver.
Qed.

Lemma obj_set_to_map o k v : obj_to_map (obj_set o k v) = <[k:=v]> (obj_to_map o).
Proof.
  induction o as [|[k' v'] o IH]; [done|]. simpl. unfold obj_to_map in *.
  case_bool_decide; subst; simpl.
  - by rewrite insert_insert_eq.
  - rewrite IH. by apply insert_insert_ne.
Qed.

Lemma obj_get_Some o k v : obj_get o k = Some v → (k, v) ∈ o.
Proof.
  induction o as [|[k' v'] o IH]; simpl; [done|]. case_bool_decide; intros; simplify_eq.
  - by left.
  - right. auto.
Qed.

Lemma obj_get_None o k : obj_get o k = None ↔ k ∉ o.*1.
Proof.
  induction o as [|[k' v'] o IH]; simpl; [set_solver|].
  case_bool_decide; [set_solver|]. rewrite IH. set_solver.
Qed.

Lemma obj_get_elem o k v : obj_wf o → (k, v) ∈ o → obj_get o k = Some v.
Proof.
  induction o as [|[k' v'] o IH]; simpl; [by intros _ ?%elem_of_nil|].
  intros [Hk Hnd]%NoDup_cons Hin. case_bool_decide as Hd.
  - subst. apply elem_of_cons in Hin as [?|Hin]; [naive_solver|].
    destruct Hk. by eapply (list_elem_of_fmap_2 fst) in Hin.
  - apply elem_of_cons in Hin as [?|Hin]; [naive_solver|]. by apply IH.
Qed.

Lemma obj_get_set_eq o k v : obj_get (obj_set o k v) k = Some v.
Proof. by rewrite obj_get_to_map, obj_set_to_map, lookup_insert_eq. Qed.
Lemma obj_get_set_ne o k k' v : k ≠ k' → obj_get (obj_set o k v) k' = obj_get o k'.
Proof. intros. by rewrite !obj_get_to_map, obj_set_to_map, lookup_insert_ne. Qed.

Lemma obj_delete_cons k1 v o k :
  obj_delete ((k1, v) :: o) k =
    if bool_decide (k1 = k) then obj_delete o k else (k1, v) :: obj_delete o k.
Proof.
  unfold obj_delete. case_bool_decide.
  - by rewrite filter_cons_False by (simpl; tauto).
  - by rewrite filter_cons_True by done.
Qed.

Lemma obj_get_delete o k k' :
  obj_get (obj_delete o k) k' = if bool_decide (k = k') then None else obj_get o k'.
Proof.
  induction o as [|[k1 v] o IH]; [simpl; by case_bool_decide|].
  rewrite obj_delete_cons. destruct (bool_decide (k1 = k)) eqn:E;
    cbn [obj_get]; rewrite IH; repeat case_bool_decide; naive_solver.
Qed.

Lemma obj_delete_to_map o k : obj_to_map (obj_delete o k) = delete k (obj_to_map o).
Proof.
  apply map_eq. intros k'. rewrite <-obj_get_to_map, obj_get_delete, lookup_delete.
  case_bool_decide; case_decide; try done. by rewrite obj_get_to_map.
Qed.

(** Setting a key changes the key list only when the key is new. *)
Lemma obj_set_keys o k v :
  (obj_set o k v).*1 = if bool_decide (k ∈ o.*1) then o.*1 else o.*1 ++ [k].
Proof.
  induction o as [|[k' v'] o IH]; [done|]. cbn [obj_set].
  destruct (decide (k = k')) as [->|Hne].
  - rewrite bool_decide_eq_true_2 by done. rewrite !fmap_cons, bool_decide_eq_true_2; [done|].
    by left.
  - rewrite bool_decide_eq_false_2 by done. rewrite !fmap_cons, IH. simpl.
    repeat case_bool_decide; set_solver.
Qed.

Lemma obj_empty_wf : obj_wf obj_empty.
Proof. apply NoDup_nil_2. Qed.

Lemma obj_set_wf o k v : obj_wf o → obj_wf (obj_set o k v).
Proof.
  unfold obj_wf. intros Hnd. rewrite obj_set_keys. case_bool_decide; [done|].
  apply NoDup_app. set_solver by auto using NoDup_singleton.
Qed.

Lemma obj_delete_wf o k : obj_wf o → obj_wf (obj_delete o k).
Proof.
  unfold obj_wf. induction o as [|[k' v'] o IH]; [done|].
  rewrite fmap_cons, NoDup_cons. intros [Hk Hnd]. rewrite obj_delete_cons.
  case_bool_decide; [by auto|]. rewrite fmap_cons, NoDup_cons. split; [|by auto].
  intros (p&Hp&Hin)%list_elem_of_fmap. apply Hk.
  apply list_elem_of_filter in Hin as [_ Hin].
  apply list_elem_of_fmap. eauto.
Qed.
End Obj.

(** *** Enumeration order *)

(** The value of a canonical decimal numeral, most significant digit first. *)
Fixpoint dec_value (acc : Z) (s : string) : option Z :=
  match s with
  | EmptyString => Some acc
  | String a s' =>
      let d := (Z.of_nat (Ascii.nat_of_ascii a) - 48)%Z in
      if (0 <=? d)%Z && (d <=? 9)%Z then dec_value (10 * acc + d) s' else None
  end.

(** [Some i] when the key is an array index: a canonical numeral below 2^32 - 1. *)
Definition array_index (k : string) : option Z :=
  match k with
  | EmptyString => None
  | _ => match dec_value 0 k with
         | Some i => if bool_decide (pretty i = k) && (i <? 2 ^ 32 - 1)%Z then Some i else None
         | None => None
         end
  end.

Section Enumeration.
Context {V : Type}.
Implicit Types o : jsobj V.

Definition index_key_le (p q : string * V) : Prop :=
  (default 0 (array_index p.1) <= default 0 (array_index q.1))%Z.
#[export] Instance index_key_le_dec : RelDecision index_key_le.
Proof. intros p q. unfold index_key_le. apply _. Defined.

(** [Object.entries(o)], [Object.keys(o)], [Object.values(o)] *)
Definition obj_entries o : list (string * V) :=
  merge_sort index_key_le (filter (λ p, is_Some (array_index p.1)) o)
  ++ filter (λ p, ¬ is_Some (array_index p.1)) o.
Definition obj_keys o : list string := (obj_entries o).*1.
Definition obj_values o : list V := (obj_entries o).*2.

Lemma obj_entries_perm o : obj_entries o ≡ₚ o.
Proof.
  unfold obj_entries. rewrite merge_sort_Permutation.
  apply filter_app_complement.
Qed.

Lemma obj_values_perm o : obj_values o ≡ₚ o.*2.
Proof. unfold obj_values. by rewrite obj_entries_perm. Qed.

Lemma obj_keys_perm o : obj_keys o ≡ₚ o.*1.
Proof. unfold obj_keys. by rewrite obj_entries_perm. Qed.

(** Without array-index keys, enumeration is creation order. *)
Lemma obj_entries_no_index o :
  Forall (λ p, array_index p.1 = None) o → obj_entries o = o.
Proof.
  intros Ho. unfold obj_entries.
  rewrite list_filter_none, list_filter_all; [done|..];
    (eapply Forall_impl; [done|]); intros p Hp; simpl in *; rewrite Hp; by intros [? ?].
Qed.

Lemma obj_values_elem o v : obj_wf o → v ∈ obj_values o ↔ ∃ k, obj_get o k = Some v.
Proof.
  intros Hwf. rewrite obj_values_perm, list_elem_of_fmap. split.
  - intros ([k v']&->&Hin). exists k. by apply obj_get_elem.
  - intros [k Hk]. exists (k, v). split; [done|]. by apply obj_get_Some.
Qed.
End Enumeration.
End Obj.
Export Obj.

#[export] Hint Rewrite @obj_get_set_eq @obj_get_delete : js.
#[export] Hint Resolve obj_empty_wf obj_set_wf obj_delete_wf : js.

(** ** Sets of strings, in insertion order *)
Module JsSet.
Definition set_add (s : list string) (x : string) : list string :=
  if bool_decide (x ∈ s) then s else s ++ [x].
Definition set_add_all (s xs : list string) : list string := foldl set_add s xs.

Lemma elem_of_set_add s x y : y ∈ set_add s x ↔ y = x ∨ y ∈ s.
Proof. unfold set_add. case_bool_decide; set_solver. Qed.
Lemma set_add_NoDup s x : NoDup s → NoDup (set_add s x).
Proof.
  intros. unfold set_add. case_bool_decide; [done|].
  apply NoDup_app. set_solver by auto using NoDup_singleton.
Qed.
Lemma elem_of_set_add_all s xs y : y ∈ set_add_all s xs ↔ y ∈ xs ∨ y ∈ s.
Proof.
  revert s. induction xs as [|x xs IH]; intros s; [set_solver|].
  change (set_add_all s (x :: xs)) with (set_add_all (set_add s x) xs).
  rewrite IH, elem_of_set_add. set_solver.
Qed.
Lemma set_add_all_NoDup s xs : NoDup s → NoDup (set_add_all s xs).
Proof.
  revert s. induction xs as [|x xs IH]; intros s Hs; [done|].
  apply (IH (set_add s x)). by apply set_add_NoDup.
Qed.
End JsSet.
Export JsSet.
#[export] Hint Resolve set_add_NoDup set_add_all_NoDup : js.

(** ** Arrays *)
Module Arr.
Section Arr.
Context {A : Type}.
Implicit Types l : list A.

(** [l.slice(start, stop)]: negative indices count from the end, out of range
    indices are clamped. *)
Definition rel_index (len i : Z) : Z :=
  if (i <? 0)%Z then Z.max (len + i) 0 else Z.min i len.
Definition js_slice l (start : Z) (stop : option Z) : list A :=
  let len := Z.of_nat (length l) in
  let k := rel_index len start in
  let fin := rel_index len (default len stop) in
  take (Z.to_nat (fin - k)) (drop (Z.to_nat k) l).

(** [l.slice(-n)] keeps the last [n] elements. *)
Lemma js_slice_last l (n : nat) :
  0 < n → js_slice l (- Z.of_nat n) None = drop (length l - n) l.
Proof.
  intros Hn. unfold js_slice, rel_index. simpl.
  rewrite (proj2 (Z.ltb_ge (Z.of_nat _) 0)) by lia.
  rewrite (proj2 (Z.ltb_lt (- _) 0)) by lia.
  rewrite take_ge by (rewrite length_drop; lia). f_equal. lia.
Qed.

(** [l.slice(0, n)] keeps the first [n] elements. *)
Lemma js_slice_first l (n : nat) : js_slice l 0 (Some (Z.of_nat n)) = take n l.
Proof.
  unfold js_slice, rel_index. simpl.
  rewrite (proj2 (Z.ltb_ge (Z.of_nat _) 0)) by lia. rewrite (Z.min_l 0) by lia. simpl. rewrite drop_0.
  destruct (decide (n ≤ length l)).
  - f_equal. lia.
  - rewrite !take_ge by lia. done.
Qed.

(** [l[i]] and [l[l.length - 1]]; out of range is [undefined]. *)
Definition js_at l (i : Z) : option A :=
  if (i <? 0)%Z then None else l !! Z.to_nat i.

(** [l.sort(cmp)], [cmp a b] saying whether the comparator returns a positive
    number, i.e. whether [b] must come before [a].  The sort is stable. *)
Fixpoint sort_insert (gt : A → A → bool) (x : A) l : list A :=
  match l with
  | [] => [x]
  | y :: l' => if gt x y then y :: sort_insert gt x l' else x :: l
  end.
Fixpoint js_sort (gt : A → A → bool) l : list A :=
  match l with
  | [] => []
  | x :: l' => sort_insert gt x (js_sort gt l')
  end.

Lemma sort_insert_perm gt x l : sort_insert gt x l ≡ₚ x :: l.
Proof.
  induction l as [|y l IH]; simpl; [done|]. case_if; [|done].
  rewrite IH. apply Permutation_swap.
Qed.

Lemma js_sort_perm gt l : js_sort gt l ≡ₚ l.
Proof. induction l; simpl; [done|]. by rewrite sort_insert_perm, IHl. Qed.

Lemma length_js_sort gt l : length (js_sort gt l) = length l.
Proof. apply Permutation_length, js_sort_perm. Qed.

(** A comparator is consistent on [P] when "not greater" is a total preorder
    there; then the result is ordered: no element is greater than a later one. *)
Record consistent (P : A → Prop) (gt : A → A → bool) : Prop := {
  cmp_asym x y : P x → P y → gt x y = true → gt y x = false;
  cmp_trans x y z : P x → P y → P z → gt x y = false → gt y z = false → gt x z = false;
}.

Definition ordered (gt : A → A → bool) l : Prop :=
  StronglySorted (λ x y, gt x y = false) l.

Lemma sort_insert_ordered P gt x l :
  consistent P gt → P x → Forall P l → ordered gt l → ordered gt (sort_insert gt x l).
Proof.
  intros Hc Hx HP. induction 1 as [|y l Hl IH Hy]; simpl; [by repeat constructor|].
  apply Forall_cons in HP as [HPy HPl]. destruct (gt x y) eqn:E.
  - constructor; [by apply IH|]. rewrite sort_insert_perm.
    constructor; [by eapply cmp_asym|done].
  - constructor; [by constructor|]. constructor; [done|].
    apply Forall_forall. intros z Hz. rewrite Forall_forall in Hy, HPl.
    eapply (cmp_trans P gt Hc x y z); auto.
Qed.

Lemma js_sort_ordered P gt l : consistent P gt → Forall P l → ordered gt (js_sort gt l).
Proof.
  intros Hc. induction 1 as [|x l Hx Hl IH]; simpl; [constructor|].
  eapply sort_insert_ordered; try done. by rewrite js_sort_perm.
Qed.

(** Stability: sorting an already ordered list changes nothing. *)
Lemma js_sort_id gt l : ordered gt l → js_sort gt l = l.
Proof.
  induction 1 as [|x l Hl IH Hx]; simpl; [done|]. rewrite IH.
  destruct l as [|y l]; simpl; [done|]. apply Forall_cons in Hx as [-> _]. done.
Qed.

Lemma ordered_lookup gt l i j x y :
  ordered gt l → i < j → l !! i = Some x → l !! j = Some y → gt x y = false.
Proof.
  intros Hs. revert i j. induction Hs as [|z l Hl IH Hz]; intros i j Hij; [done|].
  destruct j as [|j]; [lia|]. destruct i as [|i]; simpl; intros Hi Hj.
  - simplify_eq. rewrite Forall_forall in Hz. apply Hz. by eapply list_elem_of_lookup_2.
  - apply (IH i j); auto with lia.
Qed.
End Arr.
End Arr.
Export Arr.
#[export] Hint Rewrite @js_slice_first : js.
