(* ===== verification/JsString.v ===== *)
(** * JavaScript strings and the conversions from numbers to strings

    Strings are the UTF-8 encodings of the source's strings: concatenation,
    equality, [startsWith] and [endsWith] agree with the language's on valid
    text.  [number_toString] is the language's [Number::toString] (the shortest
    decimal that reads back as the same binary64), [toFixed] is
    [Number.prototype.toFixed], and the clock functions are those of [Date] on a
    local-time offset given as a parameter. *)

From Stdlib Require Import Ascii Qabs.
From S2P Require Export JsCollections.

#[local] Arguments String.append : simpl nomatch.

(** ** Prefixes and suffixes *)
Fixpoint starts_with (s p : string) : bool :=
  match p, s with
  | EmptyString, _ => true
  | String a p', String b s' => bool_decide (a = b) && starts_with s' p'
  | String _ _, EmptyString => false
  end.
Definition ends_with (s p : string) : bool :=
  (String.length p <=? String.length s)%nat
  && bool_decide (String.substring (String.length s - String.length p) (String.length p) s = p).

(** Concatenation of a list of strings, [xs.join(sep)]. *)
Fixpoint str_join (sep : string) (xs : list string) : string :=
  match xs with
  | [] => ""
  | [x] => x
  | x :: xs' => x +:+ sep +:+ str_join sep xs'
  end.

Lemma str_app_assoc s1 s2 s3 : (s1 +:+ s2) +:+ s3 = s1 +:+ (s2 +:+ s3).
Proof. induction s1 as [|c s1 IH]; simpl; [done|]. by rewrite IH. Qed.
Lemma str_app_nil s : s +:+ "" = s.
Proof. induction s as [|c s IH]; simpl; [done|]. by rewrite IH. Qed.
Lemma str_length_app s1 s2 : String.length (s1 +:+ s2) = String.length s1 + String.length s2.
Proof. induction s1 as [|c s1 IH]; simpl; [done|]. by rewrite IH. Qed.
Lemma str_substring_all s : String.substring 0 (String.length s) s = s.
Proof. induction s as [|c s IH]; simpl; [done|]. by rewrite IH. Qed.
Lemma str_substring_app s1 s2 :
  String.substring (String.length s1) (String.length s2) (s1 +:+ s2) = s2.
Proof. induction s1; simpl; [apply str_substring_all|done]. Qed.
Lemma str_substring_prefix s1 s2 : String.substring 0 (String.length s1) (s1 +:+ s2) = s1.
Proof. induction s1 as [|c s1 IH]; simpl; [by destruct s2|]. by rewrite IH. Qed.
Lemma str_app_inj_l s t1 t2 : s +:+ t1 = s +:+ t2 → t1 = t2.
Proof. induction s; simpl; [done|]. intros [=]. auto. Qed.

Lemma starts_with_spec s p : starts_with s p = true ↔ ∃ t, s = p +:+ t.
Proof.
  revert s. induction p as [|c p IH]; intros s; simpl.
  - split; [intros _; by exists s|by destruct s].
  - destruct s as [|c' s]; [split; [done|by intros [? ?]]|].
    simpl. rewrite andb_true_iff, bool_decide_eq_true, IH. split.
    + intros [-> [t ->]]. by exists t.
    + intros [t [= -> ->]]. split; [done|by exists t].
Qed.

Lemma str_split_at n s : n ≤ String.length s →
  s = String.substring 0 n s +:+ String.substring n (String.length s - n) s.
Proof.
  revert n. induction s as [|c s IH]; intros n Hn; simpl in *.
  - by assert (n = 0) as -> by lia.
  - destruct n as [|n]; simpl.
    + by rewrite str_substring_all.
    + f_equal. apply IH. lia.
Qed.

Lemma ends_with_spec s p : ends_with s p = true ↔ ∃ t, s = t +:+ p.
Proof.
  unfold ends_with. rewrite andb_true_iff, Nat.leb_le, bool_decide_eq_true. split.
  - intros [Hlen Hsub]. eexists.
    rewrite (str_split_at (String.length s - String.length p) s) at 1 by lia.
    f_equal. rewrite <-Hsub at 3. f_equal. lia.
  - intros [t ->]. rewrite str_length_app. split; [lia|].
    replace (_ + _ - _) with (String.length t) by lia. apply str_substring_app.
Qed.

(** ** Decimal numerals *)

(** [m] digits, the decimal point [f] digits from the right: the last steps of
    [toFixed], on the integer [n = x * 10^f] rounded. *)
Fixpoint zeros (n : nat) : string :=
  match n with 0 => "" | S n' => String "0"%char (zeros n') end.

Definition show_fixed (n : Z) (f : nat) : string :=
  let m := pretty n in
  if (f =? 0)%nat then m else
  let m := if (String.length m <=? f)%nat then zeros (f + 1 - String.length m) +:+ m else m in
  let k := String.length m in
  String.substring 0 (k - f) m +:+ "." +:+ String.substring (k - f) f m.

(** Reading a fixed-point numeral back: the digits as an integer and the number
    of digits after the point. *)
Fixpoint read_fixed (acc : Z) (dot : option nat) (s : string) : option (Z * nat) :=
  match s with
  | EmptyString => Some (acc, default 0 dot)
  | String a s' =>
      if bool_decide (a = "."%char) then
        match dot with None => read_fixed acc (Some 0) s' | Some _ => None end
      else
        let d := (Z.of_nat (Ascii.nat_of_ascii a) - 48)%Z in
        if (0 <=? d)%Z && (d <=? 9)%Z then read_fixed (10 * acc + d) (S <$> dot) s' else None
  end.

(** ** [Number::toString] *)

(** The binary64 nearest to [s * 10^p], for [0 < s]. *)
Definition sf_of_decimal (s : positive) (p : Z) : spec_float :=
  if (0 <=? p)%Z then
    SpecFloat.binary_normalize FloatOps.prec FloatOps.emax (Zpos s * 10 ^ p) 0 false
  else
    let '(m, e, l) := SpecFloat.SFdiv_core_binary FloatOps.prec FloatOps.emax
                        (Zpos s) 0 (10 ^ (- p)) 0 in
    SpecFloat.binary_round_aux FloatOps.prec FloatOps.emax false m e l.

Definition sf_eqb (x y : spec_float) : bool :=
  match x, y with
  | S754_zero a, S754_zero b | S754_infinity a, S754_infinity b => Bool.eqb a b
  | S754_nan, S754_nan => true
  | S754_finite s m e, S754_finite s' m' e' => Bool.eqb s s' && (m =? m')%positive && (e =? e')%Z
  | _, _ => false
  end.

(** The [n] with [10^(n-1) <= q < 10^n], for [0 < q]. *)
Fixpoint small_exponent (fuel : nat) (n : Z) (q : Q) : Z :=
  match fuel with
  | 0 => n
  | S fuel => if Qlt_bool (q * 10) 1 then small_exponent fuel (n - 1) (q * 10) else n
  end.
Definition dec_exponent (q : Q) : Z :=
  if Qlt_bool q 1 then small_exponent 400 0 q
  else Z.of_nat (String.length (pretty (Qfloor q))).

Definition Qpow10 (p : Z) : Q :=
  if (0 <=? p)%Z then inject_Z (10 ^ p) else 1 # Z.to_pos (10 ^ (- p)).

(** The [k]-digit integers around [q / 10^(n-k)] that read back as [x], the
    nearest first. *)
Definition digits_candidate (x : spec_float) (q : Q) (n : Z) (k : nat) : option Z :=
  let e := (n - Z.of_nat k)%Z in
  let r := (q / Qpow10 e)%Q in
  let lo := Qfloor r in
  let ok s := match s with Zpos p => sf_eqb (sf_of_decimal p e) x | _ => false end in
  let (a, b) := if Qle_bool (r - inject_Z lo) (1 # 2) then (lo, lo + 1)%Z else (lo + 1, lo)%Z in
  if ok a then Some a else if ok b then Some b else None.

Fixpoint shortest_digits (fuel k : nat) (x : spec_float) (q : Q) (n : Z) : option (Z * nat) :=
  match fuel with
  | 0 => None
  | S fuel => match digits_candidate x q n k with
              | Some s => Some (s, k)
              | None => shortest_digits fuel (S k) x q n
              end
  end.

(** The layout of [k] digits with the decimal point after the [n]-th. *)
Definition layout_digits (digits : string) (k : nat) (n : Z) : string :=
  let kz := Z.of_nat k in
  if (kz <=? n)%Z && (n <=? 21)%Z then digits +:+ zeros (Z.to_nat (n - kz))
  else if (0 <? n)%Z && (n <=? 21)%Z then
    String.substring 0 (Z.to_nat n) digits +:+ "."
      +:+ String.substring (Z.to_nat n) (k - Z.to_nat n) digits
  else if (-6 <? n)%Z && (n <=? 0)%Z then "0." +:+ zeros (Z.to_nat (- n)) +:+ digits
  else
    let e := (n - 1)%Z in
    let es := (if (0 <? e)%Z then "+" else "-") +:+ pretty (Z.abs e) in
    if (k =? 1)%nat then digits +:+ "e" +:+ es
    else String.substring 0 1 digits +:+ "." +:+ String.substring 1 (k - 1) digits
           +:+ "e" +:+ es.

Definition positive_toString (x : spec_float) (q : Q) : string :=
  let n := dec_exponent q in
  match shortest_digits 17 1 x q n with
  | Some (s, k) =>
      (* rounding up to a power of ten leaves the single digit 1 *)
      if (s =? 10 ^ Z.of_nat k)%Z then layout_digits "1" 1 (n + 1)
      else layout_digits (pretty s) k n
  | None => ""
  end.

(** [String(x)], [`${x}`] *)
Definition number_toString (x : float) : string :=
  match Prim2SF x with
  | S754_nan => "NaN"
  | S754_zero _ => "0"
  | S754_infinity s => if s then "-Infinity" else "Infinity"
  | S754_finite s m e =>
      let ax := S754_finite false m e in
      (if s then "-" else "") +:+ positive_toString ax (default 0%Q (sf_val ax))
  end.

(** [x.toFixed(f)] *)
Definition toFixed (x : float) (f : nat) : string :=
  match float_val x with
  | None => number_toString x
  | Some q =>
      let a := Qabs q in
      (if Qlt_bool q 0 then "-" else "") +:+
      (if Qle_bool (inject_Z (10 ^ 21)) a then number_toString (PrimFloat.abs x)
       else show_fixed (Qfloor (a * inject_Z (10 ^ Z.of_nat f) + (1 # 2))%Q) f)
  end.


(** ** Numerals read back *)
Lemma dec_value_cons acc d s :
  (0 <= d < 10)%N →
  dec_value acc (String (pretty_N_char d) s) = dec_value (10 * acc + Z.of_N d) s.
Proof.
  intros Hd. assert (d ∈ [0;1;2;3;4;5;6;7;8;9]%N) as Hin.
  { assert (∃ k, k < 10 ∧ d = N.of_nat k) as (k&Hk&->) by (exists (N.to_nat d); lia).
    do 10 (destruct k as [|k]; [set_solver|]). lia. }
  repeat (apply elem_of_cons in Hin as [->|Hin]; [done|]). by apply elem_of_nil in Hin.
Qed.

Lemma dec_value_pretty_go x s : dec_value 0 (pretty_N_go x s) = dec_value (Z.of_N x) s.
Proof.
  revert s. induction (N.lt_wf_0 x) as [x _ IH]; intros s.
  destruct (decide (x = 0)%N) as [->|Hx]; [done|].
  rewrite pretty_N_go_step by lia. rewrite IH by (apply N.div_lt; lia).
  rewrite dec_value_cons by (split; [apply N.le_0_l|by apply N.mod_lt]).
  f_equal. rewrite (N.div_mod x 10) at 3 by done.
  by rewrite N2Z.inj_add, N2Z.inj_mul.
Qed.

Lemma dec_value_pretty (n : Z) : (0 <= n)%Z → dec_value 0 (pretty n) = Some n.
Proof.
  intros Hn. destruct n as [|p|p]; [done| |lia].
  change (pretty (Z.pos p)) with (pretty (N.pos p)). unfold pretty, pretty_N.
  rewrite decide_False by done. by rewrite dec_value_pretty_go.
Qed.

Lemma dec_value_app acc s t : dec_value acc (s +:+ t) = dec_value acc s ≫= λ v, dec_value v t.
Proof.
  revert acc. induction s as [|a s IH]; intros acc; simpl; [done|]. case_if; [apply IH|done].
Qed.

Lemma dec_value_zeros k s : dec_value 0 (zeros k +:+ s) = dec_value 0 s.
Proof. induction k; simpl; [done|]. exact IHk. Qed.

Lemma read_fixed_digit a acc dot s :
  a ≠ "."%char →
  read_fixed acc dot (String a s) =
    let d := (Z.of_nat (Ascii.nat_of_ascii a) - 48)%Z in
    if (0 <=? d)%Z && (d <=? 9)%Z then read_fixed (10 * acc + d) (S <$> dot) s else None.
Proof. intros Ha. cbn [read_fixed]. by rewrite bool_decide_eq_false_2. Qed.

Lemma digit_not_dot a :
  (0 <=? Z.of_nat (Ascii.nat_of_ascii a) - 48)%Z = true → a ≠ "."%char.
Proof. by intros H ->. Qed.

Lemma read_fixed_int acc s t v :
  dec_value acc s = Some v → read_fixed acc None (s +:+ t) = read_fixed v None t.
Proof.
  revert acc. induction s as [|a s IH]; intros acc; simpl; [by intros [= ->]|].
  intros H. case_if_in H; [|done].
  rewrite bool_decide_eq_false_2 by (bool_to_prop; apply digit_not_dot, Z.leb_le; lia).
  by apply IH.
Qed.

Lemma read_fixed_frac acc s j v :
  dec_value acc s = Some v →
  read_fixed acc (Some j) s = Some (v, j + String.length s).
Proof.
  revert acc j. induction s as [|a s IH]; intros acc j; simpl.
  { intros [= ->]. by rewrite Nat.add_0_r. }
  intros H. case_if_in H; [|done].
  rewrite bool_decide_eq_false_2 by (bool_to_prop; apply digit_not_dot, Z.leb_le; lia).
  rewrite (IH _ (S j)) by done. do 2 f_equal. lia.
Qed.

Lemma str_length_zeros k : String.length (zeros k) = k.
Proof. induction k; simpl; auto. Qed.

Lemma str_length_substring n m s :
  n + m ≤ String.length s → String.length (String.substring n m s) = m.
Proof.
  revert n m. induction s as [|a s IH]; intros n m; simpl.
  - intros. assert (n = 0 ∧ m = 0) as [-> ->] by lia. done.
  - destruct n as [|n]; intros H.
    + destruct m as [|m]; [done|]. simpl. rewrite IH; lia.
    + apply IH. lia.
Qed.

(** The digits [toFixed] prints denote the rounded integer, with [f] decimals. *)
Lemma read_show_fixed n f : (0 <= n)%Z → read_fixed 0 None (show_fixed n f) = Some (n, f).
Proof.
  intros Hn. unfold show_fixed. case_if.
  { apply Nat.eqb_eq in Hif as ->. rewrite <-(str_app_nil (pretty n)).
    by rewrite (read_fixed_int _ _ _ n) by by apply dec_value_pretty. }
  match goal with |- context [String.length ?m - f] => set (m' := m) end.
  assert (dec_value 0 m' = Some n ∧ f < String.length m') as [Hm Hlen].
  { subst m'. case_if.
    - rewrite dec_value_zeros, str_length_app, str_length_zeros.
      apply Nat.leb_le in Hif0. split; [by apply dec_value_pretty|lia].
    - apply Nat.leb_gt in Hif0. split; [by apply dec_value_pretty|lia]. }
  clearbody m'.
  assert (m' = String.substring 0 (String.length m' - f) m'
            +:+ String.substring (String.length m' - f) f m') as Hsplit.
  { rewrite (str_split_at (String.length m' - f) m') at 1 by lia. do 2 f_equal. lia. }
  rewrite Hsplit, dec_value_app in Hm.
  destruct (dec_value 0 (String.substring 0 _ m')) as [v|] eqn:Hv; [simpl in Hm|done].
  rewrite (read_fixed_int _ _ _ v) by done. cbn [read_fixed String.append].
  rewrite bool_decide_eq_true_2 by done.
  rewrite (read_fixed_frac _ _ _ n) by done. by rewrite str_length_substring by lia.
Qed.

(** ** The order of [Array.prototype.sort] without a comparator

    Strings are compared as sequences of UTF-16 code units. *)
Definition byte_val (a : ascii) : Z := Z.of_nat (nat_of_ascii a).
Fixpoint code_points (s : string) : list Z :=
  match s with
  | EmptyString => []
  | String a s1 =>
      let b := byte_val a in
      if (b <? 128)%Z then b :: code_points s1
      else match s1 with
           | EmptyString => []
           | String c s2 =>
               if (b <? 224)%Z then ((b - 192) * 64 + (byte_val c - 128))%Z :: code_points s2
               else match s2 with
                    | EmptyString => []
                    | String d s3 =>
                        if (b <? 240)%Z then
                          ((b - 224) * 4096 + (byte_val c - 128) * 64 + (byte_val d - 128))%Z :: code_points s3
                        else match s3 with
                             | EmptyString => []
                             | String e s4 =>
                                 ((b - 240) * 262144 + (byte_val c - 128) * 4096
                                  + (byte_val d - 128) * 64 + (byte_val e - 128))%Z :: code_points s4
                             end
                    end
           end
  end.
Definition utf16 (cp : Z) : list Z :=
  if (cp <? 65536)%Z then [cp]
  else [(55296 + (cp - 65536) / 1024)%Z; (56320 + (cp - 65536) mod 1024)%Z].
Definition code_units (s : string) : list Z := flat_map utf16 (code_points s).

Fixpoint lex_gt (l k : list Z) : bool :=
  match l, k with
  | [], _ => false
  | _ :: _, [] => true
  | x :: l, y :: k => (y <? x)%Z || ((x =? y)%Z && lex_gt l k)
  end.
Definition string_gt (a b : string) : bool := lex_gt (code_units a) (code_units b).

Lemma lex_gt_consistent : consistent (λ _, True) lex_gt.
Proof.
  split.
  - intros x y _ _. revert y. induction x as [|a x IH]; intros [|b y]; simpl; try done.
    rewrite orb_true_iff, andb_true_iff, Z.ltb_lt, Z.eqb_eq. intros Hgt.
    apply orb_false_iff. rewrite andb_false_iff, Z.ltb_ge, Z.eqb_neq. split; [lia|].
    destruct Hgt as [?|[-> Hgt]]; [left; lia|right; auto].
  - intros x y z _ _ _. revert y z.
    induction x as [|a x IH]; intros [|b y] [|c z]; simpl; try done.
    rewrite !orb_false_iff, !andb_false_iff, !Z.ltb_ge, !Z.eqb_neq. intros [H1 H2] [H3 H4].
    split; [lia|]. destruct (decide (a = c)) as [->|]; [right|by left].
    assert (b = c) as -> by lia. destruct H2, H4; try lia. eauto.
Qed.

Lemma string_gt_consistent : consistent (λ _, True) string_gt.
Proof. destruct lex_gt_consistent as [H1 H2]. split; unfold string_gt; eauto. Qed.
