(* ===== verification/Types.v ===== *)
(** * The data of the dashboard

    The interfaces of [frontend/src/types.ts], the message envelope the
    collector sends, and the constant tables of [frontend/src/constants].  Each
    record sits in a Module of its own so that the fields keep their names.
    Optional fields ([f?: T]) are [option]s. *)

From Stdlib Require Import Ascii.
From S2P Require Export JsString.

Abbreviation number := float (only parsing).

Inductive CauseKind := Network | Cpu | Io | Memory | External.
Inductive Stress := StressCpu | StressIo | StressMemory.
(** [StressKind] is ['cpu' | 'io' | 'memory' | null]. *)
Definition StressKind := option Stress.
Inductive NodeType := Internal | ExternalNode.
Inductive Severity := Warning | Critical.

#[export] Instance CauseKind_eq_dec : EqDecision CauseKind.
Proof. solve_decision. Defined.
#[export] Instance Stress_eq_dec : EqDecision Stress.
Proof. solve_decision. Defined.
#[export] Instance StressKind_eq_dec : EqDecision StressKind.
Proof. unfold StressKind. solve_decision. Defined.
#[export] Instance NodeType_eq_dec : EqDecision NodeType.
Proof. solve_decision. Defined.
#[export] Instance Severity_eq_dec : EqDecision Severity.
Proof. solve_decision. Defined.

Module Close.
Record CloseStates := mkClose { fin : number; rst : number; timeout : number }.
End Close.

Module Snap.
Record StatSnapshot := mkStat {
  src_service : string;
  dst_service : string;
  src_type : NodeType;
  dst_type : NodeType;
  latest_srtt_us : number;
  avg_us : number;
  p50_us : number;
  p95_us : number;
  p99_us : number;
  jitter_us : number;
  retransmit_count : number;
  sample_count : number;
  is_spike : bool;
  spike_threshold_us : number;
  cause_kind : option CauseKind;
  close_states : option Close.CloseStates;
  dst_cpu_pct : option number;
  dst_io_wait_pct : option number;
  dst_mem_pressure_pct : option number;
  baseline_us : option number;
}.
End Snap.

Module RPoint.
Record ResourcePoint := mkRPoint {
  time : number;
  cpu_pct : number;
  io_wait_pct : number;
  mem_pressure_pct : number;
  cpu_throttle_pct : number;
}.
End RPoint.

Module Svc.
Record ServiceSnapshot := mkSvc {
  name : string;
  cpu_pct : number;
  io_wait_pct : number;
  mem_pressure_pct : number;
  cpu_throttle_pct : number;
  stress_kind : StressKind;
  history : list RPoint.ResourcePoint;
}.
End Svc.

Module Spike.
Record SpikeEvent := mkSpike {
  id : string;
  timestamp : number;
  key : string;
  src : string;
  dst : string;
  p99_us : number;
  baseline_us : number;
  severity : Severity;
  cause_kind : CauseKind;
  dst_cpu_pct : number;
  dst_io_wait_pct : number;
  dst_mem_pressure_pct : number;
}.
End Spike.

Module HPoint.
Record HistoryPoint := mkHPoint {
  time : number;
  latest_srtt_us : number;
  avg_us : number;
  p50_us : number;
  p95_us : number;
  p99_us : number;
  jitter_us : number;
}.
End HPoint.

Module Conn.
Record ConnHistory := mkConn { key : string; points : list HPoint.HistoryPoint }.
End Conn.

Module Res.
Record ResourceMsg := mkRes {
  service_name : string;
  timestamp_ms : number;
  cpu_pct : number;
  cpu_throttle_pct : number;
  mem_current_bytes : number;
  mem_limit_bytes : number;
  mem_pressure_pct : number;
  io_read_bytes_per_s : number;
  io_write_bytes_per_s : number;
  io_wait_pct : number;
  oom_kill_count : number;
}.
End Res.

Inductive MsgType := MStats | MEvent | MRemove | MHistory | MResource.
#[export] Instance MsgType_eq_dec : EqDecision MsgType.
Proof. solve_decision. Defined.

Module Out.
Record OutboundMsg := mkOut {
  msg_type : MsgType;
  stats : option Snap.StatSnapshot;
  remove_key : option string;
  history : option (list Conn.ConnHistory);
  resource : option Res.ResourceMsg;
}.
End Out.

Abbreviation StatSnapshot := Snap.StatSnapshot.
Abbreviation CloseStates := Close.CloseStates.
Abbreviation ResourcePoint := RPoint.ResourcePoint.
Abbreviation ServiceSnapshot := Svc.ServiceSnapshot.
Abbreviation SpikeEvent := Spike.SpikeEvent.
Abbreviation HistoryPoint := HPoint.HistoryPoint.
Abbreviation ConnHistory := Conn.ConnHistory.
Abbreviation ResourceMsg := Res.ResourceMsg.
Abbreviation OutboundMsg := Out.OutboundMsg.

(** The state of the hooks: [Record<string, ...>] dictionaries. *)
Abbreviation SnapshotMap := (jsobj StatSnapshot).
Abbreviation ServiceMap := (jsobj ServiceSnapshot).
Abbreviation HistoryMap := (jsobj (list HistoryPoint)).

(** ** Connection keys

    The key of a connection is the string [`${src}→${dst}`]; the collector
    builds the same string for [remove_key] and [ConnHistory.key]. *)
Definition arrow : string := "→".
Definition conn_key (src dst : string) : string := src +:+ arrow +:+ dst.
Definition snap_key (s : StatSnapshot) : string :=
  conn_key (Snap.src_service s) (Snap.dst_service s).

(** A name without the lead byte of the arrow, hence without the arrow. *)
Definition arrow_byte : ascii := "226"%char.
Fixpoint arrow_free (s : string) : bool :=
  match s with
  | EmptyString => true
  | String a s' => negb (bool_decide (a = arrow_byte)) && arrow_free s'
  end.

(** Keys determine their end points when names do not contain the arrow. *)
Lemma conn_key_inj s1 d1 s2 d2 :
  arrow_free s1 = true → arrow_free s2 = true →
  conn_key s1 d1 = conn_key s2 d2 → s1 = s2 ∧ d1 = d2.
Proof.
  unfold conn_key. revert s2.
  induction s1 as [|a s1 IH]; intros [|b s2] H1 H2; cbn in *; intros Heq.
  - by simplify_eq.
  - injection Heq as <- _. done.
  - injection Heq as -> _. done.
  - injection Heq as <- Heq. bool_to_prop.
    destruct (IH s2) as [-> ->]; done.
Qed.

Lemma snap_key_inj s t :
  arrow_free (Snap.src_service s) = true → arrow_free (Snap.src_service t) = true →
  snap_key s = snap_key t →
  Snap.src_service s = Snap.src_service t ∧ Snap.dst_service s = Snap.dst_service t.
Proof. apply conn_key_inj. Qed.

(** A key contains the arrow, so it is never an array index: dictionaries of
    connections enumerate in creation order. *)
Lemma dec_value_conn_key acc src dst : dec_value acc (conn_key src dst) = None.
Proof.
  unfold conn_key. rewrite dec_value_app. destruct (dec_value acc src); reflexivity.
Qed.

Lemma array_index_conn_key src dst : array_index (conn_key src dst) = None.
Proof.
  unfold array_index. rewrite dec_value_conn_key. by destruct (conn_key src dst).
Qed.

(** ** The tables of [constants/causes.ts] and [constants/topology.ts] *)
Module Meta.
Record CauseMeta := mkMeta { label : string; color : string; icon : string; desc : string }.
End Meta.

Definition CAUSE_META (c : CauseKind) : Meta.CauseMeta :=
  match c with
  | Network => Meta.mkMeta "Network" "#2563eb" "🌐" "TCP/네트워크 지연 또는 재전송"
  | Cpu => Meta.mkMeta "CPU" "#dc2626" "🔥" "CPU throttling 또는 포화"
  | Io => Meta.mkMeta "Disk I/O" "#7c3aed" "💾" "I/O wait 대기 시간 증가"
  | Memory => Meta.mkMeta "Memory" "#ea580c" "🧠" "Memory pressure 발생"
  | External => Meta.mkMeta "External API" "#d97706" "🔌" "외부 의존성 지연"
  end.

Module Pos.
Record Point (T : Type) := mkPoint { x : T; y : T }.
Arguments mkPoint {T}.
Arguments x {T}.
Arguments y {T}.
End Pos.
Abbreviation Point := Pos.Point.

Section Positions.
Context {T : Type} `{Num T}.
Definition pt (a b : Z) : Point T := Pos.mkPoint (nlit a 100) (nlit b 100).
Definition NODE_POS : jsobj (Point T) := [
  ("api-gateway", pt 50 8);
  ("auth-svc", pt 18 35);
  ("order-svc", pt 78 35);
  ("redis", pt 5 66);
  ("payment-svc", pt 50 64);
  ("inventory-svc", pt 95 66);
  ("notif-svc", pt 78 93);
  ("postgres", pt 28 93);
  ("kafka", pt 96 96);
  ("stripe-api", pt 52 93)
].
End Positions.

Definition INTERNAL_SERVICES : list string :=
  ["api-gateway"; "auth-svc"; "order-svc"; "payment-svc"; "inventory-svc"; "notif-svc"].
