(* ===== verification/Format.v ===== *)
(** * Formatting: [frontend/src/utils/format.ts]

    Latency values with their unit, clock times, ages, and the latency status
    that drives every colour of the dashboard. *)

From S2P Require Export Types.

Local Open Scope num_scope.

(** ** Latency with a unit *)
Definition fmtUs (us : number) : string :=
  if us >=? N[1000000] then toFixed (us / N[1000000]) 1 +:+ "s"
  else if us >=? N[1000] then
    toFixed (us / N[1000]) (if us >=? N[10000] then 1 else 2) +:+ "ms"
  else number_toString (nround us) +:+ "µs".

Definition fmtYLabel (us : number) : string :=
  if us >=? N[1000000] then toFixed (us / N[1000000]) 1 +:+ "s"
  else if us >=? N[1000] then
    toFixed (us / N[1000]) (if us >=? N[10000] then 0 else 1) +:+ "ms"
  else number_toString (nround us) +:+ "µs".

(** ** Clock time

    [new Date(ms).toTimeString()] is ["HH:MM:SS GMT+hhmm (zone)"] on the local
    time, and ["Invalid Date"] beyond 8.64e15 ms; the offset of the local time
    and the text after the seconds depend on the machine. *)
Definition two_digits (n : Z) : string :=
  if (n <? 10)%Z then "0" +:+ pretty n else pretty n.

(** [TimeClip]: the integral part, none when out of range. *)
Definition time_clip (ms : number) : option Z :=
  match nval ms with
  | Some q =>
      let t := if Qlt_bool q 0 then Qceiling q else Qfloor q in
      if (Z.abs t <=? 8640000000000000)%Z then Some t else None
  | None => None
  end.

Section Clock.
Variable local_offset : Z → Z.
Variable zone_suffix : Z → string.

Definition local_time (t : Z) : Z := (t + local_offset t)%Z.
Definition hour_from (t : Z) : Z := (t / 3600000 mod 24)%Z.
Definition min_from (t : Z) : Z := (t / 60000 mod 60)%Z.
Definition sec_from (t : Z) : Z := (t / 1000 mod 60)%Z.

Definition toTimeString (ms : number) : string :=
  match time_clip ms with
  | None => "Invalid Date"
  | Some t =>
      let t := local_time t in
      two_digits (hour_from t) +:+ ":" +:+ two_digits (min_from t) +:+ ":"
        +:+ two_digits (sec_from t) +:+ zone_suffix t
  end.

Definition fmtTime (ms : number) : string := String.substring 0 8 (toTimeString ms).
End Clock.

(** [timeAgo]: [now] is the reading of [Date.now()]. *)
Definition timeAgo (now ts : number) : string :=
  let s := nfloor ((now - ts) / N[1000]) in
  if s <? N[60] then number_toString s +:+ "s ago"
  else if s <? N[3600] then number_toString (nfloor (s / N[60])) +:+ "m ago"
  else number_toString (nfloor (s / N[3600])) +:+ "h ago".

(** ** Latency status *)
Inductive Status := Ok | Warn | High | Crit.
#[export] Instance Status_eq_dec : EqDecision Status.
Proof. solve_decision. Defined.

Definition latencyStatus (p99_us : number) : Status :=
  if p99_us <? N[5000] then Ok
  else if p99_us <? N[20000] then Warn
  else if p99_us <? N[100000] then High
  else Crit.

Definition STATUS_COLOR (s : Status) : string :=
  match s with Ok => "#16a34a" | Warn => "#d97706" | High => "#ea580c" | Crit => "#dc2626" end.
Definition STATUS_BG (s : Status) : string :=
  match s with Ok => "#dcfce7" | Warn => "#fef3c7" | High => "#fed7aa" | Crit => "#fee2e2" end.

(** The text [{status}] renders to. *)
Definition status_text (s : Status) : string :=
  match s with Ok => "ok" | Warn => "warning" | High => "high" | Crit => "critical" end.

Definition severity_rank (s : Status) : nat :=
  match s with Ok => 0 | Warn => 1 | High => 2 | Crit => 3 end.

(** ** Facts on the status *)
Lemma latencyStatus_rank p :
  severity_rank (latencyStatus p) =
    (if p <? N[5000] then 0 else if p <? N[20000] then 1 else if p <? N[100000] then 2 else 3).
Proof. unfold latencyStatus. by repeat case_if. Qed.

(** The status never improves when the latency grows. *)
Theorem latencyStatus_monotone (p q : number) :
  (p <=? q) = true → (severity_rank (latencyStatus p) <= severity_rank (latencyStatus q))%nat.
Proof.
  intros Hpq. rewrite !latencyStatus_rank.
  assert (∀ b : number, (q <? b) = true → (p <? b) = true) as Hlt
    by (intros b; by apply nltb_trans_r).
  repeat case_if; try lia;
    match goal with
    | H : (q <? ?b) = true, H' : (p <? ?b) = false |- _ => rewrite (Hlt _ H) in H'; done
    end.
Qed.
Lemma latencyStatus_monotone_witness :
  (severity_rank (latencyStatus 19999) <= severity_rank (latencyStatus 20000))%nat.
Proof. apply latencyStatus_monotone. reflexivity. Defined.
