(* ===== verification/Store.v ===== *)
(** * The client store: the message handler of [hooks/useWebSocket.ts]

    [Store] is the state of the four data hooks.  Each [setX(prev => ...)] of the
    handler is a [*_updater]; [on_message] applies the updaters of one message
    at once.  [Hooks] below is the code's own granularity: a message only queues
    updaters, each hook drains its queue on its own at render time, and the
    snapshot updater queues the event updater from inside. *)

From S2P Require Export Format.

Module Store.
Record Store := mkStore {
  snapshots : SnapshotMap;
  services : ServiceMap;
  history : HistoryMap;
  events : list SpikeEvent;
}.
End Store.
Abbreviation Store := Store.Store.

Definition MAX_HISTORY : Z := 3600.
Definition MAX_EVENTS : Z := 100.
Definition MAX_RESOURCE : Z := 300.

(** The readings of [Date.now()] one handler call makes: for the event id, for
    the event's time stamp and for the history point.  They are integers, and
    their numeral is the decimal one. *)
Record Clock := mkClock { now_id : Z; now_ts : Z; now_hist : Z }.

Definition initial_store : Store := Store.mkStore obj_empty obj_empty obj_empty [].

(** ** The updaters *)
Definition spike_event (clk : Clock) (key : string) (snap : StatSnapshot) : SpikeEvent :=
  Spike.mkSpike
    (key +:+ "-" +:+ pretty (now_id clk))
    (nofZ (now_ts clk))
    key
    (Snap.src_service snap)
    (Snap.dst_service snap)
    (Snap.p99_us snap)
    (Snap.baseline_us snap ?? (Snap.spike_threshold_us snap / N[3])%num)
    (if (Snap.p99_us snap >? N[80000])%num then Critical else Warning)
    (Snap.cause_kind snap ?? Network)
    (Snap.dst_cpu_pct snap ?? N[0]%num)
    (Snap.dst_io_wait_pct snap ?? N[0]%num)
    (Snap.dst_mem_pressure_pct snap ?? N[0]%num).

(** [setSnapshots]: the new map, and the event the updater hands to [setEvents]. *)
Definition snapshots_updater (clk : Clock) (snap : StatSnapshot) (prev : SnapshotMap)
    : SnapshotMap * option SpikeEvent :=
  let key := snap_key snap in
  let ev :=
    match obj_get prev key with
    | Some prevSnap =>
        if Snap.is_spike snap && negb (Snap.is_spike prevSnap)
        then Some (spike_event clk key snap) else None
    | None => None
    end in
  (obj_set prev key snap, ev).

Definition events_updater (ev : SpikeEvent) (prev : list SpikeEvent) : list SpikeEvent :=
  js_slice (ev :: prev) 0 (Some MAX_EVENTS).

Definition stat_point (clk : Clock) (snap : StatSnapshot) : HistoryPoint :=
  HPoint.mkHPoint (nofZ (now_hist clk)) (Snap.latest_srtt_us snap) (Snap.avg_us snap)
    (Snap.p50_us snap) (Snap.p95_us snap) (Snap.p99_us snap) (Snap.jitter_us snap).

Definition history_updater (clk : Clock) (snap : StatSnapshot) (prev : HistoryMap) : HistoryMap :=
  let key := snap_key snap in
  let existing := obj_get prev key ?? [] in
  obj_set prev key (js_slice (existing ++ [stat_point clk snap]) (- MAX_HISTORY) None).

(** The field-by-field copy of a point of a ['history'] message. *)
Definition copy_point (p : HistoryPoint) : HistoryPoint :=
  HPoint.mkHPoint (HPoint.time p) (HPoint.latest_srtt_us p) (HPoint.avg_us p)
    (HPoint.p50_us p) (HPoint.p95_us p) (HPoint.p99_us p) (HPoint.jitter_us p).

Definition history_of_msg (conns : list ConnHistory) : HistoryMap :=
  foldl (λ next conn, obj_set next (Conn.key conn) (map copy_point (Conn.points conn)))
    obj_empty conns.

Definition services_updater (r : ResourceMsg) (prev : ServiceMap) : ServiceMap :=
  let existing := obj_get prev (Res.service_name r) in
  let point := RPoint.mkRPoint (Res.timestamp_ms r) (Res.cpu_pct r) (Res.io_wait_pct r)
                 (Res.mem_pressure_pct r) (Res.cpu_throttle_pct r) in
  let history :=
    js_slice (((Svc.history <$> existing) ?? []) ++ [point]) (- MAX_RESOURCE) None in
  obj_set prev (Res.service_name r)
    (Svc.mkSvc (Res.service_name r) (Res.cpu_pct r) (Res.io_wait_pct r)
       (Res.mem_pressure_pct r) (Res.cpu_throttle_pct r)
       (existing ≫= Svc.stress_kind) history).

(** ** The handler

    A branch is taken when the tag matches and its payload is truthy. *)
Inductive Action :=
  | AStats (snap : StatSnapshot)
  | AHistory (conns : list ConnHistory)
  | AResource (r : ResourceMsg)
  | ARemove (key : string)
  | AIgnore.

Definition dispatch (msg : OutboundMsg) : Action :=
  match Out.msg_type msg, Out.stats msg, Out.history msg, Out.resource msg, Out.remove_key msg with
  | MStats, Some snap, _, _, _ => AStats snap
  | MHistory, _, Some conns, _, _ => AHistory conns
  | MResource, _, _, Some r, _ => AResource r
  | MRemove, _, _, _, Some key => if bool_decide (key = "") then AIgnore else ARemove key
  | _, _, _, _, _ => AIgnore
  end.

Definition apply_action (clk : Clock) (a : Action) (s : Store) : Store :=
  match a with
  | AStats snap =>
      let '(snaps, ev) := snapshots_updater clk snap (Store.snapshots s) in
      Store.mkStore snaps (Store.services s)
        (history_updater clk snap (Store.history s))
        (match ev with
         | Some ev => events_updater ev (Store.events s)
         | None => Store.events s
         end)
  | AHistory conns =>
      Store.mkStore (Store.snapshots s) (Store.services s) (history_of_msg conns) (Store.events s)
  | AResource r =>
      Store.mkStore (Store.snapshots s) (services_updater r (Store.services s))
        (Store.history s) (Store.events s)
  | ARemove key =>
      Store.mkStore (obj_delete (Store.snapshots s) key) (Store.services s)
        (obj_delete (Store.history s) key) (Store.events s)
  | AIgnore => s
  end.

(** The clock of a call is fixed here, when the message arrives; the source reads
    it inside the updaters, each of which runs once, possibly later: [clk] is
    what that run will read. *)
Definition on_message (clk : Clock) (msg : OutboundMsg) (s : Store) : Store :=
  apply_action clk (dispatch msg) s.

(** A run: messages with the clock readings of their handler calls, oldest first. *)
Abbreviation Trace := (list (Clock * OutboundMsg)).
Definition run_from (s : Store) (tr : Trace) : Store :=
  foldl (λ s m, on_message m.1 m.2 s) s tr.
Definition run (tr : Trace) : Store := run_from initial_store tr.

Lemma run_snoc tr m : run (tr ++ [m]) = on_message m.1 m.2 (run tr).
Proof. unfold run, run_from. by rewrite foldl_app. Qed.

(** ** The specification: what each field holds, as a function of the trace *)

(** The last snapshot received for [key] since it was last removed. *)
Definition last_stat_step (key : string) (cur : option StatSnapshot) (a : Action) :=
  match a with
  | AStats snap => if bool_decide (snap_key snap = key) then Some snap else cur
  | ARemove k => if bool_decide (k = key) then None else cur
  | _ => cur
  end.
Definition last_stat (key : string) (tr : Trace) : option StatSnapshot :=
  foldl (λ cur m, last_stat_step key cur (dispatch m.2)) None tr.

(** The spike event [m] raises after [tr]: its connection was known and calm and
    is now spiking. *)
Definition spike_of (tr : Trace) (m : Clock * OutboundMsg) : option SpikeEvent :=
  match dispatch m.2 with
  | AStats snap =>
      match last_stat (snap_key snap) tr with
      | Some prev => if Snap.is_spike snap && negb (Snap.is_spike prev)
                     then Some (spike_event m.1 (snap_key snap) snap) else None
      | None => None
      end
  | _ => None
  end.

(** All the spike events of [tr] received after [pre], newest first. *)
Fixpoint spikes_from (pre tr : Trace) : list SpikeEvent :=
  match tr with
  | [] => []
  | m :: tr' => spikes_from (pre ++ [m]) tr' ++ option_list (spike_of pre m)
  end.

(** The points of [key] since the last ['history'] or ['remove'], unbounded. *)
Definition last_conn (key : string) (conns : list ConnHistory) : option ConnHistory :=
  last (filter (λ c, Conn.key c = key) conns).
Definition points_step (key : string) (cur : list HistoryPoint) (m : Clock * OutboundMsg) :=
  match dispatch m.2 with
  | AStats snap =>
      if bool_decide (snap_key snap = key) then cur ++ [stat_point m.1 snap] else cur
  | AHistory conns => (Conn.points <$> last_conn key conns) ?? []
  | ARemove k => if bool_decide (k = key) then [] else cur
  | _ => cur
  end.
Definition all_points (key : string) (tr : Trace) : list HistoryPoint :=
  foldl (points_step key) [] tr.

(** The last [n] elements. *)
Definition lastn {A} (n : nat) (l : list A) : list A := drop (length l - n) l.

Lemma lastn_short {A} n (l : list A) : length l ≤ n → lastn n l = l.
Proof. intros. unfold lastn. by replace (length l - n) with 0 by lia. Qed.
Lemma lastn_snoc {A} n (l : list A) x : 0 < n → lastn n (lastn n l ++ [x]) = lastn n (l ++ [x]).
Proof.
  intros Hn. unfold lastn. rewrite !drop_last_app by (simpl; lia). f_equal.
  rewrite length_drop, drop_drop. f_equal. simpl. lia.
Qed.
Lemma length_lastn {A} n (l : list A) : length (lastn n l) ≤ n.
Proof. unfold lastn. rewrite length_drop. lia. Qed.

Lemma slice_history {A} (l : list A) : js_slice l (- MAX_HISTORY) None = lastn 3600 l.
Proof. exact (js_slice_last l 3600 ltac:(lia)). Qed.
Lemma slice_resource {A} (l : list A) : js_slice l (- MAX_RESOURCE) None = lastn 300 l.
Proof. exact (js_slice_last l 300 ltac:(lia)). Qed.
Lemma slice_events {A} (l : list A) : js_slice l 0 (Some MAX_EVENTS) = take 100 l.
Proof. exact (js_slice_first l 100). Qed.

Lemma copy_point_id p : copy_point p = p.
Proof. by destruct p. Qed.
Lemma map_copy_point ps : map copy_point ps = ps.
Proof. induction ps as [|p ps IH]; simpl; [done|]. by rewrite copy_point_id, IH. Qed.

(** The snapshot map as a whole: one entry per connection, under its own key. *)
Definition keyed (m : SnapshotMap) : Prop :=
  ∀ k snap, obj_get m k = Some snap → k = snap_key snap.

Record store_inv (s : Store) : Prop := {
  inv_snapshots_wf : obj_wf (Store.snapshots s);
  inv_services_wf : obj_wf (Store.services s);
  inv_history_wf : obj_wf (Store.history s);
  inv_keyed : keyed (Store.snapshots s);
  inv_events : length (Store.events s) ≤ 100;
  inv_resource : ∀ k svc, obj_get (Store.services s) k = Some svc →
    k = Svc.name svc ∧ length (Svc.history svc) ≤ 300;
}.

Lemma keyed_set m snap : keyed m → keyed (obj_set m (snap_key snap) snap).
Proof.
  intros Hm k s. destruct (decide (snap_key snap = k)) as [<-|Hne].
  - rewrite obj_get_set_eq. by intros [= <-].
  - rewrite obj_get_set_ne by done. apply Hm.
Qed.
Lemma keyed_delete m k : keyed m → keyed (obj_delete m k).
Proof.
  intros Hm k' s. rewrite obj_get_delete. case_bool_decide; [done|]. apply Hm.
Qed.

Lemma history_of_msg_wf conns : obj_wf (history_of_msg conns).
Proof.
  unfold history_of_msg. generalize (@obj_empty_wf (list HistoryPoint)).
  generalize (@obj_empty (list HistoryPoint)).
  induction conns as [|c cs IH]; intros m Hm; simpl; [done|]. apply IH. auto with js.
Qed.
#[export] Hint Resolve keyed_set keyed_delete history_of_msg_wf : js.

Lemma services_updater_inv r m :
  (∀ k svc, obj_get m k = Some svc → k = Svc.name svc ∧ length (Svc.history svc) ≤ 300) →
  ∀ k svc, obj_get (services_updater r m) k = Some svc →
    k = Svc.name svc ∧ length (Svc.history svc) ≤ 300.
Proof.
  intros Hm k svc. unfold services_updater.
  destruct (decide (Res.service_name r = k)) as [<-|Hne].
  - rewrite obj_get_set_eq. intros [= <-]. simpl. split; [done|].
    rewrite slice_resource. apply length_lastn.
  - rewrite obj_get_set_ne by done. apply Hm.
Qed.

Lemma apply_action_inv clk a s : store_inv s → store_inv (apply_action clk a s).
Proof.
  intros [H1 H2 H3 H4 H5 H6]. destruct a as [snap|conns|r|key|]; simpl.
  - split; simpl; unfold history_updater; auto with js.
    case_match; [|done]. unfold events_updater. rewrite slice_events, length_take. lia.
  - split; simpl; auto with js.
  - split; simpl; unfold services_updater; auto with js. by apply services_updater_inv.
  - split; simpl; auto with js.
  - by split.
Qed.

Lemma initial_store_inv : store_inv initial_store.
Proof. split; simpl; unfold keyed; try done; auto with js lia. Qed.

Lemma run_inv tr : store_inv (run tr).
Proof.
  induction tr as [|m tr IH] using rev_ind; [apply initial_store_inv|].
  rewrite run_snoc. by apply apply_action_inv.
Qed.

(** *** The snapshot map refines [last_stat] *)
Lemma last_stat_snoc key tr m :
  last_stat key (tr ++ [m]) = last_stat_step key (last_stat key tr) (dispatch m.2).
Proof. unfold last_stat. by rewrite foldl_app. Qed.

Lemma apply_action_snapshots clk a s key :
  obj_get (Store.snapshots (apply_action clk a s)) key =
    last_stat_step key (obj_get (Store.snapshots s) key) a.
Proof.
  destruct a as [snap|conns|r|k|]; simpl; try done.
  - case_bool_decide as Hk; subst; [by rewrite obj_get_set_eq|by rewrite obj_get_set_ne].
  - rewrite obj_get_delete. by repeat case_bool_decide.
Qed.

Lemma run_snapshots key tr : obj_get (Store.snapshots (run tr)) key = last_stat key tr.
Proof.
  induction tr as [|m tr IH] using rev_ind; [done|].
  rewrite run_snoc, last_stat_snoc. unfold on_message. by rewrite apply_action_snapshots, IH.
Qed.

(** *** The event log refines [spikes_from] *)
Lemma spikes_from_snoc pre tr m :
  spikes_from pre (tr ++ [m]) = option_list (spike_of (pre ++ tr) m) ++ spikes_from pre tr.
Proof.
  revert pre. induction tr as [|m' tr IH]; intros pre; simpl.
  - by rewrite !app_nil_r.
  - by rewrite IH, <-!app_assoc.
Qed.

Lemma apply_action_events tr m :
  Store.events (on_message m.1 m.2 (run tr)) =
    from_option (λ ev, events_updater ev (Store.events (run tr))) (Store.events (run tr))
      (spike_of tr m).
Proof.
  unfold on_message, spike_of. destruct (dispatch m.2) as [snap|conns|r|k|]; simpl; try done.
  rewrite run_snapshots. destruct (last_stat _ tr) as [prev|]; [|done].
  by destruct (Snap.is_spike snap && negb (Snap.is_spike prev)).
Qed.

Lemma run_events tr : Store.events (run tr) = take 100 (spikes_from [] tr).
Proof.
  induction tr as [|m tr IH] using rev_ind; [done|].
  rewrite run_snoc, apply_action_events, spikes_from_snoc, IH. simpl.
  destruct (spike_of tr m) as [ev|]; [|done].
  cbn [from_option option_list app]. unfold events_updater. rewrite slice_events.
  change (ev :: take 100 ?l) with (take 101 (ev :: l)). by rewrite take_take.
Qed.

(** *** The history refines [all_points] *)
Lemma all_points_snoc key tr m :
  all_points key (tr ++ [m]) = points_step key (all_points key tr) m.
Proof. unfold all_points. by rewrite foldl_app. Qed.

Lemma history_of_msg_get key conns :
  obj_get (history_of_msg conns) key = Conn.points <$> last_conn key conns.
Proof.
  unfold history_of_msg, last_conn.
  induction conns as [|c cs IH] using rev_ind; [done|].
  rewrite foldl_app, filter_app. simpl. destruct (decide (Conn.key c = key)) as [Hk|Hk].
  - rewrite filter_cons_True, filter_nil by done. rewrite Hk, obj_get_set_eq, last_snoc.
    simpl. by rewrite map_copy_point.
  - rewrite filter_cons_False, filter_nil by done. by rewrite obj_get_set_ne, app_nil_r.
Qed.

(** Every ['history'] message of the trace carries at most 3600 points per key. *)
Definition history_bounded (tr : Trace) : Prop :=
  Forall (λ m, match dispatch m.2 with
               | AHistory conns => Forall (λ c, length (Conn.points c) ≤ 3600) conns
               | _ => True
               end) tr.

Lemma last_conn_bounded key conns c :
  Forall (λ c, length (Conn.points c) ≤ 3600) conns →
  last_conn key conns = Some c → length (Conn.points c) ≤ 3600.
Proof.
  intros Hb Hc. unfold last_conn in Hc. apply last_Some_elem_of in Hc.
  apply list_elem_of_filter in Hc as [_ Hc]. rewrite Forall_forall in Hb. auto.
Qed.

Lemma run_history key tr :
  history_bounded tr →
  default [] (obj_get (Store.history (run tr)) key) = lastn 3600 (all_points key tr).
Proof.
  intros Hb. induction tr as [|m tr IH] using rev_ind; [done|].
  apply Forall_app in Hb as [Hb [Hm _]%Forall_cons]. specialize (IH Hb).
  rewrite run_snoc, all_points_snoc. unfold on_message, points_step.
  destruct (dispatch m.2) as [snap|conns|r|k|]; simpl; try done.
  - unfold history_updater. case_bool_decide as Hk; subst.
    + rewrite obj_get_set_eq. simpl. rewrite IH, slice_history. by apply lastn_snoc; lia.
    + by rewrite obj_get_set_ne.
  - rewrite history_of_msg_get. destruct (last_conn key conns) as [c|] eqn:Hc; [|done].
    simpl. symmetry. apply lastn_short. by eapply last_conn_bounded.
  - rewrite obj_get_delete. case_bool_decide; [done|]. exact IH.
Qed.

(** ** Properties *)

(** C14: the invariant of the store.  In every store reached by a run of messages
    the three dictionaries hold no key twice, every snapshot is filed under its
    own [src→dst] key, every service under its own name with at most 300
    resource points, and the event log has at most 100 entries. *)
Theorem store_invariant (tr : Trace) : store_inv (run tr).
Proof. apply run_inv. Qed.

(** C2: functional refinement of the store.  After any run, the snapshot shown
    for a key is the last one received since the key was last removed, and the
    event log is the newest 100 of the spike events of the run: one for each
    stats message whose connection was known, calm, and is now spiking. *)
Theorem store_refines_trace (tr : Trace) :
  (∀ key, obj_get (Store.snapshots (run tr)) key = last_stat key tr)
  ∧ Store.events (run tr) = take 100 (spikes_from [] tr).
Proof. split; [intros; apply run_snapshots|apply run_events]. Qed.

(** C16: the chart history.  When the collector's ['history'] messages carry at
    most 3600 points per connection, the history of a key is the last 3600
    points received for it since the last ['history'] or ['remove']: trimming
    at every message loses nothing that trimming once at the end would keep. *)
Theorem history_is_window (key : string) (tr : Trace) :
  history_bounded tr →
  default [] (obj_get (Store.history (run tr)) key) = lastn 3600 (all_points key tr).
Proof. apply run_history. Qed.

Definition sample_snap (src dst : string) (p99 : number) (spike : bool) : StatSnapshot :=
  Snap.mkStat src dst Internal Internal 100 200 300 400 p99 7 0 10 spike 90000
    None None None None None None.
Definition stats_msg (s : StatSnapshot) : OutboundMsg := Out.mkOut MStats (Some s) None None None.
Definition sample_trace : Trace :=
  [(mkClock 1 1 1, Out.mkOut MHistory None None
      (Some [Conn.mkConn "a→b" [stat_point (mkClock 0 0 0) (sample_snap "a" "b" 500 false)]]) None);
   (mkClock 2 2 2, stats_msg (sample_snap "a" "b" 600 false));
   (mkClock 3 3 3, stats_msg (sample_snap "a" "b" 99000 true))].

(** A history message followed by two live points: three points. *)
Lemma history_is_window_witness :
  length (default [] (obj_get (Store.history (run sample_trace)) "a→b")) = 3.
Proof.
  rewrite (history_is_window "a→b" sample_trace).
  - reflexivity.
  - unfold history_bounded, sample_trace. rewrite !Forall_cons. simpl.
    rewrite Forall_singleton. simpl. split_and!; [lia|done|done|by apply Forall_nil].
Defined.

(** A live point is never dropped by the window: whatever the store, after a
    stats message the history of its connection ends with the message's point
    and holds at most 3600 points, all other connections' histories are
    untouched, and so are the services. *)
Theorem stats_appends_point (clk : Clock) (snap : StatSnapshot) (s : Store) :
  let s' := on_message clk (stats_msg snap) s in
  ∃ h, obj_get (Store.history s') (snap_key snap) = Some h
    ∧ last h = Some (stat_point clk snap) ∧ length h ≤ 3600
    ∧ (∀ k, k ≠ snap_key snap → obj_get (Store.history s') k = obj_get (Store.history s) k)
    ∧ Store.services s' = Store.services s.
Proof.
  simpl. unfold history_updater. rewrite obj_get_set_eq, slice_history. eexists.
  split; [done|]. split_and!.
  - unfold lastn. rewrite drop_last_app by (simpl; lia). by rewrite last_snoc.
  - apply length_lastn.
  - intros k Hk. by rewrite obj_get_set_ne.
  - done.
Qed.

(** Removal.  After a ['remove'] for a key, neither its snapshot nor its
    history remains; every other connection, the services and the event log are
    as before.  A removal without a key changes nothing. *)
Theorem remove_forgets_connection (clk : Clock) (key : string) (s : Store) :
  let s' := on_message clk (Out.mkOut MRemove None (Some key) None None) s in
  if bool_decide (key = "") then s' = s
  else obj_get (Store.snapshots s') key = None ∧ obj_get (Store.history s') key = None
    ∧ (∀ k, k ≠ key → obj_get (Store.snapshots s') k = obj_get (Store.snapshots s) k
         ∧ obj_get (Store.history s') k = obj_get (Store.history s) k)
    ∧ Store.services s' = Store.services s ∧ Store.events s' = Store.events s.
Proof.
  unfold on_message, dispatch. simpl. case_bool_decide; [done|]. simpl.
  split_and!; try done.
  - by rewrite obj_get_delete, bool_decide_eq_true_2.
  - by rewrite obj_get_delete, bool_decide_eq_true_2.
  - intros k Hk. by rewrite !obj_get_delete, !bool_decide_eq_false_2.
Qed.

(** *** The stress kind of a live service *)
Definition no_stress (m : ServiceMap) : Prop :=
  ∀ k svc, obj_get m k = Some svc → Svc.stress_kind svc = None.

Lemma services_updater_no_stress r m : no_stress m → no_stress (services_updater r m).
Proof.
  intros Hm k svc. unfold services_updater.
  destruct (decide (Res.service_name r = k)) as [<-|Hne].
  - rewrite obj_get_set_eq. intros [= <-]. simpl.
    destruct (obj_get m (Res.service_name r)) as [old|] eqn:Hold; [|done]. by eapply Hm.
  - rewrite obj_get_set_ne by done. apply Hm.
Qed.

Lemma run_no_stress tr : no_stress (Store.services (run tr)).
Proof.
  induction tr as [|m tr IH] using rev_ind; [done|].
  rewrite run_snoc. unfold on_message.
  destruct (dispatch m.2); simpl; try done. by apply services_updater_no_stress.
Qed.

(** With the real collector no service is ever stressed: the resource handler
    only copies the previous [stress_kind], which starts as [null], so it is
    [null] in every reachable store. *)
Theorem live_services_never_stressed (tr : Trace) (k : string) (svc : ServiceSnapshot) :
  obj_get (Store.services (run tr)) k = Some svc → Svc.stress_kind svc = None.
Proof. apply run_no_stress. Qed.

Definition hot_resource : ResourceMsg := Res.mkRes "b" 1 99 80 0 0 95 0 0 60 0.

(** Even at 99% CPU and 95% memory pressure. *)
Definition hot_trace : Trace :=
  [(mkClock 0 0 0, Out.mkOut MResource None None None (Some hot_resource))].
Lemma live_services_never_stressed_witness :
  ∃ svc, obj_get (Store.services (run hot_trace)) "b" = Some svc ∧ Svc.stress_kind svc = None.
Proof.
  eexists. split; [reflexivity|].
  apply (live_services_never_stressed hot_trace "b"). reflexivity.
Defined.
