(* ===== verification/Hooks.v ===== *)
(** * The store under asynchronous rendering

    In the code a message does not change the store: it queues one updater per
    hook, and each hook applies its own queue, in order, whenever it renders;
    the snapshot updater queues the event updater while it runs.  This file is
    that machine, as a step relation over the hooks' queues, and the proof that
    every schedule computes [run]: the order in which hooks drain cannot be
    observed once the queues are empty.  The runtime is used only through the
    documented contract of a functional state update: updaters of one hook are
    applied exactly once, in the order they were queued. *)

From S2P Require Export Store.

Record Hooks := mkHooks {
  committed : Store;
  q_snapshots : list (SnapshotMap → SnapshotMap * option SpikeEvent);
  q_history : list (HistoryMap → HistoryMap);
  q_services : list (ServiceMap → ServiceMap);
  q_events : list (list SpikeEvent → list SpikeEvent);
}.

Definition hooks_of (s : Store) : Hooks := mkHooks s [] [] [] [].

(** The handler at the code's granularity. *)
Definition onmessage (clk : Clock) (msg : OutboundMsg) (h : Hooks) : Hooks :=
  let 'mkHooks s qs qh qv qe := h in
  match dispatch msg with
  | AStats snap =>
      mkHooks s (qs ++ [snapshots_updater clk snap]) (qh ++ [history_updater clk snap]) qv qe
  | AHistory conns => mkHooks s qs (qh ++ [λ _, history_of_msg conns]) qv qe
  | AResource r => mkHooks s qs qh (qv ++ [services_updater r]) qe
  | ARemove key =>
      mkHooks s (qs ++ [λ prev, (obj_delete prev key, None)])
        (qh ++ [λ prev, obj_delete prev key]) qv qe
  | AIgnore => h
  end.

(** ** Steps: a message arrives, or one hook applies its oldest updater *)
Inductive step : Hooks → Trace → Hooks → Prop :=
  | step_message h clk msg : step h [(clk, msg)] (onmessage clk msg h)
  | step_snapshots s u qs qh qv qe snaps ev :
      u (Store.snapshots s) = (snaps, ev) →
      step (mkHooks s (u :: qs) qh qv qe) []
        (mkHooks (Store.mkStore snaps (Store.services s) (Store.history s) (Store.events s))
           qs qh qv (qe ++ option_list (events_updater <$> ev)))
  | step_history s u qs qh qv qe :
      step (mkHooks s qs (u :: qh) qv qe) []
        (mkHooks (Store.mkStore (Store.snapshots s) (Store.services s) (u (Store.history s))
           (Store.events s)) qs qh qv qe)
  | step_services s u qs qh qv qe :
      step (mkHooks s qs qh (u :: qv) qe) []
        (mkHooks (Store.mkStore (Store.snapshots s) (u (Store.services s)) (Store.history s)
           (Store.events s)) qs qh qv qe)
  | step_events s u qs qh qv qe :
      step (mkHooks s qs qh qv (u :: qe)) []
        (mkHooks (Store.mkStore (Store.snapshots s) (Store.services s) (Store.history s)
           (u (Store.events s))) qs qh qv qe).

Inductive steps : Hooks → Trace → Hooks → Prop :=
  | steps_refl h : steps h [] h
  | steps_snoc h1 h2 h3 tr l : steps h1 tr h2 → step h2 l h3 → steps h1 (tr ++ l) h3.

Definition quiescent (h : Hooks) : Prop :=
  q_snapshots h = [] ∧ q_history h = [] ∧ q_services h = [] ∧ q_events h = [].

(** ** Draining everything at once *)
Definition drain_snapshots (qs : list (SnapshotMap → SnapshotMap * option SpikeEvent))
    (m : SnapshotMap) : SnapshotMap * list SpikeEvent :=
  foldl (λ acc u, let '(m', ev) := u acc.1 in (m', acc.2 ++ option_list ev)) (m, []) qs.

Definition settle (h : Hooks) : Store :=
  let s := committed h in
  let '(snaps, evs) := drain_snapshots (q_snapshots h) (Store.snapshots s) in
  Store.mkStore snaps
    (run_all (q_services h) (Store.services s))
    (run_all (q_history h) (Store.history s))
    (run_all (q_events h ++ map events_updater evs) (Store.events s)).

Lemma drain_snapshots_snoc qs u m :
  drain_snapshots (qs ++ [u]) m =
    let '(m1, evs) := drain_snapshots qs m in
    let '(m2, ev) := u m1 in (m2, evs ++ option_list ev).
Proof.
  unfold drain_snapshots. rewrite foldl_app. simpl.
  by destruct (foldl _ _ qs) as [m1 evs].
Qed.

Lemma drain_snapshots_cons u qs m :
  drain_snapshots (u :: qs) m =
    let '(m1, ev) := u m in
    let '(m2, evs) := drain_snapshots qs m1 in (m2, option_list ev ++ evs).
Proof.
  induction qs as [|u' qs IH] using rev_ind.
  - unfold drain_snapshots. simpl. destruct (u m) as [m1 ev]. by rewrite app_nil_r.
  - change (u :: qs ++ [u']) with ((u :: qs) ++ [u']).
    rewrite drain_snapshots_snoc, IH. destruct (u m) as [m1 ev].
    rewrite drain_snapshots_snoc. destruct (drain_snapshots qs m1) as [m2 evs].
    destruct (u' m2) as [m3 ev']. by rewrite app_assoc.
Qed.

Lemma run_all_cons {A} (f : A → A) fs a : run_all (f :: fs) a = run_all fs (f a).
Proof. done. Qed.

Lemma settle_hooks_of s : settle (hooks_of s) = s.
Proof. by destruct s. Qed.

Lemma settle_quiescent h : quiescent h → settle h = committed h.
Proof.
  destruct h as [s qs qh qv qe]. intros (?&?&?&?); simpl in *; subst. by destruct s.
Qed.

Lemma settle_onmessage clk msg h : settle (onmessage clk msg h) = on_message clk msg (settle h).
Proof.
  destruct h as [s qs qh qv qe]. unfold onmessage, on_message, settle.
  destruct (dispatch msg) as [snap|conns|r|k|]; simpl; try done;
    rewrite ?drain_snapshots_snoc;
    destruct (drain_snapshots qs (Store.snapshots s)) as [m evs];
    rewrite ?run_all_app; simpl; try done.
  - f_equal. destruct (obj_get m (snap_key snap)) as [p|]; simpl; [case_if|];
      by rewrite ?map_app, ?app_assoc, ?run_all_app, ?app_nil_r.
  - by rewrite ?app_nil_r.
Qed.

Lemma settle_step h1 l h2 :
  step h1 l h2 → settle h2 = run_from (settle h1) l.
Proof.
  destruct 1 as [h clk msg|s u qs qh qv qe snaps ev Hu|s u qs qh qv qe|s u qs qh qv qe|s u qs qh qv qe].
  - apply settle_onmessage.
  - unfold settle; simpl. rewrite drain_snapshots_cons, Hu.
    destruct (drain_snapshots qs snaps) as [m evs]. f_equal.
    rewrite map_app, <-app_assoc. by destruct ev.
  - done.
  - done.
  - unfold settle; simpl. by destruct (drain_snapshots qs (Store.snapshots s)).
Qed.

Lemma settle_steps h1 tr h2 : steps h1 tr h2 → settle h2 = run_from (settle h1) tr.
Proof.
  induction 1 as [|h1 h2 h3 tr l _ IH Hl]; [done|].
  rewrite (settle_step _ _ _ Hl), IH. unfold run_from. by rewrite foldl_app.
Qed.

(** ** Every schedule reaches quiescence *)
Definition backlog (h : Hooks) : nat :=
  2 * length (q_snapshots h) + length (q_history h) + length (q_services h) + length (q_events h).

Lemma step_decreases h1 h2 : step h1 [] h2 → backlog h2 < backlog h1.
Proof.
  inversion 1; subst; unfold backlog; simpl; try lia.
  rewrite length_app. destruct ev; simpl; lia.
Qed.

Lemma step_progress h : quiescent h ∨ ∃ h', step h [] h'.
Proof.
  destruct h as [s [|u qs] [|uh qh] [|uv qv] [|ue qe]];
    try (left; done); right;
    try (by eexists; econstructor);
    destruct (u (Store.snapshots s)) eqn:E; eexists; by eapply step_snapshots.
Qed.

Lemma steps_trans h1 t1 h2 t2 h3 :
  steps h1 t1 h2 → steps h2 t2 h3 → steps h1 (t1 ++ t2) h3.
Proof.
  intros H1. induction 1 as [|h2 h3 h4 tr l _ IH Hl]; [by rewrite app_nil_r|].
  rewrite app_assoc. eauto using steps_snoc.
Qed.

Lemma steps_one h1 l h2 : step h1 l h2 → steps h1 l h2.
Proof. intros. rewrite <-(app_nil_l l). eauto using steps_snoc, steps_refl. Qed.

Lemma steps_drain h1 h2 h3 : step h1 [] h2 → steps h2 [] h3 → steps h1 [] h3.
Proof. intros H1 H2. change (steps h1 ([] ++ []) h3). eauto using steps_trans, steps_one. Qed.

Lemma drains_to_quiescence h : ∃ h', steps h [] h' ∧ quiescent h'.
Proof.
  remember (backlog h) as n eqn:Hn. revert h Hn.
  induction n as [n IH] using lt_wf_ind. intros h ->.
  destruct (step_progress h) as [Hq|[h1 Hstep]]; [by exists h; eauto using steps_refl|].
  destruct (IH (backlog h1) (step_decreases _ _ Hstep) h1 eq_refl) as (h'&Hs&Hq).
  exists h'. eauto using steps_drain.
Qed.

(** Queueing the messages of a trace without rendering in between. *)
Definition enqueue_all (tr : Trace) (h : Hooks) : Hooks :=
  foldl (λ h m, onmessage m.1 m.2 h) h tr.

Lemma steps_enqueue_all h tr : steps h tr (enqueue_all tr h).
Proof.
  induction tr as [|[clk msg] tr IH] using rev_ind; [constructor|].
  unfold enqueue_all. rewrite foldl_app. eapply steps_snoc; [exact IH|]. simpl. constructor.
Qed.

(** ** Properties *)

(** C1: the handler queues updaters and the hooks drain their queues in any
    order, interleaved with further messages: whenever all queues are empty the
    committed store is the one that applying the messages one at a time gives. *)
Theorem schedule_independent (tr : Trace) (h : Hooks) :
  steps (hooks_of initial_store) tr h → quiescent h → committed h = run tr.
Proof.
  intros Hs Hq. rewrite <-(settle_quiescent h Hq), (settle_steps _ _ _ Hs).
  by rewrite settle_hooks_of.
Qed.

(** A machine state whose updaters have all been applied, history hook first. *)
Definition spike_trace : Trace := drop 1 sample_trace.

(** Two stats messages batched into one render: the spike event is in the log. *)
Lemma schedule_independent_witness :
  ∃ h, quiescent h ∧ committed h = run spike_trace ∧ length (Store.events (committed h)) = 1.
Proof.
  set (h0 := hooks_of initial_store).
  assert (∃ h, steps h0 spike_trace h ∧ quiescent h) as (h&Hs&Hq).
  { eexists. split.
    - rewrite <-(app_nil_r spike_trace).
      eapply steps_trans; [apply (steps_enqueue_all h0 spike_trace)|]. simpl.
      do 2 (eapply steps_drain; [apply step_history|]).
      do 2 (eapply steps_drain; [apply step_snapshots; reflexivity|]).
      eapply steps_drain; [apply step_events|]. apply steps_refl.
    - done. }
  exists h. split; [done|]. rewrite (schedule_independent spike_trace h Hs Hq).
  split; reflexivity.
Defined.

(** C21: rendering always catches up.  From any state the machine can reach there
    is a schedule of drains, and every drain shrinks the backlog, so that it ends
    with empty queues and with the store of the messages received so far. *)
Theorem rendering_catches_up (tr : Trace) (h : Hooks) :
  steps (hooks_of initial_store) tr h →
  (∃ h', steps h [] h' ∧ quiescent h' ∧ committed h' = run tr)
  ∧ (∀ h1 h2, step h1 [] h2 → backlog h2 < backlog h1).
Proof.
  intros Hs. split; [|apply step_decreases].
  destruct (drains_to_quiescence h) as (h'&Hd&Hq). exists h'. split_and!; [done..|].
  rewrite <-(settle_quiescent h' Hq), (settle_steps _ _ _ Hd), (settle_steps _ _ _ Hs).
  by rewrite settle_hooks_of.
Qed.

Lemma rendering_catches_up_witness :
  ∃ h', steps (enqueue_all spike_trace (hooks_of initial_store)) [] h' ∧ quiescent h'
    ∧ committed h' = run spike_trace.
Proof.
  exact (proj1 (rendering_catches_up spike_trace _ (steps_enqueue_all _ _))).
Defined.
