(* ===== verification/Socket.v ===== *)
(** * The connection life cycle: the effect of [hooks/useWebSocket.ts]

    [connect] opens a socket and stores it in [wsRef]; when a socket closes its
    handler marks the hook disconnected and schedules [connect] after two
    seconds; the effect's cleanup silences and closes the socket in [wsRef].
    Browser events (a socket opening or closing, the timer firing) and the
    effect's mount and cleanup are the steps of the machine, in any order the
    browser can produce. *)

From S2P Require Export Store.

Inductive ReadyState := Connecting | Open | Closed.
#[export] Instance ReadyState_eq_dec : EqDecision ReadyState.
Proof. solve_decision. Defined.

Module Sock.
(** A [WebSocket] object: its state and whether [onclose] is still installed. *)
Record Socket := mkSocket { ready : ReadyState; onclose : bool }.
End Sock.
Abbreviation Socket := Sock.Socket.
#[export] Instance Socket_eq_dec : EqDecision Socket.
Proof. solve_decision. Defined.

(** Sockets are numbered in the order they are created. *)
Record Net := mkNet {
  sockets : list Socket;
  wsRef : option nat;
  timers : nat;                 (* pending [setTimeout(connect, 2000)] *)
  connected : bool;
  mounted : bool;
}.

Definition net_init : Net := mkNet [] None 0 false false.

Definition connect (n : Net) : Net :=
  mkNet (sockets n ++ [Sock.mkSocket Connecting true]) (Some (length (sockets n)))
    (timers n) (connected n) (mounted n).

Inductive NetEvent :=
  | EMount                      (* the effect runs *)
  | EOpen (i : nat)             (* socket [i] reports open *)
  | EClose (i : nat)            (* socket [i] is closed by the peer or fails *)
  | ETimer                      (* a reconnect timer fires *)
  | ECleanup.                   (* the cleanup of the effect runs *)

Definition set_ready (i : nat) (r : ReadyState) (ss : list Socket) : list Socket :=
  alter (λ s, Sock.mkSocket r (Sock.onclose s)) i ss.

Definition cleanup_sockets (ref : option nat) (ss : list Socket) : list Socket :=
  match ref with
  | Some i => alter (λ _, Sock.mkSocket Closed false) i ss
  | None => ss
  end.

(** One event; [None] when the browser cannot produce it in this state. *)
Definition net_step (e : NetEvent) (n : Net) : option Net :=
  match e with
  | EMount =>
      if mounted n then None
      else Some (connect (mkNet (sockets n) (wsRef n) (timers n) (connected n) true))
  | EOpen i =>
      match sockets n !! i with
      | Some (Sock.mkSocket Connecting _) =>
          Some (mkNet (set_ready i Open (sockets n)) (wsRef n) (timers n) true (mounted n))
      | _ => None
      end
  | EClose i =>
      match sockets n !! i with
      | Some (Sock.mkSocket Closed _) | None => None
      | Some (Sock.mkSocket _ has_handler) =>
          Some (if has_handler
                then mkNet (set_ready i Closed (sockets n)) (wsRef n) (S (timers n)) false (mounted n)
                else mkNet (set_ready i Closed (sockets n)) (wsRef n) (timers n) (connected n) (mounted n))
      end
  | ETimer =>
      match timers n with
      | 0 => None
      | S t => Some (connect (mkNet (sockets n) (wsRef n) t (connected n) (mounted n)))
      end
  | ECleanup =>
      if mounted n then
        Some (mkNet (cleanup_sockets (wsRef n) (sockets n))
                None (timers n) (connected n) false)
      else None
  end.

Definition net_run (es : list NetEvent) (n : Net) : option Net :=
  foldl (λ on e, on ≫= net_step e) (Some n) es.

(** A socket that is connecting or open. *)
Definition live (s : Socket) : bool :=
  match Sock.ready s with Closed => false | _ => true end.
Definition live_count (ss : list Socket) : nat := length (filter (λ s, live s = true) ss).

(** ** Counting live sockets *)
Lemma live_count_app ss1 ss2 : live_count (ss1 ++ ss2) = live_count ss1 + live_count ss2.
Proof. unfold live_count. by rewrite filter_app, length_app. Qed.

Lemma live_count_cons s ss : live_count (s :: ss) = (if live s then 1 else 0) + live_count ss.
Proof.
  unfold live_count. destruct (live s) eqn:E.
  - by rewrite filter_cons_True.
  - by rewrite filter_cons_False by congruence.
Qed.

Lemma live_count_alter f i ss s :
  ss !! i = Some s →
  live_count (alter f i ss) + (if live s then 1 else 0)
    = live_count ss + (if live (f s) then 1 else 0).
Proof.
  revert i. induction ss as [|s' ss IH]; intros [|i] Hs; simpl in *; try done.
  - injection Hs as ->. rewrite !live_count_cons. lia.
  - rewrite !live_count_cons. specialize (IH i Hs).
    change (list_alter f i ss) with (alter f i ss). lia.
Qed.

(** ** The invariant of a mounted hook

    One connection attempt is outstanding: either one live socket, the one in
    [wsRef], with its handlers installed, or one pending timer; and [connected]
    says whether that socket is open. *)
Record net_inv (n : Net) : Prop := {
  inv_single : live_count (sockets n) + timers n = 1;
  inv_handlers : ∀ i s, sockets n !! i = Some s → live s = true →
    wsRef n = Some i ∧ Sock.onclose s = true;
  inv_ref : ∃ i, wsRef n = Some i ∧ i < length (sockets n);
  inv_connected : connected n = true ↔ ∃ i s, sockets n !! i = Some s ∧ Sock.ready s = Open;
}.

Lemma live_count_zero ss i s : live_count ss = 0 → ss !! i = Some s → live s = false.
Proof.
  revert i. induction ss as [|s' ss IH]; intros [|i]; rewrite ?live_count_cons; simpl; try done.
  - intros H [= ->]. destruct (live s); [lia|done].
  - intros H. apply IH. lia.
Qed.

Lemma live_open s : Sock.ready s = Open → live s = true.
Proof. unfold live. by intros ->. Qed.

(** [connect] re-establishes the invariant when nothing is outstanding. *)
Lemma connect_inv ss ref m :
  live_count ss = 0 → net_inv (connect (mkNet ss ref 0 false m)).
Proof.
  intros Hz. split; simpl.
  - rewrite live_count_app. unfold live_count at 2. simpl. lia.
  - intros i s [Hi|[Hi Hs]]%lookup_app_Some Hl.
    + by rewrite (live_count_zero _ _ _ Hz Hi) in Hl.
    + apply list_lookup_singleton_Some in Hs as [Hi0 <-]. split; [|done]. f_equal. lia.
  - exists (length ss). split; [done|]. rewrite length_app. simpl. lia.
  - split; [done|]. intros (i&s&[Hi|[Hi Hs]]%lookup_app_Some&Hr).
    + apply live_open in Hr. by rewrite (live_count_zero _ _ _ Hz Hi) in Hr.
    + apply list_lookup_singleton_Some in Hs as [_ <-]. done.
Qed.

(** When a socket is live, no timer is pending and it is the only live one. *)
Lemma net_inv_live n i s :
  net_inv n → sockets n !! i = Some s → live s = true →
  timers n = 0 ∧ live_count (sockets n) = 1 ∧ wsRef n = Some i ∧ Sock.onclose s = true.
Proof.
  intros Hn Hi Hl. destruct (inv_handlers _ Hn i s Hi Hl) as [Href Hc].
  pose proof (inv_single _ Hn). destruct (decide (live_count (sockets n) = 0)) as [Hz|].
  - by rewrite (live_count_zero _ _ _ Hz Hi) in Hl.
  - split_and!; auto; lia.
Qed.

Lemma set_ready_lookup i r ss j :
  set_ready i r ss !! j =
    if decide (i = j) then (λ s, Sock.mkSocket r (Sock.onclose s)) <$> ss !! j else ss !! j.
Proof.
  unfold set_ready. destruct (decide (i = j)) as [->|].
  - apply list_lookup_alter_eq.
  - by apply list_lookup_alter_ne.
Qed.

Lemma length_set_ready i r ss : length (set_ready i r ss) = length ss.
Proof. apply length_alter. Qed.

Lemma live_count_set_ready i r ss s :
  ss !! i = Some s →
  live_count (set_ready i r ss) + (if live s then 1 else 0)
    = live_count ss + (match r with Closed => 0 | _ => 1 end).
Proof.
  intros Hi. unfold set_ready. rewrite (live_count_alter _ _ _ _ Hi). by destruct r.
Qed.

Lemma open_inv n i b :
  net_inv n → sockets n !! i = Some (Sock.mkSocket Connecting b) →
  net_inv (mkNet (set_ready i Open (sockets n)) (wsRef n) (timers n) true (mounted n)).
Proof.
  intros Hn Hi. destruct (net_inv_live _ _ _ Hn Hi eq_refl) as (Ht&Hl&Href&Hb).
  split; simpl.
  - pose proof (live_count_set_ready i Open _ _ Hi) as H. simpl in H. lia.
  - intros j s. rewrite set_ready_lookup. case_decide as Hj.
    + subst j. rewrite Hi. intros [= <-] _. done.
    + apply (inv_handlers _ Hn).
  - rewrite length_set_ready. apply (inv_ref _ Hn).
  - split; [intros _|done]. exists i, (Sock.mkSocket Open b).
    by rewrite set_ready_lookup, decide_True, Hi by done.
Qed.

Lemma close_inv n i r b :
  net_inv n → r ≠ Closed → sockets n !! i = Some (Sock.mkSocket r b) →
  b = true ∧
  net_inv (mkNet (set_ready i Closed (sockets n)) (wsRef n) (S (timers n)) false (mounted n)).
Proof.
  intros Hn Hr Hi. assert (live (Sock.mkSocket r b) = true) as Hlive by by destruct r.
  destruct (net_inv_live _ _ _ Hn Hi Hlive) as (Ht&Hl&Href&Hb).
  split; [done|].
  assert (live_count (set_ready i Closed (sockets n)) = 0) as Hz.
  { pose proof (live_count_set_ready i Closed _ _ Hi) as H. rewrite Hlive in H. lia. }
  split; simpl.
  - lia.
  - intros j s Hj Hs. by rewrite (live_count_zero _ _ _ Hz Hj) in Hs.
  - rewrite length_set_ready. apply (inv_ref _ Hn).
  - split; [done|]. intros (j&s&Hj&Ho%live_open). by rewrite (live_count_zero _ _ _ Hz Hj) in Ho.
Qed.

(** Without a pending socket the hook shows itself disconnected. *)
Lemma net_inv_disconnected n : net_inv n → 0 < timers n → connected n = false.
Proof.
  intros Hn Ht. destruct (connected n) eqn:E; [|done].
  apply (inv_connected _ Hn) in E as (i&s&Hi&Ho%live_open).
  destruct (net_inv_live _ _ _ Hn Hi Ho). lia.
Qed.

Definition browser_event (e : NetEvent) : bool :=
  match e with EMount | ECleanup => false | _ => true end.

Lemma net_step_inv e n n' :
  browser_event e = true → net_inv n → net_step e n = Some n' → net_inv n'.
Proof.
  intros He Hn. destruct e as [|i|i| |]; simpl in *; try done.
  - destruct (sockets n !! i) as [[[| |] b]|] eqn:Hi; intros [= <-]. by eapply open_inv.
  - destruct (sockets n !! i) as [[r b]|] eqn:Hi; [|done].
    destruct (decide (r = Closed)) as [->|Hr]; [done|].
    destruct (close_inv n i r b Hn Hr Hi) as [-> Hinv]. by destruct r; intros [= <-].
  - destruct (timers n) as [|t] eqn:Ht; intros [= <-].
    pose proof (net_inv_disconnected n Hn ltac:(lia)) as ->.
    pose proof (inv_single _ Hn). replace t with 0 by lia. apply connect_inv. lia.
Qed.

Lemma net_run_app es1 es2 n : net_run (es1 ++ es2) n = net_run es1 n ≫= net_run es2.
Proof.
  unfold net_run. rewrite foldl_app. destruct (foldl _ (Some n) es1); [done|].
  induction es2; simpl; auto.
Qed.

Lemma net_run_inv es n n' :
  Forall (λ e, browser_event e = true) es → net_inv n → net_run es n = Some n' → net_inv n'.
Proof.
  revert n'. induction es as [|e es IH] using rev_ind; intros n'.
  - by intros _ ? [= <-].
  - intros [Hes [He _]%Forall_cons]%Forall_app Hn.
    rewrite net_run_app. destruct (net_run es n) as [m|] eqn:Hm; [|done].
    change (net_step e m = Some n' → net_inv n'). intros Hstep.
    by eapply (net_step_inv e m); [| |]; eauto.
Qed.

(** ** After the cleanup *)

(** What an unmounted hook still owns: silenced sockets, all closed, plus the
    reconnect machinery the cleanup did not cancel. *)
Lemma cleanup_live_count n i s :
  sockets n !! i = Some s → wsRef n = Some i →
  live_count (cleanup_sockets (wsRef n) (sockets n)) + (if live s then 1 else 0)
    = live_count (sockets n).
Proof.
  intros Hi ->. simpl. pose proof (live_count_alter (λ _, Sock.mkSocket Closed false) _ _ _ Hi) as H.
  simpl in H. lia.
Qed.

(** Every outstanding connection attempt: the live sockets and the timers. *)
Definition pending (n : Net) : nat := live_count (sockets n) + timers n.

(** Every live socket still has its close handler. *)
Definition all_handled (n : Net) : Prop :=
  ∀ i s, sockets n !! i = Some s → live s = true → Sock.onclose s = true.

Lemma cleanup_pending n n' :
  net_inv n → net_step ECleanup n = Some n' → pending n' = timers n ∧ mounted n' = false
    ∧ all_handled n'.
Proof.
  intros Hn. simpl. case_match; [|done]. intros [= <-]. unfold pending. simpl.
  destruct (inv_ref _ Hn) as (i&Href&Hi). apply lookup_lt_is_Some in Hi as [s Hi].
  pose proof (cleanup_live_count n i s Hi Href) as Hc.
  pose proof (inv_single _ Hn).
  assert (live_count (cleanup_sockets (wsRef n) (sockets n)) = 0) as Hz.
  { destruct (live s) eqn:Hs; [lia|].
    destruct (decide (live_count (sockets n) = 0)); [lia|]. exfalso.
    assert (∃ j s', sockets n !! j = Some s' ∧ live s' = true) as (j&s'&Hj&Hl).
    { clear -n0. induction (sockets n) as [|a ss IH]; [done|].
      rewrite live_count_cons in n0. destruct (live a) eqn:Ha; [by exists 0, a|].
      destruct IH as (j&s'&?&?); [lia|]. by exists (S j), s'. }
    destruct (inv_handlers _ Hn j s' Hj Hl). assert (i = j) as -> by congruence. congruence. }
  split_and!; [lia|done|]. intros j s' Hj Hl. by rewrite (live_count_zero _ _ _ Hz Hj) in Hl.
Qed.

Lemma net_step_pending e n n' :
  browser_event e = true → all_handled n → net_step e n = Some n' →
  pending n' = pending n ∧ mounted n' = mounted n ∧ all_handled n'.
Proof.
  intros He Hn. unfold pending.
  assert (∀ i r, all_handled n → ∀ s, sockets n !! i = Some s → live s = true →
    ∀ j s', set_ready i r (sockets n) !! j = Some s' → live s' = true → Sock.onclose s' = true)
    as Hset.
  { intros i r Hh s Hi Hs j s'. rewrite set_ready_lookup. case_decide as Hj; [|apply Hh].
    subst j. rewrite Hi. intros [= <-] _. by apply (Hh i s). }
  destruct e as [|i|i| |]; simpl in *; try done.
  - destruct (sockets n !! i) as [[[| |] b]|] eqn:Hi; intros [= <-]; simpl.
    pose proof (live_count_set_ready i Open _ _ Hi) as H. simpl in H.
    split_and!; [lia|done|]. intros j s'. by apply (Hset i _ Hn _ Hi).
  - destruct (sockets n !! i) as [[r b]|] eqn:Hi; [|done].
    destruct (decide (r = Closed)) as [->|Hr]; [done|].
    assert (live (Sock.mkSocket r b) = true) as Hl by by destruct r.
    pose proof (Hn _ _ Hi Hl) as Hb. simpl in Hb. subst b.
    pose proof (live_count_set_ready i Closed _ _ Hi) as H. rewrite Hl in H.
    destruct r; intros [= <-]; simpl; try done; (split_and!; [lia|done|]; intros j s'; by apply (Hset i _ Hn _ Hi)).
  - destruct (timers n) as [|t] eqn:Ht; intros [= <-]. unfold connect; simpl.
    rewrite live_count_app. unfold live_count at 2. simpl. split_and!; [lia|done|].
    intros i s [Hi|[Hi Hs]]%lookup_app_Some; [by apply (Hn i)|].
    by apply list_lookup_singleton_Some in Hs as [_ <-].
Qed.

Lemma net_run_pending es n n' :
  Forall (λ e, browser_event e = true) es → all_handled n → net_run es n = Some n' →
  pending n' = pending n ∧ mounted n' = mounted n ∧ all_handled n'.
Proof.
  revert n'. induction es as [|e es IH] using rev_ind; intros n'.
  - by intros _ ? [= <-].
  - intros [Hes [He _]%Forall_cons]%Forall_app Hn.
    rewrite net_run_app. destruct (net_run es n) as [m|] eqn:Hm; [|done].
    destruct (IH m Hes Hn eq_refl) as (IH1&IH2&IH3).
    intros Hstep. change (net_step e m = Some n') in Hstep.
    destruct (net_step_pending e m n' He IH3 Hstep) as (?&?&?). split_and!; [congruence..|done].
Qed.

(** The state right after the mount, and every state the browser leads to. *)
Definition net_mounted : Net := connect (mkNet [] None 0 false true).

Lemma net_run_mounted_inv es n :
  Forall (λ e, browser_event e = true) es → net_run (EMount :: es) net_init = Some n → net_inv n.
Proof.
  intros Hes Hrun. change (net_run es net_mounted = Some n) in Hrun.
  apply (net_run_inv es net_mounted n Hes); [by apply connect_inv|exact Hrun].
Qed.

(** *** Properties *)

(** C9: while the hook is mounted, whatever the browser does, exactly one
    connection attempt is outstanding: either one live socket, held by [wsRef], or
    one reconnect timer.  The hook never holds two live connections, never stops
    trying, and [connected] is true exactly when that socket is open. *)
Theorem one_connection_outstanding (es : list NetEvent) (n : Net) :
  Forall (λ e, browser_event e = true) es →
  net_run (EMount :: es) net_init = Some n →
  pending n = 1
  ∧ (∀ i s, sockets n !! i = Some s → live s = true → wsRef n = Some i ∧ timers n = 0)
  ∧ (connected n = true ↔ ∃ i s, sockets n !! i = Some s ∧ Sock.ready s = Open).
Proof.
  intros Hes Hrun.
  pose proof (net_run_mounted_inv es n Hes Hrun) as Hn.
  split_and!; [apply Hn| |apply Hn].
  intros i s Hi Hs. by destruct (net_inv_live n i s Hn Hi Hs) as (?&?&?&?).
Qed.

(** Connect, open, lose the connection twice: the third socket is the only live one. *)
Lemma one_connection_outstanding_witness :
  ∃ n, net_run (EMount :: [EOpen 0; EClose 0; ETimer; EClose 1; ETimer; EOpen 2]) net_init = Some n
    ∧ pending n = 1 ∧ connected n = true.
Proof.
  eexists. split; [reflexivity|].
  match goal with |- pending ?n = 1 ∧ _ =>
    destruct (one_connection_outstanding
      [EOpen 0; EClose 0; ETimer; EClose 1; ETimer; EOpen 2] n) as (H1&_&_) end.
  - repeat constructor.
  - reflexivity.
  - split; [exact H1|reflexivity].
Defined.

(** C34: what is left after the cleanup of the effect.  Whatever the browser does
    afterwards, the number of live sockets plus reconnect timers stays what the
    number of timers was when the cleanup ran: nothing at all when the cleanup
    found a live socket, but one attempt for ever when it ran between a
    disconnection and the reconnect timer, which the cleanup does not cancel. *)
Theorem cleanup_leaves_timers (es es' : list NetEvent) (n n1 n2 : Net) :
  Forall (λ e, browser_event e = true) es → Forall (λ e, browser_event e = true) es' →
  net_run (EMount :: es) net_init = Some n →
  net_step ECleanup n = Some n1 → net_run es' n1 = Some n2 →
  mounted n2 = false ∧ live_count (sockets n2) + timers n2 = timers n.
Proof.
  intros Hes Hes' Hrun Hc Hrun'.
  pose proof (net_run_mounted_inv es n Hes Hrun) as Hn.
  destruct (cleanup_pending n n1 Hn Hc) as (Hp&Hm1&Hh).
  destruct (net_run_pending es' n1 n2 Hes' Hh Hrun') as (Hp2&Hm2&_).
  unfold pending in *. split; [congruence|lia].
Qed.

(** A cleanup while the reconnect timer is pending: the timer fires afterwards and
    the unmounted hook has an open socket. *)
Lemma cleanup_leaves_timers_witness :
  let n := mkNet [Sock.mkSocket Closed true] (Some 0) 1 false true in
  let n1 := mkNet [Sock.mkSocket Closed false] None 1 false false in
  let n2 := mkNet [Sock.mkSocket Closed false; Sock.mkSocket Open true] (Some 1) 0 true false in
  net_run (EMount :: [EClose 0]) net_init = Some n ∧ net_step ECleanup n = Some n1
  ∧ net_run [ETimer; EOpen 1] n1 = Some n2
  ∧ mounted n2 = false ∧ live_count (sockets n2) + timers n2 = timers n.
Proof.
  intros n n1 n2. do 3 (split; [reflexivity|]).
  apply (cleanup_leaves_timers [EClose 0] [ETimer; EOpen 1] n n1 n2);
    first [reflexivity | repeat constructor].
Defined.
