(* ===== verification/FloatInterval.v ===== *)
(** * Interval arithmetic on binary64

    [within lo x hi]: [x] is finite and lies between [lo] and [hi].  The rules
    propagate intervals through the operators by monotonicity, so a bound on an
    expression is the evaluation of its end points.  The unit interval of
    [Math.random] and the range of exponential smoothing are instances. *)

From S2P Require Export FloatRound JsCollections.

Local Open Scope Z_scope.

Definition within (lo x hi : float) : Prop :=
  finite x ∧ nleb lo x = true ∧ nleb x hi = true.

Lemma within_finite lo x hi : within lo x hi → finite x.
Proof. by intros [? _]. Qed.
Lemma within_ok lo x hi : within lo x hi → nnan x = false.
Proof. intros [? _]. auto with js. Qed.
Lemma within_intro lo x hi :
  finite lo → finite hi → nleb lo x = true → nleb x hi = true → within lo x hi.
Proof. intros. split; [|done]. by eapply (finite_between lo x hi). Qed.
Lemma within_refl x : finite x → within x x x.
Proof. intros. split_and!; [done|apply nleb_refl; auto with js..]. Qed.
Lemma within_weaken lo lo' x hi hi' :
  within lo x hi → nleb lo' lo = true → nleb hi hi' = true → within lo' x hi'.
Proof. intros (?&?&?) ? ?. split_and!; [done|by eapply nleb_trans..]. Qed.
Lemma within_fv lo x hi :
  finite lo → finite hi → within lo x hi → fv lo ≤ fv x ≤ fv hi.
Proof.
  intros ? ? (? & H1 & H2). rewrite nleb_fv in H1, H2 by auto with js. bool_to_prop. lia.
Qed.
Lemma within_lo lo x hi : within lo x hi → nleb lo x = true.
Proof. by intros (_ & ? & _). Qed.
Lemma within_hi lo x hi : within lo x hi → nleb x hi = true.
Proof. by intros (_ & _ & ?). Qed.

Lemma fmul_mono_r x x' c :
  finite x → finite x' → finite c → 0 ≤ fv c →
  nleb x x' = true → nleb (x * c)%num (x' * c)%num = true.
Proof.
  intros Hx Hx' Hc ?. rewrite !nleb_fv by auto with js.
  destruct (fmul_fv x c) as [(p & Hp & Ep) ?], (fmul_fv x' c) as [(q & Hq & Eq) ?]; try done.
  intros Hxx. bool_to_prop. rewrite nleb_fv by done. apply Z.leb_le.
  rewrite Ep, Eq. apply rnd_mono. pose proof (pow_gt0 U ltac:(rewrite U_val; lia)).
  assert (fv x * fv c ≤ fv x' * fv c) by nia. nia.
Qed.

Section Rules.
Context {a x b c y d : float} (Hx : within a x b) (Hy : within c y d).
Context (Fa : finite a) (Fb : finite b) (Fc : finite c) (Fd : finite d).

Lemma within_add :
  finite (a + c)%num → finite (b + d)%num → within (a + c)%num (x + y)%num (b + d)%num.
Proof using All.
  destruct Hx as (?&?&?), Hy as (?&?&?).
  intros. apply within_intro; try done; by apply fadd_mono.
Qed.
Lemma within_sub :
  finite (a - d)%num → finite (b - c)%num → within (a - d)%num (x - y)%num (b - c)%num.
Proof using All.
  destruct Hx as (?&?&?), Hy as (?&?&?).
  intros. apply within_intro; try done; by apply fsub_mono.
Qed.
Lemma within_mul :
  finite (a * c)%num → finite (b * d)%num → 0 ≤ fv a → 0 ≤ fv c →
  within (a * c)%num (x * y)%num (b * d)%num.
Proof using All.
  pose proof (within_fv _ _ _ Fa Fb Hx). pose proof (within_fv _ _ _ Fc Fd Hy).
  destruct Hx as (?&?&?), Hy as (?&?&?).
  intros. apply within_intro; try done; apply fmul_mono; done || lia.
Qed.
Lemma within_max : within (nmax a c) (nmax x y) (nmax b d).
Proof using All.
  pose proof (within_ok _ _ _ Hx). pose proof (within_ok _ _ _ Hy).
  destruct Hx as (?&?&?), Hy as (?&?&?).
  assert (∀ u v, finite u → finite v → finite (nmax u v)) as Hf
    by (intros u v ? ?; by destruct (nmax_cases u v) as [-> | ->]).
  apply within_intro; [by apply Hf..| |]; apply nmax_lub.
  - eapply nleb_trans; [|apply nmax_ub_l]; done.
  - eapply nleb_trans; [|apply nmax_ub_r]; done.
  - eapply nleb_trans; [|apply nmax_ub_l]; auto with js.
  - eapply nleb_trans; [|apply nmax_ub_r]; auto with js.
Qed.
End Rules.

Lemma within_mul_const a x b c :
  within a x b → finite a → finite b → finite c → 0 ≤ fv c →
  finite (a * c)%num → finite (b * c)%num → within (a * c)%num (x * c)%num (b * c)%num.
Proof.
  intros (?&?&?) Fa Fb Fc ? ? ?. apply within_intro; try done; by apply fmul_mono_r.
Qed.

(** Side conditions on concrete floats are evaluated. *)
Ltac feval := vm_compute; first [reflexivity | done].

(** ** [Math.random]: a float of [[0, 1)] is at most [1 - 2^-53] *)
Definition in_unit (r : float) : Prop := (N[0] <=? r)%num = true ∧ (r <? N[1])%num = true.
Definition rmax : float := (N[1] - N[1] / N[9007199254740992])%num.

Lemma rmax_fv : fv rmax = (2 ^ 53 - 1) * 2 ^ (U - 53).
Proof. vm_compute. reflexivity. Qed.

Lemma unit_within r : in_unit r → within N[0]%num r rmax.
Proof.
  intros [H0 H1]. destruct (nofZ_fv 0 ltac:(done)) as [V0 F0], (nofZ_fv 1 ltac:(done)) as [V1 F1].
  assert (finite r) as Hr by (apply (finite_between _ _ _ F0 F1); [done|by apply nltb_leb]).
  split_and!; [done..|]. rewrite nltb_fv in H1 by auto with js.
  rewrite nleb_fv in H0 by auto with js. rewrite V0 in H0. rewrite V1 in H1.
  rewrite nleb_fv; [|auto with js|vm_compute; reflexivity]. bool_to_prop. apply Z.leb_le.
  destruct (fv_repr r Hr) as (m & k & Hmk & Hm & Hk & _). rewrite Z.abs_eq in Hmk by lia.
  rewrite rmax_fv, Hmk. rewrite U_val, g0_val in *. rewrite Hmk in H1.
  destruct (decide (k ≤ 2200 - 53)).
  - apply Z.mul_le_mono_nonneg; [lia..|]. apply Z.pow_le_mono_r; lia.
  - replace k with (k - 2147 + 2147) in * by lia. rewrite Z.pow_add_r, Z.mul_assoc in * by lia.
    replace 2200 with (53 + 2147) in H1 by lia. rewrite Z.pow_add_r in H1 by lia.
    pose proof (pow_gt0 2147 ltac:(lia)). apply Z.mul_le_mono_nonneg_r; [lia|]. nia.
Qed.

(** [lo + Math.random() * span]: evaluate at both ends. *)
Lemma affine_within lo span r :
  in_unit r → finite lo → finite span → 0 ≤ fv span →
  finite (N[0] * span)%num → finite (rmax * span)%num →
  finite (lo + N[0] * span)%num → finite (lo + rmax * span)%num →
  within (lo + N[0] * span)%num (lo + r * span)%num (lo + rmax * span)%num.
Proof.
  intros Hr%unit_within ? ? ? ? ? ? ?.
  destruct (nofZ_fv 0 ltac:(done)) as [_ F0]. assert (finite rmax) by (vm_compute; reflexivity).
  apply within_add; try done; [by apply within_refl|]. by apply within_mul_const.
Qed.

(** ** Exponential smoothing stays in [[0, 100]] *)
Lemma repr_rnd v : 0 ≤ v → repr v → rnd v = v.
Proof. intros Hv Hr. unfold rnd. rewrite (proj2 (Z.ltb_ge _ 0)) by lia. by apply rndp_repr. Qed.

Lemma repr_small n k : 0 ≤ n < 2 ^ 53 → g0 ≤ k → k ≤ U → repr (n * 2 ^ k).
Proof.
  intros Hn Hk HU. rewrite g0_val, U_val in *. exists n, k. split_and!; try done; try lia.
  rewrite INF_val. pose proof (pow_gt0 k ltac:(lia)).
  apply (Z.lt_le_trans _ (2 ^ 53 * 2 ^ k)); [nia|].
  rewrite <-Z.pow_add_r by lia. apply Z.pow_le_mono_r; lia.
Qed.

(** Subtraction from 100 is exact in the upper half. *)
Lemma sterbenz_100 x :
  finite x → 50 * 2 ^ U ≤ fv x ≤ 100 * 2 ^ U → repr (100 * 2 ^ U - fv x).
Proof.
  intros Hx%fv_repr Hb. pose proof (pow_gt0 U ltac:(rewrite U_val; lia)) as HU.
  rewrite Z.abs_eq in Hx by lia. destruct Hx as (m & k & Hv & Hm & Hk & _).
  rewrite U_val, g0_val in *.
  assert (2153 ≤ k) as Hk'.
  { destruct (decide (k ≤ 2152)); [|lia]. exfalso.
    assert (2 ^ k ≤ 2 ^ 2152) by (apply Z.pow_le_mono_r; lia).
    assert (50 * 2 ^ 2200 < 2 ^ 53 * 2 ^ 2152) by (pose proof (pow_gt0 k ltac:(lia)); nia).
    replace 2200 with (48 + 2152) in * by lia. rewrite Z.pow_add_r in * by lia.
    pose proof (pow_gt0 2152 ltac:(lia)). nia. }
  replace (100 * 2 ^ 2200 - fv x) with ((100 * 2 ^ 47 - m * 2 ^ (k - 2153)) * 2 ^ 2153).
  - pose proof (pow_gt0 2153 ltac:(lia)).
    assert (fv x = m * 2 ^ (k - 2153) * 2 ^ 2153) as Hx.
    { rewrite Hv, <-Z.mul_assoc, <-Z.pow_add_r by lia. do 2 f_equal. lia. }
    rewrite Hx in Hb. replace 2200 with (47 + 2153) in Hb by lia. rewrite Z.pow_add_r in Hb by lia.
    apply repr_small; rewrite ?g0_val, ?U_val; [nia|lia..].
  - rewrite Hv, Z.mul_sub_distr_r, <-!Z.mul_assoc, <-!Z.pow_add_r by lia.
    do 3 f_equal; lia.
Qed.

Lemma rnd_hundred n : 0 ≤ n ≤ 100 → rnd (n * 2 ^ U) = n * 2 ^ U.
Proof.
  intros. pose proof (pow_gt0 U ltac:(rewrite U_val; lia)). apply repr_rnd; [lia|].
  apply repr_small; rewrite ?g0_val, ?U_val; lia.
Qed.

(** On the grid: [D] is the rounded distance, [P] its exact scaled value. *)
Lemma smooth_range_grid (x d : float) T P W :
  let H := 100 * 2 ^ U in
  finite x → finite d → 0 ≤ fv x ≤ H → 0 ≤ T ≤ H → fv d = rnd (T - fv x) →
  P * 2 ^ U = fv d * W → 0 ≤ W ≤ 2 ^ (U - 1) →
  0 ≤ fv x + rnd P ≤ H ∧ - H ≤ rnd P ≤ H.
Proof.
  intros H Hx Hd HX HT HD HP HW. pose proof (pow_gt0 U ltac:(rewrite U_val; lia)) as HU.
  assert (2 ^ U = 2 * 2 ^ (U - 1)) as Hhalf.
  { rewrite <-Z.pow_succ_r by (rewrite U_val; lia). f_equal. }
  pose proof (rnd_hundred 100 ltac:(lia)) as RH. pose proof (rnd_hundred 50 ltac:(lia)) as RH2.
  pose proof (rnd_fv d Hd) as Rd. pose proof (rnd_fv x Hx) as Rx.
  destruct (decide (fv x ≤ T)) as [Hle|Hgt].
  - assert (0 ≤ fv d) by (rewrite HD; apply rnd_nonneg; lia).
    assert (0 ≤ P) by nia. assert (2 * P ≤ fv d) by nia.
    pose proof (rnd_nonneg P ltac:(lia)). destruct (decide (50 * 2 ^ U ≤ fv x)).
    + assert (fv d ≤ H - fv x) as Hdx.
      { rewrite HD, <-(repr_rnd (H - fv x)); [apply rnd_mono; lia|lia|].
        apply sterbenz_100; [done|lia]. }
      pose proof (rnd_mono P (fv d) ltac:(lia)). lia.
    + assert (fv d ≤ H) by (rewrite HD; unfold H; rewrite <-RH; apply rnd_mono; lia).
      pose proof (rnd_mono P (50 * 2 ^ U) ltac:(lia)). lia.
  - assert (- fv x ≤ fv d ≤ 0) as Hdb.
    { rewrite HD. pose proof (rnd_mono (- fv x) (T - fv x) ltac:(lia)) as Hlo.
      pose proof (rnd_mono (T - fv x) 0 ltac:(lia)) as Hhi.
      rewrite rnd_opp, Rx in Hlo. rewrite rnd_0 in Hhi. lia. }
    assert (fv d ≤ P ≤ 0) as HPb by nia.
    pose proof (rnd_mono (fv d) P ltac:(lia)). pose proof (rnd_mono P 0 ltac:(lia)).
    rewrite rnd_0 in *. lia.
Qed.

Lemma within_hundred x :
  within N[0]%num x N[100]%num ↔ nnan x = false ∧ 0 ≤ fv x ≤ 100 * 2 ^ U.
Proof.
  destruct (nofZ_fv 0 ltac:(done)) as [V0 F0], (nofZ_fv 100 ltac:(done)) as [V1 F1]. split.
  - intros H. pose proof (within_fv _ _ _ F0 F1 H). split; [by eapply within_ok|lia].
  - intros [Hn H]. apply within_intro; try done; rewrite nleb_fv by auto with js; lia.
Qed.

Lemma fv_bounded_finite x : nnan x = false → - (100 * 2 ^ U) ≤ fv x ≤ 100 * 2 ^ U → finite x.
Proof.
  intros Hn H. apply finite_iff; [done|]. rewrite INF_val, U_val in *.
  assert (100 * 2 ^ 2200 < 2 ^ 3224); [|lia].
  apply (Z.lt_le_trans _ (2 ^ 7 * 2 ^ 2200)).
  - pose proof (pow_gt0 2200 ltac:(lia)). lia.
  - rewrite <-Z.pow_add_r by lia. apply Z.pow_le_mono_r; lia.
Qed.

(** [x + (t - x) * w], weight at most one half. *)
Lemma smooth_range x t w :
  within N[0]%num x N[100]%num → within N[0]%num t N[100]%num →
  finite w → 0 ≤ fv w ≤ 2 ^ (U - 1) →
  within N[0]%num (x + (t - x) * w)%num N[100]%num.
Proof.
  intros Hx Ht Hw HW. pose proof (within_finite _ _ _ Hx) as Fx. pose proof (within_finite _ _ _ Ht) as Ft.
  apply within_hundred in Hx as [Nx Hx], Ht as [Nt Ht].
  pose proof (rnd_hundred 100 ltac:(lia)) as RH.
  destruct (fsub_fv t x Ft Fx) as [Vd Nd].
  assert (finite (t - x)%num) as Fd.
  { apply fv_bounded_finite; [done|]. rewrite Vd.
    pose proof (rnd_mono (- (100 * 2 ^ U)) (fv t - fv x) ltac:(lia)) as Hlo.
    pose proof (rnd_mono (fv t - fv x) (100 * 2 ^ U) ltac:(lia)). rewrite rnd_opp in Hlo. lia. }
  destruct (fmul_fv (t - x)%num w Fd Hw) as [(P & HP & Vm) Nm].
  destruct (smooth_range_grid x (t - x)%num (fv t) P (fv w) Fx Fd Hx Ht Vd HP HW) as [Hr Hm].
  assert (finite ((t - x) * w)%num) as Fm by (apply fv_bounded_finite; [done|lia]).
  destruct (fadd_fv x ((t - x) * w)%num Fx Fm) as [Vr Nr].
  apply within_hundred. split; [done|]. rewrite Vr, Vm.
  pose proof (rnd_mono _ _ (proj1 Hr)) as Hlo. pose proof (rnd_mono _ _ (proj2 Hr)) as Hhi.
  rewrite rnd_0 in Hlo. lia.
Qed.

(** ** Bounds on values *)

(** A value that rounds to itself; bounds by such values survive rounding. *)
Definition fixed (v : Z) : Prop := rnd v = v ∧ Z.abs v < INF.

Lemma fixed_fv x : finite x → fixed (fv x).
Proof. intros Hx. split; [by apply rnd_fv|by apply finite_abs]. Qed.
Lemma fixed_repr v : repr v → fixed v.
Proof. intros Hv. pose proof (repr_nonneg v Hv). split; [apply repr_rnd; [lia|done]|lia]. Qed.
Lemma fixed_opp v : fixed v → fixed (- v).
Proof. intros [H1 H2]. split; [by rewrite rnd_opp, H1|lia]. Qed.
Lemma repr_dyadic n j : 0 ≤ n < 2 ^ 53 → 0 ≤ j ≤ 1000 → repr (n * 2 ^ (U - j)).
Proof. intros. apply repr_small; [done|rewrite U_val, g0_val; lia|lia]. Qed.
Lemma repr_int n : 0 ≤ n < 2 ^ 53 → repr (n * 2 ^ U).
Proof. intros. rewrite <-(Z.sub_0_r U). by apply repr_dyadic. Qed.

Lemma round_between z v lo hi :
  nnan z = false → fv z = rnd v → fixed lo → fixed hi → lo ≤ v ≤ hi → finite z ∧ lo ≤ fv z ≤ hi.
Proof.
  intros Hn Hz [Rl Fl] [Rh Fh] Hv. pose proof (rnd_mono lo v ltac:(lia)). pose proof (rnd_mono v hi ltac:(lia)).
  split; [apply finite_iff; [done|]|]; lia.
Qed.

Section Between.
Context {x y : float} (lo hi : Z) (Fx : finite x) (Fy : finite y) (Hlo : fixed lo) (Hhi : fixed hi).

Lemma add_between : lo ≤ fv x + fv y ≤ hi → finite (x + y)%num ∧ lo ≤ fv (x + y)%num ≤ hi.
Proof using All. intros H. destruct (fadd_fv x y Fx Fy). by eapply round_between. Qed.
Lemma sub_between : lo ≤ fv x - fv y ≤ hi → finite (x - y)%num ∧ lo ≤ fv (x - y)%num ≤ hi.
Proof using All. intros H. destruct (fsub_fv x y Fx Fy). by eapply round_between. Qed.
Lemma mul_between :
  lo * 2 ^ U ≤ fv x * fv y ≤ hi * 2 ^ U → finite (x * y)%num ∧ lo ≤ fv (x * y)%num ≤ hi.
Proof using All.
  intros H. destruct (fmul_fv x y Fx Fy) as [(p & Hp & Ep) Hn]. pose proof (pow_gt0 U ltac:(rewrite U_val; lia)).
  rewrite <-Hp in H. eapply round_between; [done|done|done|done|nia].
Qed.
End Between.

Lemma div_between x y hi :
  finite x → finite y → 0 ≤ fv x → 0 < fv y → repr hi → fv x * 2 ^ U ≤ hi * fv y →
  finite (x / y)%num ∧ 0 ≤ fv (x / y)%num ≤ hi.
Proof.
  intros Hx Hy Hx0 Hy0 Hr Hle. destruct (fdiv_abs_le x y hi) as [F Ha]; [done|done|lia|done| |].
  - rewrite !Z.abs_eq by lia. done.
  - pose proof (fdiv_nonneg x y Hx Hy Hx0 Hy0). split; [done|lia].
Qed.
Lemma div_above x y lo :
  finite x → finite y → 0 ≤ fv x → 0 < fv y → repr lo → lo * fv y ≤ fv x * 2 ^ U → lo ≤ fv (x / y)%num.
Proof.
  intros Hx Hy Hx0 Hy0 Hr Hle. pose proof (fdiv_nonneg x y Hx Hy Hx0 Hy0).
  pose proof (fdiv_abs_ge x y lo Hx Hy ltac:(lia) Hr) as Ha. rewrite !Z.abs_eq in Ha by lia. by apply Ha.
Qed.

(** Rounding errs by at most half a unit in the last place. *)
Lemma rne_half v k : 0 ≤ k → Z.abs (2 * (rne v k * 2 ^ k - v)) ≤ 2 ^ k.
Proof.
  intros Hk. pose proof (pow_gt0 k Hk). unfold rne.
  pose proof (Z.div_mod v (2 ^ k) ltac:(lia)). pose proof (Z.mod_pos_bound v (2 ^ k) ltac:(lia)).
  destruct (Z.compare_spec (2 * (v mod 2 ^ k)) (2 ^ k)); [case_if|..]; lia.
Qed.

Lemma rnd_error v k : 0 ≤ v < 2 ^ k → g0 + 53 ≤ k < 3224 → Z.abs (2 * (rnd v - v)) ≤ 2 ^ (k - 53).
Proof.
  intros Hv Hk. rewrite g0_val in *. destruct (decide (v = 0)) as [->|].
  { rewrite rnd_0. pose proof (pow_gt0 (k - 53) ltac:(lia)). lia. }
  assert (ex v ≤ k - 53) as He.
  { unfold ex, dig. rewrite g0_val. pose proof (Z.log2_lt_pow2 v k ltac:(lia)). lia. }
  pose proof (rne_half v (ex v) (ex_nonneg v)) as Hh.
  assert (2 ^ ex v ≤ 2 ^ (k - 53)) by (apply Z.pow_le_mono_r; lia).
  assert (2 ^ k < INF) by (rewrite INF_val; apply Z.pow_lt_mono_r; lia).
  assert (2 * 2 ^ (k - 53) ≤ 2 ^ k).
  { rewrite <-Z.pow_succ_r by lia. apply Z.pow_le_mono_r; lia. }
  assert (2 ^ (k - 53) < INF ∧ 2 ^ k + 2 ^ (k - 53) < INF) as [_ ?].
  { split; [lia|]. rewrite INF_val. apply (Z.lt_le_trans _ (2 * 2 ^ k)); [lia|].
    rewrite <-Z.pow_succ_r by lia. apply Z.pow_le_mono_r; lia. }
  unfold rnd. rewrite (proj2 (Z.ltb_ge v 0)) by lia. unfold rndp. rewrite Z.min_l by lia. lia.
Qed.

(** ** Sorting by the sign of [a - b] orders finite numbers *)
Definition by_difference (a b : float) : bool := (a - b >? N[0])%num.

Lemma by_difference_le a b : finite a → finite b → by_difference a b = false ↔ nleb a b = true.
Proof.
  intros Ha Hb. unfold by_difference. destruct (fsub_sign a b Ha Hb) as [-> _].
  apply nltb_false; auto with js.
Qed.

Lemma by_difference_consistent : consistent finite by_difference.
Proof.
  split.
  - intros x y Hx Hy Hgt. apply by_difference_le; [done..|].
    unfold by_difference in Hgt. destruct (fsub_sign x y Hx Hy) as [E _]. rewrite E in Hgt.
    by apply nltb_leb.
  - intros x y z Hx Hy Hz. rewrite !by_difference_le by done. apply nleb_trans.
Qed.
