(* ===== verification/Mock.v ===== *)
(** * The simulated data source: [hooks/useMockData.ts]

    A tick advances the services and the connections, publishes the snapshot,
    history and service maps, and appends the spike events.  [Math.random] and
    [Date.now] are read from a world of two tapes; a [TypeError] is [None].
    Integer counters (timers, counts) are [Z]; measurements are binary64. *)

From S2P Require Export Store FloatRound.

Local Open Scope num_scope.

(** ** Effects: random numbers, the clock, exceptions *)
Record World := mkWorld { w_rand : nat; w_now : nat }.

Definition M (A : Type) : Type := World → option (A * World).
#[export] Instance M_ret : MRet M := λ A a w, Some (a, w).
#[export] Instance M_bind : MBind M := λ A B f m w,
  match m w with Some (a, w') => f a w' | None => None end.
Definition throw {A} : M A := λ _, None.

Fixpoint mapM_list {A B} (f : A → M B) (l : list A) : M (list B) :=
  match l with
  | [] => mret []
  | x :: l => y ← f x; ys ← mapM_list f l; mret (y :: ys)
  end.
Fixpoint replicateM {A} (n : nat) (m : M A) : M (list A) :=
  match n with
  | O => mret []
  | S n => x ← m; xs ← replicateM n m; mret (x :: xs)
  end.

(** ** Internal state *)
Definition EXTERNAL_SERVICES : list string := ["postgres"; "redis"; "kafka"; "stripe-api"].

Module Def.
Record ConnDef := mkDef { src : string; dst : string; baseMs : number; noiseMs : number }.
End Def.
Abbreviation ConnDef := Def.ConnDef.

Definition CONN_DEFS : list ConnDef := [
  Def.mkDef "api-gateway" "auth-svc"      N[3]         (nlit 15 10);
  Def.mkDef "api-gateway" "order-svc"     N[5]         N[2];
  Def.mkDef "auth-svc"    "redis"         (nlit 15 10) (nlit 5 10);
  Def.mkDef "order-svc"   "payment-svc"   N[8]         N[3];
  Def.mkDef "order-svc"   "inventory-svc" N[4]         N[2];
  Def.mkDef "order-svc"   "notif-svc"     N[6]         N[2];
  Def.mkDef "order-svc"   "postgres"      N[9]         N[4];
  Def.mkDef "payment-svc" "postgres"      N[12]        N[5];
  Def.mkDef "payment-svc" "stripe-api"    N[45]        N[15];
  Def.mkDef "notif-svc"   "kafka"         N[3]         N[1]
].

Module SS.
Record ServiceState := mkSS {
  name : string;
  cpu_pct : number;
  io_wait_pct : number;
  mem_pressure_pct : number;
  cpu_throttle_pct : number;
  stressKind : StressKind;
  stressTimer : Z;
  history : list ResourcePoint;
}.
End SS.
Abbreviation ServiceState := SS.ServiceState.

(** The result of [genPercs]; the points of the internal history add a time. *)
Module Perc.
Record Percs := mkPercs {
  avg_us : number; p50_us : number; p95_us : number; p99_us : number; jitter_us : number
}.
End Perc.
Abbreviation Percs := Perc.Percs.

Module CS.
Record ConnState := mkCS {
  src : string;
  dst : string;
  key : string;
  baseMs : number;
  noiseMs : number;
  isSpike : bool;
  spikeTimer : Z;
  retransmitCount : Z;
  sampleCount : Z;
  fin : Z; rst : Z; timeout : Z;        (* closeStates *)
  history : list (number * Percs);
  causeKind : option CauseKind;
}.
End CS.
Abbreviation ConnState := CS.ConnState.

Definition SAMPLES : nat := 30.

(** A number used as an array index; [undefined] in arithmetic is NaN. *)
Definition arr_get (arr : list number) (i : number) : number :=
  (nfloorZ i ≫= js_at arr) ?? PrimFloat.nan.

(** [dstState?.stressKind !== null]: [undefined] is not [null]. *)
Definition dst_stressed (dst : option ServiceState) : bool :=
  match dst with
  | Some s => bool_decide (SS.stressKind s ≠ None)
  | None => true
  end.

(** The hook: the refs and the published state *)
Module Mk.
Record Mock := mkMock {
  serviceState : jsobj ServiceState;
  connState : jsobj ConnState;
  allEvents : list SpikeEvent;
  counter : Z;
  published : Store;
}.
End Mk.
Abbreviation Mock := Mk.Mock.

(** The targets a service moves to. *)
Module Target.
Record Targets := mkT { cpu : number; io : number; mem : number; throttle : number }.
End Target.

(** What the loop over the connections accumulates. *)
Module Acc.
Record Acc := mkAcc {
  snapshots : SnapshotMap;
  history : HistoryMap;
  newEvents : list SpikeEvent;
  allEvents : list SpikeEvent;     (* [allEventsRef.current] *)
  counter : Z;                     (* [eventCounterRef.current] *)
}.
End Acc.

Section Tapes.
Variable rand : nat → number.    (* successive results of [Math.random] *)
Variable now : nat → Z.          (* successive results of [Date.now] *)

Definition random : M number := λ w, Some (rand (w_rand w), mkWorld (S (w_rand w)) (w_now w)).
Definition date_now : M Z := λ w, Some (now (w_now w), mkWorld (w_rand w) (S (w_now w))).

Definition rnd_between (lo hi r : number) : number := lo + r * (hi - lo).
Definition rnd (lo hi : number) : M number := r ← random; mret (rnd_between lo hi r).
Definition floor_rnd (lo hi : number) : M Z := v ← rnd lo hi; mret (nfloorZ v ?? 0%Z).

(** ** [genPercs] *)
Definition percs_of (arr : list number) : Percs :=
  let p := λ pct, arr_get arr
    (nmax N[0] (nfloor (pct / N[100] * N[Z.of_nat (length arr) - 1]))) in
  let avg := nsum arr / N[Z.of_nat (length arr)] in
  Perc.mkPercs (avg * N[1000]) (p N[50] * N[1000]) (p N[95] * N[1000]) (p N[99] * N[1000])
    ((p N[75] - p N[25]) * N[1000]).

Definition sample (base noise : number) : M number :=
  v ← rnd (nneg noise * nlit 8 10) (noise * nlit 12 10);
  mret (nmax (nlit 1 10) (base + v)).

Definition genPercs (state : ConnState) : M Percs :=
  base ← (if CS.isSpike state then f ← rnd N[8] N[25]; mret (CS.baseMs state * f)
          else mret (CS.baseMs state));
  let noise := if CS.isSpike state then CS.baseMs state * N[5] else CS.noiseMs state in
  arr ← replicateM SAMPLES (sample base noise);
  mret (percs_of (js_sort (λ a b, a - b >? N[0]) arr)).

(** ** [classifyCause]: reading a field of [undefined] throws. *)
Definition classifyCause (state : ConnState) (dstSvc : option ServiceState) : M CauseKind :=
  if bool_decide (CS.dst state ∈ EXTERNAL_SERVICES) && (CS.baseMs state >? N[30])
  then mret External
  else match dstSvc with
       | None => throw
       | Some s =>
           mret (match SS.stressKind s with
                 | Some StressCpu => Cpu
                 | Some StressIo => Io
                 | Some StressMemory => Memory
                 | None => Network
                 end)
       end.

(** ** [tickService] *)
Definition kinds : list Stress := [StressCpu; StressIo; StressMemory].

Definition tick_stress (s : ServiceState) : M (StressKind * Z) :=
  if (0 <? SS.stressTimer s)%Z then
    let t := (SS.stressTimer s - 1)%Z in
    mret (if (t =? 0)%Z then None else SS.stressKind s, t)
  else
    r ← random;
    if r <? nlit 8 1000 then
      r ← random;
      let k := nfloorZ (r * N[3]) ≫= js_at kinds in
      t ← floor_rnd N[5] N[14];
      mret (k, t)
    else mret (SS.stressKind s, SS.stressTimer s).

Definition draw (lo span : number) : M number := r ← random; mret (lo + r * span).

Definition targets (k : StressKind) : M Target.Targets :=
  cpu ← draw N[15] N[25];
  io ← draw N[2] N[6];
  mem ← draw N[5] N[15];
  match k with
  | Some StressCpu =>
      cpu ← draw N[85] N[14]; thr ← draw N[20] N[60]; mret (Target.mkT cpu io mem thr)
  | Some StressIo => io ← draw N[35] N[40]; mret (Target.mkT cpu io mem N[0])
  | Some StressMemory =>
      mem ← draw N[75] N[22]; cpu ← draw N[50] N[30]; mret (Target.mkT cpu io mem N[0])
  | None => mret (Target.mkT cpu io mem N[0])
  end.

(** [x += (target - x) * w] *)
Definition approach (x target w : number) : number := x + (target - x) * w.

Definition tickService (s : ServiceState) : M ServiceState :=
  '(kind, timer) ← tick_stress s;
  t ← targets kind;
  let cpu := approach (SS.cpu_pct s) (Target.cpu t) (nlit 4 10) in
  let io := approach (SS.io_wait_pct s) (Target.io t) (nlit 5 10) in
  let mem := approach (SS.mem_pressure_pct s) (Target.mem t) (nlit 3 10) in
  let thr := approach (SS.cpu_throttle_pct s) (Target.throttle t) (nlit 5 10) in
  time ← date_now;
  mret (SS.mkSS (SS.name s) cpu io mem thr kind timer
    (js_slice (SS.history s) (-300) None ++ [RPoint.mkRPoint N[time] cpu io mem thr])).

(** ** The spike state machine of a connection *)
Definition bump_close (s : ConnState) : M (Z * Z * Z) :=
  r ← random;
  if r <? nlit 15 100 then
    rr ← random;
    if rr <? nlit 33 100 then mret (CS.fin s, CS.rst s + 1, CS.timeout s)%Z
    else if rr <? nlit 66 100 then mret (CS.fin s, CS.rst s, CS.timeout s + 1)%Z
    else mret (CS.fin s + 1, CS.rst s, CS.timeout s)%Z
  else mret (CS.fin s + 1, CS.rst s, CS.timeout s)%Z.

Definition with_spike (s : ConnState) (isSpike : bool) (timer retr : Z) (cl : Z * Z * Z) : ConnState :=
  CS.mkCS (CS.src s) (CS.dst s) (CS.key s) (CS.baseMs s) (CS.noiseMs s) isSpike timer retr
    (CS.sampleCount s) cl.1.1 cl.1.2 cl.2 (CS.history s) (CS.causeKind s).

Definition closes (s : ConnState) : Z * Z * Z := (CS.fin s, CS.rst s, CS.timeout s).

Definition tick_spike (stressed : bool) (s : ConnState) : M ConnState :=
  if CS.isSpike s then
    let t := (CS.spikeTimer s - 1)%Z in
    mret (with_spike s (negb (t <=? 0)%Z) t (CS.retransmitCount s) (closes s))
  else
    let p := if stressed then nlit 18 100 else nlit 8 1000 in
    r ← random;
    if r <? p then
      t ← floor_rnd N[3] N[8];
      rt ← floor_rnd N[1] N[5];
      cl ← bump_close s;
      mret (with_spike s true t (CS.retransmitCount s + rt)%Z cl)
    else mret s.

(** ** What a connection publishes *)
Definition svc_type (name : string) : NodeType :=
  if bool_decide (name ∈ INTERNAL_SERVICES) then Internal else ExternalNode.

Definition snapshot_of (s : ConnState) (perc : Percs) (dst : option ServiceState) : StatSnapshot :=
  Snap.mkStat (CS.src s) (CS.dst s) (svc_type (CS.src s)) (svc_type (CS.dst s))
    (Perc.avg_us perc) (Perc.avg_us perc) (Perc.p50_us perc) (Perc.p95_us perc)
    (Perc.p99_us perc) (Perc.jitter_us perc)
    N[CS.retransmitCount s] N[CS.sampleCount s] (CS.isSpike s)
    (CS.baseMs s * N[5] * N[1000]) (CS.causeKind s)
    (Some (Close.mkClose N[CS.fin s] N[CS.rst s] N[CS.timeout s]))
    (SS.cpu_pct <$> dst) (SS.io_wait_pct <$> dst) (SS.mem_pressure_pct <$> dst)
    (Some (CS.baseMs s * N[1000])).

Definition point_of (h : number * Percs) : HistoryPoint :=
  HPoint.mkHPoint h.1 (Perc.avg_us h.2) (Perc.avg_us h.2) (Perc.p50_us h.2) (Perc.p95_us h.2)
    (Perc.p99_us h.2) (Perc.jitter_us h.2).

Definition event_of (s : ConnState) (perc : Percs) (dst : option ServiceState)
    (t_id t_ts counter : Z) : SpikeEvent :=
  Spike.mkSpike
    (CS.key s +:+ "-" +:+ pretty t_id +:+ "-" +:+ pretty counter)
    N[t_ts] (CS.key s) (CS.src s) (CS.dst s) (Perc.p99_us perc) (CS.baseMs s * N[1000])
    (if Perc.p99_us perc >? N[80000] then Critical else Warning)
    (CS.causeKind s ?? Network)
    ((SS.cpu_pct <$> dst) ?? N[0]) ((SS.io_wait_pct <$> dst) ?? N[0])
    ((SS.mem_pressure_pct <$> dst) ?? N[0]).

Definition add_event (a : Acc.Acc) (ev : SpikeEvent) (counter : Z) : Acc.Acc :=
  Acc.mkAcc (Acc.snapshots a) (Acc.history a) (Acc.newEvents a ++ [ev])
    (js_slice (ev :: Acc.allEvents a) 0 (Some 100%Z)) counter.

(** ... the state after a tick, its cause and its new history point *)
Definition finish_conn (s : ConnState) (cause : option CauseKind) (time : Z) (perc : Percs) : ConnState :=
  CS.mkCS (CS.src s) (CS.dst s) (CS.key s) (CS.baseMs s) (CS.noiseMs s) (CS.isSpike s)
    (CS.spikeTimer s) (CS.retransmitCount s) (CS.sampleCount s + Z.of_nat SAMPLES)
    (CS.fin s) (CS.rst s) (CS.timeout s)
    (js_slice (CS.history s) (-300) None ++ [(N[time], perc)]) cause.

Definition tick_conn (svcs : jsobj ServiceState) (state : ConnState) (a : Acc.Acc)
    : M (ConnState * Acc.Acc) :=
  let wasSpike := CS.isSpike state in
  let dstState := obj_get svcs (CS.dst state) in
  state ← tick_spike (dst_stressed dstState) state;
  perc ← genPercs state;
  cause ← (if CS.isSpike state then c ← classifyCause state dstState; mret (Some c) else mret None);
  time ← date_now;
  let state := finish_conn state cause time perc in
  let a := Acc.mkAcc (obj_set (Acc.snapshots a) (CS.key state) (snapshot_of state perc dstState))
             (obj_set (Acc.history a) (CS.key state) (map point_of (CS.history state)))
             (Acc.newEvents a) (Acc.allEvents a) (Acc.counter a) in
  if CS.isSpike state && negb wasSpike then
    t_id ← date_now;
    t_ts ← date_now;
    let counter := (Acc.counter a + 1)%Z in
    mret (state, add_event a (event_of state perc dstState t_id t_ts counter) counter)
  else mret (state, a).

Fixpoint tick_conns (svcs : jsobj ServiceState) (conns : jsobj ConnState) (a : Acc.Acc)
    : M (jsobj ConnState * Acc.Acc) :=
  match conns with
  | [] => mret ([], a)
  | (k, s) :: conns =>
      '(s', a) ← tick_conn svcs s a;
      '(conns', a) ← tick_conns svcs conns a;
      mret ((k, s') :: conns', a)
  end.

(** ** The hook *)
Definition service_snapshot (s : ServiceState) : ServiceSnapshot :=
  Svc.mkSvc (SS.name s) (SS.cpu_pct s) (SS.io_wait_pct s) (SS.mem_pressure_pct s)
    (SS.cpu_throttle_pct s) (SS.stressKind s) (SS.history s).

Definition next_services (svcs : jsobj ServiceState) : ServiceMap :=
  foldl (λ next s, obj_set next (SS.name s) (service_snapshot s)) obj_empty svcs.*2.

Definition tick (m : Mock) : M Mock :=
  svcs ← mapM_list (λ ks : string * ServiceState, s ← tickService ks.2; mret (ks.1, s))
           (Mk.serviceState m);
  '(conns, a) ← tick_conns svcs (Mk.connState m)
                  (Acc.mkAcc obj_empty obj_empty [] (Mk.allEvents m) (Mk.counter m));
  mret (Mk.mkMock svcs conns (Acc.allEvents a) (Acc.counter a)
    (Store.mkStore (Acc.snapshots a) (next_services svcs) (Acc.history a)
       (if bool_decide (Acc.newEvents a = []) then Store.events (Mk.published m)
        else Acc.allEvents a))).

Definition init_service (svc : string) : M (string * ServiceState) :=
  cpu ← draw N[15] N[25];
  io ← draw N[2] N[6];
  mem ← draw N[5] N[15];
  mret (svc, SS.mkSS svc cpu io mem N[0] None 0%Z []).

Definition init_conn (d : ConnDef) : string * ConnState :=
  let key := conn_key (Def.src d) (Def.dst d) in
  (key, CS.mkCS (Def.src d) (Def.dst d) key (Def.baseMs d) (Def.noiseMs d) false 0 0 0 0 0 0 [] None).

Definition init_mock : M Mock :=
  svcs ← mapM_list init_service (INTERNAL_SERVICES ++ EXTERNAL_SERVICES);
  mret (Mk.mkMock svcs (map init_conn CONN_DEFS) [] 0 initial_store).

(** The effect's first tick and [n] timer ticks. *)
Fixpoint ticks (n : nat) (m : Mock) : M Mock :=
  match n with O => mret m | S n => m ← tick m; ticks n m end.
Definition run_mock (n : nat) : option Mock :=
  fst <$> (m ← init_mock; ticks (S n) m) (mkWorld 0 0).
End Tapes.
