(* ===== verification/MockFacts.v ===== *)
(** * The simulated data source: theorems

    A total-correctness logic for the effects of [Mock] ([returns m P]: [m]
    throws nothing and its result satisfies [P], on every tape of numbers in
    [[0, 1)]), then the invariant of the tick: the state machines of stress and
    spikes, percentages in [[0, 100]], ordered percentiles, bounded logs. *)

From S2P Require Export FloatInterval Mock.
From stdpp Require Import base list.

Local Open Scope num_scope.

(** ** Total correctness of effectful code *)
Definition returns {A} (m : M A) (P : A → Prop) : Prop :=
  ∀ w, ∃ a w', m w = Some (a, w') ∧ P a.

Lemma returns_ret {A} (a : A) (P : A → Prop) : P a → returns (mret a) P.
Proof. intros Ha w. by exists a, w. Qed.

Lemma returns_bind {A B} (m : M A) (f : A → M B) (P : A → Prop) (Q : B → Prop) :
  returns m P → (∀ a, P a → returns (f a) Q) → returns (m ≫= f) Q.
Proof.
  intros Hm Hf w. destruct (Hm w) as (a & w' & E & Ha). destruct (Hf a Ha w') as (b & w'' & E' & Hb).
  exists b, w''. split; [|done]. unfold mbind, M_bind. by rewrite E.
Qed.

Lemma returns_weaken {A} (m : M A) (P Q : A → Prop) :
  returns m P → (∀ a, P a → Q a) → returns m Q.
Proof. intros Hm HPQ w. destruct (Hm w) as (a & w' & ? & ?). eauto 10. Qed.

Lemma returns_and {A} (m : M A) (P Q : A → Prop) :
  returns m P → returns m Q → returns m (λ a, P a ∧ Q a).
Proof.
  intros HP HQ w. destruct (HP w) as (a & w' & E & ?), (HQ w) as (a' & w'' & E' & ?).
  rewrite E in E'. simplify_eq. eauto 10.
Qed.

Lemma returns_mapM {A B} (f : A → M B) (R : A → B → Prop) l :
  (∀ x, x ∈ l → returns (f x) (R x)) → returns (mapM_list f l) (Forall2 R l).
Proof.
  induction l as [|x l IH]; intros Hf; simpl.
  - by apply returns_ret.
  - eapply returns_bind; [apply Hf; set_solver|]. intros y Hy.
    eapply returns_bind; [apply IH; set_solver|]. intros ys Hys.
    apply returns_ret. by constructor.
Qed.

Lemma returns_replicate {A} (m : M A) (P : A → Prop) n :
  returns m P → returns (replicateM n m) (λ l, length l = n ∧ Forall P l).
Proof.
  intros Hm. induction n as [|n IH]; simpl; [by apply returns_ret|].
  eapply returns_bind; [exact Hm|]. intros x Hx. eapply returns_bind; [exact IH|].
  intros l [Hl HP]. apply returns_ret. simpl. split; [lia|by constructor].
Qed.

(** One step of a [do] block with the given specification. *)
Ltac mstep lem := eapply returns_bind; [eapply lem|cbv beta].

Section Facts.
Context (rand : nat → number) (now : nat → Z).
Context (rand_unit : ∀ i, in_unit (rand i)).

Lemma random_spec : returns (random rand) in_unit.
Proof using rand_unit. intros w. eexists _, _. split; [reflexivity|]. apply rand_unit. Qed.

Lemma date_now_spec : returns (date_now now) (λ _, True).
Proof. intros w. by eexists _, _. Qed.

Lemma draw_spec lo span a b :
  finite lo → finite span → (0 <= fv span)%Z →
  finite (N[0] * span)%num → finite (rmax * span)%num →
  finite (lo + N[0] * span)%num → finite (lo + rmax * span)%num →
  nleb a (lo + N[0] * span)%num = true → nleb (lo + rmax * span)%num b = true →
  returns (draw rand lo span) (λ x, within a x b).
Proof using rand_unit.
  intros. mstep random_spec. intros r Hr. apply returns_ret.
  eapply within_weaken; [apply affine_within|..]; done.
Qed.

Lemma rnd_spec lo hi a b :
  finite lo → finite (hi - lo)%num → (0 <= fv (hi - lo)%num)%Z →
  finite (N[0] * (hi - lo))%num → finite (rmax * (hi - lo))%num →
  finite (lo + N[0] * (hi - lo))%num → finite (lo + rmax * (hi - lo))%num →
  nleb a (lo + N[0] * (hi - lo))%num = true → nleb (lo + rmax * (hi - lo))%num b = true →
  returns (rnd rand lo hi) (λ x, within a x b).
Proof using rand_unit.
  intros. mstep random_spec. intros r Hr. apply returns_ret.
  eapply within_weaken; [apply affine_within|..]; done.
Qed.

Lemma floor_rnd_spec lo hi a b :
  returns (rnd rand lo hi) (λ x, nleb (nofZ a) x = true ∧ nltb x (nofZ b) = true) →
  (Z.abs a < 2 ^ 53)%Z → (Z.abs b < 2 ^ 53)%Z →
  returns (floor_rnd rand lo hi) (λ k, a <= k < b)%Z.
Proof.
  intros Hr Ha Hb. mstep Hr. intros v [H1 H2]. apply returns_ret.
  destruct (nfloorZ_range v a b) as (k & -> & Hk); done.
Qed.

(** ** Services *)
Definition stress_ok (k : StressKind) (t : Z) : Prop :=
  (k = None ∧ t = 0%Z) ∨ (k ≠ None ∧ 1 <= t <= 13)%Z.

Lemma floor_5_14 : returns (floor_rnd rand N[5] N[14]) (λ k, 5 <= k < 14)%Z.
Proof using rand_unit.
  apply floor_rnd_spec; [|done..].
  eapply returns_weaken; [apply (rnd_spec N[5] N[14] N[5] (N[5] + rmax * N[9])); feval|].
  intros x (Hf & H1 & H2). split; [done|]. eapply nltb_trans_r; [exact H2|feval].
Qed.
Lemma floor_3_8 : returns (floor_rnd rand N[3] N[8]) (λ k, 3 <= k < 8)%Z.
Proof using rand_unit.
  apply floor_rnd_spec; [|done..].
  eapply returns_weaken; [apply (rnd_spec N[3] N[8] N[3] (N[3] + rmax * N[5])); feval|].
  intros x (Hf & H1 & H2). split; [done|]. eapply nltb_trans_r; [exact H2|feval].
Qed.
(** The largest draw rounds up to 5. *)
Lemma floor_1_5 : returns (floor_rnd rand N[1] N[5]) (λ k, 1 <= k < 6)%Z.
Proof using rand_unit.
  apply floor_rnd_spec; [|done..].
  eapply returns_weaken; [apply (rnd_spec N[1] N[5] N[1] N[5]); feval|].
  intros x (Hf & H1 & H2). split; [done|]. eapply nltb_trans_r; [exact H2|feval].
Qed.

Lemma kind_index r : in_unit r → ∃ k, nfloorZ (r * N[3])%num ≫= js_at kinds = Some k.
Proof.
  intros Hr%unit_within. assert (within (N[0] * N[3]) (r * N[3]) (rmax * N[3]))%num as (_ & H1 & H2)
    by (apply within_mul_const; [done|feval..]).
  destruct (nfloorZ_range (r * N[3])%num 0 3) as (i & -> & Hi); [done..| | |].
  - eapply nleb_trans; [|exact H1]. feval.
  - eapply nltb_trans_r; [exact H2|feval].
  - assert (i = 0 ∨ i = 1 ∨ i = 2)%Z as [-> |[-> | ->]] by lia; by eexists.
Qed.

Lemma tick_stress_spec s :
  stress_ok (SS.stressKind s) (SS.stressTimer s) →
  returns (tick_stress rand s) (λ kt, stress_ok kt.1 kt.2).
Proof using rand_unit.
  intros Hs. unfold tick_stress. case_if; bool_to_prop.
  - apply returns_ret. simpl. destruct Hs as [[? ?]|[Hk Ht]]; [lia|].
    destruct (Z.eqb_spec (SS.stressTimer s - 1) 0) as [E|E].
    + left. split; [done|lia].
    + right. split; [done|lia].
  - mstep random_spec. intros r Hr. case_if; [|by apply returns_ret].
    mstep random_spec. intros r' Hr'. mstep floor_5_14. intros t Ht. apply returns_ret.
    destruct (kind_index r' Hr') as [k ->]. right. split; [done|simpl; lia].
Qed.

Definition pct (x : number) : Prop := within N[0]%num x N[100]%num.

Record svc_ok (s : ServiceState) : Prop := {
  so_stress : stress_ok (SS.stressKind s) (SS.stressTimer s);
  so_cpu : pct (SS.cpu_pct s);
  so_io : pct (SS.io_wait_pct s);
  so_mem : pct (SS.mem_pressure_pct s);
  so_thr : pct (SS.cpu_throttle_pct s);
  so_history : length (SS.history s) ≤ 301;
}.

Lemma targets_spec k :
  returns (targets rand k) (λ t, pct (Target.cpu t) ∧ pct (Target.io t) ∧ pct (Target.mem t)
                                 ∧ pct (Target.throttle t)).
Proof using rand_unit.
  assert (pct N[0]%num) as H0 by (split_and!; feval).
  unfold targets, pct.
  eapply returns_bind; [apply (draw_spec _ _ N[0] N[100]); feval|]. intros cpu Hcpu.
  eapply returns_bind; [apply (draw_spec _ _ N[0] N[100]); feval|]. intros io Hio.
  eapply returns_bind; [apply (draw_spec _ _ N[0] N[100]); feval|]. intros mem Hmem.
  destruct k as [[]|].
  - eapply returns_bind; [apply (draw_spec _ _ N[0] N[100]); feval|]. intros cpu' ?.
    eapply returns_bind; [apply (draw_spec _ _ N[0] N[100]); feval|]. intros thr ?.
    by apply returns_ret.
  - eapply returns_bind; [apply (draw_spec _ _ N[0] N[100]); feval|]. intros io' ?.
    by apply returns_ret.
  - eapply returns_bind; [apply (draw_spec _ _ N[0] N[100]); feval|]. intros mem' ?.
    eapply returns_bind; [apply (draw_spec _ _ N[0] N[100]); feval|]. intros cpu' ?.
    by apply returns_ret.
  - by apply returns_ret.
Qed.

Lemma approach_pct x t n :
  pct x → pct t → n ∈ [3; 4; 5]%Z → pct (approach x t (nlit n 10)).
Proof.
  intros Hx Ht Hn. unfold approach.
  assert (n = 3 ∨ n = 4 ∨ n = 5)%Z as [-> |[-> | ->]] by set_solver;
    (apply smooth_range; [done|done|feval|split; feval]).
Qed.

Lemma length_slice_300 {A} (l : list A) (x : A) :
  length (js_slice l (-300) None ++ [x]) = S (300 `min` length l).
Proof.
  change (-300)%Z with (- Z.of_nat 300)%Z. rewrite js_slice_last by lia.
  rewrite length_app, length_drop_last. simpl. lia.
Qed.

Lemma tickService_spec s :
  svc_ok s → returns (tickService rand now s) (λ s', svc_ok s' ∧ SS.name s' = SS.name s).
Proof using rand_unit.
  intros [Hst ? ? ? ? ?]. unfold tickService.
  mstep tick_stress_spec; [done|]. intros [k t] Hkt. mstep targets_spec.
  intros T (? & ? & ? & ?). mstep date_now_spec. intros time _. apply returns_ret.
  split; [|done].
  split; cbn [SS.stressKind SS.stressTimer SS.cpu_pct SS.io_wait_pct SS.mem_pressure_pct
              SS.cpu_throttle_pct SS.history];
    [done|by apply approach_pct; [..|set_solver]..|].
  rewrite length_slice_300. lia.
Qed.
(** ** Latency samples and percentiles *)
Definition lowest : number := nlit 1 10.
Definition highest : number := N[2000].

Lemma sample_spec base noise :
  within (nlit 15 10) base N[1125] → within (nlit 5 10) noise N[225] →
  returns (sample rand base noise) (λ x, within lowest x highest).
Proof using rand_unit.
  intros Hb Hn. unfold sample, rnd.
  assert (finite N[0] ∧ finite (nlit 1 10)) as [F0 F1] by (split; feval).
  eapply returns_bind; [|intros v Hv; apply returns_ret; exact Hv].
  mstep random_spec. intros r Hr%unit_within. apply returns_ret. unfold rnd_between, nneg.
  pose proof (within_sub (within_refl N[0] F0) Hn ltac:(feval) ltac:(feval) ltac:(feval)
    ltac:(feval) ltac:(feval) ltac:(feval)) as W1.
  pose proof (within_mul_const _ _ _ (nlit 8 10) W1 ltac:(feval) ltac:(feval) ltac:(feval)
    ltac:(feval) ltac:(feval) ltac:(feval)) as W2.
  pose proof (within_mul_const _ _ _ (nlit 12 10) Hn ltac:(feval) ltac:(feval) ltac:(feval)
    ltac:(feval) ltac:(feval) ltac:(feval)) as W3.
  pose proof (within_sub W3 W2 ltac:(feval) ltac:(feval) ltac:(feval) ltac:(feval)
    ltac:(feval) ltac:(feval)) as W4.
  pose proof (within_mul Hr W4 ltac:(feval) ltac:(feval) ltac:(feval) ltac:(feval)
    ltac:(feval) ltac:(feval) ltac:(feval) ltac:(feval)) as W5.
  pose proof (within_add W2 W5 ltac:(feval) ltac:(feval) ltac:(feval) ltac:(feval)
    ltac:(feval) ltac:(feval)) as W6.
  pose proof (within_add Hb W6 ltac:(feval) ltac:(feval) ltac:(feval) ltac:(feval)
    ltac:(feval) ltac:(feval)) as W7.
  pose proof (within_max (within_refl _ F1) W7 ltac:(feval) ltac:(feval) ltac:(feval)
    ltac:(feval)) as W8.
  eapply within_weaken; [exact W8|feval|feval].
Qed.

Record percs_ok (p : Percs) : Prop := {
  po_p50 : within N[100] (Perc.p50_us p) N[2000000];
  po_p95 : within N[100] (Perc.p95_us p) N[2000000];
  po_p99 : within N[100] (Perc.p99_us p) N[2000000];
  po_50_95 : nleb (Perc.p50_us p) (Perc.p95_us p) = true;
  po_95_99 : nleb (Perc.p95_us p) (Perc.p99_us p) = true;
  po_jitter : within N[0] (Perc.jitter_us p) N[2000000];
}.

Lemma arr_get_sorted arr i k :
  length arr = 30 → nfloorZ i = Some (Z.of_nat k) → k < 30 →
  ∃ x, arr !! k = Some x ∧ arr_get arr i = x.
Proof.
  intros Hl Hi Hk. destruct (lookup_lt_is_Some_2 arr k) as [x Hx]; [lia|].
  exists x. split; [done|]. unfold arr_get. rewrite Hi. simpl. unfold js_at.
  rewrite (proj2 (Z.ltb_ge _ _)) by lia. by rewrite Nat2Z.id, Hx.
Qed.

Lemma micros x : within lowest x highest → within N[100] (x * N[1000]) N[2000000].
Proof.
  intros H. eapply within_weaken;
    [apply (within_mul_const _ _ _ N[1000] H); feval|feval|feval].
Qed.

(** The indices [genPercs] reads in 30 sorted samples. *)
Definition pct_index (p : number) : number := nmax N[0] (nfloor (p / N[100] * N[Z.of_nat 30 - 1])).
Lemma pct_index_25 : nfloorZ (pct_index N[25]) = Some (Z.of_nat 7).
Proof. vm_compute. reflexivity. Qed.
Lemma pct_index_50 : nfloorZ (pct_index N[50]) = Some (Z.of_nat 14).
Proof. vm_compute. reflexivity. Qed.
Lemma pct_index_75 : nfloorZ (pct_index N[75]) = Some (Z.of_nat 21).
Proof. vm_compute. reflexivity. Qed.
Lemma pct_index_95 : nfloorZ (pct_index N[95]) = Some (Z.of_nat 27).
Proof. vm_compute. reflexivity. Qed.
Lemma pct_index_99 : nfloorZ (pct_index N[99]) = Some (Z.of_nat 28).
Proof. vm_compute. reflexivity. Qed.

Lemma jitter_bounds x y :
  within lowest x highest → within lowest y highest → nleb x y = true →
  within N[0] ((y - x) * N[1000]) N[2000000].
Proof.
  intros Hx Hy Hxy.
  pose proof (within_sub Hy Hx ltac:(feval) ltac:(feval) ltac:(feval) ltac:(feval)
    ltac:(feval) ltac:(feval)) as Hd.
  assert (finite N[0] ∧ finite N[2000]) as [F0 F2] by (split; feval).
  destruct (fsub_sign y x (within_finite _ _ _ Hy) (within_finite _ _ _ Hx)) as [_ Hs].
  assert (within N[0] (y - x) N[2000]) as Hd'.
  { apply within_intro; [done..| |].
    - refine (proj1 (nltb_false (y - x) N[0] _ _) _);
        [by eapply within_ok|by apply finite_not_nan|]. rewrite Hs.
      apply nltb_false; [by eapply within_ok..|done].
    - eapply nleb_trans; [eapply within_hi; exact Hd|feval]. }
  eapply within_weaken; [apply (within_mul_const _ _ _ N[1000] Hd'); feval|feval|feval].
Qed.

Lemma percs_of_spec arr :
  length arr = 30 → Forall (λ x, within lowest x highest) arr → ordered by_difference arr →
  percs_ok (percs_of arr).
Proof.
  intros Hl Hin Hord.
  assert (∀ i j x y, i ≤ j → arr !! i = Some x → arr !! j = Some y →
    nleb x y = true ∧ within lowest x highest ∧ within lowest y highest) as Hle.
  { intros i j x y Hij Hx Hy. rewrite Forall_lookup in Hin.
    pose proof (Hin _ _ Hx) as Wx. pose proof (Hin _ _ Hy) as Wy. split_and!; [|done..].
    destruct (decide (i = j)) as [->|]; [simplify_eq; apply nleb_refl; by eapply within_ok|].
    apply by_difference_le; [by eapply within_finite..|].
    apply (ordered_lookup _ arr i j); [done|lia|done..]. }
  destruct (arr_get_sorted arr _ 7 Hl pct_index_25 ltac:(lia)) as (x25 & L25 & E25).
  destruct (arr_get_sorted arr _ 14 Hl pct_index_50 ltac:(lia)) as (x50 & L50 & E50).
  destruct (arr_get_sorted arr _ 21 Hl pct_index_75 ltac:(lia)) as (x75 & L75 & E75).
  destruct (arr_get_sorted arr _ 27 Hl pct_index_95 ltac:(lia)) as (x95 & L95 & E95).
  destruct (arr_get_sorted arr _ 28 Hl pct_index_99 ltac:(lia)) as (x99 & L99 & E99).
  destruct (Hle 14 27 _ _ ltac:(lia) L50 L95) as (H1 & W50 & W95).
  destruct (Hle 27 28 _ _ ltac:(lia) L95 L99) as (H2 & _ & W99).
  destruct (Hle 7 21 _ _ ltac:(lia) L25 L75) as (H3 & W25 & W75).
  assert (∃ avg, percs_of arr = Perc.mkPercs avg (x50 * N[1000]) (x95 * N[1000]) (x99 * N[1000])
    ((x75 - x25) * N[1000])) as [avg ->].
  { eexists. unfold percs_of. rewrite Hl. subst x25 x50 x75 x95 x99. reflexivity. }
  assert (finite N[1000] ∧ (0 <= fv N[1000])%Z) as [F ?] by (split; feval).
  split; cbn [Perc.p50_us Perc.p95_us Perc.p99_us Perc.jitter_us].
  1-3: by apply micros.
  - apply fmul_mono_r; eauto using within_finite.
  - apply fmul_mono_r; eauto using within_finite.
  - apply jitter_bounds; done.
Qed.

(** ** Connections *)
Definition same_def (s : ConnState) (d : ConnDef) : Prop :=
  CS.src s = Def.src d ∧ CS.dst s = Def.dst d ∧ CS.baseMs s = Def.baseMs d
  ∧ CS.noiseMs s = Def.noiseMs d ∧ CS.key s = conn_key (Def.src d) (Def.dst d).

Definition spike_ok (s : ConnState) : Prop :=
  CS.isSpike s = true → (1 <= CS.spikeTimer s <= 7)%Z.

Record conn_ok (d : ConnDef) (s : ConnState) : Prop := {
  co_def : same_def s d;
  co_spike : spike_ok s;
  co_cause : CS.causeKind s ≠ None ↔ CS.isSpike s = true;
  co_history : length (CS.history s) ≤ 301;
  co_percs : Forall (λ h, percs_ok h.2) (CS.history s);
}.

Lemma conn_defs_bounds :
  Forall (λ d, within (nlit 15 10) (Def.baseMs d) N[45] ∧ within (nlit 5 10) (Def.noiseMs d) N[15])
    CONN_DEFS.
Proof.
  unfold CONN_DEFS. repeat (apply Forall_cons_2; [split; split_and!; feval|]). by apply Forall_nil.
Qed.

Lemma genPercs_spec s d :
  d ∈ CONN_DEFS → same_def s d → returns (genPercs rand s) percs_ok.
Proof using rand_unit.
  intros Hd (_ & _ & Eb & En & _). pose proof conn_defs_bounds as Hall.
  rewrite Forall_forall in Hall. destruct (Hall d Hd) as [Hb Hn]. rewrite <-Eb in Hb. rewrite <-En in Hn.
  unfold genPercs.
  eapply (returns_bind _ _ (λ b, within (nlit 15 10) b N[1125])).
  { case_if; [|by apply returns_ret; eapply within_weaken; [exact Hb|feval|feval]].
    eapply returns_bind; [apply (rnd_spec N[8] N[25] N[8] N[25]); feval|].
    intros f Hf. apply returns_ret.
    eapply within_weaken; [apply (within_mul Hb Hf); feval|feval|feval]. }
  intros base Hbase. eapply returns_bind.
  { apply returns_replicate, (sample_spec base); [done|].
    destruct (CS.isSpike s); [|by eapply within_weaken; [exact Hn|feval|feval]].
    eapply within_weaken; [apply (within_mul_const _ _ _ N[5] Hb); feval|feval|feval]. }
  intros arr [Hlen Harr]. apply returns_ret. apply percs_of_spec.
  - by rewrite length_js_sort.
  - by rewrite js_sort_perm.
  - apply (js_sort_ordered finite); [apply by_difference_consistent|].
    eapply Forall_impl; [exact Harr|]. intros x Hx. exact (within_finite _ _ _ Hx).
Qed.

Lemma bump_close_spec s : returns (bump_close rand s) (λ _, True).
Proof using rand_unit.
  unfold bump_close. mstep random_spec. intros r _. case_if; [|by apply returns_ret].
  mstep random_spec. intros r' _. repeat case_if; by apply returns_ret.
Qed.

(** The spike step changes the spike fields only. *)
Lemma tick_spike_spec b s d :
  same_def s d → spike_ok s →
  returns (tick_spike rand b s) (λ s', same_def s' d ∧ spike_ok s' ∧ CS.history s' = CS.history s
    ∧ CS.sampleCount s' = CS.sampleCount s).
Proof using rand_unit.
  intros Hd Hs. unfold tick_spike. case_if.
  - apply returns_ret. split_and!; try done. unfold spike_ok in *. simpl.
    specialize (Hs Hif). intros ?%negb_true_iff. bool_to_prop. lia.
  - mstep random_spec. intros r _. generalize (if b then nlit 18 100 else nlit 8 1000 : number).
    intros p. case_if; [|by apply returns_ret]. mstep floor_3_8. intros t Ht. mstep floor_1_5. intros rt _. mstep bump_close_spec.
    intros cl _. apply returns_ret. split_and!; try done. unfold spike_ok. simpl. lia.
Qed.

Lemma classifyCause_spec s x : returns (classifyCause s (Some x)) (λ _, True).
Proof. unfold classifyCause. case_if; by apply returns_ret. Qed.

(** What a tick publishes about a connection that ends in state [s]. *)
Record published_as (a : Acc.Acc) (s : ConnState) (dst : ServiceState) : Prop := {
  pa_snap : ∃ perc, obj_get (Acc.snapshots a) (CS.key s) = Some (snapshot_of s perc (Some dst))
                    ∧ percs_ok perc;
  pa_history : obj_get (Acc.history a) (CS.key s) = Some (map point_of (CS.history s));
}.

(** The events of a connection: one on a rising edge, none otherwise. *)
Definition edge_event (s s' : ConnState) (ev : option SpikeEvent) : Prop :=
  match ev with
  | Some ev => CS.isSpike s = false ∧ CS.isSpike s' = true ∧ Spike.key ev = CS.key s'
               ∧ CS.causeKind s' = Some (Spike.cause_kind ev)
               ∧ Spike.src ev = CS.src s' ∧ Spike.dst ev = CS.dst s'
  | None => CS.isSpike s = true ∨ CS.isSpike s' = false
  end.

Definition push_event (ev : option SpikeEvent) (log : list SpikeEvent) : list SpikeEvent :=
  match ev with Some ev => take 100 (ev :: log) | None => log end.

Definition conn_step (d : ConnDef) (dst : ServiceState) (s : ConnState) (a : Acc.Acc)
    (s' : ConnState) (a' : Acc.Acc) (ev : option SpikeEvent) : Prop :=
  conn_ok d s' ∧ published_as a' s' dst ∧ edge_event s s' ev
  ∧ (∃ snap, Acc.snapshots a' = obj_set (Acc.snapshots a) (CS.key s') snap)
  ∧ (∃ h, Acc.history a' = obj_set (Acc.history a) (CS.key s') h)
  ∧ length (CS.history s') = S (300 `min` length (CS.history s))
  ∧ Acc.newEvents a' = Acc.newEvents a ++ option_list ev
  ∧ Acc.allEvents a' = push_event ev (Acc.allEvents a).

Lemma tick_conn_spec svcs s a d dst :
  d ∈ CONN_DEFS → conn_ok d s → obj_get svcs (Def.dst d) = Some dst →
  returns (tick_conn rand now svcs s a) (λ r, ∃ ev, conn_step d dst s a r.1 r.2 ev).
Proof using rand_unit.
  intros Hd [Hdef Hsp Hc Hl Hp] Hdst. unfold tick_conn.
  assert (obj_get svcs (CS.dst s) = Some dst) as -> by (by destruct Hdef as (_ & -> & _)).
  mstep tick_spike_spec; [exact Hdef|done|]. intros s1 (Hdef1 & Hsp1 & Eh1 & _).
  mstep genPercs_spec; [done|exact Hdef1|]. intros perc Hperc.
  eapply (returns_bind _ _ (λ c, c ≠ None ↔ CS.isSpike s1 = true)).
  { case_if; [|by apply returns_ret].
    mstep classifyCause_spec. intros c _. by apply returns_ret. }
  intros cause Hcause. mstep date_now_spec. intros time _.
  set (s' := finish_conn s1 cause time perc).
  assert (conn_ok d s') as Hok.
  { split; [done|done|done| |].
    - unfold s', finish_conn. cbn [CS.history]. rewrite length_slice_300. lia.
    - unfold s', finish_conn. cbn [CS.history]. rewrite Eh1. apply Forall_app. split; [|by constructor].
      change (-300)%Z with (- Z.of_nat 300)%Z. rewrite js_slice_last by lia. by apply Forall_drop. }
  assert (length (CS.history s') = S (300 `min` length (CS.history s))) as Hlen
    by (unfold s', finish_conn; cbn [CS.history]; by rewrite length_slice_300, Eh1).
  case_if; bool_to_prop.
  - mstep date_now_spec. intros t1 _. mstep date_now_spec. intros t2 _. apply returns_ret.
    eexists (Some _). split; [exact Hok|]. split_and!; try (by eexists); try exact Hlen; simpl.
    + split; simpl; [exists perc|]; by rewrite obj_get_set_eq.
    + apply Hcause in H as Hc'. destruct cause as [c|]; [|done]. by split_and!.
    + apply (js_slice_first (_ :: _) 100).
  - apply returns_ret. exists None. split; [exact Hok|].
    split_and!; try (by eexists); try exact Hlen; simpl.
    + split; simpl; [exists perc|]; by rewrite obj_get_set_eq.
    + destruct (CS.isSpike s); [by left|right]. by rewrite andb_true_r in Hif.
    + by rewrite app_nil_r.
Qed.

(** ** The loop over the connections *)
Definition def_key (d : ConnDef) : string := conn_key (Def.src d) (Def.dst d).
Definition conns_ok (ds : list ConnDef) (conns : jsobj ConnState) : Prop :=
  Forall2 (λ d ks, ks.1 = def_key d ∧ conn_ok d ks.2) ds conns.

(** The keys of the connections whose spike starts between two states. *)
Fixpoint rising (old new : jsobj ConnState) : list string :=
  match old, new with
  | (k, s) :: old, (_, s') :: new =>
      if negb (CS.isSpike s) && CS.isSpike s' then k :: rising old new else rising old new
  | _, _ => []
  end.

Definition push_events (evs log : list SpikeEvent) : list SpikeEvent :=
  foldl (λ log ev, push_event (Some ev) log) log evs.

Lemma push_events_take evs log :
  length log ≤ 100 → push_events evs log = take 100 (rev evs ++ log).
Proof.
  unfold push_events. revert log. induction evs as [|ev evs IH]; intros log Hl.
  - simpl. by rewrite take_ge.
  - assert (length (take 100 (ev :: log)) ≤ 100) as Ht by (rewrite length_take; apply Nat.le_min_l).
    etrans; [exact (IH _ Ht)|]. simpl rev. rewrite <-app_assoc.
    rewrite (take_app (rev evs) (take _ _)), (take_app (rev evs) (_ ++ _)).
    by rewrite take_take, Nat.min_l by lia.
Qed.

Record loop_post (svcs : jsobj ServiceState) (ds : list ConnDef) (conns conns' : jsobj ConnState)
    (a a' : Acc.Acc) : Prop := {
  lp_ok : conns_ok ds conns';
  lp_history : Forall2 (λ ks ks', length (CS.history ks'.2) = S (300 `min` length (CS.history ks.2)))
                 conns conns';
  lp_published : Forall (λ ks, ∀ dst, obj_get svcs (CS.dst ks.2) = Some dst →
                                      published_as a' ks.2 dst) conns';
  lp_snap_frame k : k ∉ def_key <$> ds → obj_get (Acc.snapshots a') k = obj_get (Acc.snapshots a) k;
  lp_hist_frame k : k ∉ def_key <$> ds → obj_get (Acc.history a') k = obj_get (Acc.history a) k;
  lp_events : ∃ evs, Acc.newEvents a' = Acc.newEvents a ++ evs
                     ∧ Acc.allEvents a' = push_events evs (Acc.allEvents a)
                     ∧ Spike.key <$> evs = rising conns conns'
                     ∧ Forall (λ ev, ∃ s, (Spike.key ev, s) ∈ conns' ∧
                                CS.causeKind s = Some (Spike.cause_kind ev)
                                ∧ Spike.src ev = CS.src s ∧ Spike.dst ev = CS.dst s) evs;
}.

Lemma same_def_key s d : same_def s d → CS.key s = def_key d.
Proof. by intros (_ & _ & _ & _ & ->). Qed.

Lemma tick_conns_spec svcs ds conns a :
  ds ⊆ CONN_DEFS → NoDup (def_key <$> ds) →
  (∀ d, d ∈ ds → ∃ dst, obj_get svcs (Def.dst d) = Some dst) →
  conns_ok ds conns →
  returns (tick_conns rand now svcs conns a) (λ r, loop_post svcs ds conns r.1 a r.2).
Proof using rand_unit.
  intros Hsub Hnd Hdst Hok. revert a. induction Hok as [|d [k s] ds conns [Hk Hd] Hok IH]; intros a.
  - apply returns_ret. split; simpl; try done; [constructor|].
    exists []. by rewrite app_nil_r.
  - simpl in Hk, Hd. subst k. rewrite fmap_cons in Hnd. apply NoDup_cons in Hnd as [Hnotin Hnd]. simpl.
    destruct (Hdst d) as [dst Hd']; [set_solver|].
    assert (d ∈ CONN_DEFS) as Hdin by (apply Hsub; left).
    mstep tick_conn_spec; [exact Hdin|exact Hd|exact Hd'|].
    intros [s' a1] (ev & Hok' & Hpub & Hedge & [snap Esn] & [h Eh] & Hlen & Enew & Eall).
    cbn [fst snd] in *. pose proof (same_def_key _ _ (co_def _ _ Hok')) as Ek.
    eapply returns_bind.
    { apply IH; [intros x Hx; apply Hsub; by right|done|]. intros d0 ?. apply Hdst. by right. }
    intros [conns' a2] [P1 PH P2 P3 P4 P5].
    cbn [fst snd] in *. apply returns_ret. rewrite Ek in *. split; cbn [fst snd].
    + by constructor.
    + by constructor.
    + constructor; [|done]. simpl. intros dst'.
      destruct (co_def _ _ Hok') as (_ & -> & _). rewrite Hd'. intros [= <-].
      destruct Hpub as [(perc & Hs & Hp) Hh]. rewrite Ek in *.
      split; [exists perc|]; rewrite Ek; [by rewrite P3|by rewrite P4].
    + intros k [? ?]%not_elem_of_cons. by rewrite P3, Esn, obj_get_set_ne.
    + intros k [? ?]%not_elem_of_cons. by rewrite P4, Eh, obj_get_set_ne.
    + destruct P5 as (evs & E1 & E2 & E3 & E4). exists (option_list ev ++ evs).
      rewrite E1, Enew, E2, Eall, app_assoc. split_and!; [done|by destruct ev| |].
      * destruct ev as [ev|]; cbn [option_list app rising edge_event] in *.
        -- destruct Hedge as (R1 & R2 & R3 & _). change (option_list (Some ev) ++ evs) with (ev :: evs).
           by rewrite fmap_cons, E3, R1, R2, R3, Ek.
        -- change (option_list None ++ evs) with evs. rewrite E3.
           destruct Hedge as [-> | ->]; simpl; [done|by rewrite andb_false_r].
      * apply Forall_app. split.
        -- destruct ev as [ev|]; simpl in *; [|constructor]. destruct Hedge as (_ & _ & Hkey & ?&?&?).
           constructor; [|constructor]. exists s'. rewrite Hkey, Ek. split; [by left|done].
        -- eapply Forall_impl; [exact E4|]. intros e (s0 & ? & ?). exists s0. split; [by right|done].
Qed.

(** ** The tick *)
Lemma foldl_set_frame {V} (f : ServiceState → V) l o k :
  k ∉ SS.name <$> l → obj_get (foldl (λ o s, obj_set o (SS.name s) (f s)) o l) k = obj_get o k.
Proof.
  revert o. induction l as [|s l IH]; intros o Hk; [done|].
  rewrite fmap_cons in Hk. apply not_elem_of_cons in Hk as [? ?]. cbn [foldl].
  rewrite IH by done. by rewrite obj_get_set_ne.
Qed.

Lemma foldl_set_get {V} (f : ServiceState → V) l o s :
  NoDup (SS.name <$> l) → s ∈ l →
  obj_get (foldl (λ o s, obj_set o (SS.name s) (f s)) o l) (SS.name s) = Some (f s).
Proof.
  revert o. induction l as [|s' l IH]; intros o Hnd Hin; [by apply elem_of_nil in Hin|].
  rewrite fmap_cons in Hnd. apply NoDup_cons in Hnd as [Hn Hnd]. cbn [foldl].
  apply elem_of_cons in Hin as [->|Hin]; [|by apply IH].
  by rewrite foldl_set_frame, obj_get_set_eq.
Qed.

Definition all_services : list string := INTERNAL_SERVICES ++ EXTERNAL_SERVICES.

Lemma all_services_NoDup : NoDup all_services.
Proof. apply (bool_decide_unpack _). by vm_compute. Qed.
Lemma conn_keys_NoDup : NoDup (def_key <$> CONN_DEFS).
Proof. apply (bool_decide_unpack _). by vm_compute. Qed.
Lemma conn_dst_known : Forall (λ d, Def.dst d ∈ all_services) CONN_DEFS.
Proof. apply (bool_decide_unpack _). by vm_compute. Qed.

Record mock_ok (m : Mock) : Prop := {
  mo_names : (Mk.serviceState m).*1 = all_services;
  mo_services : Forall (λ ks, SS.name ks.2 = ks.1 ∧ svc_ok ks.2) (Mk.serviceState m);
  mo_conns : conns_ok CONN_DEFS (Mk.connState m);
  mo_log : length (Mk.allEvents m) ≤ 100;
  mo_events : Store.events (Mk.published m) = Mk.allEvents m;
}.

(** The published maps show the internal state, connection by connection. *)
Record mock_published (m : Mock) : Prop := {
  mp_conns : Forall (λ ks, ∃ dst perc,
    obj_get (Mk.serviceState m) (CS.dst ks.2) = Some dst ∧ percs_ok perc
    ∧ obj_get (Store.snapshots (Mk.published m)) ks.1 = Some (snapshot_of ks.2 perc (Some dst))
    ∧ obj_get (Store.history (Mk.published m)) ks.1 = Some (map point_of (CS.history ks.2)))
    (Mk.connState m);
  mp_only k : k ∉ (Mk.connState m).*1 →
    obj_get (Store.snapshots (Mk.published m)) k = None
    ∧ obj_get (Store.history (Mk.published m)) k = None;
  mp_services : Forall (λ ks,
    obj_get (Store.services (Mk.published m)) ks.1 = Some (service_snapshot ks.2)) (Mk.serviceState m);
}.

(** The events of one tick, oldest first, and the log they extend. *)
Definition tick_events (m m' : Mock) : Prop :=
  ∃ evs, Mk.allEvents m' = take 100 (rev evs ++ Mk.allEvents m)
    ∧ Spike.key <$> evs = rising (Mk.connState m) (Mk.connState m')
    ∧ Forall (λ ev, ∃ s, (Spike.key ev, s) ∈ Mk.connState m' ∧
                CS.causeKind s = Some (Spike.cause_kind ev)
                ∧ Spike.src ev = CS.src s ∧ Spike.dst ev = CS.dst s) evs.

Definition history_grows (m m' : Mock) : Prop :=
  Forall2 (λ ks ks', length (CS.history ks'.2) = S (300 `min` length (CS.history ks.2)))
    (Mk.connState m) (Mk.connState m').

Lemma obj_get_names (svcs : jsobj ServiceState) k : k ∈ svcs.*1 → ∃ s, obj_get svcs k = Some s.
Proof.
  intros Hk. destruct (obj_get svcs k) as [s|] eqn:E; [by exists s|].
  by apply obj_get_None in E.
Qed.

Lemma conns_ok_keys ds conns : conns_ok ds conns → conns.*1 = def_key <$> ds.
Proof. induction 1 as [|d ks ds conns [Hk _] _ IH]; [done|]. by rewrite !fmap_cons, Hk, IH. Qed.

Lemma conns_ok_elem ds conns ks :
  conns_ok ds conns → ks ∈ conns → ∃ d, d ∈ ds ∧ ks.1 = def_key d ∧ conn_ok d ks.2.
Proof.
  intros HF Hks. apply list_elem_of_lookup in Hks as [i Hi].
  destruct (Forall2_lookup_r _ _ _ _ _ HF Hi) as (d & Hd & Hk & Hok).
  exists d. split; [by eapply list_elem_of_lookup_2|done].
Qed.

Lemma services_tick_spec svcs :
  Forall (λ ks, SS.name ks.2 = ks.1 ∧ svc_ok ks.2) svcs →
  returns (mapM_list (λ ks : string * ServiceState, s ← tickService rand now ks.2; mret (ks.1, s)) svcs)
    (λ svcs', svcs'.*1 = svcs.*1 ∧ Forall (λ ks, SS.name ks.2 = ks.1 ∧ svc_ok ks.2) svcs').
Proof using rand_unit.
  intros Hall. rewrite Forall_forall in Hall. eapply returns_weaken.
  - eapply (returns_mapM _ (λ ks ks', ks'.1 = ks.1 ∧ SS.name ks'.2 = ks'.1 ∧ svc_ok ks'.2)).
    intros ks Hks. destruct (Hall ks Hks) as [Hn Hok].
    mstep tickService_spec; [done|]. intros s' [Hs' Hn']. apply returns_ret. simpl.
    by rewrite Hn'.
  - intros svcs' HF. split.
    + clear Hall. induction HF as [|x y l l' (Hk & _) _ IH]; [done|]. by rewrite !fmap_cons, Hk, IH.
    + clear Hall. induction HF as [|x y l l' (_ & ? & ?) _ IH]; by constructor.
Qed.

Lemma tick_spec m :
  mock_ok m → returns (tick rand now m) (λ m', mock_ok m' ∧ mock_published m' ∧ tick_events m m'
    ∧ history_grows m m').
Proof using rand_unit.
  intros [Hn Hs Hc Hl He]. unfold tick. mstep services_tick_spec; [exact Hs|].
  intros svcs [Hnames Hsvcs]. rewrite Hn in Hnames.
  eapply returns_bind.
  { apply (tick_conns_spec svcs CONN_DEFS); [done|exact conn_keys_NoDup| |exact Hc].
    intros d Hd. apply obj_get_names. rewrite Hnames.
    pose proof conn_dst_known as Hk. rewrite Forall_forall in Hk. auto. }
  intros [conns a] [P1 PH P2 P3 P4 (evs & E1 & E2 & E3 & E4)]. cbn [fst snd] in *.
  apply returns_ret. pose proof (conns_ok_keys _ _ P1) as Hkeys.
  assert (SS.name <$> svcs.*2 = svcs.*1) as Hnm.
  { clear -Hsvcs. induction Hsvcs as [|x l [Hx _] _ IH]; [done|]. by rewrite !fmap_cons, Hx, IH. }
  cbn [Acc.allEvents Acc.newEvents Acc.snapshots Acc.history] in *.
  rewrite push_events_take in E2 by done. split_and!.
  - split; cbn [Mk.serviceState Mk.connState Mk.allEvents Mk.published Store.events]; try done.
    + rewrite E2, length_take. lia.
    + case_bool_decide as Hnew; [|done]. rewrite E1 in Hnew. simpl in Hnew. subst evs.
      rewrite E2, He. simpl. by rewrite take_ge.
  - split; cbn [Mk.serviceState Mk.connState Mk.published Store.snapshots Store.history Store.services].
    + apply Forall_forall. intros ks Hks. destruct (conns_ok_elem _ _ _ P1 Hks) as (d & Hd & Hk & Hok).
      destruct (obj_get_names svcs (CS.dst ks.2)) as [dst Hdst].
      { destruct (co_def _ _ Hok) as (_ & -> & _). rewrite Hnames.
        pose proof conn_dst_known as Hkn. rewrite Forall_forall in Hkn. auto. }
      rewrite Forall_forall in P2. destruct (P2 ks Hks dst Hdst) as [(perc & Hsn & Hp) Hh].
      rewrite (same_def_key _ _ (co_def _ _ Hok)), <-Hk in *. by exists dst, perc.
    + intros k Hk. rewrite Hkeys in Hk. by rewrite P3, P4.
    + apply Forall_forall. intros ks Hks. rewrite Forall_forall in Hsvcs.
      destruct (Hsvcs ks Hks) as [<- _]. unfold next_services. apply foldl_set_get.
      * rewrite Hnm, Hnames. apply all_services_NoDup.
      * by apply list_elem_of_fmap_2.
  - exists evs. by split_and!.
  - done.
Qed.

Definition history_len (n : nat) (m : Mock) : Prop :=
  Forall (λ ks, length (CS.history ks.2) = n `min` 301) (Mk.connState m).

Lemma init_spec :
  returns (init_mock rand) (λ m, mock_ok m ∧ history_len 0 m).
Proof using rand_unit.
  unfold init_mock. eapply returns_bind.
  { apply (returns_mapM _ (λ name ks, ks.1 = name ∧ SS.name ks.2 = ks.1 ∧ svc_ok ks.2)).
    intros name _. unfold init_service.
    eapply returns_bind; [apply (draw_spec _ _ N[0] N[100]); feval|]. intros cpu ?.
    eapply returns_bind; [apply (draw_spec _ _ N[0] N[100]); feval|]. intros io ?.
    eapply returns_bind; [apply (draw_spec _ _ N[0] N[100]); feval|]. intros mem ?.
    apply returns_ret. split_and!; [done..|].
    split; try done; [by left|simpl; lia]. }
  intros svcs HF. apply returns_ret. fold all_services in HF. split; cycle 1.
  { unfold history_len. cbn [Mk.connState].
    change (map init_conn CONN_DEFS) with (init_conn <$> CONN_DEFS).
    generalize CONN_DEFS. intros ds. apply Forall_fmap, Forall_forall. by intros d _. }
  split; cbn [Mk.serviceState Mk.connState Mk.allEvents Mk.published]; try (simpl; lia); try done.
  - clear -HF. induction HF as [|x y l l' (Hk & _) _ IH]; [done|]. by rewrite fmap_cons, Hk, IH.
  - clear -HF. induction HF as [|x y l l' (_ & ? & ?) _ IH]; by constructor.
  - unfold conns_ok. apply Forall2_fmap_r, Forall_Forall2_diag, Forall_forall. intros d _.
    split; [done|]. split; try done; simpl; lia.
Qed.

Lemma ticks_snoc n m w :
  ticks rand now (S n) m w =
    match ticks rand now n m w with Some (m', w') => tick rand now m' w' | None => None end.
Proof.
  revert m w. induction n as [|n IH]; intros m w.
  - change (ticks rand now 1 m w) with
      (match tick rand now m w with Some (m', w') => Some (m', w') | None => None end).
    change (ticks rand now 0 m w) with (Some (m, w)). by destruct (tick rand now m w) as [[]|].
  - change (ticks rand now (S (S n)) m w) with
      (match tick rand now m w with Some (m', w') => ticks rand now (S n) m' w' | None => None end).
    change (ticks rand now (S n) m w) with
      (match tick rand now m w with Some (m', w') => ticks rand now n m' w' | None => None end).
    destruct (tick rand now m w) as [[m' w']|]; [apply IH|done].
Qed.


(** [n] timer ticks: the hook never throws. *)
Lemma ticks_total n m0 w0 :
  mock_ok m0 → history_len 0 m0 →
  ∃ m w, ticks rand now n m0 w0 = Some (m, w) ∧ mock_ok m ∧ (0 < n → mock_published m)
         ∧ history_len n m.
Proof using rand_unit.
  intros H0 L0. induction n as [|n (m & w & E & Hm & _ & Hlen)].
  - exists m0, w0. split; [done|]. split_and!; [done|lia|done].
  - destruct (tick_spec m Hm w) as (m' & w' & E' & Hm' & Hp & _ & Hg).
    exists m', w'. rewrite ticks_snoc, E. split_and!; [exact E'|exact Hm'|intros _; exact Hp|].
    unfold history_len in *. unfold history_grows in Hg.
    clear -Hlen Hg. induction Hg as [|x y l l' Hxy _ IH]; [constructor|].
    apply Forall_cons in Hlen as [Hx Hl]. constructor; [|by apply IH]. rewrite Hxy, Hx. lia.
Qed.

Lemma run_mock_unfold n m0 w0 :
  init_mock rand (mkWorld 0 0) = Some (m0, w0) →
  run_mock rand now n = fst <$> ticks rand now (S n) m0 w0.
Proof. intros E. unfold run_mock, mbind, M_bind. by rewrite E. Qed.

Lemma run_mock_total n :
  ∃ m, run_mock rand now n = Some m ∧ mock_ok m ∧ mock_published m ∧ history_len (S n) m.
Proof using rand_unit.
  destruct (init_spec (mkWorld 0 0)) as (m0 & w0 & E0 & H0 & L0).
  destruct (ticks_total (S n) m0 w0 H0 L0) as (m & w & E & Hm & Hp & Hl). exists m.
  rewrite (run_mock_unfold n m0 w0 E0), E.
  split_and!; [reflexivity|exact Hm|apply Hp; lia|exact Hl].
Qed.

Lemma run_mock_step n m m' :
  run_mock rand now n = Some m → run_mock rand now (S n) = Some m' → tick_events m m'.
Proof using rand_unit.
  destruct (init_spec (mkWorld 0 0)) as (m0 & w0 & E0 & H0 & L0).
  destruct (ticks_total (S n) m0 w0 H0 L0) as (m1 & w & E & Hm & _).
  destruct (tick_spec m1 Hm w) as (m2 & w' & E' & _ & _ & He & _).
  rewrite !(run_mock_unfold _ m0 w0 E0), (ticks_snoc (S n)), E, E'. cbn [fmap option_fmap option_map fst].
  by intros [= <-] [= <-].
Qed.
End Facts.

(** ** Duration of spikes and of stress *)
Section Duration.
Context (rand : nat → number).

(** A running spike ignores the tapes: [n] ticks of a connection, with what the
    destination's stress is at each. *)
Fixpoint spike_ticks (stressed : list bool) (s : ConnState) : M (list bool) :=
  match stressed with
  | [] => mret []
  | b :: stressed =>
      s' ← tick_spike rand b s; bs ← spike_ticks stressed s'; mret (CS.isSpike s' :: bs)
  end.

Lemma spike_ticks_run k stressed s w :
  length stressed = S k → CS.isSpike s = true → CS.spikeTimer s = Z.of_nat (S k) →
  spike_ticks stressed s w = Some (replicate k true ++ [false], w).
Proof.
  revert stressed s. induction k as [|k IH]; intros [|b stressed] s Hl Hs Ht; try done.
  - destruct stressed; [|done]. cbn [spike_ticks]. unfold tick_spike. rewrite Hs, Ht. reflexivity.
  - cbn [spike_ticks]. unfold tick_spike. rewrite Hs.
    replace (CS.spikeTimer s - 1)%Z with (Z.of_nat (S k)) by lia.
    rewrite (proj2 (Z.leb_gt _ _)) by lia. cbn [negb].
    set (s' := with_spike _ _ _ _ _).
    change ((bs ← spike_ticks stressed s'; mret (CS.isSpike s' :: bs)) w
            = Some (replicate (S k) true ++ [false], w)).
    unfold mbind, M_bind. by rewrite (IH stressed s'); [|injection Hl|..].
Qed.

Fixpoint stress_ticks (n : nat) (s : ServiceState) : M (list StressKind) :=
  match n with
  | O => mret []
  | S n =>
      '(k, t) ← tick_stress rand s;
      ks ← stress_ticks n (SS.mkSS (SS.name s) (SS.cpu_pct s) (SS.io_wait_pct s)
                             (SS.mem_pressure_pct s) (SS.cpu_throttle_pct s) k t (SS.history s));
      mret (k :: ks)
  end.

Lemma stress_ticks_run n s w :
  SS.stressTimer s = Z.of_nat (S n) →
  stress_ticks (S n) s w = Some (replicate n (SS.stressKind s) ++ [None], w).
Proof.
  revert s. induction n as [|n IH]; intros s Ht.
  - cbn [stress_ticks]. unfold tick_stress. rewrite Ht. reflexivity.
  - change (stress_ticks (S (S n)) s w) with
      (('(k, t) ← tick_stress rand s;
        ks ← stress_ticks (S n) (SS.mkSS (SS.name s) (SS.cpu_pct s) (SS.io_wait_pct s)
                             (SS.mem_pressure_pct s) (SS.cpu_throttle_pct s) k t (SS.history s));
        mret (k :: ks)) w).
    unfold tick_stress. rewrite (proj2 (Z.ltb_lt 0 _)) by lia.
    replace (SS.stressTimer s - 1)%Z with (Z.of_nat (S n)) by lia.
    rewrite (proj2 (Z.eqb_neq _ _)) by lia. set (s' := SS.mkSS (SS.name s) (SS.cpu_pct s) (SS.io_wait_pct s) (SS.mem_pressure_pct s)
      (SS.cpu_throttle_pct s) (SS.stressKind s) (Z.of_nat (S n)) (SS.history s)).
    change ((ks ← stress_ticks (S n) s'; mret (SS.stressKind s :: ks)) w
            = Some (replicate (S n) (SS.stressKind s) ++ [None], w)).
    unfold mbind, M_bind. by rewrite IH.
Qed.
End Duration.

(** ** Theorems *)

(** C8: on every tape of random numbers in [[0, 1)] the simulation never throws,
    and after any number of ticks: every percentage lies in [[0, 100]] and a
    service is stressed exactly while its timer runs; a running spike has 1 to 7
    ticks left, a cause is published exactly for spikes; the published
    percentiles are ordered, p50 <= p95 <= p99, at least 100 us; the maps show
    exactly the ten connections and ten services; the log has at most 100 events. *)
Theorem mock_correct (rand : nat → number) (now : nat → Z) (n : nat) :
  (∀ i, in_unit (rand i)) →
  ∃ m, run_mock rand now n = Some m ∧ mock_ok m ∧ mock_published m.
Proof. intros Hr. destruct (run_mock_total rand now Hr n) as (m & ? & ? & ? & _). eauto. Qed.

(** C29: the events of a tick are one event per connection whose spike starts in
    it, in connection order, newest first in the log, which keeps its last 100;
    an event carries the cause and the end points of its connection. *)
Theorem mock_events_are_edges (rand : nat → number) (now : nat → Z) (n : nat) (m m' : Mock) :
  (∀ i, in_unit (rand i)) →
  run_mock rand now n = Some m → run_mock rand now (S n) = Some m' → tick_events m m'.
Proof. intros Hr. by apply run_mock_step. Qed.

(** The history of a connection holds the last 301 points (the comment in
    the source says 300): after [n] timer ticks [min (n + 1) 301]. *)
Theorem mock_history_window (rand : nat → number) (now : nat → Z) (n : nat) :
  (∀ i, in_unit (rand i)) →
  ∃ m, run_mock rand now n = Some m
       ∧ Forall (λ ks, length (CS.history ks.2) = S n `min` 301) (Mk.connState m).
Proof. intros Hr. destruct (run_mock_total rand now Hr n) as (m & ? & _ & _ & ?). eauto. Qed.

(** A spike whose timer is set to [k + 1] stays on for [k] more ticks and
    ends at the next, whatever the stress of its destination; no random number
    is read meanwhile.  The same holds for the stress of a service. *)
Theorem spikes_and_stress_end (rand : nat → number) (k : nat) (stressed : list bool)
    (c : ConnState) (s : ServiceState) (w : World) :
  length stressed = S k → CS.isSpike c = true → CS.spikeTimer c = Z.of_nat (S k) →
  SS.stressTimer s = Z.of_nat (S k) →
  spike_ticks rand stressed c w = Some (replicate k true ++ [false], w)
  ∧ stress_ticks rand (S k) s w = Some (replicate k (SS.stressKind s) ++ [None], w).
Proof. intros. split; [by apply spike_ticks_run|by apply stress_ticks_run]. Qed.

(** Witnesses: a constant tape. *)
Definition half : nat → number := λ _, nlit 1 2.
Lemma half_unit i : in_unit (half i).
Proof. split; vm_compute; reflexivity. Qed.

Lemma mock_correct_witness :
  ∃ m, run_mock half Z.of_nat 3 = Some m ∧ mock_ok m ∧ mock_published m.
Proof. apply (mock_correct half Z.of_nat 3). exact half_unit. Defined.

(** ... and one on which every connection starts a spike every fourth tick. *)
Definition low : nat → number := λ _, nlit 1 1000.
Lemma low_unit i : in_unit (low i).
Proof. split; vm_compute; reflexivity. Qed.

Lemma mock_events_are_edges_witness :
  ∃ m m', run_mock low Z.of_nat 3 = Some m ∧ run_mock low Z.of_nat 4 = Some m' ∧ tick_events m m'.
Proof.
  destruct (run_mock_total low Z.of_nat low_unit 3) as (m & E & _).
  destruct (run_mock_total low Z.of_nat low_unit 4) as (m' & E' & _).
  exists m, m'. split; [exact E|]. split; [exact E'|].
  apply (mock_events_are_edges low Z.of_nat 3 m m'); [exact low_unit|exact E|exact E'].
Defined.

Lemma mock_history_window_witness :
  ∃ m, run_mock half Z.of_nat 400 = Some m
       ∧ Forall (λ ks, length (CS.history ks.2) = 401 `min` 301) (Mk.connState m).
Proof. apply (mock_history_window half Z.of_nat 400). exact half_unit. Defined.

Definition spiking : ConnState :=
  CS.mkCS "order-svc" "kafka" "order-svc→kafka" N[3] N[1] true 2 0 0 0 0 0 [] None.
Definition stressed_svc : ServiceState :=
  SS.mkSS "kafka" N[20] N[4] N[10] N[0] (Some StressIo) 2 [].
Lemma spikes_and_stress_end_witness :
  spike_ticks half [true; false] spiking (mkWorld 0 0) = Some ([true; false], mkWorld 0 0)
  ∧ stress_ticks half 2 stressed_svc (mkWorld 0 0) = Some ([Some StressIo; None], mkWorld 0 0).
Proof. apply (spikes_and_stress_end half 1); reflexivity. Defined.
