(* ===== verification/View.v ===== *)
(** * What a component renders

    A component is a function from its props and state to an [html] tree: text,
    elements with the attributes the source computes, and click handlers whose
    result is the event they raise.  Static style attributes are left out.
    [clicks_at] follows a click from the element at a path up to the root, as
    the browser does, until a handler stops the propagation. *)

From S2P Require Export Format.
From stdpp Require Import base list.

#[local] Set Warnings "-register-all".

Inductive handler (E : Type) :=
  | no_click
  | on_click (e : E)
  | stop_click                       (* onClick={e => e.stopPropagation()} *)
  | on_click_stop (e : E).           (* both *)
Arguments no_click {E}. Arguments on_click {E}. Arguments stop_click {E}. Arguments on_click_stop {E}.

Inductive html (E : Type) :=
  | text (s : string)
  | el (tag : string) (attrs : list (string * string)) (on : handler E) (kids : list (html E)).
Arguments text {E}. Arguments el {E}.

Section View.
Context {E : Type}.

(** The visible text. *)
Fixpoint texts (h : html E) : list string :=
  match h with
  | text s => if bool_decide (s = "") then [] else [s]
  | el _ _ _ kids => flat_map texts kids
  end.

(** The handlers, outermost first. *)
Fixpoint click_events (h : html E) : list E :=
  match h with
  | text _ => []
  | el _ _ on kids =>
      (match on with on_click e | on_click_stop e => [e] | _ => [] end) ++ flat_map click_events kids
  end.

(** The events a click on the element at [path] raises, innermost first; the
    flag tells whether it was stopped. *)
Fixpoint bubble (path : list nat) (h : html E) : list E * bool :=
  match h with
  | text _ => ([], false)
  | el _ _ on kids =>
      let '(es, stopped) :=
        match path with
        | [] => ([], false)
        | i :: path => match kids !! i with Some k => bubble path k | None => ([], false) end
        end in
      if stopped then (es, true)
      else match on with
           | no_click => (es, false)
           | on_click e => (es ++ [e], false)
           | stop_click => (es, true)
           | on_click_stop e => (es ++ [e], true)
           end
  end.
Definition clicks_at (path : list nat) (h : html E) : list E := (bubble path h).1.

(** [{cond && h}] and [{opt && f}] *)
Definition when (b : bool) (h : html E) : list (html E) := if b then [h] else [].
Definition when_some {A} (o : option A) (f : A → html E) : list (html E) :=
  match o with Some a => [f a] | None => [] end.

Definition span (attrs : list (string * string)) (s : string) : html E := el "span" attrs no_click [text s].
Definition div_ (kids : list (html E)) : html E := el "div" [] no_click kids.

Fixpoint find_attr (name : string) (attrs : list (string * string)) : option string :=
  match attrs with
  | [] => None
  | (k, v) :: attrs => if bool_decide (k = name) then Some v else find_attr name attrs
  end.
Definition attr (name : string) (h : html E) : option string :=
  match h with text _ => None | el _ attrs _ _ => find_attr name attrs end.

(** A tree without handlers raises nothing, wherever it is clicked. *)
Lemma bubble_no_events path (h : html E) : click_events h = [] → (bubble path h).1 = [].
Proof.
  revert h. induction path as [|i path IH]; intros [s|tag attrs on kids] Hc; try done; simpl in *;
    apply app_nil in Hc as [Hon Hk].
  - by destruct on.
  - destruct (kids !! i) as [k|] eqn:Ei; [|by destruct on].
    assert (click_events k = []) as Hk'.
    { apply list_elem_of_lookup_2 in Ei. clear -Ei Hk.
      induction Ei as [l|y l z Hin IH]; simpl in Hk; apply app_nil in Hk as [? ?]; auto. }
    pose proof (IH k Hk') as Hb. destruct (bubble path k) as [es b]. simpl in Hb. subst.
    destruct b; [done|]. by destruct on.
Qed.

(** An element that stops the propagation raises what its child at the path raises. *)
Definition kid_events (path : list nat) (kids : list (html E)) : list E :=
  match path with
  | [] => []
  | i :: path => match kids !! i with Some k => (bubble path k).1 | None => [] end
  end.
Lemma bubble_stop path tag attrs kids :
  bubble path (el tag attrs stop_click kids) = (kid_events path kids, true).
Proof.
  destruct path as [|i path]; [done|]. simpl. destruct (kids !! i); [|done].
  by destruct (bubble path _) as [es []].
Qed.

(** [target.closest('[name]')] where [target] is the element at [path]: the
    value of the attribute on the innermost element that has it. *)
Fixpoint closest (name : string) (path : list nat) (h : html E) : option string :=
  match h with
  | text _ => None
  | el _ _ _ kids =>
      match
        match path with
        | [] => None
        | i :: path => match kids !! i with Some k => closest name path k | None => None end
        end
      with
      | Some v => Some v
      | None => attr name h
      end
  end.

(** The attribute occurs nowhere in the tree. *)
Fixpoint lacks (name : string) (h : html E) : bool :=
  match h with
  | text _ => true
  | el _ attrs _ kids =>
      forallb (λ p, negb (bool_decide (p.1 = name))) attrs && forallb (lacks name) kids
  end.

Lemma attr_lacks name tag attrs on (kids : list (html E)) :
  forallb (λ p : string * string, negb (bool_decide (p.1 = name))) attrs = true →
  attr name (el tag attrs on kids) = None.
Proof.
  simpl. induction attrs as [|[k v] attrs IH]; [done|]. simpl. intros Ha. bool_to_prop.
  by case_bool_decide; [|apply IH].
Qed.

Lemma closest_lacks name path (h : html E) : lacks name h = true → closest name path h = None.
Proof.
  revert h. induction path as [|i path IH]; intros [s|tag attrs on kids] Hl; try done;
    cbn [closest]; cbn [lacks] in Hl; apply andb_true_iff in Hl as [Ha Hk].
  - by apply attr_lacks.
  - rewrite (attr_lacks _ _ _ _ _ Ha). destruct (kids !! i) as [k|] eqn:Ei; [|done].
    rewrite IH; [done|]. rewrite forallb_forall in Hk. apply Hk.
    apply list_elem_of_In. by eapply list_elem_of_lookup_2.
Qed.
End View.

(** ** Embedding a child whose handlers raise other events *)
Definition handler_map {E F} (f : E → F) (h : handler E) : handler F :=
  match h with no_click => no_click | on_click e => on_click (f e) | stop_click => stop_click
  | on_click_stop e => on_click_stop (f e) end.
Fixpoint html_map {E F} (f : E → F) (h : html E) : html F :=
  match h with
  | text s => text s
  | el tag attrs on kids => el tag attrs (handler_map f on) (map (html_map f) kids)
  end.

Lemma bubble_map {E F} (f : E → F) path (h : html E) :
  bubble path (html_map f h) = (map f (bubble path h).1, (bubble path h).2).
Proof.
  revert h. induction path as [|i path IH]; intros [s|tag attrs on kids]; try done.
  - by destruct on.
  - cbn [bubble html_map].
    replace (map (html_map f) kids !! i) with (html_map f <$> kids !! i)
      by (symmetry; apply list_lookup_fmap).
    destruct (kids !! i) as [k|]; cbn [fmap option_fmap option_map]; [|by destruct on].
    rewrite IH. destruct (bubble path k) as [es []]; [done|]. destruct on; simpl; by rewrite ?map_app.
Qed.

(** ** JavaScript truthiness of what a component renders *)

(** [if (s)] on [string | null]: the empty string is false. *)
Definition truthy (o : option string) : option string :=
  match o with Some EmptyString => None | _ => o end.

(** [{n && f(n)}] on [number | undefined]: zero and NaN are rendered as text. *)
Definition when_number {E} (o : option number) (f : number → html E) : list (html E) :=
  match o with
  | None => []
  | Some n => if nnan n || (n === N[0])%num then [text (number_toString n)] else [f n]
  end.

Lemma no_events_map {A E} (f : A → html E) (l : list A) :
  (∀ x, click_events (f x) = []) → flat_map click_events (map f l) = [].
Proof. intros Hf. induction l as [|x l IH]; [done|]. simpl. by rewrite Hf. Qed.
Lemma no_events_when {E} b (h : html E) : click_events h = [] → flat_map click_events (when b h) = [].
Proof. intros Hh. destruct b; simpl; by rewrite ?Hh. Qed.

(** ** Trees without handlers *)
Fixpoint inert {E} (h : html E) : bool :=
  match h with
  | text _ => true
  | el _ _ on kids => match on with no_click => forallb inert kids | _ => false end
  end.

Lemma forallb_lookup {A} (p : A → bool) l i x : forallb p l = true → l !! i = Some x → p x = true.
Proof.
  revert i. induction l as [|y l IH]; intros i; [done|]. simpl.
  intros [Hy Hl]%andb_true_iff. destruct i as [|i]; simpl; [by intros [= ->]|by apply IH].
Qed.

Lemma bubble_inert {E} path (h : html E) : inert h = true → bubble path h = ([], false).
Proof.
  revert h. induction path as [|i path IH]; intros [s|tag attrs on kids]; try done.
  - by destruct on.
  - simpl. destruct on; try done. intros Hk. destruct (kids !! i) eqn:Ei; [|done].
    by rewrite IH by by eapply forallb_lookup.
Qed.

(** A click anywhere in an element with inert children is a click on it. *)
Lemma bubble_on {E} path tag attrs (e : E) kids :
  forallb inert kids = true → bubble path (el tag attrs (on_click e) kids) = ([e], false).
Proof.
  intros Hk. destruct path as [|i path]; [done|]. cbn [bubble].
  destruct (kids !! i) eqn:Ei; [|done]. by rewrite bubble_inert by by eapply forallb_lookup.
Qed.

(** Elements without a handler pass the click of a child on. *)
Lemma bubble_through {E} i path tag attrs kids (k : html E) :
  kids !! i = Some k → bubble (i :: path) (el tag attrs no_click kids) = bubble path k.
Proof. intros Hi. cbn [bubble]. rewrite Hi. by destruct (bubble path k) as [es []]. Qed.

Lemma inert_map {A E} (f : A → html E) l : (∀ x, inert (f x) = true) → forallb inert (map f l) = true.
Proof. intros Hf. induction l; [done|]. simpl. by rewrite Hf. Qed.
Lemma inert_when {E} b (h : html E) : inert h = true → forallb inert (when b h) = true.
Proof. intros Hh. destruct b; simpl; by rewrite ?Hh. Qed.
Lemma lookup_map {A B} (f : A → B) l i : map f l !! i = f <$> l !! i.
Proof. apply list_lookup_fmap. Qed.
Lemma lookup_map_S {A B} (f : A → B) z l j y : l !! j = Some y → (z :: map f l) !! S j = Some (f y).
Proof. intros Hj. simpl. by rewrite lookup_map, Hj. Qed.
