(* ===== verification/Chart.v ===== *)
(** * Zoom and pan of the charts: [components/chartShared.ts]

    The arithmetic is written over any [Num], so that it runs on binary64
    ([ChartFloat]) and its identities are proved on the rationals, here.  uPlot itself is the interface [UPlot]:
    a chart holds x values and an x scale; [setScale] and [setData] report
    whether the scale changed, in which case uPlot calls the plugin's hook. *)

From S2P Require Export Format.
From Stdlib Require Import Qpower.
From stdpp Require Import base list.

(** ** uPlot *)
Class UPlot (T U : Type) := {
  u_data : U → list T;                        (* u.data[0] *)
  u_min : U → T;                              (* u.scales.x.min *)
  u_max : U → T;                              (* u.scales.x.max *)
  u_setScale : U → T → T → U * bool;          (* setScale('x', {min, max}) *)
  u_setData : U → list T → bool → U * bool;   (* setData(data, resetScales) *)
}.

(** What the code relies on: a scale is what it was set to, data is what it was
    set to, suppressing the reset keeps the scale, a reset shows all of the
    data, and a change of the scale fires the hook. *)
Class UPlotLaws (T U : Type) `{Num T} `{UPlot T U} := {
  setScale_scale (u : U) (a b : T) :
    u_min (u_setScale u a b).1 = a ∧ u_max (u_setScale u a b).1 = b;
  setScale_data (u : U) (a b : T) : u_data (u_setScale u a b).1 = u_data u;
  setScale_fires (u : U) (a b : T) :
    (u_setScale u a b).2 = false → u_min u = a ∧ u_max u = b;
  setData_data (u : U) (xs : list T) (r : bool) : u_data (u_setData u xs r).1 = xs;
  setData_keep (u : U) (xs : list T) :
    u_min (u_setData u xs false).1 = u_min u ∧ u_max (u_setData u xs false).1 = u_max u;
  setData_reset (u : U) (x : T) (xs : list T) :
    let u' := (u_setData u (x :: xs) true).1 in
    nltb x (List.last xs x) = true → u_min u' = x ∧ u_max u' = List.last xs x;
}.

Module PZ.
Record Bounds (T : Type) := mkBounds { min : T; max : T }.
Arguments mkBounds {T}. Arguments min {T}. Arguments max {T}.

(** The plugin: [PanZoomState] and the variables its listeners close over. *)
Record Plugin (T : Type) := mkPlugin {
  userZoomed : bool;
  dragging : bool;
  dragStartX : T;
  dragStartXMin : T;
  dragStartXMax : T;
  cursor : string;
}.
Arguments mkPlugin {T}. Arguments userZoomed {T}. Arguments dragging {T}.
Arguments dragStartX {T}. Arguments dragStartXMin {T}. Arguments dragStartXMax {T}.
Arguments cursor {T}.
End PZ.
Abbreviation Bounds := PZ.Bounds.
Abbreviation Plugin := PZ.Plugin.

(** The browser events the plugin listens to, with the box of the plot area. *)
Inductive PZEvent (T : Type) :=
  | EvWheel (clientX deltaY boxLeft width : T)
  | EvDown (button : Z) (clientX : T)
  | EvMove (clientX width : T)
  | EvUp.
Arguments EvWheel {T}. Arguments EvDown {T}. Arguments EvMove {T}. Arguments EvUp {T}.

Section Shared.
Context {T : Type} `{Num T}.
Local Open Scope num_scope.

Definition MIN_ZOOM_SEC : T := N[10].

Definition clamp (val lo hi : T) : T := nmax lo (nmin hi val).

Definition dataBounds (xs : list T) : Bounds T :=
  match xs with
  | [] => PZ.mkBounds N[0] N[1]
  | min :: rest =>
      let max := List.last rest min in
      if max >? min then PZ.mkBounds min max else PZ.mkBounds min (min + N[1])
  end.

Definition isFullRange (xs : list T) (xMin xMax : T) : bool :=
  let b := dataBounds xs in
  let full := PZ.max b - PZ.min b in
  let cur := xMax - xMin in
  cur >=? full - full * nlit 1 1000.

(** The scale after a wheel event over a plot that shows [[curXMin, curXMax]]. *)
Definition wheel_scale (b : Bounds T) (curXMin curXMax clientX deltaY boxLeft width : T) : T * T :=
  let fullRange := PZ.max b - PZ.min b in
  let mouseRatio := (clientX - boxLeft) / width in
  let factor := if deltaY >? N[0] then nlit 125 100 else nlit 8 10 in
  let curRange := curXMax - curXMin in
  let minRange := nmin MIN_ZOOM_SEC fullRange in
  let newRange := clamp (curRange * factor) minRange fullRange in
  let anchor := curXMin + mouseRatio * curRange in
  let newXMin := clamp (anchor - mouseRatio * newRange) (PZ.min b) (PZ.max b - newRange) in
  (newXMin, newXMin + newRange).

(** ... and after the mouse moved by [dx] since the drag started. *)
Definition drag_scale (b : Bounds T) (startXMin startXMax dx width : T) : T * T :=
  let range := startXMax - startXMin in
  let shift := nneg (dx / width) * range in
  let newXMin := clamp (startXMin + shift) (PZ.min b) (PZ.max b - range) in
  (newXMin, newXMin + range).

Context {U : Type} `{!UPlot T U}.

(** The hook: a full range resumes live tracking. *)
Definition on_setScale (r : U * bool) (p : Plugin T) : U * Plugin T :=
  let '(u, fired) := r in
  (u, if fired
      then PZ.mkPlugin (negb (isFullRange (u_data u) (u_min u) (u_max u))) (PZ.dragging p)
             (PZ.dragStartX p) (PZ.dragStartXMin p) (PZ.dragStartXMax p) (PZ.cursor p)
      else p).

(** [ready]: the listeners start with no drag. *)
Definition panZoom_ready (p_userZoomed : bool) : Plugin T :=
  PZ.mkPlugin p_userZoomed false N[0] N[0] N[0] "grab".

Definition panZoom_event (e : PZEvent T) (up : U * Plugin T) : U * Plugin T :=
  let '(u, p) := up in
  match e with
  | EvWheel clientX deltaY boxLeft width =>
      let '(lo, hi) :=
        wheel_scale (dataBounds (u_data u)) (u_min u) (u_max u) clientX deltaY boxLeft width in
      on_setScale (u_setScale u lo hi) p
  | EvDown button clientX =>
      if (button =? 0)%Z
      then (u, PZ.mkPlugin (PZ.userZoomed p) true clientX (u_min u) (u_max u) "grabbing")
      else (u, p)
  | EvMove clientX width =>
      if PZ.dragging p then
        let '(lo, hi) := drag_scale (dataBounds (u_data u)) (PZ.dragStartXMin p)
                           (PZ.dragStartXMax p) (clientX - PZ.dragStartX p) width in
        on_setScale (u_setScale u lo hi) p
      else (u, p)
  | EvUp =>
      if PZ.dragging p
      then (u, PZ.mkPlugin (PZ.userZoomed p) false (PZ.dragStartX p) (PZ.dragStartXMin p)
                 (PZ.dragStartXMax p) "grab")
      else (u, p)
  end.

(** [applyData]: a zoomed chart keeps its scale, a live one follows the data. *)
Definition applyData (data : list T) (up : U * Plugin T) : U * Plugin T :=
  let '(u, p) := up in
  if PZ.userZoomed p then
    let xMin := u_min u in
    let xMax := u_max u in
    let '(u, p) := on_setScale (u_setData u data false) p in
    on_setScale (u_setScale u xMin xMax) p
  else on_setScale (u_setData u data true) p.

Definition run_events (es : list (PZEvent T)) (up : U * Plugin T) : U * Plugin T :=
  foldl (λ up e, panZoom_event e up) up es.
End Shared.

(** Data with a first point before its last. *)
Definition spread {T} `{Num T} (xs : list T) : Prop :=
  match xs with [] => False | x :: rest => nltb x (List.last rest x) = true end.
Lemma dataBounds_spread {T} `{Num T} (x : T) rest :
  spread (x :: rest) → dataBounds (x :: rest) = PZ.mkBounds x (List.last rest x).
Proof. unfold dataBounds. simpl. by intros ->. Qed.

(** ** A concrete chart, for the witnesses and for running the model *)
Module Plain.
Record Plot (T : Type) := mkPlot { xs : list T; lo : T; hi : T }.
Arguments mkPlot {T}. Arguments xs {T}. Arguments lo {T}. Arguments hi {T}.
End Plain.

Section PlainPlot.
Context {T : Type} `{Num T}.
(** It reports every call as a change. *)
#[export] Instance plain_uplot : UPlot T (Plain.Plot T) := {|
  u_data := Plain.xs; u_min := Plain.lo; u_max := Plain.hi;
  u_setScale u a b := (Plain.mkPlot (Plain.xs u) a b, true);
  u_setData u xs reset :=
    let b := dataBounds xs in
    (if reset then Plain.mkPlot xs (PZ.min b) (PZ.max b)
     else Plain.mkPlot xs (Plain.lo u) (Plain.hi u), true);
|}.
#[export] Instance plain_laws : UPlotLaws T (Plain.Plot T).
Proof.
  split; simpl; try done.
  - intros u xs []; done.
  - intros u x xs Hlt. by rewrite Hlt.
Qed.
End PlainPlot.

Lemma applyData_zoomed {T U} `{Num T} `{!UPlot T U} `{!UPlotLaws T U} (xs : list T) (u : U) (p : Plugin T) :
  PZ.userZoomed p = true →
  u_data (applyData xs (u, p)).1 = xs
  ∧ u_min (applyData xs (u, p)).1 = u_min u ∧ u_max (applyData xs (u, p)).1 = u_max u.
Proof.
  intros Hz. unfold applyData. rewrite Hz.
  pose proof (setData_keep u xs) as [Ea Ec]. pose proof (setData_data u xs false) as Ed.
  destruct (u_setData u xs false) as [u1 f1]. simpl in *.
  pose proof (setScale_scale u1 (u_min u) (u_max u)) as [Ea' Ec'].
  pose proof (setScale_data u1 (u_min u) (u_max u)) as Ed'.
  destruct (u_setScale u1 (u_min u) (u_max u)) as [u2 f2]. simpl in *. by rewrite Ed', Ed.
Qed.

(** ** Sessions

    Between two updates of the data, for any property [W] of windows that the
    wheel and the drag keep, given that events are [ok] and drags start at
    [start] coordinates. *)
Section Session.
Context {T U : Type} `{Num T} `{!UPlot T U} `{!UPlotLaws T U} (xs : list T).
Context (W : T → T → Prop) (ok : PZEvent T → Prop) (start : T → Prop).
Implicit Types (u : U) (p : Plugin T).

Definition u_full u : bool := isFullRange (u_data u) (u_min u) (u_max u).

(** The window, and the one a drag started from. *)
Record session_ok (up : U * Plugin T) : Prop := {
  ss_data : u_data up.1 = xs;
  ss_window : W (u_min up.1) (u_max up.1);
  ss_drag : PZ.dragging up.2 = true →
            W (PZ.dragStartXMin up.2) (PZ.dragStartXMax up.2) ∧ start (PZ.dragStartX up.2);
  ss_live : PZ.userZoomed up.2 = negb (u_full up.1);
}.

Lemma on_setScale_ok u p a c :
  session_ok (u, p) → W a c → session_ok (on_setScale (u_setScale u a c) p).
Proof using UPlotLaws0.
  intros [Hd Hw Hg Hl] Hok. simpl in *.
  pose proof (setScale_scale u a c) as [Ea Ec]. pose proof (setScale_data u a c) as Ed.
  pose proof (setScale_fires u a c) as Hf. destruct (u_setScale u a c) as [u' fired]. simpl in *.
  assert (W (u_min u') (u_max u')) as Hw' by (by rewrite Ea, Ec).
  destruct fired; split; simpl; try done; try (by rewrite Ed); unfold u_full.
  destruct (Hf eq_refl) as [E1 E2]. by rewrite Ed, Ea, Ec, <-E1, <-E2.
Qed.

Context (wheel_W : ∀ lo hi cx dy bl w, W lo hi → ok (EvWheel cx dy bl w) →
  let '(a, c) := wheel_scale (dataBounds xs) lo hi cx dy bl w in W a c).
Context (drag_W : ∀ lo hi x0 cx w, W lo hi → start x0 → ok (EvMove cx w) →
  let '(a, c) := drag_scale (dataBounds xs) lo hi (cx - x0)%num w in W a c).
Context (down_start : ∀ button cx, ok (EvDown button cx) → start cx).

Lemma panZoom_event_ok e up : ok e → session_ok up → session_ok (panZoom_event e up).
Proof using All.
  intros He Hs. destruct up as [u p]. pose proof Hs as [Hd Hw Hg Hl]. cbn [fst snd] in *.
  destruct e as [cx dy bl w|button cx|cx w|]; cbn [panZoom_event] in *.
  - pose proof (wheel_W _ _ _ _ _ _ Hw He) as Hok. rewrite Hd.
    destruct (wheel_scale _ _ _ _ _ _ _) as [a c]. by apply on_setScale_ok.
  - case_if; [|done]. split; simpl; try done. intros _. split; [done|by eapply down_start].
  - case_if; [|done]. destruct (Hg eq_refl) as [Hg1 Hg2].
    pose proof (drag_W _ _ _ _ _ Hg1 Hg2 He) as Hok. rewrite Hd.
    destruct (drag_scale _ _ _ _ _) as [a c]. by apply on_setScale_ok.
  - case_if; [|done]. by split.
Qed.

Lemma run_events_ok es up : Forall ok es → session_ok up → session_ok (run_events es up).
Proof using All.
  intros Hes. revert up. induction Hes as [|e es He Hes IH]; intros up Hs; [done|].
  apply IH. by apply panZoom_event_ok.
Qed.

Lemma applyData_live u p :
  PZ.userZoomed p = false → PZ.dragging p = false → spread xs →
  W (PZ.min (dataBounds xs)) (PZ.max (dataBounds xs)) →
  isFullRange xs (PZ.min (dataBounds xs)) (PZ.max (dataBounds xs)) = true →
  session_ok (applyData xs (u, p)).
Proof using UPlotLaws0.
  clear wheel_W drag_W down_start. intros Hz Hg Hsp HW Hf. unfold applyData. rewrite Hz. destruct xs as [|x rest] eqn:Exs; [done|].
  pose proof (setData_reset u x rest Hsp) as [Ea Ec]. pose proof (setData_data u (x :: rest) true) as Ed.
  rewrite (dataBounds_spread _ _ Hsp) in *.
  destruct (u_setData u (x :: rest) true) as [u' fired]. cbn [fst snd PZ.min PZ.max] in *.
  assert (u_full u' = true) as Hfull by (unfold u_full; by rewrite Ed, Ea, Ec).
  assert (W (u_min u') (u_max u')) as Hw by (by rewrite Ea, Ec).
  destruct fired; simpl; split; simpl; try done; try congruence; by rewrite ?Hz, ?Hfull.
Qed.
End Session.

(** ** Rational arithmetic of the window *)
Lemma Qlt_bool_iff a b : Qlt_bool a b = true ↔ (a < b)%Q.
Proof.
  unfold Qlt_bool. rewrite negb_true_iff. split.
  - intros Hn. apply Qnot_le_lt. rewrite <-Qle_bool_iff. congruence.
  - intros Hlt. apply not_true_iff_false. rewrite Qle_bool_iff. by apply Qlt_not_le.
Qed.
Lemma Qlt_bool_false a b : Qlt_bool a b = false ↔ (b <= a)%Q.
Proof. unfold Qlt_bool. by rewrite negb_false_iff, Qle_bool_iff. Qed.

Lemma nmax_Q (a b : Q) : (a <= nmax a b ∧ b <= nmax a b ∧ (nmax a b == a ∨ nmax a b == b))%Q.
Proof.
  unfold nmax. simpl. destruct (Qlt_bool a b) eqn:E.
  - apply Qlt_bool_iff in E. split_and!; [lra|lra|by right].
  - apply Qlt_bool_false in E. split_and!; [lra|lra|by left].
Qed.
Lemma nmin_Q (a b : Q) : (nmin a b <= a ∧ nmin a b <= b ∧ (nmin a b == a ∨ nmin a b == b))%Q.
Proof.
  unfold nmin. simpl. destruct (Qlt_bool b a) eqn:E.
  - apply Qlt_bool_iff in E. split_and!; [lra|lra|by right].
  - apply Qlt_bool_false in E. split_and!; [lra|lra|by left].
Qed.

Lemma clamp_Q (v lo hi : Q) :
  (lo <= hi)%Q →
  (lo <= clamp v lo hi ∧ clamp v lo hi <= hi)%Q
  ∧ ((lo <= v ∧ v <= hi)%Q → (clamp v lo hi == v)%Q)
  ∧ ((hi <= v)%Q → (clamp v lo hi == hi)%Q).
Proof.
  intros Hle. unfold clamp.
  destruct (nmax_Q lo (nmin hi v)) as (? & ? & Hmax), (nmin_Q hi v) as (? & ? & Hmin).
  split_and!; [lra|destruct Hmax; lra|..]; intros; destruct Hmax, Hmin; lra.
Qed.

(** The window lies in the bounds and is not narrower than the minimum. *)
Record window_ok (b : Bounds Q) (lo hi : Q) : Prop := {
  wk_lo : (PZ.min b <= lo)%Q;
  wk_hi : (hi <= PZ.max b)%Q;
  wk_width : (nmin MIN_ZOOM_SEC (PZ.max b - PZ.min b) <= hi - lo)%Q;
}.

Lemma min_range (b : Bounds Q) :
  (PZ.min b < PZ.max b)%Q →
  (0 < nmin MIN_ZOOM_SEC (PZ.max b - PZ.min b) ∧
   nmin MIN_ZOOM_SEC (PZ.max b - PZ.min b) <= PZ.max b - PZ.min b)%Q.
Proof.
  intros Hb. destruct (nmin_Q MIN_ZOOM_SEC (PZ.max b - PZ.min b)) as (? & ? & Hc).
  assert (MIN_ZOOM_SEC == 10)%Q as Hm by reflexivity. split; [|lra]. destruct Hc; lra.
Qed.

Lemma dataBounds_lt (xs : list Q) : (PZ.min (dataBounds xs) < PZ.max (dataBounds xs))%Q.
Proof.
  destruct xs as [|x xs]; simpl; [reflexivity|].
  destruct (Qlt_bool x (List.last xs x)) eqn:E; simpl; [by apply Qlt_bool_iff|].
  change (inject_Z 1) with 1%Q. lra.
Qed.

Section Wheel.
Context (b : Bounds Q) (lo hi clientX deltaY boxLeft width : Q).
Context (Hb : (PZ.min b < PZ.max b)%Q) (Hw : (0 < width)%Q).
Context (Hx : (boxLeft <= clientX ∧ clientX <= boxLeft + width)%Q).

Definition ratio : Q := (clientX - boxLeft) / width.
Definition zoom_factor : Q := if Qlt_bool 0 deltaY then 125 # 100 else 8 # 10.

Lemma ratio_bounds : (0 <= ratio ∧ ratio <= 1)%Q.
Proof using Hw Hx.
  unfold ratio. split.
  - apply Qle_shift_div_l; [done|]. lra.
  - apply Qle_shift_div_r; [done|]. lra.
Qed.

(** The result, with the new width and the unclamped left edge named. *)
Lemma wheel_scale_spec :
  ∃ new left,
    (new == clamp ((hi - lo) * zoom_factor) (nmin MIN_ZOOM_SEC (PZ.max b - PZ.min b))
              (PZ.max b - PZ.min b)
    ∧ left == clamp (lo + ratio * (hi - lo) - ratio * new) (PZ.min b) (PZ.max b - new))%Q
    ∧ wheel_scale b lo hi clientX deltaY boxLeft width = (left, left + new)%Q.
Proof.
  eexists _, _. split_and!; [| |unfold wheel_scale; reflexivity].
  - unfold zoom_factor, nlit. simpl. change (inject_Z 0) with 0%Q.
    unfold clamp, nmax, nmin. simpl.
    by destruct (Qlt_bool 0 deltaY).
  - reflexivity.
Qed.

Lemma wheel_scale_window :
  let '(lo', hi') := wheel_scale b lo hi clientX deltaY boxLeft width in window_ok b lo' hi'.
Proof using Hb.
  destruct wheel_scale_spec as (new & left & (Hn & Hl) & ->).
  destruct (min_range b Hb) as [? Hmin].
  destruct (clamp_Q ((hi - lo) * zoom_factor) _ _ Hmin) as ((? & ?) & _).
  destruct (clamp_Q (lo + ratio * (hi - lo) - ratio * new) (PZ.min b) (PZ.max b - new)) as ((? & ?) & _);
    [lra|].
  split; lra.
Qed.
End Wheel.

Section Drag.
Context (b : Bounds Q) (lo hi dx width : Q).
Context (Hb : (PZ.min b < PZ.max b)%Q) (Hok : window_ok b lo hi).

Lemma drag_scale_spec :
  ∃ left,
    (left == clamp (lo - dx / width * (hi - lo)) (PZ.min b) (PZ.max b - (hi - lo)))%Q
    ∧ drag_scale b lo hi dx width = (left, left + (hi - lo))%Q.
Proof.
  eexists. split; [|unfold drag_scale; reflexivity].
  assert (∀ u v x y : Q, (u == v)%Q → (clamp u x y == clamp v x y)%Q) as Hc.
  { intros u v x y E. unfold clamp, nmax, nmin. simpl.
    assert (∀ a c d : Q, (a == c)%Q → Qlt_bool a d = Qlt_bool c d) as Hl.
    { intros a c d Ea. apply eq_true_iff_eq. rewrite !Qlt_bool_iff. by rewrite Ea. }
    assert (∀ a c d : Q, (a == c)%Q → Qlt_bool d a = Qlt_bool d c) as Hr.
    { intros a c d Ea. apply eq_true_iff_eq. rewrite !Qlt_bool_iff. by rewrite Ea. }
    rewrite (Hl u v y E). destruct (Qlt_bool v y); [|reflexivity].
    rewrite (Hr u v x E). by destruct (Qlt_bool x v). }
  apply Hc. unfold nneg. simpl. change (inject_Z 0) with 0%Q. ring.
Qed.

Lemma drag_scale_window :
  let '(lo', hi') := drag_scale b lo hi dx width in window_ok b lo' hi'.
Proof using Hok.
  destruct drag_scale_spec as (left & Hl & ->). destruct Hok as [? ? ?].
  destruct (clamp_Q (lo - dx / width * (hi - lo)) (PZ.min b) (PZ.max b - (hi - lo))) as ((? & ?) & _);
    [lra|].
  split; lra.
Qed.
End Drag.

#[local] Arguments wheel_scale : simpl never.
#[local] Arguments drag_scale : simpl never.
#[local] Arguments isFullRange : simpl never.
#[local] Arguments dataBounds : simpl never.

(** ** Sessions in rational arithmetic *)
Section Rational.
Context {U : Type} `{!UPlot Q U} `{!UPlotLaws Q U}.
Implicit Types (u : U) (p : Plugin Q).

(** An event the browser can produce: the plot area is not empty and a wheel
    event happens over it. *)
Definition event_ok (e : PZEvent Q) : Prop :=
  match e with
  | EvWheel clientX _ boxLeft width =>
      (0 < width ∧ boxLeft <= clientX ∧ clientX <= boxLeft + width)%Q
  | _ => True
  end.
Definition q_session (xs : list Q) (up : U * Plugin Q) : Prop :=
  session_ok xs (window_ok (dataBounds xs)) (λ _, True) up.

Lemma q_event_ok xs e up : event_ok e → q_session xs up → q_session xs (panZoom_event e up).
Proof using UPlotLaws0.
  intros He. apply (panZoom_event_ok xs _ event_ok); [| |done|done].
  - intros. apply wheel_scale_window, dataBounds_lt.
  - intros. by apply drag_scale_window.
Qed.
Lemma q_events_ok xs es up : Forall event_ok es → q_session xs up → q_session xs (run_events es up).
Proof using UPlotLaws0.
  intros Hes. revert up. induction Hes as [|e es He Hes IH]; intros up Hs; [done|].
  apply IH. by apply q_event_ok.
Qed.

Lemma full_is_full xs :
  isFullRange xs (PZ.min (dataBounds xs)) (PZ.max (dataBounds xs)) = true.
Proof.
  unfold isFullRange. apply Qle_bool_iff. pose proof (dataBounds_lt xs).
  unfold nlit. simpl. change (inject_Z 1 / inject_Z 1000)%Q with (1 # 1000)%Q. nra.
Qed.

Lemma full_window_ok xs :
  window_ok (dataBounds xs) (PZ.min (dataBounds xs)) (PZ.max (dataBounds xs)).
Proof.
  pose proof (dataBounds_lt xs) as Hb. destruct (min_range _ Hb). split; lra.
Qed.

(** ... zooming out *)
Definition wheel_out (e : PZEvent Q) : Prop :=
  match e with EvWheel _ deltaY _ _ => (0 < deltaY)%Q | _ => False end.

Lemma wheel_out_grows b lo hi cx dy bl w :
  (PZ.min b < PZ.max b)%Q → window_ok b lo hi → (0 < dy)%Q →
  let '(lo', hi') := wheel_scale b lo hi cx dy bl w in
  (hi' - lo' == PZ.max b - PZ.min b ∨ hi' - lo' == (5 # 4) * (hi - lo))%Q.
Proof.
  intros Hb [Hlo Hhi Hwd] Hdy.
  destruct (wheel_scale_spec b lo hi cx dy bl w) as (new & left & (Hn & Hl) & ->).
  unfold zoom_factor in Hn. rewrite (proj2 (Qlt_bool_iff _ _) Hdy) in Hn.
  destruct (min_range b Hb) as [Hpos Hmin].
  destruct (clamp_Q ((hi - lo) * (125 # 100)) _ _ Hmin) as (_ & Hin & Hge).
  destruct (Qlt_le_dec ((hi - lo) * (125 # 100)) (PZ.max b - PZ.min b)) as [Hlt|Hle].
  - right. assert (new == (hi - lo) * (125 # 100))%Q as -> by (rewrite Hn; apply Hin; lra).
    assert (125 # 100 == 5 # 4)%Q as -> by reflexivity. ring.
  - left. assert (new == PZ.max b - PZ.min b)%Q as -> by (rewrite Hn; by apply Hge). ring.
Qed.

Lemma zoom_out_full xs es u p :
  Forall event_ok es → Forall wheel_out es → q_session xs (u, p) →
  (PZ.max (dataBounds xs) - PZ.min (dataBounds xs)
     <= (5 # 4) ^ Z.of_nat (length es) * (u_max u - u_min u))%Q →
  let u' := (run_events es (u, p)).1 in
  (u_min u' == PZ.min (dataBounds xs) ∧ u_max u' == PZ.max (dataBounds xs))%Q.
Proof.
  set (b := dataBounds xs). intros Hes Hout. revert u p.
  induction Hout as [|e es He Hout IH]; intros u p Hs Hle.
  - destruct Hs as [Hd [Hlo Hhi _] _ _]. simpl in *. fold b in Hlo, Hhi.
    split; lra.
  - apply Forall_cons in Hes as [Hev Hes]. pose proof (q_event_ok xs e _ Hev Hs) as Hs'.
    cbn [run_events foldl]. change (foldl _ _ es) with (run_events es (panZoom_event e (u, p))).
    destruct e as [cx dy bl w|?|?|]; try done. destruct Hs as [Hd Hw _ _]. cbn [fst snd] in *.
    destruct (panZoom_event _ (u, p)) as [u1 p1] eqn:E1. apply (IH Hes u1 p1 Hs').
    cbn [panZoom_event] in E1. rewrite Hd in *. fold b in Hw, E1, Hle |- *.
    pose proof (wheel_out_grows b _ _ cx dy bl w (dataBounds_lt xs) Hw He) as Hgrow.
    destruct (wheel_scale b _ _ _ _ _ _) as [a c].
    pose proof (setScale_scale u a c) as [Ea Ec]. destruct (u_setScale u a c) as [u2 f].
    injection E1 as <- _. cbn [fst] in *. rewrite Ea, Ec.
    cbn [length] in Hle. rewrite Nat2Z.inj_succ in Hle. unfold Z.succ in Hle.
    rewrite Qpower_plus in Hle by done. simpl (_ ^ 1)%Q in Hle.
    assert (1 <= (5 # 4) ^ Z.of_nat (length es))%Q as H1 by (apply Qpower_1_le; [lra|lia]).
    pose proof (dataBounds_lt xs) as Hlt. fold b in Hlt.
    destruct Hgrow as [-> | ->]; nra.
Qed.
End Rational.

#[local] Arguments clamp : simpl never.

(** ** Theorems *)

(** Whatever the user does with wheel and mouse on a chart that was live when
    its data arrived, the visible window stays inside the data, never narrower
    than 10 seconds (or the whole data when shorter); the chart counts as zoomed
    exactly when it does not show the full range; and further data then leaves
    the window where it is. *)
Theorem session_window {U : Type} `{!UPlot Q U} `{!UPlotLaws Q U}
    (xs : list Q) (u : U) (p : Plugin Q) (es : list (PZEvent Q)) :
  PZ.userZoomed p = false → PZ.dragging p = false → spread xs → Forall event_ok es →
  let '(u', p') := run_events es (applyData xs (u, p)) in
  u_data u' = xs ∧ window_ok (dataBounds xs) (u_min u') (u_max u')
  ∧ PZ.userZoomed p' = negb (isFullRange xs (u_min u') (u_max u'))
  ∧ ∀ xs', PZ.userZoomed p' = true →
      let u'' := (applyData xs' (u', p')).1 in
      u_data u'' = xs' ∧ u_min u'' = u_min u' ∧ u_max u'' = u_max u'.
Proof.
  intros Hz Hg Hsp Hes.
  assert (q_session xs (applyData xs (u, p))) as Hs
    by (apply applyData_live; [done..|apply full_window_ok|apply full_is_full]).
  pose proof (q_events_ok xs es _ Hes Hs) as [Hd Hw _ Hl].
  destruct (run_events es _) as [u' p']. cbn [fst snd] in *.
  unfold u_full in *. rewrite Hd in *. split_and!; [done..|].
  intros xs' Hz'. by apply applyData_zoomed.
Qed.

(** C27: zooming in with the wheel keeps the instant under the cursor where it is,
    nests the window, and divides its width by 1.25 until the minimum. *)
Theorem wheel_in_keeps_cursor (b : Bounds Q) (lo hi clientX deltaY boxLeft width : Q) :
  (PZ.min b < PZ.max b)%Q → window_ok b lo hi → (deltaY <= 0)%Q → (0 < width)%Q →
  (boxLeft <= clientX ∧ clientX <= boxLeft + width)%Q →
  let '(lo', hi') := wheel_scale b lo hi clientX deltaY boxLeft width in
  let r := ((clientX - boxLeft) / width)%Q in
  (lo <= lo' ∧ hi' <= hi
   ∧ lo' + r * (hi' - lo') == lo + r * (hi - lo)
   ∧ hi' - lo' == nmax (nmin MIN_ZOOM_SEC (PZ.max b - PZ.min b)) ((hi - lo) * (8 # 10)))%Q.
Proof.
  intros Hb [Hlo Hhi Hwd] Hdy Hw Hx.
  destruct (wheel_scale_spec b lo hi clientX deltaY boxLeft width) as (new & left & (Hn & Hl) & ->).
  destruct (ratio_bounds clientX boxLeft width Hw Hx) as [Hr0 Hr1].
  fold (ratio clientX boxLeft width). set (r := ratio clientX boxLeft width) in *.
  unfold zoom_factor in Hn. rewrite (proj2 (Qlt_bool_false _ _) Hdy) in Hn.
  destruct (min_range b Hb) as [Hpos Hmin]. set (m := nmin MIN_ZOOM_SEC _) in *.
  destruct (nmax_Q m ((hi - lo) * (8 # 10))) as (Hm1 & Hm2 & Hm3).
  assert (new == nmax m ((hi - lo) * (8 # 10)))%Q as Hnew.
  { rewrite Hn. unfold clamp.
    destruct (nmin_Q (PZ.max b - PZ.min b) ((hi - lo) * (8 # 10))) as (? & ? & Hc).
    set (q := nmin (PZ.max b - PZ.min b)%Q _) in *.
    destruct (nmax_Q m q) as (? & ? & Hc'). destruct Hc, Hc', Hm3; lra. }
  assert (m <= new ∧ new <= hi - lo)%Q as [Hn1 Hn2] by (rewrite Hnew; destruct Hm3; lra).
  destruct (clamp_Q (lo + r * (hi - lo) - r * new) (PZ.min b) (PZ.max b - new)) as (_ & Hin & _); [lra|].
  assert (0 <= r * (hi - lo - new))%Q by (apply Qmult_le_0_compat; lra).
  assert (0 <= (1 - r) * (hi - lo - new))%Q by (apply Qmult_le_0_compat; lra).
  assert (left == lo + r * (hi - lo) - r * new)%Q as Hleft by (rewrite Hl; apply Hin; lra).
  split_and!; [lra|lra|rewrite Hleft; ring|rewrite <-Hnew; ring].
Qed.

(** Zooming out always comes back to the live view: from a window of width
    [w], [k] wheel steps with [full <= 1.25^k * w], at any cursor positions, show
    the full range again and resume live tracking. *)
Theorem zoom_out_returns_live {U : Type} `{!UPlot Q U} `{!UPlotLaws Q U}
    (xs : list Q) (es : list (PZEvent Q)) (u : U) (p : Plugin Q) :
  q_session xs (u, p) → Forall event_ok es → Forall wheel_out es →
  (PZ.max (dataBounds xs) - PZ.min (dataBounds xs)
     <= (5 # 4) ^ Z.of_nat (length es) * (u_max u - u_min u))%Q →
  let '(u', p') := run_events es (u, p) in
  (u_min u' == PZ.min (dataBounds xs) ∧ u_max u' == PZ.max (dataBounds xs))%Q
  ∧ PZ.userZoomed p' = false.
Proof.
  intros Hs Hes Hout Hle. pose proof (zoom_out_full xs es u p Hes Hout Hs Hle) as [Ha Hc].
  pose proof (q_events_ok xs es _ Hes Hs) as [Hd _ _ Hl].
  destruct (run_events es (u, p)) as [u' p']. cbn [fst snd] in *. split; [done|].
  rewrite Hl. unfold u_full. rewrite Hd. apply negb_false_iff.
  pose proof (full_is_full xs) as Hf. unfold isFullRange in *. apply Qle_bool_iff.
  apply Qle_bool_iff in Hf. rewrite Ha, Hc. exact Hf.
Qed.

(** Dragging moves the window with the mouse at constant width and stops at
    the ends of the data. *)
Theorem drag_moves_window (b : Bounds Q) (lo hi dx width : Q) :
  window_ok b lo hi → (0 < width)%Q →
  let '(lo', hi') := drag_scale b lo hi dx width in
  let target := (lo - dx / width * (hi - lo))%Q in
  window_ok b lo' hi' ∧ (hi' - lo' == hi - lo)%Q
  ∧ ((PZ.min b <= target)%Q → (target + (hi - lo) <= PZ.max b)%Q → (lo' == target)%Q)
  ∧ ((target <= PZ.min b)%Q → (lo' == PZ.min b)%Q)
  ∧ ((PZ.max b <= target + (hi - lo))%Q → (hi' == PZ.max b)%Q).
Proof.
  intros Hok _. pose proof (drag_scale_window b lo hi dx width Hok) as Hok'.
  destruct (drag_scale_spec b lo hi dx width) as (left & Hl & E). rewrite E in *.
  destruct Hok as [? ? ?]. set (target := (lo - dx / width * (hi - lo))%Q) in *.
  destruct (clamp_Q target (PZ.min b) (PZ.max b - (hi - lo))) as ((? & ?) & Hin & Hge); [lra|].
  split_and!; [done|ring|intros; rewrite Hl; apply Hin; lra|..]; intros Ht.
  - destruct (Qlt_le_dec target (PZ.min b)) as [Hlt|Hle].
    + rewrite Hl. unfold clamp. destruct (nmin_Q (PZ.max b - (hi - lo)) target) as (?&?&?).
      set (q := nmin _ target) in *. destruct (nmax_Q (PZ.min b) q) as (?&?&[]); lra.
    + rewrite Hl, Hin by lra. lra.
  - assert (left == PZ.max b - (hi - lo))%Q as -> by (rewrite Hl; apply Hge; lra). ring.
Qed.

(** Witnesses: a plot of points at 0, 60 and 100 seconds. *)
Definition ex_xs : list Q := [0; 60; 100]%Q.
Definition ex_plot : Plain.Plot Q := Plain.mkPlot [] 0%Q 1%Q.
Definition ex_plugin : Plugin Q := panZoom_ready false.
Definition ex_zoomed : Plain.Plot Q := Plain.mkPlot ex_xs 20%Q 80%Q.

Lemma ex_session : q_session ex_xs (ex_zoomed, PZ.mkPlugin true false 0%Q 0%Q 0%Q "grab").
Proof. split; [done|split; by vm_compute|done|done]. Qed.

Lemma session_window_witness :
  let '(u', p') := run_events [EvWheel 50 (-1) 0 100; EvDown 0 50; EvMove 900 100; EvUp]%Q
                     (applyData ex_xs (ex_plot, ex_plugin)) in
  u_data u' = ex_xs ∧ window_ok (dataBounds ex_xs) (u_min u') (u_max u')
  ∧ PZ.userZoomed p' = negb (isFullRange ex_xs (u_min u') (u_max u'))
  ∧ ∀ xs', PZ.userZoomed p' = true →
      let u'' := (applyData xs' (u', p')).1 in
      u_data u'' = xs' ∧ u_min u'' = u_min u' ∧ u_max u'' = u_max u'.
Proof.
  apply (session_window ex_xs ex_plot ex_plugin); [reflexivity|reflexivity|reflexivity|].
  repeat apply Forall_cons_2; try exact I; [|apply Forall_nil_2].
  split; [reflexivity|split; discriminate].
Defined.

Lemma wheel_in_keeps_cursor_witness :
  let '(lo', hi') := (wheel_scale (PZ.mkBounds 0 100) 20 80 25 (-3) 0 100)%Q in
  let r := ((25 - 0) / 100)%Q in
  (20 <= lo' ∧ hi' <= 80 ∧ lo' + r * (hi' - lo') == 20 + r * (80 - 20)
   ∧ hi' - lo' == nmax (nmin MIN_ZOOM_SEC (100 - 0)) ((80 - 20) * (8 # 10)))%Q.
Proof.
  apply (wheel_in_keeps_cursor (PZ.mkBounds 0 100) 20 80 25 (-3) 0 100)%Q;
    [reflexivity|split; discriminate|discriminate|reflexivity|split; discriminate].
Defined.

Lemma zoom_out_returns_live_witness :
  let '(u', p') := run_events (replicate 3 (EvWheel 10 1 0 100)%Q)
                     (ex_zoomed, PZ.mkPlugin true false 0%Q 0%Q 0%Q "grab") in
  (u_min u' == PZ.min (dataBounds ex_xs) ∧ u_max u' == PZ.max (dataBounds ex_xs))%Q
  ∧ PZ.userZoomed p' = false.
Proof.
  apply (zoom_out_returns_live ex_xs).
  - exact ex_session.
  - repeat apply Forall_cons_2; [..|apply Forall_nil_2]; (split; [reflexivity|split; discriminate]).
  - repeat apply Forall_cons_2; [..|apply Forall_nil_2]; reflexivity.
  - discriminate.
Defined.

Lemma drag_moves_window_witness :
  let '(lo', hi') := (drag_scale (PZ.mkBounds 0 100) 20 80 50 100)%Q in
  let target := (20 - 50 / 100 * (80 - 20))%Q in
  window_ok (PZ.mkBounds 0 100)%Q lo' hi' ∧ (hi' - lo' == 80 - 20)%Q
  ∧ ((0 <= target)%Q → (target + (80 - 20) <= 100)%Q → (lo' == target)%Q)
  ∧ ((target <= 0)%Q → (lo' == 0)%Q)
  ∧ ((100 <= target + (80 - 20))%Q → (hi' == 100)%Q).
Proof.
  apply (drag_moves_window (PZ.mkBounds 0 100) 20 80 50 100)%Q;
    [split; discriminate|reflexivity].
Defined.
