(* ===== verification/ChartFloat.v ===== *)
(** * The window of the charts in machine arithmetic

    The x axis of a chart is in seconds since the epoch.  Between 2004 and 2038
    these lie in [[2^30, 2^31)], where the floats are the multiples of 2^-22
    (about 0.24 microseconds): differences of points are exact, only the sum that
    closes the window after a wheel event rounds.  So the window of a session
    stays inside the data up to one step of the grid, and a drag does not drift. *)

From S2P Require Export Chart.
From S2P Require Import FloatInterval.
From stdpp Require Import base list.

Local Open Scope Z_scope.
#[local] Arguments Z.pow : simpl never.
#[local] Opaque FloatRound.U g0 INF.
#[local] Abbreviation U := FloatRound.U.

(** The step of the grid, and its value. *)
Definition STEP : number := (N[1] / N[4194304])%num.
Definition G : Z := 2 ^ (U - 22).
Lemma G_pos : 0 < G.
Proof. apply pow_gt0. rewrite U_val. lia. Qed.
Lemma pow_U_G k : 0 ≤ k → 2 ^ (k + U) = 2 ^ (k + 22) * G.
Proof. intros. unfold G. rewrite U_val, <-Z.pow_add_r by lia. f_equal. lia. Qed.

(** ** Rounding *)
(** A value of the epoch range rounds to the grid, by at most half a step. *)
Lemma rnd_epoch v :
  2 ^ 52 * G ≤ v < 2 ^ 53 * G → ∃ z, rnd v = z * G ∧ Z.abs (2 * (z * G - v)) ≤ G.
Proof.
  intros Hv. pose proof G_pos. assert (ex v = U - 22) as Hex.
  { unfold ex, dig. rewrite (Z.log2_unique v (30 + U)).
    - rewrite U_val, g0_val. lia.
    - rewrite U_val. lia.
    - rewrite <-Z.add_1_r. replace (30 + U + 1) with (31 + U) by lia. rewrite !pow_U_G by lia. lia. }
  exists (rne v (U - 22)). pose proof (rne_half v (U - 22) ltac:(rewrite U_val; lia)). fold G in *.
  split; [|done]. unfold rnd. rewrite (proj2 (Z.ltb_ge v 0)) by lia. unfold rndp. rewrite Hex. fold G.
  apply Z.min_l. rewrite INF_val. assert (2 ^ 3224 = 2 ^ 1046 * G) as ->.
  { unfold G. rewrite U_val, <-Z.pow_add_r by lia. f_equal. }
  assert (2 ^ 54 ≤ 2 ^ 1046) by (apply Z.pow_le_mono_r; lia). change (2 ^ 54) with (2 * 2 ^ 53) in *. nia.
Qed.

(** Small multiples of the step are floats. *)
Lemma rnd_grid z : Z.abs z ≤ 2 ^ 53 → rnd (z * G) = z * G.
Proof.
  assert (∀ n, 0 ≤ n ≤ 2 ^ 53 → rnd (n * G) = n * G) as Hn.
  { intros n Hn. pose proof G_pos. unfold rnd. rewrite (proj2 (Z.ltb_ge _ 0)) by nia. apply rndp_repr.
    assert (2 ^ 53 * G < INF) as Hinf.
    { rewrite INF_val. unfold G. rewrite U_val, <-Z.pow_add_r by lia. apply Z.pow_lt_mono_r; lia. }
    destruct (decide (n = 2 ^ 53)) as [->|].
    - exists 1, (53 + (U - 22)). rewrite Z.pow_add_r by (rewrite ?U_val; lia). fold G.
      rewrite U_val, g0_val in *. split_and!; lia.
    - exists n, (U - 22). fold G. rewrite U_val, g0_val in *. split_and!; lia || nia. }
  intros Hz. destruct (decide (0 ≤ z)); [apply Hn; lia|].
  replace (z * G) with (- (- z * G)) by lia. rewrite rnd_opp, Hn; lia.
Qed.

(** ** Points of the grid *)
Definition at_ (x : number) (z : Z) : Prop := finite x ∧ fv x = z * G.

Lemma at_intro x z : nnan x = false → Z.abs z ≤ 2 ^ 53 → fv x = z * G → at_ x z.
Proof.
  intros Hn Hz Hx. split; [|done]. apply finite_iff; [done|]. rewrite Hx. pose proof G_pos.
  assert (2 ^ 53 * G < INF); [|nia]. rewrite INF_val. unfold G. rewrite U_val, <-Z.pow_add_r by lia.
  apply Z.pow_lt_mono_r; lia.
Qed.
Lemma at_sub x y a b : at_ x a → at_ y b → Z.abs (a - b) ≤ 2 ^ 53 → at_ (x - y)%num (a - b).
Proof.
  intros [Fx Hx] [Fy Hy] Hz. destruct (fsub_fv x y Fx Fy) as [Hv Hn]. apply at_intro; [done|done|].
  rewrite Hv, Hx, Hy, <-Z.mul_sub_distr_r. by apply rnd_grid.
Qed.
Lemma at_add x y a b : at_ x a → at_ y b → Z.abs (a + b) ≤ 2 ^ 53 → at_ (x + y)%num (a + b).
Proof.
  intros [Fx Hx] [Fy Hy] Hz. destruct (fadd_fv x y Fx Fy) as [Hv Hn]. apply at_intro; [done|done|].
  rewrite Hv, Hx, Hy, <-Z.mul_add_distr_r. by apply rnd_grid.
Qed.
Lemma at_leb x y a b : at_ x a → at_ y b → nleb x y = true ↔ a ≤ b.
Proof.
  intros [Fx Hx] [Fy Hy]. rewrite nleb_fv by auto with js. rewrite Z.leb_le, Hx, Hy.
  pose proof G_pos. nia.
Qed.

Lemma at_inj x a c : at_ x a → at_ x c → a = c.
Proof. intros [_ H1] [_ H2]. pose proof G_pos. nia. Qed.
Lemma at_eqb x y z : at_ x z → at_ y z → neqb x y = true.
Proof. intros [Fx Hx] [Fy Hy]. rewrite neqb_fv by auto with js. apply Z.eqb_eq. by rewrite Hx, Hy. Qed.

(** Seconds from 2004 to 2038. *)
Definition epoch (x : number) : Prop := within N[1073741824]%num x N[2147483647]%num.
Lemma epoch_at x : epoch x → ∃ z, at_ x z ∧ 2 ^ 52 ≤ z ≤ 2 ^ 53 - 4194304.
Proof.
  intros Hx. pose proof (within_finite _ _ _ Hx) as Fx.
  destruct (nofZ_fv 1073741824 ltac:(lia)) as [V0 F0], (nofZ_fv 2147483647 ltac:(lia)) as [V1 F1].
  pose proof (within_fv _ _ _ F0 F1 Hx) as Hb. rewrite V0, V1 in Hb.
  pose proof (pow_U_G 0 ltac:(lia)) as HU. rewrite Z.add_0_l in HU. rewrite HU in Hb.
  change (2 ^ (0 + 22)) with 4194304 in Hb. pose proof G_pos.
  destruct (rnd_epoch (fv x)) as (z & Hz & _); [lia|]. rewrite (rnd_fv x Fx) in Hz.
  exists z. split; [by split|]. rewrite Hz in Hb. nia.
Qed.

(** ** Magnitudes: enough to exclude NaN *)
Definition mag (k : Z) (x : number) : Prop := finite x ∧ Z.abs (fv x) ≤ 2 ^ (k + U).

Lemma rnd_mag k v : 0 ≤ k ≤ 500 → Z.abs v ≤ 2 ^ (k + U) → Z.abs (rnd v) ≤ 2 ^ (k + U) < INF.
Proof.
  intros Hk Hv. assert (2 ^ (k + U) < INF) as Hinf.
  { rewrite INF_val, U_val. apply Z.pow_lt_mono_r; lia. }
  assert (rnd (2 ^ (k + U)) = 2 ^ (k + U)) as E.
  { unfold rnd. rewrite (proj2 (Z.ltb_ge _ 0)) by apply Z.pow_nonneg, Z.le_0_2. apply rndp_repr.
    exists 1, (k + U). rewrite U_val, g0_val in *. split_and!; lia. }
  pose proof (rnd_mono v (2 ^ (k + U)) ltac:(lia)). pose proof (rnd_mono (- 2 ^ (k + U)) v ltac:(lia)).
  rewrite rnd_opp in *. lia.
Qed.
Lemma mag_intro k x v : 0 ≤ k ≤ 500 → nnan x = false → fv x = rnd v → Z.abs v ≤ 2 ^ (k + U) → mag k x.
Proof.
  intros Hk Hn Hx Hv. destruct (rnd_mag k v Hk Hv). split; [|lia]. apply finite_iff; [done|]. lia.
Qed.
Lemma mag_mul j k x y : 0 ≤ j → 0 ≤ k → j + k ≤ 500 → mag j x → mag k y → mag (j + k) (x * y)%num.
Proof.
  intros ? ? ? [Fx Hx] [Fy Hy]. destruct (fmul_fv x y Fx Fy) as [(p & Hp & Ep) Hn].
  apply (mag_intro _ _ p); [lia|done|done|]. pose proof (pow_gt0 U ltac:(rewrite U_val; lia)) as HU.
  apply (Z.mul_le_mono_pos_r _ _ _ HU). rewrite <-(Z.abs_eq (2 ^ U)) at 1 by lia.
  rewrite <-Z.abs_mul, Hp, Z.abs_mul.
  replace (2 ^ (j + k + U) * 2 ^ U) with (2 ^ (j + U) * 2 ^ (k + U)).
  - apply Z.mul_le_mono_nonneg; lia.
  - rewrite U_val, <-!Z.pow_add_r by lia. f_equal. lia.
Qed.
Lemma mag_double k v w : 0 ≤ k → Z.abs v ≤ 2 ^ (k + U) → Z.abs w ≤ 2 ^ (k + U) →
  Z.abs (v + w) ≤ 2 ^ (k + 1 + U) ∧ Z.abs (v - w) ≤ 2 ^ (k + 1 + U).
Proof.
  intros. replace (2 ^ (k + 1 + U)) with (2 * 2 ^ (k + U)); [lia|].
  rewrite U_val, <-Z.pow_succ_r by lia. f_equal. lia.
Qed.
Lemma mag_add k x y : 0 ≤ k < 500 → mag k x → mag k y → mag (k + 1) (x + y)%num.
Proof.
  intros ? [Fx Hx] [Fy Hy]. destruct (fadd_fv x y Fx Fy) as [Hv Hn].
  eapply mag_intro; [lia|done|done|]. by apply mag_double; [lia|..].
Qed.
Lemma mag_sub k x y : 0 ≤ k < 500 → mag k x → mag k y → mag (k + 1) (x - y)%num.
Proof.
  intros ? [Fx Hx] [Fy Hy]. destruct (fsub_fv x y Fx Fy) as [Hv Hn].
  eapply mag_intro; [lia|done|done|]. by apply mag_double; [lia|..].
Qed.
Lemma mag_mono j k x : j ≤ k → mag j x → mag k x.
Proof.
  intros Hjk [F Hx]. split; [done|]. etrans; [exact Hx|]. apply Z.pow_le_mono_r; lia.
Qed.
Lemma at_mag x z : at_ x z → Z.abs z ≤ 2 ^ 53 → mag 31 x.
Proof.
  intros [Fx Hx] Hz. split; [done|]. rewrite Hx, pow_U_G by lia. pose proof G_pos. nia.
Qed.
Lemma mag_ok k x : mag k x → nnan x = false.
Proof. intros [? _]. auto with js. Qed.
Lemma mag_div k x w :
  mag k x → finite w → nleb N[1]%num w = true → mag k (x / w)%num.
Proof.
  intros [Fx Hx] Fw Hw. destruct (nofZ_fv 1 ltac:(lia)) as [V1 F1].
  rewrite nleb_fv, V1 in Hw by auto with js. bool_to_prop.
  destruct (fdiv_bound x w Fx Fw) as [? ?]; [lia|]. split; [done|lia].
Qed.

(** ** One step of a session *)
Lemma clamp_fv (lo hi v : number) :
  finite lo → finite hi → nnan v = false →
  finite (clamp v lo hi) ∧ fv lo ≤ fv (clamp v lo hi) ≤ Z.max (fv lo) (fv hi).
Proof.
  intros Fl Fh Hv. assert (nnan lo = false ∧ nnan hi = false) as [Hl Hh] by auto with js.
  assert (nnan (nmin hi v) = false) as Hm by by apply nmin_ok.
  pose proof (nmin_lb_l _ _ Hh Hv) as H1. pose proof (nmax_ub_l _ _ Hl Hm) as H2.
  unfold clamp. destruct (nmax_cases lo (nmin hi v)) as [E|E]; rewrite E in *; [split; [done|lia]|].
  split; [by apply (finite_between lo _ hi)|]. rewrite nleb_fv in H1, H2 by done. bool_to_prop. lia.
Qed.

Lemma clamp_lower (lo hi v : number) :
  finite lo → finite hi → nnan v = false → Z.min (fv hi) (fv v) ≤ fv (clamp v lo hi).
Proof.
  intros Fl Fh Hv. destruct (clamp_fv lo hi v Fl Fh Hv) as [Fc _].
  assert (nnan lo = false ∧ nnan hi = false) as [Hl Hh] by auto with js.
  assert (nnan (nmin hi v) = false) as Hm by by apply nmin_ok.
  pose proof (nmax_ub_r _ _ Hl Hm) as H2. fold (clamp v lo hi) in H2.
  rewrite nleb_fv in H2 by auto with js. bool_to_prop.
  destruct (nmin_cases hi v) as [E|E]; rewrite E in H2; lia.
Qed.

Lemma epoch_point x : finite x → 2 ^ 52 * G ≤ fv x < 2 ^ 53 * G → ∃ z, at_ x z.
Proof. intros Fx Hx. destruct (rnd_epoch _ Hx) as (z & Hz & _). exists z. split; [done|]. by rewrite <-Hz, rnd_fv. Qed.

Section Window.
Context (b : Bounds number) (zmin zmax : Z).
Context (Hmin : at_ (PZ.min b) zmin) (Hmax : at_ (PZ.max b) zmax).
Context (Hz : 2 ^ 52 ≤ zmin < zmax) (Hz' : zmax ≤ 2 ^ 53 - 4194304).

Definition min_range_of : number := nmin MIN_ZOOM_SEC (PZ.max b - PZ.min b)%num.

(** A window on the grid, inside the data but for one step, wide enough but for one. *)
Definition win (lo hi : number) : Prop :=
  ∃ a c, at_ lo a ∧ at_ hi c ∧ zmin ≤ a ∧ a ≤ c ≤ zmax + 1 ∧ fv min_range_of ≤ (c - a + 1) * G.

Lemma full_at : at_ (PZ.max b - PZ.min b)%num (zmax - zmin).
Proof using All. apply at_sub; [done|done|lia]. Qed.

Lemma min_range_fv : finite min_range_of ∧ 0 < fv min_range_of ≤ (zmax - zmin) * G.
Proof using All.
  pose proof full_at as [Ff Hf]. pose proof G_pos. destruct (nofZ_fv 10 ltac:(lia)) as [V F].
  unfold min_range_of, MIN_ZOOM_SEC. pose proof (pow_gt0 U ltac:(rewrite U_val; lia)).
  assert (nnan (nofZ 10 : number) = false ∧ nnan (PZ.max b - PZ.min b)%num = false) as [N1 N2] by auto with js.
  pose proof (nmin_lb_r _ _ N1 N2) as Hle.
  destruct (nmin_cases (nofZ 10) (PZ.max b - PZ.min b)%num) as [E|E]; rewrite E in *; (split; [done|]).
  - rewrite nleb_fv in Hle by done. bool_to_prop. lia.
  - rewrite Hf. nia.
Qed.

Lemma close_window r v :
  finite r → 0 < fv r ≤ (zmax - zmin) * G → nnan v = false →
  let l := clamp v (PZ.min b) (PZ.max b - r)%num in
  ∃ a c, at_ l a ∧ at_ (l + r)%num c ∧ zmin ≤ a ∧ a ≤ c ≤ zmax + 1 ∧ fv r ≤ (c - a + 1) * G.
Proof using All.
  intros Fr Hr Hv l. destruct Hmin as [Fm Vm], Hmax as [FM VM]. pose proof G_pos.
  destruct (fsub_fv _ _ FM Fr) as [Vs Ns]. rewrite VM in Vs.
  destruct (rnd_epoch (zmax * G - fv r)) as (y & Hy & Hyr); [nia|]. rewrite Hy in Vs.
  assert (at_ (PZ.max b - r)%num y) as Hs by (apply at_intro; [done|nia|done]).
  destruct (clamp_fv (PZ.min b) (PZ.max b - r)%num v Fm (proj1 Hs) Hv) as [Fl Hl].
  fold l in Fl, Hl. rewrite Vm, Vs in Hl. assert (zmin ≤ y ≤ zmax) by nia.
  destruct (epoch_point l Fl) as [a Ha]; [nia|]. pose proof Ha as [_ Va]. rewrite Va in Hl.
  destruct (fadd_fv _ _ Fl Fr) as [Vc Nc]. rewrite Va in Vc.
  assert (zmin ≤ a ∧ a ≤ y) as [Ha1 Ha2] by nia.
  destruct (rnd_epoch (a * G + fv r)) as (c & Hc & Hcr); [nia|]. rewrite Hc in Vc.
  exists a, c. split_and!; [done|apply at_intro; [done|nia|done]|done|nia|nia|nia].
Qed.

(** A width on the grid is kept. *)
Lemma close_exact r v k :
  at_ r k → 0 ≤ k ≤ zmax - zmin + 1 → nnan v = false →
  let l := clamp v (PZ.min b) (PZ.max b - r)%num in
  ∃ a, at_ l a ∧ at_ (l + r)%num (a + k) ∧ zmin ≤ a ∧ (a = zmin ∨ a ≤ zmax - k).
Proof using All.
  intros Hr Hk Hv l. pose proof (at_sub _ _ _ _ Hmax Hr ltac:(lia)) as Hs. pose proof G_pos.
  destruct (clamp_fv (PZ.min b) _ v (proj1 Hmin) (proj1 Hs) Hv) as [Fl Hl].
  fold l in Fl, Hl. destruct Hmin as [_ Vm], Hs as [_ Vs]. rewrite Vm, Vs in Hl.
  destruct (epoch_point l Fl) as [y Hy]; [nia|]. pose proof Hy as [_ Vy]. rewrite Vy in Hl.
  assert (zmin ≤ y ∧ (y = zmin ∨ y ≤ zmax - k)) as [? ?] by nia.
  exists y. split_and!; [done|apply at_add; [done|done|lia]|done|done].
Qed.

Lemma win_mag lo hi : win lo hi → mag 31 lo ∧ mag 31 (hi - lo)%num ∧ finite hi ∧ finite lo.
Proof using Hz Hz'.
  intros (a & c & Ha & Hc & ? & ? & _). split_and!; [eapply at_mag; [done|lia]| |apply Hc|apply Ha].
  eapply at_mag; [apply at_sub; [done|done|lia]|lia].
Qed.

Definition wheel_factor (dy : number) : number := (if (dy >? N[0]) then nlit 125 100 else nlit 8 10)%num.

(** The result of a wheel event, its new width and the unclamped left edge named. *)
Lemma wheel_parts lo hi cx dy bl w :
  win lo hi → mag 20 cx → mag 20 bl → finite w → nleb N[1]%num w = true →
  let r := clamp ((hi - lo) * wheel_factor dy)%num min_range_of (PZ.max b - PZ.min b)%num in
  finite r ∧ fv min_range_of ≤ fv r ≤ (zmax - zmin) * G
  ∧ ∃ v, nnan v = false ∧ let l := clamp v (PZ.min b) (PZ.max b - r)%num in
      wheel_scale b lo hi cx dy bl w = (l, l + r)%num.
Proof using All.
  intros Hwin Hcx Hbl Fw Hw r. destruct (win_mag _ _ Hwin) as (Mlo & Mcur & _ & _).
  destruct min_range_fv as [Fmr Hmr]. destruct full_at as [Ff Vf]. pose proof G_pos.
  set (cur := (hi - lo)%num) in *. set (ratio := ((cx - bl) / w)%num).
  assert (mag 21 ratio) as Mr by (apply mag_div; [by apply (mag_sub 20)|done|done]).
  assert (nnan (cur * wheel_factor dy)%num = false) as Ncf.
  { apply fmul_fv; [apply Mcur|]. unfold wheel_factor. case_if; feval. }
  destruct (clamp_fv min_range_of (PZ.max b - PZ.min b)%num _ Fmr Ff Ncf) as [Fr Hr].
  fold r in Fr, Hr. rewrite Vf in Hr. split; [done|]. split; [lia|].
  assert (mag 31 r) as Mr'.
  { split; [done|]. rewrite pow_U_G by lia. change (2 ^ (31 + 22)) with (2 ^ 53). nia. }
  exists (lo + ratio * cur - ratio * r)%num. split; [|done]. apply (mag_ok 54).
  apply (mag_sub 53); [lia|apply (mag_add 52); [lia|by apply (mag_mono 31); [lia|]|by apply (mag_mul 21 31)]|].
  apply (mag_mono 52); [lia|]. by apply (mag_mul 21 31).
Qed.

Lemma wheel_win lo hi cx dy bl w :
  win lo hi → mag 20 cx → mag 20 bl → finite w → nleb N[1]%num w = true →
  let '(lo', hi') := wheel_scale b lo hi cx dy bl w in win lo' hi'.
Proof using All.
  intros Hwin Hcx Hbl Fw Hw. destruct min_range_fv as [_ Hmr].
  destruct (wheel_parts lo hi cx dy bl w Hwin Hcx Hbl Fw Hw) as (Fr & Hr & v & Nv & ->).
  destruct (close_window _ v Fr ltac:(lia) Nv) as (a & c & ? & ? & ? & ? & ?).
  exists a, c. split_and!; try done; lia.
Qed.

Lemma grown_width x k y :
  at_ x k → 0 ≤ k ≤ 2 ^ 52 → y = (x * nlit 125 100)%num → 5 * k / 4 * G ≤ fv y.
Proof.
  intros [Fx Vx] Hk ->. destruct (fmul_fv x (nlit 125 100) Fx ltac:(feval)) as [(p & Hp & Ep) Np].
  assert (fv (nlit 125 100 : number) = 5 * 2 ^ (U - 2)) as V by (vm_compute; reflexivity).
  assert (2 ^ U = 4 * 2 ^ (U - 2)) as E4.
  { change 4 with (2 ^ 2). rewrite U_val, <-Z.pow_add_r by lia. f_equal. }
  pose proof (pow_gt0 (U - 2) ltac:(rewrite U_val; lia)) as Hu. pose proof G_pos.
  assert (p * 4 = 5 * k * G) as Hp4.
  { apply (Z.mul_cancel_r _ _ (2 ^ (U - 2))); [lia|].
    replace (p * 4 * 2 ^ (U - 2)) with (p * 2 ^ U) by (rewrite E4; ring). rewrite Hp, Vx, V. ring. }
  pose proof (Z.div_mod (5 * k) 4 ltac:(lia)) as Hq. pose proof (Z.mod_pos_bound (5 * k) 4 ltac:(lia)).
  set (q := 5 * k / 4) in *. rewrite Ep, <-(rnd_grid q) by lia. apply rnd_mono. nia.
Qed.

(** Zooming out: the whole data, or a window wider by a fifth. *)
Definition grows (lo hi lo' hi' : number) : Prop :=
  at_ lo' zmin ∧ at_ hi' zmax
  ∨ ∃ a c a' c', at_ lo a ∧ at_ hi c ∧ at_ lo' a' ∧ at_ hi' c' ∧ 41943039 ≤ c - a ∧ 6 * (c - a) ≤ 5 * (c' - a').

Lemma grid_wheel_out lo hi cx dy bl w :
  win lo hi → mag 20 cx → mag 20 bl → finite w → nleb N[1]%num w = true → nltb N[0]%num dy = true →
  let '(lo', hi') := wheel_scale b lo hi cx dy bl w in grows lo hi lo' hi'.
Proof using All.
  intros Hwin Hcx Hbl Fw Hw Hdy. destruct min_range_fv as [Fmr Hmr]. destruct full_at as [Ff Vf].
  destruct (wheel_parts lo hi cx dy bl w Hwin Hcx Hbl Fw Hw) as (Fr & Hr & v & Nv & ->).
  destruct Hwin as (a & c & Ha & Hc & Hza & Hac & Hwide). pose proof G_pos.
  destruct (at_sub _ _ _ _ Hc Ha ltac:(lia)) as [Fcur Vcur]. unfold wheel_factor in *. rewrite Hdy in *.
  set (x := ((hi - lo) * nlit 125 100)%num) in *. set (full := (PZ.max b - PZ.min b)%num) in *.
  set (r := clamp x min_range_of full) in *.
  assert (nnan x = false) as Nx by (apply fmul_fv; [done|feval]).
  pose proof (clamp_lower min_range_of full x Fmr Ff Nx) as Hrx. fold r in Hrx.
  pose proof (grown_width _ (c - a) x (conj Fcur Vcur) ltac:(lia) eq_refl) as Hx.
  destruct (decide (fv r = (zmax - zmin) * G)) as [Er|Hne].
  - left. destruct (close_exact r v (zmax - zmin) (conj Fr Er) ltac:(lia) Nv) as (y & Hy & Hy' & ? & ?).
    assert (y = zmin) as -> by lia. split; [done|]. by replace zmax with (zmin + (zmax - zmin)) by lia.
  - right. destruct (close_window r v Fr ltac:(lia) Nv) as (a' & c' & Ha' & Hc' & ? & ? & Hw').
    assert (fv x ≤ fv r) as Hxr by lia. pose proof (Z.div_mod (5 * (c - a)) 4 ltac:(lia)) as Hq.
    pose proof (Z.mod_pos_bound (5 * (c - a)) 4 ltac:(lia)). set (q := 5 * (c - a) / 4) in *.
    assert (q ≤ c' - a' + 1) by nia.
    assert (41943039 ≤ c - a); [|exists a, c, a', c'; split_and!; done || lia].
    destruct (nofZ_fv 10 ltac:(lia)) as [V10 _]. pose proof (pow_U_G 0 ltac:(lia)) as HU.
    rewrite Z.add_0_l in HU. rewrite HU in V10. change (2 ^ (0 + 22)) with 4194304 in V10.
    unfold min_range_of, MIN_ZOOM_SEC in Hwide, Hr. fold full in Hwide, Hr.
    destruct (nmin_cases (nofZ 10) full) as [E|E]; rewrite E in Hwide, Hr; [rewrite V10 in Hwide; nia|lia].
Qed.

(** After [n] steps out: the whole data, or at least ten seconds (41943039 steps
    of the grid) times [(6/5)^n]. *)
Definition widened (n : nat) (lo hi : number) : Prop :=
  n = 0%nat ∨ (at_ lo zmin ∧ at_ hi zmax)
  ∨ ∃ a c, at_ lo a ∧ at_ hi c ∧ 41943039 * 6 ^ Z.of_nat n ≤ 5 ^ Z.of_nat n * (c - a).

Lemma widened_step n lo hi lo' hi' :
  widened n lo hi → win lo' hi' → grows lo hi lo' hi' → widened (S n) lo' hi'.
Proof using All.
  intros Hn (a1 & c1 & Ha1 & Hc1 & ? & ? & _) [Hfull|(a & c & a' & c' & Ha & Hc & Ha' & Hc' & Hk & Hg)];
    [by right; left|].
  rewrite (at_inj _ _ _ Ha1 Ha'), (at_inj _ _ _ Hc1 Hc') in *. right.
  destruct Hn as [->|[[Hz1 Hz2]|(a2 & c2 & Ha2 & Hc2 & Hw)]].
  - right. exists a', c'. split_and!; [done..|]. change (Z.of_nat 1) with 1. rewrite !Z.pow_1_r. lia.
  - exfalso. rewrite (at_inj _ _ _ Ha Hz1), (at_inj _ _ _ Hc Hz2) in *. lia.
  - right. exists a', c'. split_and!; [done..|]. rewrite (at_inj _ _ _ Ha2 Ha), (at_inj _ _ _ Hc2 Hc) in *.
    rewrite Nat2Z.inj_succ, !Z.pow_succ_r by lia. pose proof (Z.pow_pos_nonneg 5 (Z.of_nat n) ltac:(lia) ltac:(lia)).
    nia.
Qed.

Lemma widened_full n lo hi : (102 ≤ n)%nat → widened n lo hi → win lo hi → at_ lo zmin ∧ at_ hi zmax.
Proof using All.
  intros Hn [->|[?|(a & c & Ha & Hc & Hw)]] Hwin; [lia|done|exfalso].
  destruct Hwin as (a1 & c1 & Ha1 & Hc1 & ? & ? & _).
  rewrite (at_inj _ _ _ Ha1 Ha), (at_inj _ _ _ Hc1 Hc) in *.
  assert (c - a ≤ 2 ^ 52) as Hca by lia. set (m := Z.of_nat n - 102).
  replace (Z.of_nat n) with (102 + m) in Hw by lia. rewrite !Z.pow_add_r in Hw by lia.
  assert (0 < 5 ^ m ≤ 6 ^ m) as Hm.
  { split; [apply Z.pow_pos_nonneg; lia|apply Z.pow_le_mono_l; lia]. }
  assert (5 ^ 102 * 2 ^ 52 < 41943039 * 6 ^ 102) as Hlt by (vm_compute; reflexivity).
  assert (0 < 6 ^ 102) as H6 by (vm_compute; reflexivity).
  assert (0 < 5 ^ 102) as H5 by (vm_compute; reflexivity).
  set (x := 6 ^ 102) in *. set (y := 5 ^ 102) in *. set (t := 5 ^ m) in *. set (q := 6 ^ m) in *.
  assert (y * t * (c - a) ≤ y * t * 2 ^ 52) by (apply Z.mul_le_mono_nonneg_l; nia).
  assert (41943039 * (x * t) ≤ 41943039 * (x * q)) by nia. nia.
Qed.

Lemma drag_win lo hi x0 cx w :
  win lo hi → mag 20 x0 → mag 20 cx → finite w → nleb N[1]%num w = true →
  let '(lo', hi') := drag_scale b lo hi (cx - x0)%num w in win lo' hi'.
Proof using All.
  intros Hwin Hx0 Hcx Fw Hw. destruct (win_mag _ _ Hwin) as (Mlo & Mcur & _ & _).
  destruct Hwin as (a & c & Ha & Hc & Hza & Hac & Hwide).
  pose proof (at_sub _ _ _ _ Hc Ha ltac:(lia)) as Hr. unfold drag_scale. set (r := (hi - lo)%num) in *.
  assert (mag 22 (nneg ((cx - x0) / w)%num)) as Mneg.
  { apply (mag_sub 21); [lia|split; [feval|]|apply mag_div; [by apply (mag_sub 20)|done|done]].
    destruct (nofZ_fv 0 ltac:(lia)) as [-> _]. apply Z.pow_nonneg. lia. }
  set (v := (lo + nneg ((cx - x0) / w) * r)%num).
  assert (mag 54 v) as Mv.
  { apply (mag_add 53); [lia|by apply (mag_mono 31); [lia|]|by apply (mag_mul 22 31)]. }
  destruct (close_exact r v _ Hr ltac:(lia) (mag_ok _ _ Mv)) as (y & Hy & Hy' & ?).
  exists y, (y + (c - a)). split_and!; [done|done|lia..|].
  replace (y + (c - a) - y + 1) with (c - a + 1) by lia. done.
Qed.

(** The live view: the whole data. *)
Lemma full_win : win (PZ.min b) (PZ.max b).
Proof using All.
  destruct min_range_fv as [_ ?]. exists zmin, zmax. split_and!; try done; try lia. pose proof G_pos. nia.
Qed.

Lemma grid_full_range xs lo hi : dataBounds xs = b → at_ lo zmin → at_ hi zmax → isFullRange xs lo hi = true.
Proof using All.
  intros Hb Hlo Hhi. unfold isFullRange. rewrite Hb. pose proof full_at as [Ff Vf]. pose proof G_pos.
  destruct (at_sub _ _ _ _ Hhi Hlo ltac:(lia)) as [Fc Vc].
  set (full := (PZ.max b - PZ.min b)%num) in *.
  destruct (fmul_fv full (nlit 1 1000) Ff ltac:(feval)) as [(p & Hp & Ep) Np].
  assert (finite (full * nlit 1 1000)%num) as Fp.
  { apply (mag_mul 31 0); [lia..| |split; [feval|feval]]. split; [done|]. rewrite Vf, pow_U_G by lia.
    change (2 ^ (31 + 22)) with (2 ^ 53). nia. }
  destruct (fsub_fv full _ Ff Fp) as [Vd Nd]. rewrite nleb_fv by auto with js. apply Z.leb_le.
  rewrite Vd, Vc, <-Vf. transitivity (rnd (fv full)); [|by rewrite rnd_fv]. apply rnd_mono.
  assert (0 ≤ fv (nlit 1 1000 : number)) as Hm by feval. pose proof (pow_gt0 U ltac:(rewrite U_val; lia)).
  assert (0 ≤ fv full) as Hff by (rewrite Vf; nia).
  assert (0 ≤ p * 2 ^ U) as Hpp by (rewrite Hp; by apply Z.mul_nonneg_nonneg).
  assert (0 ≤ p) by nia. rewrite Ep. pose proof (rnd_nonneg p). lia.
Qed.
End Window.

(** ** Sessions *)

(** An event of the browser: coordinates up to 2^20 pixels, a plot area at least
    one pixel wide. *)
Definition event_ok (e : PZEvent number) : Prop :=
  match e with
  | EvWheel clientX _ boxLeft width => mag 20 clientX ∧ mag 20 boxLeft ∧ finite width ∧ nleb N[1]%num width = true
  | EvDown _ clientX => mag 20 clientX
  | EvMove clientX width => mag 20 clientX ∧ finite width ∧ nleb N[1]%num width = true
  | EvUp => True
  end.

Definition zooms_out (e : PZEvent number) : Prop :=
  match e with EvWheel _ deltaY _ _ => nltb N[0]%num deltaY = true | _ => False end.

Section Live.
Context {V : Type} `{!UPlot number V} `{!UPlotLaws number V} (xs : list number) (zmin zmax : Z).
Context (Hmin : at_ (PZ.min (dataBounds xs)) zmin) (Hmax : at_ (PZ.max (dataBounds xs)) zmax).
Context (Hz : 2 ^ 52 ≤ zmin < zmax) (Hz' : zmax ≤ 2 ^ 53 - 4194304).
Implicit Types (u : V) (p : Plugin number).
Abbreviation W := (win (dataBounds xs) zmin zmax).

Lemma event_session e (up : V * Plugin number) :
  event_ok e → session_ok xs W (mag 20) up → session_ok xs W (mag 20) (panZoom_event e up).
Proof using All.
  apply panZoom_event_ok.
  - intros ? ? ? ? ? ? ? (?&?&?&?). apply wheel_win; done || lia.
  - intros ? ? ? ? ? ? ? (?&?&?). apply drag_win; done || lia.
  - done.
Qed.
Lemma events_session es (up : V * Plugin number) :
  Forall event_ok es → session_ok xs W (mag 20) up → session_ok xs W (mag 20) (run_events es up).
Proof using All.
  intros Hes. revert up. induction Hes as [|e es He Hes IH]; intros up Hs; [done|].
  apply IH. by apply event_session.
Qed.
Lemma live_session u p :
  PZ.userZoomed p = false → PZ.dragging p = false → spread xs →
  session_ok xs W (mag 20) (applyData xs (u, p)).
Proof using All.
  intros. apply applyData_live; [done..| |].
  - apply full_win; done || lia.
  - apply (grid_full_range (dataBounds xs) zmin zmax); done || lia.
Qed.

Lemma zoom_out_widens es : ∀ n (up : V * Plugin number),
  Forall event_ok es → Forall zooms_out es → session_ok xs W (mag 20) up →
  widened zmin zmax n (u_min up.1) (u_max up.1) →
  let up' := run_events es up in widened zmin zmax (n + length es) (u_min up'.1) (u_max up'.1).
Proof using All.
  induction es as [|e es IH]; intros n [u p] Hok Hout Hs Hn; [by rewrite Nat.add_0_r|].
  apply Forall_cons in Hok as [He Hok], Hout as [Ho Hout]. cbn [length]. rewrite <-Nat.add_succ_comm.
  pose proof (event_session e _ He Hs) as Hs'. apply (IH (S n) (panZoom_event e (u, p)) Hok Hout Hs').
  destruct e as [cx dy bl w|?|?|]; try done. destruct He as (?&?&?&?). destruct Hs as [Hd Hw _ _].
  pose proof (ss_window _ _ _ _ Hs') as Hw'. cbn [panZoom_event fst snd] in *. rewrite Hd in *.
  pose proof (grid_wheel_out _ zmin zmax Hmin Hmax ltac:(lia) ltac:(lia) _ _ cx dy bl w Hw) as Hg.
  destruct (wheel_scale _ _ _ _ _ _ _) as [lo' hi']. pose proof (setScale_scale u lo' hi') as [E1 E2].
  destruct (u_setScale u lo' hi') as [u2 f]. cbn [on_setScale fst snd] in *. rewrite E1, E2 in *.
  eapply widened_step; [..|by apply Hg]; try done; lia.
Qed.
End Live.

Lemma epoch_bounds xs :
  spread xs → epoch (PZ.min (dataBounds xs)) → epoch (PZ.max (dataBounds xs)) →
  ∃ zmin zmax, at_ (PZ.min (dataBounds xs)) zmin ∧ at_ (PZ.max (dataBounds xs)) zmax
    ∧ 2 ^ 52 ≤ zmin < zmax ∧ zmax ≤ 2 ^ 53 - 4194304.
Proof.
  intros Hsp Hb1 Hb2.
  destruct (epoch_at _ Hb1) as (zmin & Hmin & ?), (epoch_at _ Hb2) as (zmax & Hmax & ?).
  exists zmin, zmax. split_and!; [done..|lia| |lia].
  destruct xs as [|x rest]; [done|]. unfold spread in Hsp. rewrite (dataBounds_spread _ _ Hsp) in *.
  destruct (Z.lt_ge_cases zmin zmax) as [?|Hge]; [done|].
  apply (at_leb _ _ _ _ Hmax Hmin) in Hge. apply nltb_nleb in Hsp as [_ Hn].
  exfalso. exact (eq_true_false_abs _ Hge Hn).
Qed.

(** C15: the window of a chart in binary64.  Whatever the user does with wheel and
    mouse on a chart that was live when its data arrived (times between 2004 and
    2038): the visible window starts at or after the first point, ends at most one
    step of 2^-22 seconds after the last (zooming at the right edge can get
    there), and is narrower than 10 seconds, or than the data when shorter, by one
    such step at most; nothing accumulates over a session.  The chart counts as
    zoomed exactly when it does not show the full range; and further data then
    leaves the window where it is. *)
Theorem session_in_binary64 {V : Type} `{!UPlot number V} `{!UPlotLaws number V}
    (xs : list number) (u : V) (p : Plugin number) (es : list (PZEvent number)) :
  PZ.userZoomed p = false → PZ.dragging p = false → spread xs →
  epoch (PZ.min (dataBounds xs)) → epoch (PZ.max (dataBounds xs)) → Forall event_ok es →
  let s := run_events es (applyData xs (u, p)) in
  let b := dataBounds xs in
  let u' := s.1 in
  u_data u' = xs
  ∧ nleb (PZ.min b) (u_min u') = true ∧ nleb (u_min u') (u_max u') = true
  ∧ nleb (u_max u') (PZ.max b + STEP)%num = true
  ∧ nleb (nmin MIN_ZOOM_SEC (PZ.max b - PZ.min b))%num (u_max u' - u_min u' + STEP)%num = true
  ∧ PZ.userZoomed s.2 = negb (isFullRange xs (u_min u') (u_max u'))
  ∧ ∀ xs', PZ.userZoomed s.2 = true →
      let u'' := (applyData xs' s).1 in
      u_data u'' = xs' ∧ u_min u'' = u_min u' ∧ u_max u'' = u_max u'.
Proof.
  intros Hz Hg Hsp Hb1 Hb2 Hes. destruct (epoch_bounds xs Hsp Hb1 Hb2) as (zmin & zmax & Hmin & Hmax & ? & ?).
  assert (session_ok xs (win (dataBounds xs) zmin zmax) (mag 20) (run_events es (applyData xs (u, p)))) as Hs
    by (apply events_session; [done..|by apply live_session]).
  destruct (run_events es _) as [u' p']. destruct Hs as [Hd Hw _ Hl]. cbn [fst snd] in *.
  destruct Hw as (a & c & Ha & Hc & Hza & Hac & Hwide). set (b := dataBounds xs) in *.
  assert (at_ STEP 1) as Hstep by (split; vm_compute; reflexivity).
  pose proof (at_sub _ _ _ _ Hc Ha ltac:(lia)) as Hwd.
  pose proof (at_add _ _ _ _ Hwd Hstep ltac:(lia)) as [Fw Vw].
  destruct (min_range_fv b zmin zmax Hmin Hmax ltac:(lia) ltac:(lia)) as [Fr _].
  split_and!; [done| | | | | |].
  - apply (at_leb _ _ _ _ Hmin Ha). lia.
  - apply (at_leb _ _ _ _ Ha Hc). lia.
  - apply (at_leb _ _ _ _ Hc (at_add _ _ _ _ Hmax Hstep ltac:(lia))). lia.
  - fold (min_range_of b). rewrite nleb_fv by auto with js. apply Z.leb_le. by rewrite Vw.
  - rewrite Hl. unfold u_full. by rewrite Hd.
  - intros xs' Hz'. by apply applyData_zoomed.
Qed.

(** C28: zooming out always comes back to the live view, in binary64.  From any
    window a session has reached, 102 steps of the wheel out, at any positions of
    the mouse, show exactly the first to the last point again, and the chart
    follows new data: a window of ten seconds grows by a fifth at least with every
    step, and 10 s times 1.2^102 is more than the years from 2004 to 2038. *)
Theorem zoom_out_in_binary64 {V : Type} `{!UPlot number V} `{!UPlotLaws number V}
    (xs : list number) (u : V) (p : Plugin number) (es0 es : list (PZEvent number)) :
  PZ.userZoomed p = false → PZ.dragging p = false → spread xs →
  epoch (PZ.min (dataBounds xs)) → epoch (PZ.max (dataBounds xs)) →
  Forall event_ok es0 → Forall event_ok es → Forall zooms_out es → (102 ≤ length es)%nat →
  let s := run_events es (run_events es0 (applyData xs (u, p))) in
  neqb (u_min s.1) (PZ.min (dataBounds xs)) = true ∧ neqb (u_max s.1) (PZ.max (dataBounds xs)) = true
  ∧ PZ.userZoomed s.2 = false.
Proof.
  intros Hz Hg Hsp Hb1 Hb2 He0 He Ho Hlen s.
  destruct (epoch_bounds xs Hsp Hb1 Hb2) as (zmin & zmax & Hmin & Hmax & ? & ?).
  assert (session_ok xs (win (dataBounds xs) zmin zmax) (mag 20) (run_events es0 (applyData xs (u, p)))) as Hs0
    by (apply events_session; [done..|by apply live_session]).
  pose proof (events_session xs zmin zmax Hmin Hmax ltac:(lia) ltac:(lia) es _ He Hs0) as Hs. fold s in Hs.
  pose proof (zoom_out_widens xs zmin zmax Hmin Hmax ltac:(lia) ltac:(lia) es 0 _ He Ho Hs0 (or_introl eq_refl)) as Hw.
  fold s in Hw. destruct (widened_full _ zmin zmax Hmin Hmax ltac:(lia) ltac:(lia) _ _ _ Hlen Hw (ss_window _ _ _ _ Hs))
    as [Hlo Hhi].
  split_and!; [by eapply at_eqb|by eapply at_eqb|]. rewrite (ss_live _ _ _ _ Hs). apply negb_false_iff.
  unfold u_full. rewrite (ss_data _ _ _ _ Hs).
  apply (grid_full_range (dataBounds xs) zmin zmax); done || lia.
Qed.

(** A session that ends one step past the data. *)
Definition ex_t0 : number := nlit 1700000000890 1000.
Definition ex_t1 : number := nlit 1700195837063 1000.
Definition ex_wheel (deltaY : number) : PZEvent number := EvWheel N[100]%num deltaY N[0]%num N[100]%num.
Lemma ex_wheel_ok deltaY : event_ok (ex_wheel deltaY).
Proof.
  split; [|split; [|split]]; try (vm_compute; reflexivity); (split; vm_compute; [reflexivity|discriminate]).
Qed.
Definition ex_zooms : list (PZEvent number) :=
  map ex_wheel [N[1]; N[1]; nneg N[1]; N[1]]%num.
Definition ex_end : Plain.Plot number * Plugin number :=
  run_events ex_zooms (applyData [ex_t0; ex_t1] (Plain.mkPlot [] N[0]%num N[1]%num, panZoom_ready false)).
Lemma session_in_binary64_witness :
  nltb ex_t1 (u_max ex_end.1) = true
  ∧ nleb (u_max ex_end.1) (ex_t1 + STEP)%num = true
  ∧ nleb ex_t0 (u_min ex_end.1) = true
  ∧ PZ.userZoomed ex_end.2 = negb (isFullRange [ex_t0; ex_t1] (u_min ex_end.1) (u_max ex_end.1)).
Proof.
  split; [vm_compute; reflexivity|].
  destruct (session_in_binary64 [ex_t0; ex_t1] (Plain.mkPlot [] N[0]%num N[1]%num) (panZoom_ready false)
    ex_zooms eq_refl eq_refl) as (_ & Hlo & _ & Hhi & _ & Hz & _).
  - vm_compute. reflexivity.
  - split_and!; vm_compute; reflexivity.
  - split_and!; vm_compute; reflexivity.
  - repeat apply Forall_cons_2; [apply ex_wheel_ok..|constructor].
  - split; [exact Hhi|]. split; [exact Hlo|exact Hz].
Defined.

Definition ex_zoom_out : list (PZEvent number) := replicate 102 (ex_wheel N[1])%num.
Definition ex_zoom_in : list (PZEvent number) := replicate 90 (ex_wheel (nneg N[1]))%num.
Lemma zoom_out_in_binary64_witness :
  let s0 := run_events ex_zoom_in (applyData [ex_t0; ex_t1] (Plain.mkPlot [] N[0]%num N[1]%num, panZoom_ready false)) in
  let s := run_events ex_zoom_out s0 in
  PZ.userZoomed s0.2 = true
  ∧ neqb (u_min s.1) ex_t0 = true ∧ neqb (u_max s.1) ex_t1 = true ∧ PZ.userZoomed s.2 = false.
Proof.
  intros s0 s. split; [vm_compute; reflexivity|].
  destruct (zoom_out_in_binary64 [ex_t0; ex_t1] (Plain.mkPlot [] N[0]%num N[1]%num) (panZoom_ready false)
    ex_zoom_in ex_zoom_out eq_refl eq_refl) as (Hlo & Hhi & Hz).
  - vm_compute. reflexivity.
  - split_and!; vm_compute; reflexivity.
  - split_and!; vm_compute; reflexivity.
  - apply Forall_replicate, ex_wheel_ok.
  - apply Forall_replicate, ex_wheel_ok.
  - apply Forall_replicate. vm_compute. reflexivity.
  - apply Nat.leb_le. vm_compute. reflexivity.
  - split; [exact Hlo|]. split; [exact Hhi|exact Hz].
Defined.
