(* ===== verification/Charts.v ===== *)
(** * The charts: [components/LatencyChart.tsx], [components/ResourceChart.tsx]

    Series data, spike bands, axis labels, tooltips, the modal, and the life
    cycle of the plot a canvas owns across React commits.  The localized clock
    text is a parameter, as is uPlot (the interface of [Chart]). *)

From S2P Require Export FloatInterval Chart View.
From stdpp Require Import base list.

Local Open Scope num_scope.

(** ** Series *)
Definition secs (ms : number) : number := ms / N[1000].

Module LSeries.
Record Series (P : Type) := mkSeries {
  label : string; stroke : string; width : number; dash : option (list number); get : P → number
}.
Arguments mkSeries {P}. Arguments label {P}. Arguments stroke {P}. Arguments width {P}.
Arguments dash {P}. Arguments get {P}.
End LSeries.
Abbreviation Series := LSeries.Series.

(** The columns of [LatencyChart] with their style; a resource series is solid. *)
Definition LATENCY_SERIES : list (Series HistoryPoint) := [
  LSeries.mkSeries "AVG" "#2563eb" (nlit 12 10) (Some [N[4]; N[3]]) HPoint.avg_us;
  LSeries.mkSeries "P50" "#16a34a" (nlit 18 10) None HPoint.p50_us;
  LSeries.mkSeries "P95" "#d97706" (nlit 18 10) None HPoint.p95_us;
  LSeries.mkSeries "P99" "#ea580c" (nlit 24 10) None HPoint.p99_us
].
Definition RESOURCE_SERIES : list (Series ResourcePoint) := [
  LSeries.mkSeries "CPU" "#dc2626" N[2] None RPoint.cpu_pct;
  LSeries.mkSeries "IO wait" "#7c3aed" N[2] None RPoint.io_wait_pct;
  LSeries.mkSeries "Mem pressure" "#ea580c" N[2] None RPoint.mem_pressure_pct
].
Definition DANGER_PCT : number := N[70].

(** [toUPlotData]: the x row, then a row per series. *)
Definition latency_data (pts : list HistoryPoint) : list (list number) :=
  map (λ p, secs (HPoint.time p)) pts
    :: [map HPoint.avg_us pts; map HPoint.p50_us pts; map HPoint.p95_us pts; map HPoint.p99_us pts].
Definition resource_data (pts : list ResourcePoint) : list (list number) :=
  map (λ p, secs (RPoint.time p)) pts :: map (λ s, map (LSeries.get s) pts) RESOURCE_SERIES.

(** ** Spike bands *)
Module Band.
Record Band := mkBand { from : number; to : number }.
End Band.
Abbreviation Band := Band.Band.

(** The loop; [prev] is the time of the previous point, [start] the open band.
    A point carries the truthiness of its [is_spike]. *)
Fixpoint bands_loop (prev : number) (start : option number) (pts : list (HistoryPoint * bool))
    : list Band :=
  match pts with
  | [] => []
  | (p, flagged) :: rest =>
      let t := secs (HPoint.time p) in
      if flagged then
        let start := start ?? t in
        (match rest with [] => [Band.mkBand start t] | _ => [] end)
          ++ bands_loop t (Some start) rest
      else
        match start with
        | Some s => Band.mkBand s prev :: bands_loop t None rest
        | None => bands_loop t None rest
        end
  end.

(** The points of the last 18 percent. *)
Definition cut_index (n : Z) : Z := Z.max 0 (n - (nceilZ (T:=number) (N[n] * nlit 18 100) ?? 0%Z)).

Definition calcSpikeBands (pts : list (HistoryPoint * bool)) (isSpike : bool) : list Band :=
  let bands := bands_loop N[0] None pts in
  let n := Z.of_nat (length pts) in
  if isSpike && bool_decide (bands = []) && (1 <? n)%Z then
    match js_at pts (cut_index n), js_at pts (n - 1) with
    | Some a, Some b => [Band.mkBand (secs (HPoint.time a.1)) (secs (HPoint.time b.1))]
    | _, _ => []
    end
  else bands.

(** History points of the store carry no [is_spike]. *)
Definition latency_bands (history : list HistoryPoint) (isSpike : bool) : list Band :=
  calcSpikeBands (map (λ p, (p, false)) history) isSpike.

(** ** Options: axes and guide lines *)
Definition latency_y_range (min max : number) : number * number :=
  (nmax N[0] (min * nlit 85 100), max * nlit 115 100).
Definition latency_y_labels (vals : list (option number)) : list string :=
  map (λ v, match v with Some v => fmtUs v | None => "" end) vals.
Definition resource_y_range : number * number := (N[0], N[100]).
Definition resource_y_splits : list number := [N[0]; N[50]; N[100]].
Definition resource_y_labels (vals : list (option number)) : list string :=
  map (λ v, match v with Some v => number_toString v +:+ "%" | None => "" end) vals.

(** The rectangles the [drawAxes] hook fills; [valToPos] is uPlot's. *)
Definition spike_rects (valToPos : number → number) (top ph : number) (bands : list Band)
    : list (number * number * number * number) :=
  map (λ b, let x0 := nround (valToPos (Band.from b)) in
            let x1 := nround (valToPos (Band.to b)) in
            (x0, top, nmax N[2] (x1 - x0), ph)) bands.
(** The dashed guide line at [DANGER_PCT], from [(left, y)] to [(left + pw, y)]. *)
Definition danger_line (valToPos : number → number) (left_ pw : number)
    : (number * number) * (number * number) :=
  let y := nround (valToPos DANGER_PCT) in ((left_, y), (left_ + pw, y)).

(** ** What the code hands to uPlot *)
Module Opt.
(** [axisBase] *)
Record AxisStyle := mkStyle {
  stroke : string; ticks : string * Z; grid : string * Z; font : string;   (* stroke and width *)
}.
(** [values] gets the ends of the x scale and the splits. *)
Record Axis := mkAxis {
  style : AxisStyle;
  size : Z;
  splits : option (list number);
  values : option number → option number → list (option number) → list string;
}.
(** The plot area, in canvas pixels. *)
Record BBox := mkBBox { left : number; top : number; width : number; height : number }.
(** What a [drawAxes] hook draws: filled rectangles, a dashed line. *)
Inductive Mark :=
  | Fill (rect : number * number * number * number)
  | Dashed (line : (number * number) * (number * number)).
Record Options := mkOptions {
  opt_width : Z; opt_height : Z;
  padding : list Z;
  cursor_drag : bool * bool;           (* uPlot's own drag, both ways *)
  focus_prox : Z;
  select_show : bool; legend_show : bool;
  x_time : bool;
  y_range : number → number → number * number;
  axes : list Axis;
  series : list (string * string * number * option (list number));   (* label, stroke, width, dash *)
  drawAxes : (number → number) → (number → number) → BBox → list Mark;  (* valToPos of x and of y *)
}.
End Opt.
Abbreviation Axis := Opt.Axis.
Abbreviation BBox := Opt.BBox.
Abbreviation Mark := Opt.Mark.
Abbreviation Options := Opt.Options.
Abbreviation Fill := Opt.Fill.
Abbreviation Dashed := Opt.Dashed.

Definition AXIS_STROKE : string := "#94a3b8".
Definition axisBase : Opt.AxisStyle :=
  Opt.mkStyle AXIS_STROKE ("#e2e8f0", 1%Z) ("#f1f5f9", 1%Z) "9px JetBrains Mono, monospace".

(** ** Time axis *)
(** Month and day of a day number (days since 1970-01-01), Gregorian. *)
Definition month_day (days : Z) : Z * Z :=
  let z := (days + 719468)%Z in
  let doe := (z mod 146097)%Z in
  let yoe := ((doe - doe / 1460 + doe / 36524 - doe / 146096) / 365)%Z in
  let doy := (doe - (365 * yoe + yoe / 4 - yoe / 100))%Z in
  let mp := ((5 * doy + 2) / 153)%Z in
  ((if mp <? 10 then mp + 3 else mp - 9)%Z, (doy - (153 * mp + 2) / 5 + 1)%Z).

Module Tip.
Record Tooltip := mkTip { pos : option (number * number); idx : option Z }.
End Tip.
Abbreviation Tooltip := Tip.Tooltip.

Section TimeAxis.
Variable local_offset : Z → Z.
Variable locale_hhmm : number → string.      (* toLocaleTimeString, hour and minute *)
Variable locale_hhmmss : number → string.    (* ... hour, minute and second *)

Definition month_slash_day (ms : number) : string :=
  match time_clip ms with
  | None => "NaN/NaN"
  | Some t =>
      let '(mo, d) := month_day (local_time local_offset t / 86400000) in
      pretty mo +:+ "/" +:+ pretty d
  end.

Definition newline : string := String (Ascii.ascii_of_nat 10) EmptyString.

Definition timeAxisValues (xMin xMax : option number) (splits : list (option number)) : list string :=
  let spanSec := (xMax ?? N[0]) - (xMin ?? N[0]) in
  let wideRange := spanSec >=? N[2] * N[86400] in
  map (λ s, match s with
            | None => ""
            | Some s =>
                let ms := s * N[1000] in
                let hhmm := locale_hhmm ms in
                let md := month_slash_day ms in
                if wideRange
                then md +:+ newline +:+ (if bool_decide (hhmm = "00:00") then "" else hhmm)
                else hhmm +:+ newline +:+ md
            end) splits.

(** ** The options of the plots *)
Definition latency_axes : list Axis :=
  [Opt.mkAxis axisBase 28 None timeAxisValues;
   Opt.mkAxis axisBase 52 None (λ _ _ vals, latency_y_labels vals)].
Definition resource_axes : list Axis :=
  [Opt.mkAxis axisBase 28 None timeAxisValues;
   Opt.mkAxis axisBase 52 (Some resource_y_splits) (λ _ _ vals, resource_y_labels vals)].

(** [makeOpts]; the first series is the time. *)
Definition make_opts (y_range : number → number → number * number) (axes : list Axis)
    (series : list (string * string * number * option (list number)))
    (drawAxes : (number → number) → (number → number) → BBox → list Mark) (width height : Z) : Options :=
  Opt.mkOptions width height [10; 14; 0; 56]%Z (false, false) 30 false false true y_range axes series drawAxes.
Definition series_style {P} (s : Series P) : string * string * number * option (list number) :=
  (LSeries.label s, LSeries.stroke s, LSeries.width s, LSeries.dash s).

Definition latency_opts (width height : Z) (spikeBands : list Band) : Options :=
  make_opts latency_y_range latency_axes (map series_style LATENCY_SERIES)
    (λ xToPos _ box, map Fill (spike_rects xToPos (Opt.top box) (Opt.height box) spikeBands)) width height.
Definition resource_opts (width height : Z) (_ : list Band) : Options :=
  make_opts (λ _ _, resource_y_range) resource_axes (map series_style RESOURCE_SERIES)
    (λ _ yToPos box, [Dashed (danger_line yToPos (Opt.left box) (Opt.width box))]) width height.

(** ** Tooltip *)
Definition tip_none : Tooltip := Tip.mkTip None None.

(** The mouse moved: [ci] is uPlot's cursor index, [len] the number of points. *)
Definition tip_move (ci : option Z) (len : nat) (rect_left rect_top bbox_top dpr : number)
    (cursor_left : option number) : Tooltip :=
  match ci with
  | None => tip_none
  | Some ci =>
      if (ci <? 0)%Z || (Z.of_nat len <=? ci)%Z then tip_none
      else Tip.mkTip (Some (rect_left + (cursor_left ?? N[0]), rect_top + bbox_top / dpr)) (Some ci)
  end.
Definition tip_leave : Tooltip := tip_none.

(** The point the tooltip shows: it vanishes when the index is gone. *)
Definition tip_point {P} (t : Tooltip) (pts : list P) : option P :=
  match Tip.pos t, Tip.idx t with
  | Some _, Some i => js_at pts i
  | _, _ => None
  end.

Definition tooltip_view {P E} (time : P → number) (series : list (Series P)) (fmt : number → string)
    (t : Tooltip) (pts : list P) : list (html E) :=
  when_some (tip_point t pts) (λ p,
    div_ (div_ [text (locale_hhmmss (time p))]
          :: map (λ s, div_ [span [("color", LSeries.stroke s)] (LSeries.label s);
                             span [] (fmt (LSeries.get s p))]) series)).
Definition latency_tooltip {E} (t : Tooltip) (pts : list HistoryPoint) : list (html E) :=
  tooltip_view HPoint.time LATENCY_SERIES fmtUs t pts.
Definition resource_tooltip {E} (t : Tooltip) (pts : list ResourcePoint) : list (html E) :=
  tooltip_view RPoint.time RESOURCE_SERIES (λ v, toFixed v 1 +:+ "%") t pts.
End TimeAxis.

(** What a canvas renders besides the plot: the tooltip over it. *)
Definition canvas_view {E} (tooltip : list (html E)) : html E :=
  div_ [div_ []; el "fragment" [] no_click tooltip].

(** ** The chart with its modal *)
Inductive ModalEvent := OpenModal | CloseModal.
Definition modal_step (e : ModalEvent) (modalOpen : bool) : bool :=
  match e with OpenModal => true | CloseModal => false end.

Definition chart_view {P} (title : string) (series : list (Series P)) (canvas : html ModalEvent)
    (modalOpen : bool) : html ModalEvent :=
  el "fragment" [] no_click
    (div_ [canvas; el "button" [("title", "크게 보기")] (on_click OpenModal) [text "⤢"]]
     :: when modalOpen
          (el "div" [] (on_click CloseModal)
            [el "div" [] stop_click
              [span [] title;
               div_ (map (λ s, el "span" [("key", LSeries.label s)] no_click
                                 [span [("background", LSeries.stroke s)] ""; text (LSeries.label s)])
                       series);
               el "button" [] (on_click CloseModal) [text "✕"];
               div_ [canvas]]])).
Definition LatencyChart := chart_view "Latency" LATENCY_SERIES.
Definition ResourceChart := chart_view "Resource" RESOURCE_SERIES.

(** ** The canvas: the plot across commits

    [LatencyCanvas] and [ResourceCanvas] own one plot.  An effect keyed on
    [isSpike] destroys and rebuilds it, an effect keyed on [history] feeds it
    data ([ResourceCanvas] has only the mount effect: its [isSpike] is
    constant).  What differs, the rows of the data, the spike bands and the
    options, is an argument.  Plots are numbered as they are created; each [ready] hook adds a
    [mousemove] and a [mouseup] listener to the window. *)
Module Cv.
Record Canvas (P U : Type) := mkCanvas {
  props : option (list P * bool);   (* history, isSpike; none when unmounted *)
  plotRef : option (nat * (U * Plugin number));
  uInst : option nat;
  alive : list nat;                            (* plots not destroyed *)
  created : nat;
  listeners : nat;                             (* on the window *)
  bands : list Band;                           (* the bands the plot draws *)
  size : Z * Z;
}.
Arguments mkCanvas {P U}. Arguments props {P U}. Arguments plotRef {P U}. Arguments uInst {P U}.
Arguments alive {P U}. Arguments created {P U}. Arguments listeners {P U}. Arguments bands {P U}.
Arguments size {P U}.
End Cv.
Abbreviation Canvas := Cv.Canvas.

(** [historyChanged]: React compares the [history] prop by reference; when the
    reference is the same the list is the same. *)
Inductive CanvasEvent (P : Type) :=
  | CMount (history : list P) (isSpike : bool) (w h : Z)
  | CUpdate (newHistory : option (list P)) (isSpike : bool) (w h : Z)
  | CUnmount
  | CPlot (e : PZEvent number)
  | CResize (w h : Z).
Arguments CMount {P}. Arguments CUpdate {P}. Arguments CUnmount {P}. Arguments CPlot {P}.
Arguments CResize {P}.

Section CanvasLife.
Context {P U : Type} `{!UPlot number U}.
Variable to_data : list P → list (list number).          (* toUPlotData *)
Variable get_bands : list P → bool → list Band.          (* calcSpikeBands *)
Variable makeOpts : Z → Z → list Band → Options.
Variable u_new : Options → list (list number) → U.       (* new uPlot(opts, data, el) *)

Definition canvas_init : Canvas P U := Cv.mkCanvas None None None [] 0 0 [] (0, 0)%Z.

Definition destroy (id : nat) (alive : list nat) : list nat := filter (λ i, i ≠ id) alive.
Definition destroy_ref (c : Canvas P U) : list nat :=
  match Cv.plotRef c with Some (id, _) => destroy id (Cv.alive c) | None => Cv.alive c end.

(** [u.data[0]] *)
Definition x_row (history : list P) : list number := hd [] (to_data history).

(** [wrap.clientWidth || 400] *)
Definition size_or (w h : Z) : Z * Z :=
  ((if (w =? 0)%Z then 400 else w), (if (h =? 0)%Z then 140 else h))%Z.

Definition rebuild (w h : Z) (history : list P) (isSpike : bool) (c : Canvas P U) : Canvas P U :=
  let id := Cv.created c in
  let bands := get_bands history isSpike in
  let '(w, h) := size_or w h in
  Cv.mkCanvas (Cv.props c)
    (Some (id, (u_new (makeOpts w h bands) (to_data history), panZoom_ready false))) (Some id)
    (destroy_ref c ++ [id]) (S id) (Cv.listeners c + 2) bands (w, h).

(** The cleanup of the [isSpike] effect. *)
Definition cleanup (c : Canvas P U) : Canvas P U :=
  Cv.mkCanvas (Cv.props c) None None (destroy_ref c) (Cv.created c) (Cv.listeners c)
    (Cv.bands c) (Cv.size c).

(** The [history] effect. *)
Definition feed (history : list P) (c : Canvas P U) : Canvas P U :=
  Cv.mkCanvas (Cv.props c)
    (prod_map id (applyData (x_row history)) <$> Cv.plotRef c)
    (Cv.uInst c) (Cv.alive c) (Cv.created c) (Cv.listeners c) (Cv.bands c) (Cv.size c).

Definition set_props (p : option (list P * bool)) (c : Canvas P U) : Canvas P U :=
  Cv.mkCanvas p (Cv.plotRef c) (Cv.uInst c) (Cv.alive c) (Cv.created c) (Cv.listeners c)
    (Cv.bands c) (Cv.size c).

(** A commit: changed effects are cleaned up, then run in order.  [None]: the
    event cannot happen in this state. *)
Definition canvas_step (e : CanvasEvent P) (c : Canvas P U) : option (Canvas P U) :=
  match e, Cv.props c with
  | CMount history isSpike w h, None =>
      Some (feed history (rebuild w h history isSpike (set_props (Some (history, isSpike)) c)))
  | CUpdate newHistory isSpike w h, Some (history, wasSpike) =>
      let changed := negb (Bool.eqb isSpike wasSpike) in
      let history' := newHistory ?? history in
      let c := set_props (Some (history', isSpike)) c in
      let c := if changed then rebuild w h history' isSpike (cleanup c) else c in
      Some (match newHistory with Some history => feed history c | None => c end)
  | CUnmount, Some _ => Some (set_props None (cleanup c))
  | CPlot e, Some _ =>
      Some (Cv.mkCanvas (Cv.props c) (prod_map id (panZoom_event e) <$> Cv.plotRef c) (Cv.uInst c)
              (Cv.alive c) (Cv.created c) (Cv.listeners c) (Cv.bands c) (Cv.size c))
  | CResize w h, Some _ =>
      Some (match Cv.plotRef c with
            | Some _ =>
                if (0 <? w)%Z && (0 <? h)%Z
                then Cv.mkCanvas (Cv.props c) (Cv.plotRef c) (Cv.uInst c) (Cv.alive c) (Cv.created c)
                       (Cv.listeners c) (Cv.bands c) (w, h)
                else c
            | None => c
            end)
  | _, _ => None
  end.
End CanvasLife.

Fixpoint canvas_run {P U} (step : CanvasEvent P → Canvas P U → option (Canvas P U))
    (es : list (CanvasEvent P)) (c : Canvas P U) : option (Canvas P U) :=
  match es with [] => Some c | e :: es => step e c ≫= canvas_run step es end.

(** The two canvases; [ResourceCanvas] takes no [isSpike]. *)
Section Canvases.
Context {U : Type} `{!UPlot number U}.
Variable local_offset : Z → Z.
Variable locale_hhmm : number → string.
Variable u_new : Options → list (list number) → U.

Definition LatencyCanvas : CanvasEvent HistoryPoint → Canvas HistoryPoint U → option (Canvas HistoryPoint U) :=
  canvas_step latency_data latency_bands (latency_opts local_offset locale_hhmm) u_new.

Definition ResourceCanvas (e : CanvasEvent ResourcePoint) : Canvas ResourcePoint U → option (Canvas ResourcePoint U) :=
  let e :=
    match e with
    | CMount history _ w h => CMount history false w h
    | CUpdate history _ w h => CUpdate history false w h
    | e => e
    end in
  canvas_step resource_data (λ _ _, []) (resource_opts local_offset locale_hhmm) u_new e.
End Canvases.
(** ** Facts *)
Lemma bands_loop_unflagged prev (pts : list HistoryPoint) :
  bands_loop prev None (map (λ p, (p, false)) pts) = [].
Proof. revert prev. induction pts as [|p pts IH]; intros prev; [done|]. apply IH. Qed.

(** The last 18 percent of [n] points are between one and [n] points. *)
Lemma sf_val_opp y q : sf_val y = Some q → ∃ q', sf_val (SFopp y) = Some q' ∧ (q' == - q)%Q.
Proof.
  destruct y as [s|s| |s m e]; simpl; intros [= <-].
  - exists 0%Q. split; [done|]. ring.
  - eexists. split; [done|]. destruct s, e; simpl; unfold Qeq, Qopp; simpl; lia.
Qed.

Lemma nceilZ_fv (x : number) : finite x → nceilZ x = Some (- ((- fv x) / 2 ^ U))%Z.
Proof.
  intros Hx. pose proof (nfloorZ_fv _ (fopp_finite x Hx)) as Hf. rewrite fopp_fv in Hf.
  unfold nfloorZ in Hf. unfold nceilZ. simpl in *. unfold float_val in *.
  rewrite FloatAxioms.opp_spec in Hf. destruct (sf_val (Prim2SF x)) as [q|] eqn:E.
  - destruct (sf_val_opp _ _ E) as (q' & E' & Hq). rewrite E' in Hf. simpl in *.
    injection Hf as <-. unfold Qceiling. by rewrite (Qfloor_comp _ _ Hq).
  - unfold finite in Hx. by destruct (Prim2SF x).
Qed.

Lemma cut_index_range (n : Z) : (1 <= n < 2 ^ 53)%Z → (0 <= cut_index n < n)%Z.
Proof.
  intros Hn. destruct (nofZ_fv n ltac:(lia)) as [Vn Fn].
  assert (finite (nlit 18 100 : number)) as F18 by feval.
  destruct (fmul_fv N[n] (nlit 18 100) Fn F18) as [(p & Hp & Vp) Np].
  pose proof (pow_gt0 U ltac:(rewrite U_val; lia)) as HU.
  assert (0 < fv (nlit 18 100) ∧ fv (nlit 18 100) < 2 ^ U)%Z as [H18 H18'].
  { split; [reflexivity|]. vm_compute. reflexivity. }
  rewrite Vn in Hp.
  assert (p = n * fv (nlit 18 100))%Z as ->.
  { apply (Z.mul_cancel_r _ _ (2 ^ U)%Z); [lia|]. rewrite Hp. ring. }
  set (q := fv (nlit 18 100)) in *.
  assert (rnd (n * q) <= n * 2 ^ U)%Z as Hub.
  { rewrite <-Vn, <-(rnd_fv N[n] Fn), Vn. apply rnd_mono. nia. }
  assert (0 < rnd (n * q))%Z as Hlb.
  { destruct (fv_multiple (nlit 18 100) F18) as [z Hz]. apply rnd_pos; [nia|].
    exists (n * z)%Z. fold q in Hz. rewrite Hz. ring. }
  assert (finite (N[n] * nlit 18 100)%num) as Fm.
  { refine (proj2 (finite_iff _ Np) _). rewrite Vp. pose proof (finite_abs _ Fn) as Ha. rewrite Vn in Ha. lia. }
  pose proof (nceilZ_fv (N[n] * nlit 18 100)%num Fm) as Hc. rewrite Vp in Hc.
  unfold cut_index. rewrite Hc. simpl.
  assert (- n <= - rnd (n * q) / 2 ^ U)%Z by (apply Z.div_le_lower_bound; lia).
  assert (- rnd (n * q) / 2 ^ U < 0)%Z by (apply Z.div_lt_upper_bound; lia). lia.
Qed.

#[local] Arguments applyData : simpl never.
#[local] Arguments panZoom_event : simpl never.

(** ... the plot of a mounted canvas is the only one alive and shows its history *)
Section CanvasFacts.
Context {P U : Type} `{!UPlot number U} `{!UPlotLaws number U}.
Context (to_data : list P → list (list number)) (get_bands : list P → bool → list Band).
Context (makeOpts : Z → Z → list Band → Options) (u_new : Options → list (list number) → U).
Context (u_new_data : ∀ o d, u_data (u_new o d) = hd [] d).
#[local] Abbreviation x_row := (x_row to_data).
#[local] Abbreviation rebuild := (rebuild to_data get_bands makeOpts u_new).
#[local] Abbreviation feed := (feed to_data).
#[local] Abbreviation canvas_step := (canvas_step to_data get_bands makeOpts u_new).

Record canvas_ok (c : Canvas P U) : Prop := {
  cv_mounted history isSpike : Cv.props c = Some (history, isSpike) →
    ∃ id u p, Cv.plotRef c = Some (id, (u, p)) ∧ Cv.uInst c = Some id ∧ Cv.alive c = [id]
              ∧ id < Cv.created c ∧ u_data u = x_row history;
  cv_unmounted : Cv.props c = None →
    Cv.plotRef c = None ∧ Cv.uInst c = None ∧ Cv.alive c = [];
  cv_listeners : Cv.listeners c = (2 * Cv.created c)%nat;
}.

Lemma on_setScale_data (r : U * bool) (p : Plugin number) : (on_setScale r p).1 = r.1.
Proof. by destruct r. Qed.

Lemma applyData_data xs (up : U * Plugin number) : u_data (applyData xs up).1 = xs.
Proof.
  destruct up as [u p]. unfold applyData. case_if.
  - pose proof (setData_data u xs false) as Ed. destruct (u_setData u xs false) as [u1 f1].
    cbn [on_setScale]. rewrite on_setScale_data, setScale_data. exact Ed.
  - rewrite on_setScale_data. apply setData_data.
Qed.

Lemma panZoom_data e (up : U * Plugin number) : u_data (panZoom_event e up).1 = u_data up.1.
Proof.
  destruct up as [u p], e; unfold panZoom_event.
  - destruct (wheel_scale (T:=number) _ _ _ _ _ _ _). by rewrite on_setScale_data, setScale_data.
  - by case_if.
  - case_if; [|done]. destruct (drag_scale (T:=number) _ _ _ _ _). by rewrite on_setScale_data, setScale_data.
  - by case_if.
Qed.

Lemma destroy_self id : destroy id [id] = [].
Proof. unfold destroy. rewrite filter_cons_False; [done|]. by intros []. Qed.

Lemma rebuild_ok w h history b (c : Canvas P U) :
  Cv.props c = Some (history, b) → destroy_ref c = [] → Cv.listeners c = (2 * Cv.created c)%nat →
  canvas_ok (rebuild w h history b c).
Proof using u_new_data.
  intros Hp Hd Hl. unfold Charts.rebuild. rewrite Hd. split; simpl.
  - intros history' b'. rewrite Hp. intros [= <- <-]. eexists _, _, _. split_and!; try done. lia.
  - by rewrite Hp.
  - lia.
Qed.

Lemma feed_ok history history' b b' (c : Canvas P U) :
  Cv.props c = Some (history, b) → canvas_ok c →
  canvas_ok (feed history' (set_props (Some (history', b')) c)).
Proof using All.
  intros Hp [Hm _ Hl]. destruct (Hm _ _ Hp) as (id & u & p & E & ? & ? & ? & ?).
  unfold Charts.feed. split; simpl; [|done|done]. intros h2 b2 [= <- <-].
  rewrite E. simpl. destruct (applyData (x_row history') (u, p)) as [u' p'] eqn:Ea.
  exists id, u', p'. split_and!; try done.
  change u' with ((u', p').1). rewrite <-Ea. apply applyData_data.
Qed.

Lemma set_props_same (c : Canvas P U) history b b' :
  Cv.props c = Some (history, b) → canvas_ok c → canvas_ok (set_props (Some (history, b')) c).
Proof.
  intros Hp [Hm _ Hl]. destruct (Hm _ _ Hp) as (id & u & p & ? & ? & ? & ? & ?).
  split; simpl; [|done|done]. intros h2 b2 [= <- <-]. eauto 10.
Qed.

Lemma canvas_step_ok e (c c' : Canvas P U) :
  canvas_ok c → canvas_step e c = Some c' → canvas_ok c'.
Proof using All.
  intros Hok. pose proof Hok as [Hm Hu Hl]. unfold Charts.canvas_step.
  destruct e as [history b w h|newh b w h| |e|w h], (Cv.props c) as [[history0 b0]|] eqn:Hp; try done.
  - intros [= <-]. destruct (Hu eq_refl) as (E1 & E2 & E3).
    set (c1 := rebuild w h history b (set_props (Some (history, b)) c)).
    assert (canvas_ok c1) as Hc1.
    { apply rebuild_ok; [done| |done]. unfold destroy_ref. simpl. by rewrite E1. }
    apply (feed_ok history history b b c1); done.
  - intros [= <-]. set (h' := newh ?? history0). destruct (Hm _ _ eq_refl) as (id & u & p & E & _ & Ea & _).
    destruct (Bool.eqb b b0) eqn:Eb; cbn [negb].
    + destruct newh as [history|]; [by apply (feed_ok history0 history b0 b)|].
      by apply (set_props_same c history0 b0 b).
    + set (c1 := rebuild w h h' b (cleanup (set_props (Some (h', b)) c))).
      assert (canvas_ok c1) as Hc1.
      { apply rebuild_ok; [done| |done]. unfold destroy_ref. simpl. unfold destroy_ref. simpl.
        rewrite E, Ea. apply destroy_self. }
      destruct newh as [history|]; [|done]. by apply (feed_ok h' history b b c1).
  - intros [= <-]. destruct (Hm _ _ eq_refl) as (id & u & p & E & _ & Ea & _).
    split; simpl; [done| |done]. intros _. split_and!; try done.
    unfold destroy_ref. rewrite E, Ea. apply destroy_self.
  - intros [= <-]. destruct (Hm _ _ eq_refl) as (id & u & p & E & E2 & Ea & ? & Hd).
    split; simpl; [|done|done]. intros h2 b2 [= <- <-]. rewrite E.
    simpl. destruct (panZoom_event e (u, p)) as [u' p'] eqn:Ev. exists id, u', p'.
    split_and!; try done. change u' with ((u', p').1). rewrite <-Ev, panZoom_data. exact Hd.
  - intros [= <-]. destruct (Cv.plotRef c); [|done]. case_if; [|done].
    split; simpl; rewrite ?Hp; done.
Qed.
End CanvasFacts.

(** A property every step keeps holds after a run. *)
Lemma canvas_run_inv {P U} (step : CanvasEvent P → Canvas P U → option (Canvas P U)) (I : Canvas P U → Prop) :
  (∀ e c c', I c → step e c = Some c' → I c') →
  ∀ es c c', I c → canvas_run step es c = Some c' → I c'.
Proof.
  intros Hs es. induction es as [|e es IH]; intros c c' Hc; simpl; [by intros [= <-]|].
  destruct (step e c) as [c1|] eqn:E; [|done]. apply IH. by eapply Hs.
Qed.

Definition mounts {P} (es : list (CanvasEvent P)) : nat :=
  length (List.filter (λ e, match e with CMount _ _ _ _ => true | _ => false end) es).

Lemma resource_created {U : Type} `{!UPlot number U} local_offset locale
    (u_new : Options → list (list number) → U) es (c c' : Canvas ResourcePoint U) :
  (∀ h b, Cv.props c = Some (h, b) → b = false) →
  canvas_run (ResourceCanvas local_offset locale u_new) es c = Some c' →
  Cv.created c' = (Cv.created c + mounts es)%nat.
Proof.
  revert c. induction es as [|e es IH]; intros c Hb; simpl; [intros [= <-]; unfold mounts; simpl; lia|].
  destruct (ResourceCanvas local_offset locale u_new e c) as [c1|] eqn:E; [|done]. simpl. intros Hr.
  assert ((∀ h b, Cv.props c1 = Some (h, b) → b = false)
    ∧ Cv.created c1 = (Cv.created c + mounts [e])%nat) as [Hb1 Hc1].
  { unfold ResourceCanvas, canvas_step in E.
    destruct e as [h b w ht|newh b w ht| |e|w ht], (Cv.props c) as [[h0 b0]|] eqn:Hp; try done;
      try (rewrite (Hb _ _ eq_refl) in E); injection E as <-; unfold mounts; simpl;
      try destruct newh; try (destruct (Cv.plotRef c); [case_if|]); simpl; rewrite ?Hp;
      (split; [|lia]); intros h2 b2 [= ? ?]; subst; eauto. }
  rewrite (IH c1 Hb1 Hr), Hc1. unfold mounts. simpl. destruct e; simpl; lia.
Qed.

(** ** Theorems *)

(** C22: the plots of both canvases.  In every reachable state a mounted canvas
    has exactly one plot alive, the one its refs name, and that plot holds the
    times of the current history; an unmounted canvas has destroyed every plot it
    made; and the window keeps two listeners for every plot ever made (they are
    never removed).  The resource canvas makes one plot per mount, whatever
    happens in between. *)
Theorem canvas_lifecycle {U : Type} `{!UPlot number U} `{!UPlotLaws number U} local_offset locale
    (u_new : Options → list (list number) → U) :
  (∀ o d, u_data (u_new o d) = hd [] d) →
  (∀ es c, canvas_run (LatencyCanvas local_offset locale u_new) es canvas_init = Some c →
     canvas_ok latency_data c)
  ∧ (∀ es c, canvas_run (ResourceCanvas local_offset locale u_new) es canvas_init = Some c →
     canvas_ok resource_data c ∧ Cv.created c = mounts es).
Proof.
  intros Hnew. split; intros es c Hrun.
  - revert Hrun. apply (canvas_run_inv _ (canvas_ok latency_data)); [|done].
    intros e c0 c1. by apply canvas_step_ok.
  - split.
    + revert Hrun. apply (canvas_run_inv _ (canvas_ok resource_data)); [|done].
      intros e c0 c1. by apply canvas_step_ok.
    + by apply (resource_created local_offset locale u_new es canvas_init c).
Qed.

(** The spike highlight of a history that carries no flags is one band over
    the last points, at least one and at most all of them, when the connection
    spikes and has two points; otherwise there is none. *)
Theorem latency_bands_spec (history : list HistoryPoint) (isSpike : bool) :
  (Z.of_nat (length history) < 2 ^ 53)%Z →
  let n := Z.of_nat (length history) in
  if isSpike && (1 <? n)%Z
  then ∃ a b, (0 <= cut_index n < n)%Z ∧ js_at history (cut_index n) = Some a
              ∧ js_at history (n - 1) = Some b
              ∧ latency_bands history isSpike
                = [Band.mkBand (secs (HPoint.time a)) (secs (HPoint.time b))]
  else latency_bands history isSpike = [].
Proof.
  intros Hn n. unfold latency_bands, calcSpikeBands. rewrite bands_loop_unflagged, length_map. fold n.
  rewrite (bool_decide_true _ eq_refl), andb_true_r. case_if; [|done]. bool_to_prop.
  pose proof (cut_index_range n ltac:(lia)) as Hc.
  assert (∀ i, (0 <= i < n)%Z → ∃ a, js_at history i = Some a
    ∧ js_at (map (λ p, (p, false)) history) i = Some (a, false)) as Hat.
  { intros i Hi. unfold js_at. rewrite (proj2 (Z.ltb_ge _ _)) by lia.
    destruct (lookup_lt_is_Some_2 history (Z.to_nat i)) as [a Ha]; [lia|]. exists a. split; [done|].
    change (map (λ p, (p, false)) history) with ((λ p, (p, false)) <$> history).
    by rewrite list_lookup_fmap, Ha. }
  destruct (Hat (cut_index n)) as (a & Ha & ->); [lia|].
  destruct (Hat (n - 1)%Z) as (b & Hb & ->); [lia|]. by exists a, b.
Qed.

(** While the connection keeps spiking new data leaves the highlight where it
    was when the plot was built: the bands are a function of the history at the
    last rebuild, not of the current one. *)
Theorem spike_bands_frozen {U : Type} `{!UPlot number U} lo lc (u_new : Options → list (list number) → U)
    (history history' : list HistoryPoint) (isSpike : bool) (w h : Z) (c c' : Canvas HistoryPoint U) :
  Cv.props c = Some (history, isSpike) →
  LatencyCanvas lo lc u_new (CUpdate (Some history') isSpike w h) c = Some c' →
  Cv.bands c' = Cv.bands c ∧ Cv.props c' = Some (history', isSpike).
Proof.
  intros Hp. unfold LatencyCanvas, canvas_step. rewrite Hp, eqb_reflx. by intros [= <-].
Qed.

(** A click inside the enlarged chart stays there: only its close button and
    the backdrop around it close the modal. *)
Theorem modal_clicks {P : Type} (title : string) (series : list (Series P))
    (canvas : html ModalEvent) (path : list nat) :
  click_events canvas = [] →
  let view := chart_view title series canvas true in
  clicks_at [1] view = [CloseModal]
  ∧ clicks_at (1 :: 0 :: path) view = (if bool_decide (head path = Some 2) then [CloseModal] else []).
Proof.
  intros Hc. split; [done|].
  assert (∀ (f : Series P → html ModalEvent), (∀ x, click_events (f x) = []) →
    flat_map click_events (map f series) = []) as Hser.
  { intros f Hf. induction series as [|x l IH]; [done|]. simpl. by rewrite Hf. }
  unfold clicks_at, chart_view. cbn [bubble lookup list_lookup when app div_].
  rewrite bubble_stop. cbn [fst]. destruct path as [|i path]; [done|]. cbn [kid_events].
  destruct i as [|[|[|[|i]]]]; cbn [lookup list_lookup head]; try done.
  - by apply bubble_no_events.
  - apply bubble_no_events. simpl. by apply Hser.
  - by destruct path as [|[|i] path]; [|destruct path|].
  - apply bubble_no_events. simpl. by rewrite Hc.
Qed.

(** Witnesses: plain plots; a connection that spikes, is fed, and is unmounted. *)
Definition plain_new (o : Options) (d : list (list number)) : Plain.Plot number := Plain.mkPlot (hd [] d) N[0] N[1].
Definition ex_point (t : Z) : HistoryPoint := HPoint.mkHPoint N[t] N[0] N[0] N[0] N[0] N[0] N[0].
Definition ex_usage (t : Z) : ResourcePoint := RPoint.mkRPoint N[t] N[0] N[0] N[0] N[0].
Definition ex_axis_offset (_ : Z) : Z := 0.
Definition ex_hhmm (_ : number) : string := "00:00".
Definition ex_life : list (CanvasEvent HistoryPoint) :=
  [CMount [ex_point 1] false 0 0; CUpdate (Some [ex_point 1; ex_point 2]) true 300 100;
   CPlot (EvDown 0 N[5]); CUnmount]%Z.
Definition ex_usage_life : list (CanvasEvent ResourcePoint) :=
  [CMount [ex_usage 1] false 0 0; CUpdate (Some [ex_usage 1; ex_usage 2]) true 300 100; CResize 10 10]%Z.

Lemma canvas_lifecycle_witness :
  ∃ c c', canvas_run (LatencyCanvas ex_axis_offset ex_hhmm plain_new) ex_life canvas_init = Some c
    ∧ canvas_run (ResourceCanvas ex_axis_offset ex_hhmm plain_new) ex_usage_life canvas_init = Some c'
    ∧ canvas_ok latency_data c ∧ canvas_ok resource_data c' ∧ Cv.created c' = 1.
Proof.
  destruct (canvas_lifecycle ex_axis_offset ex_hhmm plain_new) as [HL HR]; [reflexivity|].
  destruct (canvas_run (LatencyCanvas _ _ _) ex_life canvas_init) as [c|] eqn:E; [|vm_compute in E; discriminate E].
  destruct (canvas_run (ResourceCanvas _ _ _) ex_usage_life canvas_init) as [c'|] eqn:E'; [|vm_compute in E'; discriminate E'].
  exists c, c'. destruct (HR ex_usage_life c' E') as [H1 H2].
  split; [reflexivity|]. split; [reflexivity|]. split; [exact (HL ex_life c E)|]. split; [exact H1|exact H2].
Defined.

Lemma latency_bands_spec_witness :
  latency_bands [ex_point 1000; ex_point 2000] true
  = [Band.mkBand (secs N[2000]) (secs N[2000])].
Proof.
  destruct (latency_bands_spec [ex_point 1000; ex_point 2000] true) as (a & b & _ & Ha & Hb & ->);
    [reflexivity|].
  injection Ha as <-. injection Hb as <-. reflexivity.
Defined.

Lemma spike_bands_frozen_witness :
  ∃ c c' : Canvas HistoryPoint (Plain.Plot number),
    canvas_run (LatencyCanvas ex_axis_offset ex_hhmm plain_new)
      [CMount [ex_point 1; ex_point 2] true 0 0]%Z canvas_init = Some c
    ∧ LatencyCanvas ex_axis_offset ex_hhmm plain_new (CUpdate (Some [ex_point 5; ex_point 6]) true 0 0) c = Some c'
    ∧ (Cv.bands c' = Cv.bands c ∧ Cv.props c' = Some ([ex_point 5; ex_point 6], true)).
Proof.
  eexists _, _. split; [reflexivity|]. split; [reflexivity|].
  eapply (spike_bands_frozen ex_axis_offset ex_hhmm plain_new
    [ex_point 1; ex_point 2] [ex_point 5; ex_point 6] true 0 0); reflexivity.
Defined.

Lemma modal_clicks_witness :
  let view := chart_view "Latency" LATENCY_SERIES (div_ []) true in
  clicks_at [1] view = [CloseModal] ∧ clicks_at [1; 0; 2] view = [CloseModal].
Proof. exact (modal_clicks "Latency" LATENCY_SERIES (div_ []) [2] eq_refl). Defined.
