(* ===== verification/Topo.v ===== *)
(** * The service map: [components/TopoGraph.tsx]

    Geometry of nodes and edges, the pan/zoom transform, dragging of nodes and
    of the canvas, click dispatch, automatic placement of new services, and the
    rendered SVG.  Geometry and interaction are written over any [Num]; the
    square root and the trigonometric functions are parameters of them. *)

From S2P Require Export FloatInterval View.
From stdpp Require Import base list.

Section Geometry.
Context {T : Type} `{Num T}.
Variable sqrt : T → T.
Local Open Scope num_scope.

Definition NODE_W : T := N[156].
Definition NODE_H : T := N[56].
Definition EXT_W : T := N[112].
Definition EXT_H : T := N[36].
Definition W : T := N[1000].
Definition H_ : T := N[700].

(** [x || 1]: zero and NaN are falsy. *)
Definition or_one (x : T) : T := if nnan x || (x === N[0]) then N[1] else x.

Definition bezierCtrl (sx sy ex ey : T) : Point T :=
  let mx := (sx + ex) / N[2] in
  let my := (sy + ey) / N[2] in
  let dx := ex - sx in
  let dy := ey - sy in
  let len := or_one (sqrt (dx * dx + dy * dy)) in
  Pos.mkPoint (mx + (nneg dy / len) * N[26]) (my + (dx / len) * N[26]).

Definition bezierMid (sx sy cx cy ex ey : T) : Point T :=
  let t := nlit 5 10 in
  let u := N[1] - t in
  Pos.mkPoint (u * u * sx + N[2] * u * t * cx + t * t * ex)
              (u * u * sy + N[2] * u * t * cy + t * t * ey).

(** [positions[name] ?? NODE_POS[name] ?? { x: 0.5, y: 0.5 }] *)
Definition node_pos (name : string) (positions : jsobj (Point T)) : Point T :=
  match obj_get positions name with
  | Some p => p
  | None => match obj_get NODE_POS name with
            | Some p => p
            | None => Pos.mkPoint (nlit 5 10) (nlit 5 10)
            end
  end.
Definition nodeLeft (name : string) (positions : jsobj (Point T)) : T :=
  Pos.x (node_pos name positions) * W.
Definition nodeTop (name : string) (positions : jsobj (Point T)) : T :=
  Pos.y (node_pos name positions) * H_.
Definition nodeCx (name : string) (isInternal : bool) (positions : jsobj (Point T)) : T :=
  nodeLeft name positions + (if isInternal then NODE_W else EXT_W) / N[2].
Definition nodeCy (name : string) (isInternal : bool) (positions : jsobj (Point T)) : T :=
  nodeTop name positions + (if isInternal then NODE_H else EXT_H) / N[2].
End Geometry.

(** ** Services of the snapshots *)
Definition all_names (snaps : list StatSnapshot) : list string :=
  foldl (λ acc s, set_add (set_add acc (Snap.src_service s)) (Snap.dst_service s)) [] snaps.
Definition service_types (snaps : list StatSnapshot) : jsobj NodeType :=
  foldl (λ m s, obj_set (obj_set m (Snap.src_service s) (Snap.src_type s))
                        (Snap.dst_service s) (Snap.dst_type s)) obj_empty snaps.
Definition is_internal (types : jsobj NodeType) (name : string) : bool :=
  negb (bool_decide (obj_get types name = Some ExternalNode)).

(** [[...allServices].sort().join(',')] *)
Definition services_key (names : list string) : string :=
  str_join "," (js_sort string_gt names).

(** ** Interaction state *)
Module Tg.
Record Transform (T : Type) := mkTransform { x : T; y : T; scale : T }.
Arguments mkTransform {T}. Arguments x {T}. Arguments y {T}. Arguments scale {T}.
Record Pan (T : Type) := mkPan { startX : T; startY : T; tx : T; ty : T }.
Arguments mkPan {T}. Arguments startX {T}. Arguments startY {T}. Arguments tx {T}. Arguments ty {T}.
Record NodeDrag (T : Type) := mkDrag { name : string; dX : T; dY : T; ox : T; oy : T }.
Arguments mkDrag {T}. Arguments name {T}. Arguments dX {T}. Arguments dY {T}.
Arguments ox {T}. Arguments oy {T}.
Record Topo (T : Type) := mkTopo {
  transform : Transform T;
  positions : jsobj (Point T);
  panRef : option (Pan T);
  nodeDragRef : option (NodeDrag T);
  didDrag : bool;
  placedKey : option string;          (* the [allServicesKey] of the last effect *)
}.
Arguments mkTopo {T}. Arguments transform {T}. Arguments positions {T}. Arguments panRef {T}.
Arguments nodeDragRef {T}. Arguments didDrag {T}. Arguments placedKey {T}.
End Tg.
Abbreviation Transform := Tg.Transform.
Abbreviation Topo := Tg.Topo.

(** What lies under the mouse: the nearest edge key and node name. *)
Record Target := mkTarget { edge_key : option string; node_name : option string }.

Inductive TopoEvent (T : Type) :=
  | TServices (names : list string)              (* a commit with these services *)
  | TWheel (deltaY clientX clientY : T) (rect : option (Point T))
  | TDown (target : Target) (clientX clientY : T)
  | TMove (clientX clientY : T)
  | TUp                                          (* mouseup or mouseleave *)
  | TClick (target : Target)
  | TDoubleClick
  | TZoomIn
  | TZoomOut
  | TFit.
Arguments TServices {T}. Arguments TWheel {T}. Arguments TDown {T}. Arguments TMove {T}.
Arguments TUp {T}. Arguments TClick {T}. Arguments TDoubleClick {T}. Arguments TZoomIn {T}.
Arguments TZoomOut {T}. Arguments TFit {T}.

(** The calls a click makes. *)
Inductive Call := OnSelect (key : option string) | OnSelectNode (name : option string).
#[export] Instance Call_eq_dec : EqDecision Call.
Proof. solve_decision. Defined.

Section Interaction.
Context {T : Type} `{Num T}.
Variables (cos sin : T → T) (PI : T).
Local Open Scope num_scope.

Definition fit : Transform T := Tg.mkTransform N[0] N[0] N[1].
Definition topo_init : Topo T := Tg.mkTopo fit NODE_POS None None false None.

(** Golden angle spiral. *)
Definition spiral (idx : Z) : Point T :=
  let angle := (N[idx] * nlit 1375 10 * PI) / N[180] in
  Pos.mkPoint (nmin (nlit 9 10) (nmax (nlit 1 10) (nlit 5 10 + nlit 32 100 * cos angle)))
              (nmin (nlit 9 10) (nmax (nlit 1 10) (nlit 5 10 + nlit 32 100 * sin angle))).

(** One iteration of the placement loop, with its counter. *)
Definition place_step (st : jsobj (Point T) * Z) (name : string) : jsobj (Point T) * Z :=
  let '(next, idx) := st in
  match obj_get next name with
  | Some _ => (next, idx)
  | None => (obj_set next name (spiral idx), idx + 1)%Z
  end.
Definition place_new (names : list string) (prev : jsobj (Point T)) : jsobj (Point T) :=
  (foldl place_step (prev, Z.of_nat (length prev)) names).1.

Definition MIN_SCALE : T := nlit 2 10.
Definition MAX_SCALE : T := N[3].
Definition clamp_scale (s : T) : T := nmin MAX_SCALE (nmax MIN_SCALE s).

Definition handleWheel (deltaY clientX clientY : T) (rect : option (Point T)) (prev : Transform T)
    : Transform T :=
  let factor := if deltaY <? N[0] then nlit 11 10 else nlit 9 10 in
  let newScale := clamp_scale (Tg.scale prev * factor) in
  match rect with
  | None => prev
  | Some r =>
      let mx := clientX - Pos.x r in
      let my := clientY - Pos.y r in
      Tg.mkTransform (mx - (mx - Tg.x prev) * (newScale / Tg.scale prev))
                     (my - (my - Tg.y prev) * (newScale / Tg.scale prev)) newScale
  end.

Definition dragged (dx dy : T) : bool := (nabs dx >? N[2]) || (nabs dy >? N[2]).

(** A node follows the mouse, clamped to the unit square. *)
Definition drag_node (scale : T) (d : Tg.NodeDrag T) (clientX clientY : T) : Point T :=
  let dx := clientX - Tg.dX d in
  let dy := clientY - Tg.dY d in
  Pos.mkPoint (nmax N[0] (nmin N[1] (Tg.ox d + dx / (scale * W))))
              (nmax N[0] (nmin N[1] (Tg.oy d + dy / (scale * H_)))).

Definition onMouseDown (tg : Target) (clientX clientY : T) (s : Topo T) : Topo T :=
  match node_name tg with
  | Some name =>
      let cur := node_pos name (Tg.positions s) in
      Tg.mkTopo (Tg.transform s) (Tg.positions s) (Tg.panRef s)
        (Some (Tg.mkDrag name clientX clientY (Pos.x cur) (Pos.y cur))) false (Tg.placedKey s)
  | None =>
      Tg.mkTopo (Tg.transform s) (Tg.positions s)
        (Some (Tg.mkPan clientX clientY (Tg.x (Tg.transform s)) (Tg.y (Tg.transform s))))
        (Tg.nodeDragRef s) false (Tg.placedKey s)
  end.

Definition onMouseMove (clientX clientY : T) (s : Topo T) : Topo T :=
  match Tg.nodeDragRef s with
  | Some d =>
      let did := dragged (clientX - Tg.dX d) (clientY - Tg.dY d) || Tg.didDrag s in
      Tg.mkTopo (Tg.transform s)
        (obj_set (Tg.positions s) (Tg.name d) (drag_node (Tg.scale (Tg.transform s)) d clientX clientY))
        (Tg.panRef s) (Tg.nodeDragRef s) did (Tg.placedKey s)
  | None =>
      match Tg.panRef s with
      | Some p =>
          let dx := clientX - Tg.startX p in
          let dy := clientY - Tg.startY p in
          Tg.mkTopo (Tg.mkTransform (Tg.tx p + dx) (Tg.ty p + dy) (Tg.scale (Tg.transform s)))
            (Tg.positions s) (Tg.panRef s) None (dragged dx dy || Tg.didDrag s) (Tg.placedKey s)
      | None => s
      end
  end.

Definition onMouseUp (s : Topo T) : Topo T :=
  Tg.mkTopo (Tg.transform s) (Tg.positions s) None None (Tg.didDrag s) (Tg.placedKey s).

(** A click that ends a drag is ignored; an edge wins over a node. *)
Definition onSvgClick (tg : Target) (s : Topo T) : list Call :=
  if Tg.didDrag s then []
  else match edge_key tg, node_name tg with
       | Some k, _ => [OnSelect (Some k)]
       | None, Some n => [OnSelectNode (Some n)]
       | None, None => [OnSelect None; OnSelectNode None]
       end.

Definition set_transform (t : Transform T) (s : Topo T) : Topo T :=
  Tg.mkTopo t (Tg.positions s) (Tg.panRef s) (Tg.nodeDragRef s) (Tg.didDrag s) (Tg.placedKey s).

Definition zoom_in (p : Transform T) : Transform T :=
  Tg.mkTransform (Tg.x p) (Tg.y p) (nmin MAX_SCALE (Tg.scale p * nlit 12 10)).
Definition zoom_out (p : Transform T) : Transform T :=
  Tg.mkTransform (Tg.x p) (Tg.y p) (nmax MIN_SCALE (Tg.scale p / nlit 12 10)).

Definition topo_step (e : TopoEvent T) (s : Topo T) : Topo T * list Call :=
  match e with
  | TServices names =>
      let key := services_key names in
      (if bool_decide (Tg.placedKey s = Some key) then s
       else Tg.mkTopo (Tg.transform s) (place_new names (Tg.positions s)) (Tg.panRef s)
              (Tg.nodeDragRef s) (Tg.didDrag s) (Some key), [])
  | TWheel dy cx cy rect => (set_transform (handleWheel dy cx cy rect (Tg.transform s)) s, [])
  | TDown tg cx cy => (onMouseDown tg cx cy s, [])
  | TMove cx cy => (onMouseMove cx cy s, [])
  | TUp => (onMouseUp s, [])
  | TClick tg => (s, onSvgClick tg s)
  | TDoubleClick | TFit => (set_transform fit s, [])
  | TZoomIn => (set_transform (zoom_in (Tg.transform s)) s, [])
  | TZoomOut => (set_transform (zoom_out (Tg.transform s)) s, [])
  end.

Definition topo_run (es : list (TopoEvent T)) (s : Topo T) : Topo T :=
  foldl (λ s e, (topo_step e s).1) s es.

Definition cursor (s : Topo T) : string :=
  match Tg.nodeDragRef s, Tg.panRef s with None, None => "grab" | _, _ => "grabbing" end.
End Interaction.

(** ** Rendering *)
Local Open Scope num_scope.
Abbreviation svg := (html Call).
Definition show : number → string := number_toString.

Definition Math_sqrt : number → number := PrimFloat.sqrt.

Definition str_drop1 (s : string) : string :=        (* color.slice(1) *)
  match s with EmptyString => EmptyString | String _ s => s end.
Definition when_attr (b : bool) (name v : string) : list (string * string) :=
  if b then [(name, v)] else [].
Definition tag (name : string) (attrs : list (string * string)) (kids : list svg) : svg :=
  el name attrs no_click kids.

Module Ev.
Record EdgeGeom := mkGeom { path : string; mid : Point number }.
End Ev.

Definition edge_geom (snap : StatSnapshot) (types : jsobj NodeType) (positions : jsobj (Point number))
    : Ev.EdgeGeom :=
  let src := Snap.src_service snap in
  let dst := Snap.dst_service snap in
  let isIntSrc := is_internal types src in
  let isIntDst := is_internal types dst in
  let sx := nodeCx src isIntSrc positions in
  let sy := nodeCy src isIntSrc positions in
  let ex := nodeCx dst isIntDst positions in
  let ey := nodeCy dst isIntDst positions in
  let q := bezierCtrl Math_sqrt sx sy ex ey in
  let mid := bezierMid sx sy (Pos.x q) (Pos.y q) ex ey in
  Ev.mkGeom ("M" +:+ show sx +:+ "," +:+ show sy +:+ " Q" +:+ show (Pos.x q) +:+ ","
             +:+ show (Pos.y q) +:+ " " +:+ show ex +:+ "," +:+ show ey) mid.

Definition edge_color (snap : StatSnapshot) : string :=
  if Snap.is_spike snap then "#dc2626" else STATUS_COLOR (latencyStatus (Snap.p99_us snap)).

Definition edge_view (transform : Transform number) (types : jsobj NodeType)
    (positions : jsobj (Point number)) (selectedKey : option string) (snap : StatSnapshot) : svg :=
  let key := snap_key snap in
  let g := edge_geom snap types positions in
  let color := edge_color snap in
  let selected := bool_decide (selectedKey = Some key) in
  let spike := Snap.is_spike snap in
  tag "g" [("key", key); ("data-edge-key", key)]
    (tag "path" [("d", Ev.path g); ("stroke", "transparent");
                 ("strokeWidth", show (N[16] / Tg.scale transform))] []
     :: when selected (tag "path" [("d", Ev.path g); ("stroke", color); ("strokeWidth", "7");
                                   ("opacity", "0.18")] [])
     ++ [tag "path"
           ([("d", Ev.path g); ("stroke", color);
             ("strokeWidth", if spike then "2" else if selected then "2.4" else "1.6");
             ("opacity", if selected then "1" else "0.75")]
            ++ when_attr spike "strokeDasharray" "7,4"
            ++ [("markerEnd", "url(#arr-" +:+ str_drop1 color +:+ ")")]
            ++ when_attr spike "filter" "url(#topo-glow)")
           (when spike (tag "animate" [("attributeName", "stroke-dashoffset")] []));
         tag "g" [("transform", "translate(" +:+ show (Pos.x (Ev.mid g)) +:+ ","
                                +:+ show (Pos.y (Ev.mid g)) +:+ ")")]
           [tag "rect" [("stroke", color)] [];
            tag "text" [("fontWeight", if selected then "600" else "500"); ("fill", color)]
              [text (fmtUs (Snap.p50_us snap))]]]).

(** *** Nodes *)
Definition stress_color (k : StressKind) : option string :=
  match k with
  | Some StressCpu => Some "#dc2626"
  | Some StressIo => Some "#7c3aed"
  | Some StressMemory => Some "#ea580c"
  | None => None
  end.

(** [selectedKey ? ... : false]: the empty key is falsy. *)
Definition is_selected_node (selectedNode selectedKey : option string) (name : string) : bool :=
  bool_decide (selectedNode = Some name)
  || match selectedKey with
     | Some k => negb (bool_decide (k = "")) && (starts_with k (name +:+ Types.arrow) || ends_with k (Types.arrow +:+ name))
     | None => false
     end.

Module Bar.
Record Bar := mkBar { pct : number; high : bool; color : string }.
End Bar.

Definition micro_bars (svc : option ServiceSnapshot) : list Bar.Bar :=
  let cpu := (Svc.cpu_pct <$> svc) ?? N[0] in
  let io := (Svc.io_wait_pct <$> svc) ?? N[0] in
  let mem := (Svc.mem_pressure_pct <$> svc) ?? N[0] in
  [Bar.mkBar cpu (cpu >? N[70]) "#dc2626"; Bar.mkBar io (io >? N[30]) "#7c3aed";
   Bar.mkBar mem (mem >? N[70]) "#ea580c"].

Definition BAR_W : number := N[36].
Definition bar_width (pct : number) : number := nmin BAR_W (pct / N[100] * BAR_W).

Definition MicroBars (x y : number) (svc : option ServiceSnapshot) : svg :=
  tag "g" []
    (imap (λ i bar,
       let bx := show (x + N[Z.of_nat i] * (BAR_W + N[8])) in
       tag "g" [("key", pretty (Z.of_nat i))]
         [tag "rect" [("x", bx); ("y", show y); ("width", "36")] [];
          tag "rect" [("x", bx); ("y", show y); ("width", show (bar_width (Bar.pct bar)));
                      ("fill", if Bar.high bar then Bar.color bar else "#94a3b8");
                      ("fillOpacity", if Bar.high bar then "1" else "0.55")] []])
      (micro_bars svc)).

Definition node_view (types : jsobj NodeType) (services : ServiceMap)
    (positions : jsobj (Point number)) (selectedNode selectedKey : option string) (name : string) : svg :=
  let isInternal := is_internal types name in
  let x := nodeLeft name positions in
  let y := nodeTop name positions in
  let w : number := if isInternal then NODE_W else EXT_W in
  let h : number := if isInternal then NODE_H else EXT_H in
  let svc := obj_get services name in
  let stressColor := stress_color (svc ≫= Svc.stress_kind) in
  let isSelectedNode := is_selected_node selectedNode selectedKey name in
  tag "g" [("key", name); ("data-node-name", name)]
    (when_some stressColor (λ c,
       tag "rect" [("x", show (x - N[4])); ("y", show (y - N[4])); ("width", show (w + N[8]));
                   ("height", show (h + N[8])); ("fill", c)]
         [tag "animate" [("attributeName", "opacity")] []])
     ++ [tag "rect"
           ([("x", show x); ("y", show y); ("width", show w); ("height", show h);
             ("fill", if isInternal then "#ffffff" else "#f8fafc");
             ("stroke", if isSelectedNode then "#2563eb" else stressColor ?? "#cbd5e1");
             ("strokeWidth", if isSelectedNode then "1.8" else "1.2")]
            ++ when_attr (negb isInternal) "strokeDasharray" "5,3") []]
     ++ (if isInternal
         then [tag "text" [("x", show (x + w / N[2])); ("y", show (y + N[18]))] [text name];
               MicroBars (x + w / N[2] - N[60]) (y + N[32]) svc]
         else [tag "text" [("x", show (x + w / N[2])); ("y", show (y + h / N[2]))] [text name]])).

Definition legend : list (string * string) :=
  [("#16a34a", "OK  < 5ms"); ("#d97706", "Warn  5–20ms"); ("#ea580c", "High  20–100ms");
   ("#dc2626", "Critical / Spike")].
Definition Legend : svg :=
  tag "div" []
    (map (λ cl, tag "div" [("key", cl.2)]
                  [tag "div" [("background", cl.1)] []; tag "span" [] [text cl.2]]) legend
     ++ [tag "div" [] [tag "div" [] []; tag "span" [] [text "external"]]]).

Definition marker_colors : list string := ["#16a34a"; "#d97706"; "#ea580c"; "#dc2626"; "#2563eb"].
Definition defs : svg :=
  tag "defs" [] (map (λ c, tag "marker" [("key", c); ("id", "arr-" +:+ str_drop1 c)]
                             [tag "path" [("fill", c)] []]) marker_colors).

(** The [svg] element; its click handler dispatches on the element under the
    mouse.  The dot grid pattern and the glow and shadow filters are left out. *)
Definition topo_svg (snapshots : SnapshotMap) (services : ServiceMap)
    (selectedKey selectedNode : option string) (s : Topo number) : svg :=
  let snaps := obj_values snapshots in
  let types := service_types snaps in
  let tr := Tg.transform s in
  tag "svg" []
    [defs;
     tag "rect" [("fill", "url(#topo-dots)")] [];
     tag "g" [("transform", "translate(" +:+ show (Tg.x tr) +:+ "," +:+ show (Tg.y tr) +:+ ") scale("
                            +:+ show (Tg.scale tr) +:+ ")")]
       (map (edge_view tr types (Tg.positions s) selectedKey) snaps
        ++ map (node_view types services (Tg.positions s) selectedNode selectedKey) (all_names snaps))].

(** What lies at [path] of the rendered map. *)
Definition target_at (path : list nat) (v : svg) : Target :=
  mkTarget (closest "data-edge-key" path v) (closest "data-node-name" path v).

Definition topo_body (snapshots : SnapshotMap) (services : ServiceMap)
    (selectedKey selectedNode : option string) (s : Topo number) : svg :=
  if bool_decide (obj_values snapshots = [])
  then tag "div" [] [text "트래픽 대기 중…"]
  else topo_svg snapshots services selectedKey selectedNode s.

(** The buttons over the map. *)
Definition controls : list (string * string * TopoEvent number) :=
  [("Zoom in", "+", TZoomIn); ("Zoom out", "−", TZoomOut); ("Fit view (double-click)", "⊡", TFit)].
Definition Controls : html (TopoEvent number) :=
  div_ (map (λ '(title, label, e), el "button" [("title", title)] (on_click e) [text label]) controls).

(** The map, its buttons, its legend.  The click handler of the [svg] is not on
    an element of the tree: it reads the target of the click ([target_at]). *)
Definition TopoGraph (snapshots : SnapshotMap) (services : ServiceMap)
    (selectedKey selectedNode : option string) (s : Topo number) : html (TopoEvent number) :=
  let inert := html_map (λ _ : Call, TClick (mkTarget None None)) in
  el "div" [("cursor", cursor s)] no_click
    [inert (topo_body snapshots services selectedKey selectedNode s); Controls; inert Legend].
