(* ===== verification/TopoFacts.v ===== *)
(** * The service map: theorems

    The wheel and the drag as identities of the formulas (rationals), the
    placement of services, click dispatch on the rendered tree, and which nodes a
    selection highlights.  The bounds of the binary64 program are in
    [TopoFloat]. *)

From S2P Require Export Topo Chart.
From stdpp Require Import base list.

#[local] Arguments String.append : simpl nomatch.

(** ** The transform *)
Lemma min_scale_val : (MIN_SCALE == 1 # 5)%Q.
Proof. reflexivity. Qed.
Lemma max_scale_val : (MAX_SCALE == 3)%Q.
Proof. reflexivity. Qed.

Lemma clamp_scale_ok (s : Q) : (1 # 5 <= clamp_scale s ∧ clamp_scale s <= 3)%Q.
Proof.
  unfold clamp_scale. pose proof min_scale_val. pose proof max_scale_val.
  destruct (nmax_Q MIN_SCALE s) as (? & ? & ?).
  destruct (nmin_Q MAX_SCALE (nmax MIN_SCALE s)) as (? & ? & Hc). split; [|lra]. destruct Hc; lra.
Qed.

(** ** Placement over any number type *)
Section PlaceNew.
Context {T : Type} `{Num T} (cos sin : T → T) (PI : T).
Implicit Types prev : jsobj (Point T).

Lemma obj_set_fresh {V} (o : jsobj V) k v : obj_get o k = None → obj_set o k v = o ++ [(k, v)].
Proof.
  induction o as [|[k' v'] o IH]; intros Hk; [done|]. simpl in *.
  case_bool_decide; [done|]. by rewrite IH.
Qed.

(** The names without a place, in order, once each. *)
Fixpoint unplaced (known names : list string) : list string :=
  match names with
  | [] => []
  | n :: names =>
      if bool_decide (n ∈ known) then unplaced known names
      else n :: unplaced (known ++ [n]) names
  end.

Lemma place_fold prev names :
  foldl (place_step cos sin PI) (prev, Z.of_nat (length prev)) names
  = (prev ++ imap (λ i n, (n, spiral cos sin PI (Z.of_nat (length prev + i))))
               (unplaced prev.*1 names),
     Z.of_nat (length prev + length (unplaced prev.*1 names))).
Proof.
  revert prev. induction names as [|n names IH]; intros prev.
  - simpl. by rewrite app_nil_r, Nat.add_0_r.
  - cbn [foldl unplaced]. unfold place_step at 2. destruct (obj_get prev n) as [p|] eqn:E.
    + rewrite bool_decide_true; [apply IH|]. apply obj_get_Some in E.
      by apply (list_elem_of_fmap_2 fst) in E.
    + rewrite bool_decide_false by (by apply obj_get_None).
      rewrite (obj_set_fresh _ _ _ E).
      replace (Z.of_nat (length prev) + 1)%Z
        with (Z.of_nat (length (prev ++ [(n, spiral cos sin PI (Z.of_nat (length prev)))])))
        by (rewrite length_app; simpl; lia).
      rewrite IH, fmap_app, length_app. cbn [length fmap list_fmap imap]. f_equal; [|f_equal; simpl; lia].
      rewrite <-app_assoc. f_equal. simpl. rewrite Nat.add_0_r. f_equal.
      apply imap_ext. intros i x _. simpl. do 3 f_equal. lia.
Qed.

Lemma place_new_eq prev names :
  place_new cos sin PI names prev
  = prev ++ imap (λ i n, (n, spiral cos sin PI (Z.of_nat (length prev + i)))) (unplaced prev.*1 names).
Proof.
  unfold place_new. by rewrite place_fold.
Qed.

End PlaceNew.

Lemma unplaced_elem known names n : n ∈ unplaced known names ↔ n ∈ names ∧ n ∉ known.
Proof.
  revert known. induction names as [|m names IH]; intros known; simpl; [set_solver|].
  case_bool_decide as Hm.
  - rewrite IH. set_solver.
  - rewrite elem_of_cons, IH. destruct (decide (n = m)) as [->|]; set_solver.
Qed.

Lemma unplaced_NoDup known names : NoDup (unplaced known names).
Proof.
  revert known. induction names as [|m names IH]; intros known; simpl; [constructor|].
  case_bool_decide; [done|]. constructor; [|done]. rewrite unplaced_elem. set_solver.
Qed.

Lemma Forall_obj_set {V} (P : string * V → Prop) o k v :
  Forall P o → P (k, v) → Forall P (obj_set o k v).
Proof.
  intros HP Hv. induction HP as [|[k' v'] o Hp HP IH]; simpl; [by constructor|].
  case_bool_decide; by constructor.
Qed.

(** ** Sessions *)
(** The press, the moves and the release of a drag. *)
Definition moves {T} (ms : list (T * T)) : list (TopoEvent T) := map (λ m, TMove m.1 m.2) ms.

Section Drag.
Context {T : Type} `{Num T} (cos sin : T → T) (PI : T).

Definition idle (s : Topo T) : Prop := Tg.panRef s = None ∧ Tg.nodeDragRef s = None.

Lemma moves_node d ms (s : Topo T) :
  Tg.nodeDragRef s = Some d →
  let s' := topo_run cos sin PI (moves ms) s in
  Tg.nodeDragRef s' = Some d
  ∧ Tg.didDrag s' = existsb (λ m, dragged (m.1 - Tg.dX d) (m.2 - Tg.dY d))%num ms || Tg.didDrag s.
Proof.
  revert s. induction ms as [|m ms IH]; intros s Hd; [done|]. cbn [moves map topo_run foldl existsb].
  change (foldl _ ?s0 (map _ ms)) with (topo_run cos sin PI (moves ms) s0).
  cbn [topo_step fst]. unfold onMouseMove. rewrite Hd. edestruct IH as [E1 E2]; [|split; [exact E1|rewrite E2]].
  - done.
  - cbn [Tg.didDrag]. destruct (dragged _ _); simpl; [by rewrite orb_true_r|done].
Qed.

Lemma moves_pan p ms (s : Topo T) :
  Tg.nodeDragRef s = None → Tg.panRef s = Some p →
  let s' := topo_run cos sin PI (moves ms) s in
  Tg.didDrag s' = existsb (λ m, dragged (m.1 - Tg.startX p) (m.2 - Tg.startY p))%num ms || Tg.didDrag s.
Proof.
  revert s. induction ms as [|m ms IH]; intros s Hd Hp; [done|].
  cbn [moves map topo_run foldl existsb].
  change (foldl _ ?s0 (map _ ms)) with (topo_run cos sin PI (moves ms) s0).
  cbn [topo_step fst]. unfold onMouseMove. rewrite Hd, Hp. cbn zeta. rewrite IH; [|done..].
  cbn [Tg.didDrag]. destruct (dragged _ _); simpl; [by rewrite orb_true_r|done].
Qed.

Lemma press_moves tg cx cy ms (s : Topo T) :
  idle s →
  Tg.didDrag (topo_run cos sin PI (TDown tg cx cy :: moves ms ++ [TUp]) s)
  = existsb (λ m, dragged (m.1 - cx) (m.2 - cy))%num ms.
Proof.
  intros [Hp Hd]. cbn [topo_run foldl topo_step fst].
  rewrite foldl_app. cbn [foldl topo_step fst onMouseUp Tg.didDrag].
  change (foldl _ ?s0 (moves ms)) with (topo_run cos sin PI (moves ms) s0).
  unfold onMouseDown. destruct (node_name tg) as [n|].
  - edestruct (moves_node (Tg.mkDrag n cx cy (Pos.x (node_pos n (Tg.positions s)))
        (Pos.y (node_pos n (Tg.positions s)))) ms) as [_ E]; [|rewrite E; by rewrite orb_false_r].
    done.
  - erewrite moves_pan; [|exact Hd|reflexivity]. by rewrite orb_false_r.
Qed.
End Drag.

(** ** Selection on the rendered tree *)
Lemma lacks_app {E} name (a b : list (html E)) :
  forallb (lacks name) (a ++ b) = forallb (lacks name) a && forallb (lacks name) b.
Proof. apply forallb_app. Qed.

Lemma edge_view_lacks tr types ps sk snap :
  match edge_view tr types ps sk snap with
  | el _ _ _ kids => forallb (lacks "data-edge-key") kids = true
  | text _ => False
  end ∧ lacks "data-node-name" (edge_view tr types ps sk snap) = true.
Proof.
  unfold edge_view, when, when_attr.
  destruct (bool_decide (sk = _)), (Snap.is_spike snap); split; reflexivity.
Qed.

Lemma closest_edge tr types ps sk snap path :
  closest "data-edge-key" path (edge_view tr types ps sk snap) = Some (snap_key snap).
Proof.
  destruct (edge_view_lacks tr types ps sk snap) as [Hk _].
  assert (attr "data-edge-key" (edge_view tr types ps sk snap) = Some (snap_key snap)) as Ha by reflexivity.
  destruct (edge_view _ _ _ _ _) as [|tg attrs on kids]; [done|].
  destruct path as [|i path]; cbn [closest]; [done|].
  destruct (kids !! i) as [k|] eqn:Ei; [|done]. rewrite closest_lacks; [done|].
  rewrite forallb_forall in Hk. apply Hk, list_elem_of_In. by eapply list_elem_of_lookup_2.
Qed.

Lemma forallb_imap {A B} (f : nat → A → B) (P : B → bool) l :
  (∀ i a, P (f i a) = true) → forallb P (imap f l) = true.
Proof.
  intros Hf. revert f Hf. induction l as [|a l IH]; intros f Hf; [done|].
  simpl. rewrite Hf. simpl. apply IH. intros. apply Hf.
Qed.

Lemma MicroBars_lacks name x y svc :
  name = "data-edge-key" ∨ name = "data-node-name" → lacks name (MicroBars x y svc) = true.
Proof. intros [-> | ->]; reflexivity. Qed.

Lemma node_view_lacks types svcs ps sn sk name :
  match node_view types svcs ps sn sk name with
  | el _ _ _ kids => forallb (lacks "data-node-name") kids = true
  | text _ => False
  end ∧ lacks "data-edge-key" (node_view types svcs ps sn sk name) = true.
Proof.
  unfold node_view, when_some, when_attr.
  destruct (is_internal types name), (stress_color _); split; reflexivity.
Qed.

Lemma closest_node types svcs ps sn sk name path :
  closest "data-node-name" path (node_view types svcs ps sn sk name) = Some name.
Proof.
  destruct (node_view_lacks types svcs ps sn sk name) as [Hk _].
  assert (attr "data-node-name" (node_view types svcs ps sn sk name) = Some name) as Ha by reflexivity.
  destruct (node_view _ _ _ _ _ _) as [|tg attrs on kids]; [done|].
  destruct path as [|i path]; cbn [closest]; [done|].
  destruct (kids !! i) as [k|] eqn:Ei; [|done]. rewrite closest_lacks; [done|].
  rewrite forallb_forall in Hk. apply Hk, list_elem_of_In. by eapply list_elem_of_lookup_2.
Qed.

(** [name →] starts, or [→ name] ends, a key exactly for the end points. *)
Lemma arrow_free_app a b : arrow_free (a +:+ b) = arrow_free a && arrow_free b.
Proof.
  induction a as [|c a IH]; [done|].
  change (String c a +:+ b) with (String c (a +:+ b)). cbn [arrow_free].
  by rewrite IH, andb_assoc.
Qed.

Lemma conn_key_inj_r s1 d1 s2 d2 :
  arrow_free d1 = true → arrow_free d2 = true →
  conn_key s1 d1 = conn_key s2 d2 → s1 = s2 ∧ d1 = d2.
Proof.
  unfold conn_key. intros H1 H2.
  assert (∀ s t d d' : string, arrow_free d = true → arrow_free d' = true →
    s +:+ Types.arrow +:+ d = t +:+ Types.arrow +:+ d' → String.length s ≤ String.length t → s = t) as Hle.
  { intros s. induction s as [|c s IH]; intros [|c' t] d d' Hd Hd' Heq Hlen; try done.
    - exfalso. simpl in Heq. injection Heq as <- Heq.
      destruct t as [|c2 t]; [discriminate Heq|]. simpl in Heq. injection Heq as <- Heq.
      destruct t as [|c3 t]; [discriminate Heq|]. simpl in Heq. injection Heq as <- Heq.
      rewrite Heq, !arrow_free_app in Hd. simpl in Hd. by rewrite andb_false_r in Hd.
    - simpl in Hlen. lia.
    - simpl in Heq. injection Heq as <- Heq. f_equal. eapply IH; [| |exact Heq|]; try done.
      simpl in Hlen. lia. }
  intros Heq. assert (s1 = s2) as ->.
  { destruct (decide (String.length s1 ≤ String.length s2)) as [Hl|Hl].
    - by eapply Hle; [| |exact Heq|].
    - symmetry. eapply Hle; [| |symmetry; exact Heq|lia]; done. }
  split; [done|]. by do 2 apply str_app_inj_l in Heq.
Qed.

Lemma starts_with_key name src dst :
  arrow_free name = true → arrow_free src = true →
  starts_with (conn_key src dst) (name +:+ Types.arrow) = bool_decide (name = src).
Proof.
  intros Hn Hs. apply eq_true_iff_eq. rewrite starts_with_spec, bool_decide_eq_true. split.
  - intros [t Ht]. rewrite str_app_assoc in Ht.
    by destruct (conn_key_inj src dst name t Hs Hn Ht).
  - intros ->. exists dst. by rewrite str_app_assoc.
Qed.

Lemma ends_with_key name src dst :
  arrow_free name = true → arrow_free dst = true →
  ends_with (conn_key src dst) (Types.arrow +:+ name) = bool_decide (name = dst).
Proof.
  intros Hn Hd. apply eq_true_iff_eq. rewrite ends_with_spec, bool_decide_eq_true. split.
  - intros [t Ht]. by destruct (conn_key_inj_r src dst t name Hd Hn Ht).
  - intros ->. by exists src.
Qed.

(** ** Theorems *)

(** C35: the wheel zooms around the mouse: the point of the map under it stays
    under it, for any zoom the scale bounds leave. *)
Theorem wheel_keeps_point (deltaY clientX clientY : Q) (r : Point Q) (t : Transform Q) :
  (0 < Tg.scale t)%Q →
  let t' := handleWheel deltaY clientX clientY (Some r) t in
  let mx := (clientX - Pos.x r)%Q in
  let my := (clientY - Pos.y r)%Q in
  ((mx - Tg.x t') / Tg.scale t' == (mx - Tg.x t) / Tg.scale t
   ∧ (my - Tg.y t') / Tg.scale t' == (my - Tg.y t) / Tg.scale t)%Q.
Proof.
  intros Hs. unfold handleWheel. cbn [Tg.scale Tg.x Tg.y].
  set (k := clamp_scale _).
  assert (0 < k)%Q as Hk.
  { destruct (clamp_scale_ok (nmul (Tg.scale t)
      (if nltb deltaY (nofZ 0) then nlit 11 10 else nlit 9 10))) as [Hk _]. fold k in Hk. lra. }
  simpl. split; field; split; intros E; rewrite E in *; by apply Qlt_irrefl in Hs || by apply Qlt_irrefl in Hk.
Qed.

(** A dragged node follows the mouse: as long as it stays on the canvas its
    place on the screen moves by what the mouse moved. *)
Theorem node_follows_mouse (t : Transform Q) (d : Tg.NodeDrag Q) (clientX clientY : Q) :
  (0 < Tg.scale t)%Q →
  let p := drag_node (Tg.scale t) d clientX clientY in
  let screenX := (λ x, Tg.x t + Tg.scale t * (x * W))%Q in
  let targetX := (Tg.ox d + (clientX - Tg.dX d) / (Tg.scale t * W))%Q in
  (0 <= targetX ∧ targetX <= 1)%Q →
  (screenX (Pos.x p) - screenX (Tg.ox d) == clientX - Tg.dX d)%Q.
Proof.
  intros Hs p screenX targetX Ht.
  assert (Pos.x p == targetX)%Q as Hp.
  { unfold p, drag_node. cbn [Pos.x]. fold targetX.
    change (nmax (nofZ 0) (nmin (nofZ 1) ?v)) with (nmax 0%Q (nmin 1%Q v)).
    change (nadd (Tg.ox d) (ndiv (nsub clientX (Tg.dX d)) (nmul (Tg.scale t) W))) with targetX.
    destruct (nmin_Q 1 targetX) as (? & ? & Hc), (nmax_Q 0 (nmin 1%Q targetX)) as (? & ? & Hc').
    destruct Hc, Hc'; lra. }
  unfold screenX. rewrite Hp. unfold targetX, W. simpl. change (inject_Z 1000) with 1000%Q.
  field. intros E. rewrite E in Hs. by apply Qlt_irrefl in Hs.
Qed.

(** C24: new services are placed once each, in order, on the spiral point of their
    rank in the map; the services already placed stay where they are. *)
Theorem placement {T : Type} `{Num T} (cos sin : T → T) (PI : T) (names : list string)
    (prev : jsobj (Point T)) :
  obj_wf prev →
  let next := place_new cos sin PI names prev in
  obj_wf next
  ∧ (∀ n p, obj_get prev n = Some p → obj_get next n = Some p)
  ∧ (∀ n, n ∈ names → ∃ p, obj_get next n = Some p)
  ∧ ∃ new, next = prev ++ new ∧ NoDup new.*1
      ∧ ∀ i n p, new !! i = Some (n, p) →
          n ∈ names ∧ obj_get prev n = None ∧ p = spiral cos sin PI (Z.of_nat (length prev + i)).
Proof.
  intros Hwf next. unfold next. rewrite place_new_eq.
  set (f := λ (i : nat) (n : string), (n, spiral cos sin PI (Z.of_nat (length prev + i)))).
  assert (∀ l, (imap f l).*1 = l) as Hfst.
  { intros l. rewrite fmap_imap. apply list_eq. intros i. rewrite list_lookup_imap. by destruct (l !! i). }
  assert (obj_wf (prev ++ imap f (unplaced prev.*1 names))) as Hwf'.
  { unfold obj_wf. rewrite fmap_app, Hfst. apply NoDup_app. split_and!; [done| |apply unplaced_NoDup].
    intros n Hn Hn'. by apply unplaced_elem in Hn' as [_ ?]. }
  split_and!; [done|..].
  - intros n p Hp. apply obj_get_elem; [done|]. apply elem_of_app. left. by apply obj_get_Some.
  - intros n Hn. destruct (obj_get _ n) as [p|] eqn:E; [by exists p|].
    apply obj_get_None in E. rewrite fmap_app, Hfst, elem_of_app, unplaced_elem in E.
    destruct (decide (n ∈ prev.*1)); tauto.
  - exists (imap f (unplaced prev.*1 names)). split_and!; [done|rewrite Hfst; apply unplaced_NoDup|].
    intros i n p Hi. rewrite list_lookup_imap in Hi. apply fmap_Some in Hi as (m & Hm & [= -> ->]).
    apply list_elem_of_lookup_2, unplaced_elem in Hm as [? ?]. split_and!; [done| |done].
    by apply obj_get_None.
Qed.

(** C26: pressing the mouse anywhere on an idle map, moving it and releasing it:
    the click that follows selects nothing exactly when some move went further
    than two pixels. *)
Theorem drag_is_not_click {T : Type} `{Num T} (cos sin : T → T) (PI : T) (tg : Target)
    (cx cy : T) (ms : list (T * T)) (s : Topo T) :
  idle s →
  let s' := topo_run cos sin PI (TDown tg cx cy :: moves ms ++ [TUp]) s in
  onSvgClick tg s' = [] ↔ existsb (λ m, dragged (m.1 - cx) (m.2 - cy))%num ms = true.
Proof.
  intros Hi s'. unfold onSvgClick, s'. rewrite (press_moves cos sin PI tg cx cy ms s Hi).
  destruct (existsb _ ms); [done|]. split; [|done]. by destruct (edge_key tg), (node_name tg).
Qed.

(** C18: a click on any part of the [i]-th connection selects its key, on any part
    of a service selects that service, anywhere else clears both selections. *)
Theorem map_click (snapshots : SnapshotMap) (services : ServiceMap)
    (selectedKey selectedNode : option string) (s : Topo number) (rest : list nat) :
  Tg.didDrag s = false →
  let snaps := obj_values snapshots in
  let v := topo_svg snapshots services selectedKey selectedNode s in
  (∀ i snap, snaps !! i = Some snap →
     onSvgClick (target_at (2 :: i :: rest) v) s = [OnSelect (Some (snap_key snap))])
  ∧ (∀ j n, all_names snaps !! j = Some n →
       onSvgClick (target_at (2 :: length snaps + j :: rest) v) s = [OnSelectNode (Some n)])
  ∧ (∀ path, path = [] ∨ head path = Some 0 ∨ head path = Some 1 ∨ path = [2] →
       onSvgClick (target_at path v) s = [OnSelect None; OnSelectNode None]).
Proof.
  intros Hd snaps v. unfold onSvgClick. rewrite Hd. unfold target_at. cbn [edge_key node_name].
  split_and!.
  - intros i snap Hi. unfold v, topo_svg. fold snaps. cbn [closest tag lookup list_lookup].
    rewrite lookup_app_l by (rewrite length_map; by eapply lookup_lt_Some).
    rewrite list_lookup_fmap, Hi. cbn [fmap option_fmap option_map]. by rewrite closest_edge.
  - intros j n Hj. unfold v, topo_svg. fold snaps. cbn [closest tag lookup list_lookup].
    rewrite lookup_app_r by (rewrite length_map; lia). rewrite length_map, Nat.add_sub', list_lookup_fmap, Hj.
    cbn [fmap option_fmap option_map]. rewrite closest_node, closest_lacks; [done|].
    apply node_view_lacks.
  - assert (∀ path name, lacks name defs = true → closest name path defs = None) as Hdefs
      by (intros; by apply closest_lacks).
    intros [|k path] Hp; [done|]. unfold v, topo_svg. fold snaps. cbn [closest tag].
    destruct Hp as [Hp|[[= ->]|[[= ->]|[= -> ->]]]]; [done| | |done]; cbn [lookup list_lookup].
    + by rewrite !Hdefs.
    + by rewrite !closest_lacks.
Qed.

(** Selecting a connection highlights exactly its two end points. *)
Theorem selection_highlights_endpoints (src dst name : string) :
  arrow_free src = true → arrow_free dst = true → arrow_free name = true →
  is_selected_node None (Some (conn_key src dst)) name = bool_decide (name = src ∨ name = dst).
Proof.
  intros Hs Hd Hn. unfold is_selected_node.
  rewrite bool_decide_false by done. rewrite bool_decide_false by (by destruct src). cbn [orb negb andb].
  rewrite starts_with_key, ends_with_key by done. by rewrite bool_decide_or.
Qed.

(** Witnesses. *)
Lemma wheel_keeps_point_witness :
  let t' := (handleWheel (-1) 110 220 (Some (Pos.mkPoint 10 20)) (Tg.mkTransform 10 20 1))%Q in
  ((100 - Tg.x t') / Tg.scale t' == (100 - 10) / 1 ∧ (200 - Tg.y t') / Tg.scale t' == (200 - 20) / 1)%Q.
Proof.
  exact (wheel_keeps_point (-1) 110 220 (Pos.mkPoint 10 20) (Tg.mkTransform 10 20 1) eq_refl)%Q.
Defined.

Lemma node_follows_mouse_witness :
  let p := (drag_node 2 (Tg.mkDrag "kafka" 0 0 (1 # 2) (1 # 2)) 100 0)%Q in
  ((0 + 2 * (Pos.x p * W)) - (0 + 2 * ((1 # 2) * W)) == 100 - 0)%Q.
Proof.
  apply (node_follows_mouse (Tg.mkTransform 0 0 2) (Tg.mkDrag "kafka" 0 0 (1 # 2) (1 # 2)) 100 0)%Q;
    [reflexivity|split; discriminate].
Defined.

Lemma placement_witness :
  let next := place_new (λ q, q) (λ q, q) 3%Q ["auth-svc"; "billing"; "billing"] NODE_POS in
  obj_wf next ∧ ∃ p, obj_get next "billing" = Some p.
Proof.
  destruct (placement (λ q : Q, q) (λ q, q) 3%Q ["auth-svc"; "billing"; "billing"] NODE_POS)
    as (Hwf & _ & Hall & _).
  - apply (bool_decide_unpack _). vm_compute. exact I.
  - split; [exact Hwf|]. apply Hall. right. left.
Defined.

Lemma drag_is_not_click_witness :
  let s' := topo_run (T:=Q) (λ q, q) (λ q, q) 3%Q
              (TDown (mkTarget None (Some "kafka")) 5%Q 5%Q :: moves [(6, 5)%Q; (9, 5)%Q] ++ [TUp]) topo_init in
  onSvgClick (mkTarget None (Some "kafka")) s' = []
  ↔ existsb (λ m : Q * Q, dragged (m.1 - 5%Q) (m.2 - 5%Q))%num [(6, 5)%Q; (9, 5)%Q] = true.
Proof.
  apply (drag_is_not_click (λ q : Q, q) (λ q, q) 3%Q (mkTarget None (Some "kafka")) 5%Q 5%Q
           [(6, 5)%Q; (9, 5)%Q] topo_init).
  split; reflexivity.
Defined.

Definition ex_snap (src dst : string) : StatSnapshot :=
  Snap.mkStat src dst Internal ExternalNode 0 0 0 0 0 0 0 0 false 0 None None None None None None.
Definition ex_snaps : SnapshotMap :=
  [("order-svc→kafka", ex_snap "order-svc" "kafka"); ("auth-svc→redis", ex_snap "auth-svc" "redis")].

Lemma map_click_witness :
  let v := topo_svg ex_snaps [] None None topo_init in
  onSvgClick (target_at [2; 1; 0] v) topo_init = [OnSelect (Some "auth-svc→redis")]
  ∧ onSvgClick (target_at [2; 3; 0] v) topo_init = [OnSelectNode (Some "kafka")]
  ∧ onSvgClick (target_at [1] v) topo_init = [OnSelect None; OnSelectNode None].
Proof.
  destruct (map_click ex_snaps [] None None topo_init [0] eq_refl) as (He & Hn & Ho).
  split; [|split].
  - exact (He 1 (ex_snap "auth-svc" "redis") eq_refl).
  - exact (Hn 1 "kafka" eq_refl).
  - apply Ho. right. right. left. reflexivity.
Defined.

Lemma selection_highlights_endpoints_witness :
  is_selected_node None (Some (conn_key "order-svc" "kafka")) "kafka" = true.
Proof.
  rewrite (selection_highlights_endpoints "order-svc" "kafka" "kafka"); reflexivity.
Defined.
