(* ===== verification/TopoFloat.v ===== *)
(** * The service map in machine arithmetic

    What the map keeps in bounds, proved of the binary64 program itself: its
    scale, the places of the services, and where they are drawn.  Coordinates of
    the mouse are any finite floats; products and differences of them may
    overflow, and the clamps of the source absorb that as long as no operation
    yields NaN. *)

From S2P Require Export TopoFacts.
From S2P Require Import FloatInterval.
From stdpp Require Import base list.

Local Open Scope num_scope.

(** ** Clamping *)
Lemma clamp_below (lo hi v : number) :
  finite lo → finite hi → nleb lo hi = true → nnan v = false → within lo (nmin hi (nmax lo v)) hi.
Proof.
  intros. assert (nnan lo = false ∧ nnan hi = false) as [? ?] by auto with js.
  assert (nnan (nmax lo v) = false) by by apply nmax_ok.
  apply within_intro; [done..|apply nmin_glb; [done|by apply nmax_ub_l]|by apply nmin_lb_l].
Qed.
Lemma clamp_above (lo hi v : number) :
  finite lo → finite hi → nleb lo hi = true → nnan v = false → within lo (nmax lo (nmin hi v)) hi.
Proof.
  intros. assert (nnan lo = false ∧ nnan hi = false) as [? ?] by auto with js.
  assert (nnan (nmin hi v) = false) by by apply nmin_ok.
  apply within_intro; [done..|by apply nmax_ub_l|apply nmax_lub; [done|by apply nmin_lb_l]].
Qed.

Lemma bounds_finite : finite (MIN_SCALE : number) ∧ finite (MAX_SCALE : number) ∧ (0 < fv (MIN_SCALE : number))%Z.
Proof. split_and!; feval. Qed.
Lemma above_min_pos s hi : within MIN_SCALE s hi → finite hi → (0 < fv s)%Z.
Proof. destruct bounds_finite as (? & _ & ?). intros Hs ?. pose proof (within_fv _ _ _ H H1 Hs). lia. Qed.

Definition scale_ok (t : Transform number) : Prop := within MIN_SCALE (Tg.scale t) MAX_SCALE.
Definition in_square (p : Point number) : Prop :=
  within N[0] (Pos.x p) N[1] ∧ within N[0] (Pos.y p) N[1].

Lemma handleWheel_scale dy cx cy rect t : scale_ok t → scale_ok (handleWheel dy cx cy rect t).
Proof.
  intros Ht. destruct rect; [|done]. apply clamp_below; [feval..|].
  apply fmul_fv; [by eapply within_finite|]. case_if; feval.
Qed.

Lemma zoom_in_scale t : scale_ok t → scale_ok (zoom_in t).
Proof.
  intros Ht. pose proof (within_mul_const _ _ _ (nlit 12 10 : number) Ht ltac:(feval) ltac:(feval)
    ltac:(feval) ltac:(feval) ltac:(feval) ltac:(feval)) as Hm.
  pose proof (within_ok _ _ _ Hm). apply within_intro; [feval..| |apply nmin_lb_l; [feval|done]].
  apply nmin_glb; [feval|]. eapply nleb_trans; [|by eapply within_lo]. feval.
Qed.

(** Zooming out divides: the quotient is at most the old scale. *)
Lemma zoom_out_scale t : scale_ok t → scale_ok (zoom_out t).
Proof.
  intros Ht. pose proof (within_finite _ _ _ Ht) as Hf.
  destruct (fdiv_bound (Tg.scale t) (nlit 12 10)) as [Hq Hb]; [done|feval|feval|].
  pose proof (above_min_pos _ _ Ht (proj1 (proj2 bounds_finite))).
  apply within_intro; [feval..|apply nmax_ub_l; [feval|auto with js]|].
  apply nmax_lub; [feval|]. eapply nleb_trans; [|by eapply within_hi].
  rewrite nleb_fv by auto with js. apply Z.leb_le. lia.
Qed.

(** ** Placement *)
Section Placement.
Context (cos sin : number → number) (PI : number).
Context (cos_finite : ∀ x, finite x → finite (cos x)) (sin_finite : ∀ x, finite x → finite (sin x)).
Context (PI_range : within N[3] PI N[4]).

Lemma idx_within i : (0 ≤ i < 2 ^ 53)%Z → within N[0] (N[i] : number) N[9007199254740991].
Proof.
  intros Hi. destruct (nofZ_fv i ltac:(lia)) as [Hv Hf].
  destruct (nofZ_fv 0 ltac:(lia)) as [Hv0 ?], (nofZ_fv 9007199254740991 ltac:(lia)) as [Hv1 ?].
  pose proof (pow_gt0 FloatRound.U ltac:(by rewrite U_val)).
  split_and!; [done| |]; rewrite nleb_fv by auto with js; apply Z.leb_le; nia.
Qed.

Lemma angle_finite i : (0 ≤ i < 2 ^ 53)%Z → finite ((N[i] * nlit 1375 10 * PI) / N[180]).
Proof using PI_range.
  intros Hi.
  pose proof (within_mul_const _ _ _ (nlit 1375 10 : number) (idx_within i Hi) ltac:(feval) ltac:(feval)
    ltac:(feval) ltac:(feval) ltac:(feval) ltac:(feval)) as Hm.
  pose proof (within_mul Hm PI_range ltac:(feval) ltac:(feval) ltac:(feval) ltac:(feval) ltac:(feval)
    ltac:(feval) ltac:(feval) ltac:(feval)) as Hp.
  apply fdiv_bound; [by eapply within_finite|feval|feval].
Qed.

Lemma tenth_in_unit (c : number) :
  finite c → within N[0] (nmin (nlit 9 10) (nmax (nlit 1 10) (nlit 5 10 + nlit 32 100 * c))) N[1].
Proof.
  intros Hc. eapply within_weaken; [apply clamp_below|feval|feval]; [feval..|].
  apply fadd_not_nan; [feval|]. apply fmul_fv; [feval|done].
Qed.

Lemma spiral_in_square i : (0 ≤ i < 2 ^ 53)%Z → in_square (spiral cos sin PI i).
Proof using All.
  intros Hi%angle_finite. split; apply tenth_in_unit; auto.
Qed.

Lemma node_pos_in_square name positions :
  Forall (λ p, in_square p.2) positions → in_square (node_pos name positions).
Proof.
  assert (Forall (λ p, in_square p.2) (NODE_POS : jsobj (Point number))) as HN.
  { unfold NODE_POS. repeat (apply Forall_cons_2; [split; split_and!; feval|]). apply Forall_nil_2. }
  rewrite Forall_forall in HN |- *. intros HP. unfold node_pos.
  destruct (obj_get positions name) as [p|] eqn:E; [by apply (HP (name, p)), obj_get_Some|].
  destruct (obj_get NODE_POS name) as [p|] eqn:E'; [by apply (HN (name, p)), obj_get_Some|].
  split; split_and!; feval.
Qed.

(** A dragged service: the quotient may be infinite, never NaN. *)
Lemma drag_coordinate (o scale size dist : number) :
  within N[0] o N[1] → within MIN_SCALE scale MAX_SCALE → nnan dist = false →
  finite size → nleb N[1] size = true → nleb size N[1000] = true →
  within N[0] (nmax N[0] (nmin N[1] (o + dist / (scale * size)))) N[1].
Proof.
  intros Ho Hs Hd Hsz H1 H2. apply clamp_above; [feval..|]. apply fadd_not_nan; [by eapply within_finite|].
  assert (within MIN_SCALE (scale * size) N[3000]) as Hm.
  { eapply (within_weaken (MIN_SCALE * N[1]) MIN_SCALE _ (MAX_SCALE * N[1000])); [|feval..].
    assert (within N[1] size N[1000]) as Hsize by by split_and!.
    exact (within_mul Hs Hsize ltac:(feval) ltac:(feval) ltac:(feval) ltac:(feval) ltac:(feval)
      ltac:(feval) ltac:(feval) ltac:(feval)). }
  apply fdiv_not_nan; [done|by eapply within_finite|].
  apply not_eq_sym, Z.lt_neq. by apply (above_min_pos _ _ Hm); feval.
Qed.

Lemma drag_node_in_square s (d : Tg.NodeDrag number) cx cy :
  within MIN_SCALE s MAX_SCALE → finite cx → finite cy → finite (Tg.dX d) → finite (Tg.dY d) →
  within N[0] (Tg.ox d) N[1] → within N[0] (Tg.oy d) N[1] → in_square (drag_node s d cx cy).
Proof.
  intros. split; (apply drag_coordinate; [done|done|by apply fsub_fv|feval..]).
Qed.

(** ** Sessions *)
Definition event_ok (e : TopoEvent number) : Prop :=
  match e with TDown _ cx cy | TMove cx cy => finite cx ∧ finite cy | _ => True end.
(** The places an event may add. *)
Definition event_places (e : TopoEvent number) : nat :=
  match e with TServices names => length names | TMove _ _ => 1 | _ => 0 end.

Record topo_ok (n : nat) (s : Topo number) : Prop := {
  to_scale : scale_ok (Tg.transform s);
  to_square : Forall (λ p, in_square p.2) (Tg.positions s);
  to_length : length (Tg.positions s) ≤ n;
  to_drag d : Tg.nodeDragRef s = Some d →
    finite (Tg.dX d) ∧ finite (Tg.dY d) ∧ within N[0] (Tg.ox d) N[1] ∧ within N[0] (Tg.oy d) N[1];
}.

Lemma unplaced_length known names : length (unplaced known names) ≤ length names.
Proof.
  revert known. induction names as [|m names IH]; intros known; simpl; [lia|].
  case_bool_decide; [specialize (IH known)|specialize (IH (known ++ [m]))]; simpl; lia.
Qed.
Lemma obj_set_length {V} (o : jsobj V) k v : length (obj_set o k v) ≤ S (length o).
Proof. induction o as [|[k' v'] o IH]; simpl; [done|]. case_bool_decide; simpl; lia. Qed.

Lemma topo_init_ok : topo_ok 11 topo_init.
Proof.
  split; [split_and!; feval| |simpl; lia|done]. unfold topo_init. cbn [Tg.positions]. unfold NODE_POS.
  repeat (apply Forall_cons_2; [split; split_and!; feval|]). apply Forall_nil_2.
Qed.

Lemma topo_step_ok n e s :
  topo_ok n s → event_ok e → (Z.of_nat (n + event_places e) < 2 ^ 53)%Z →
  topo_ok (n + event_places e) (topo_step cos sin PI e s).1.
Proof using All.
  intros [Hs Hp Hl Hd] He Hn. destruct e as [names|dy cx cy r|tg cx cy|cx cy| |tg| | | |]; cbn [topo_step fst event_places] in *.
  - case_bool_decide; [split; auto with lia|]. split; [done| | |done]; cbn [Tg.positions]; rewrite place_new_eq.
    + apply Forall_app. split; [done|]. apply Forall_lookup. intros i x Hi.
      rewrite list_lookup_imap in Hi. apply fmap_Some in Hi as (m & Hm%lookup_lt_Some & ->).
      pose proof (unplaced_length (Tg.positions s).*1 names). apply spiral_in_square. lia.
    + rewrite length_app, length_imap. pose proof (unplaced_length (Tg.positions s).*1 names). lia.
  - split; [by apply handleWheel_scale|done|simpl; lia|done].
  - unfold onMouseDown. destruct (node_name tg) as [name|]; (split; [done|done|simpl; lia|]); [|done].
    intros d [= <-]. destruct He. by destruct (node_pos_in_square name _ Hp).
  - unfold onMouseMove. destruct (Tg.nodeDragRef s) as [d|] eqn:E.
    + destruct He. destruct (Hd d) as (?&?&?&?); [done|]. split; [done| | |].
      * cbn [Tg.positions]. apply Forall_obj_set; [done|]. by apply drag_node_in_square.
      * cbn [Tg.positions]. pose proof (obj_set_length (Tg.positions s) (Tg.name d)
          (drag_node (Tg.scale (Tg.transform s)) d cx cy)). lia.
      * by intros ? [= <-].
    + case_match; split; try done; try (simpl; lia). intros ?. rewrite E. done.
  - split; [done|done|simpl; lia|done].
  - split; [done|done|simpl; lia|done].
  - split; [split_and!; feval|done|simpl; lia|done].
  - split; [by apply zoom_in_scale|done|simpl; lia|done].
  - split; [by apply zoom_out_scale|done|simpl; lia|done].
  - split; [split_and!; feval|done|simpl; lia|done].
Qed.

Lemma topo_run_ok es : ∀ n s,
  topo_ok n s → Forall event_ok es → (Z.of_nat (n + sum_list_with event_places es) < 2 ^ 53)%Z →
  topo_ok (n + sum_list_with event_places es) (topo_run cos sin PI es s).
Proof using All.
  induction es as [|e es IH]; intros n s Hs He Hn.
  - simpl. by rewrite Nat.add_0_r.
  - apply Forall_cons in He as [He Hes]. cbn [sum_list_with] in *. rewrite Nat.add_assoc in *.
    apply IH; [|done|done]. apply topo_step_ok; [done|done|lia].
Qed.
End Placement.

(** ** Theorem *)

(** C25: the map never leaves the screen, in binary64.  Whatever services arrive
    and whatever the mouse does at finite coordinates (as long as fewer than 2^53
    services are ever placed), the scale stays between 0.2 and 3, every service
    keeps its place in the unit square, so that its box is drawn from a corner
    inside the 1000 by 700 canvas, and a drag in progress has finite
    coordinates: no operation of the session yields NaN where it would stick. *)
Theorem map_stays_visible (cos sin : number → number) (PI : number) (es : list (TopoEvent number)) :
  (∀ x, finite x → finite (cos x)) → (∀ x, finite x → finite (sin x)) → within N[3] PI N[4] →
  Forall event_ok es → (Z.of_nat (11 + sum_list_with event_places es) < 2 ^ 53)%Z →
  let s := topo_run cos sin PI es topo_init in
  within (nlit 2 10) (Tg.scale (Tg.transform s)) N[3]
  ∧ Forall (λ p, in_square p.2) (Tg.positions s)
  ∧ (∀ name, within N[0] (nodeLeft name (Tg.positions s)) W ∧ within N[0] (nodeTop name (Tg.positions s)) H_)
  ∧ (∀ d, Tg.nodeDragRef s = Some d →
       ∀ cx cy, finite cx → finite cy → in_square (drag_node (Tg.scale (Tg.transform s)) d cx cy)).
Proof.
  intros Hcos Hsin HPI He Hn s.
  destruct (topo_run_ok cos sin PI Hcos Hsin HPI es _ _ topo_init_ok He Hn) as [Hs Hp _ Hd].
  fold s in Hs, Hp, Hd. split_and!; [exact Hs|exact Hp| |].
  - intros name. destruct (node_pos_in_square name _ Hp) as [Hx Hy].
    split; (eapply within_weaken; [eapply within_mul_const; [first [exact Hx|exact Hy]|feval..]|feval|feval]).
  - intros d Ed cx cy ? ?. destruct (Hd d Ed) as (?&?&?&?). by apply drag_node_in_square.
Qed.

(** A service is placed, dragged off the canvas with an overflowing mouse, and
    the map zoomed out. *)
Definition ex_far : list (TopoEvent number) :=
  [TServices ["billing"]; TDown (mkTarget None (Some "billing")) N[0] N[0];
   TMove (N[10] * nofZ (10 ^ 18)) (nneg N[1]); TUp; TZoomOut; TZoomOut].
Lemma map_stays_visible_witness :
  let s := topo_run (λ _, N[1]) (λ _, N[0]) N[3] ex_far topo_init in
  within (nlit 2 10) (Tg.scale (Tg.transform s)) N[3]
  ∧ within N[0] (nodeLeft "billing" (Tg.positions s)) W
  ∧ obj_get (Tg.positions s) "billing" = Some (Pos.mkPoint N[1] (node_pos "billing" (Tg.positions s)).(Pos.y)).
Proof.
  destruct (map_stays_visible (λ _, N[1]) (λ _, N[0]) N[3] ex_far) as (Hs & _ & Hn & _).
  - intros _ _. vm_compute. reflexivity.
  - intros _ _. vm_compute. reflexivity.
  - split_and!; vm_compute; reflexivity.
  - repeat apply Forall_cons_2; [exact I|split; feval|split; feval|exact I..|constructor].
  - vm_compute. reflexivity.
  - intros s. split; [exact Hs|]. split; [exact (proj1 (Hn "billing"))|]. vm_compute. reflexivity.
Defined.
