(* ===== verification/Detail.v ===== *)
(** * The detail panel: [frontend/src/components/DetailPanel.tsx]

    The panel shows the live history of the selected connection, or, when a
    time range is chosen, the rows the collector's history API returns.  Its
    state machine has the requests in flight as part of the state, because a
    response is stored when it arrives and nothing ties it to the range or the
    connection on display. *)

From Stdlib Require Import Ascii.
From S2P Require Export View.
From S2P Require Import FloatRound.
From stdpp Require Import base list.

#[local] Arguments String.append : simpl nomatch.

Inductive RangeKey := R1h | R6h | R24h | R7d | RAll.
#[export] Instance RangeKey_eq_dec : EqDecision RangeKey.
Proof. solve_decision. Defined.

(** The key as the API takes it, and the label of its button. *)
Definition range_text (r : RangeKey) : string :=
  match r with R1h => "1h" | R6h => "6h" | R24h => "24h" | R7d => "7d" | RAll => "all" end.
Definition RANGE_LABELS : list (RangeKey * string) :=
  [(R1h, "1h"); (R6h, "6h"); (R24h, "24h"); (R7d, "7d"); (RAll, "All")].

(** ** The request *)

(** [encodeURIComponent]: the unreserved characters stay, every other byte of
    the UTF-8 encoding becomes [%XX]. *)
Definition unreserved (a : ascii) : bool :=
  let n := nat_of_ascii a in
  ((48 <=? n) && (n <=? 57) || (65 <=? n) && (n <=? 90) || (97 <=? n) && (n <=? 122))%nat
  || bool_decide (a ∈ ["-"; "_"; "."; "!"; "~"; "*"; "'"; "("; ")"]%char).
Definition hex_digit (n : nat) : ascii := ascii_of_nat (if (n <? 10)%nat then 48 + n else 55 + n).
Fixpoint encodeURIComponent (s : string) : string :=
  match s with
  | EmptyString => EmptyString
  | String a s =>
      if unreserved a then String a (encodeURIComponent s)
      else String "%" (String (hex_digit (nat_of_ascii a / 16))
             (String (hex_digit (nat_of_ascii a mod 16)) (encodeURIComponent s)))
  end.

Definition COLLECTOR_BASE (hostname : string) : string := "http://" +:+ hostname +:+ ":9090".
Definition history_query (src dst : string) (r : RangeKey) : string :=
  "src=" +:+ encodeURIComponent src +:+ "&dst=" +:+ encodeURIComponent dst +:+ "&range=" +:+ range_text r.
Definition history_url (hostname src dst : string) (r : RangeKey) : string :=
  COLLECTOR_BASE hostname +:+ "/api/history?" +:+ history_query src dst r.

(** A row of the response, and the point it becomes. *)
Module Row.
Record Row := mkRow {
  ts : number; p50_us : number; p95_us : number; p99_us : number;
  avg_us : number; jitter_us : number;
}.
End Row.
Abbreviation Row := Row.Row.

Definition row_point (row : Row) : HistoryPoint :=
  HPoint.mkHPoint (Row.ts row) (Row.p99_us row) (Row.avg_us row) (Row.p50_us row)
    (Row.p95_us row) (Row.p99_us row) (Row.jitter_us row).

(** ** The state machine *)
Module Dt.
Record Request := mkReq { src : string; dst : string; rng : RangeKey }.
Record Panel := mkPanel {
  range : option RangeKey;                    (* none is Live *)
  dbHistory : option (list HistoryPoint);
  deps : option (string * string);            (* end points of the snapshot at the last commit *)
  inflight : list Request;                    (* sent and not answered, oldest first *)
}.
End Dt.
Abbreviation Request := Dt.Request.
Abbreviation Panel := Dt.Panel.
#[export] Instance Request_eq_dec : EqDecision Request.
Proof. solve_decision. Defined.

Definition panel_init : Panel := Dt.mkPanel None None None [].

Inductive PanelEvent :=
  | DProps (snap : option StatSnapshot)        (* a commit with new props *)
  | DRange (snap : option StatSnapshot) (r : RangeKey)   (* a range button under these props *)
  | DLive
  | DResponse (i : nat) (rows : option (list Row)).      (* none: fetch, json or map threw *)

Definition snap_ends (snap : option StatSnapshot) : option (string * string) :=
  (λ s, (Snap.src_service s, Snap.dst_service s)) <$> snap.

(** The effect keyed on the end points. *)
Definition reset_effect (snap : option StatSnapshot) (p : Panel) : Panel :=
  if bool_decide (snap_ends snap = Dt.deps p) then p
  else Dt.mkPanel None None (snap_ends snap) (Dt.inflight p).

Definition fetchHistory (src dst : string) (r : RangeKey) (p : Panel) : Panel :=
  Dt.mkPanel (Dt.range p) (Dt.dbHistory p) (Dt.deps p) (Dt.inflight p ++ [Dt.mkReq src dst r]).

(** The continuation of the awaited response. *)
Definition fetch_done (rows : option (list Row)) (p : Panel) : Panel :=
  match rows with
  | Some rows => Dt.mkPanel (Dt.range p) (Some (map row_point rows)) (Dt.deps p) (Dt.inflight p)
  | None => p
  end.

Definition handleRange (snap : option StatSnapshot) (r : RangeKey) (p : Panel) : Panel :=
  match snap with
  | None => p
  | Some snap =>
      fetchHistory (Snap.src_service snap) (Snap.dst_service snap) r
        (Dt.mkPanel (Some r) (Dt.dbHistory p) (Dt.deps p) (Dt.inflight p))
  end.

Definition handleLive (p : Panel) : Panel := Dt.mkPanel None None (Dt.deps p) (Dt.inflight p).

Definition panel_step (e : PanelEvent) (p : Panel) : Panel :=
  match e with
  | DProps snap => reset_effect snap p
  | DRange snap r => handleRange snap r p
  | DLive => handleLive p
  | DResponse i rows =>
      match Dt.inflight p !! i with
      | None => p
      | Some _ =>
          fetch_done rows (Dt.mkPanel (Dt.range p) (Dt.dbHistory p) (Dt.deps p)
            (delete i (Dt.inflight p)))
      end
  end.
Definition panel_run (es : list PanelEvent) (p : Panel) : Panel := foldl (λ p e, panel_step e p) p es.

Definition displayHistory (p : Panel) (history : list HistoryPoint) : list HistoryPoint :=
  match Dt.range p, Dt.dbHistory p with Some _, Some h => h | _, _ => history end.

(** ** The bar of close states: widths in per cent *)
Section CloseBar.
Context {T : Type} `{Num T}.
Local Open Scope num_scope.
Definition close_total (fin rst timeout : T) : T := fin + rst + timeout.
Definition close_width (n total : T) : T := n / total * N[100].
End CloseBar.

(** ** The view *)
Inductive PanelClick := PRange (r : RangeKey) | PLive | PClose | PChart.

Section DetailView.
Local Open Scope num_scope.
Abbreviation view := (html PanelClick).
(** The chart components are children of the panel. *)
Variable LatencyChart : list HistoryPoint → bool → view.
Variable ResourceChart : list ResourcePoint → view.

Definition show_num (n : number) : string := number_toString n.
Definition percent_of (n : number) : string := number_toString n +:+ "%".

Definition ChartHeader (title : string) (legend : list (string * string * bool)) : view :=
  div_ [span [] title;
        div_ (map (λ '(color, label, dash),
          el "div" [("key", label)] no_click
            [el "svg" [] no_click
               [el "line" ([("stroke", color)] ++ if dash : bool then [("strokeDasharray", "4,2")] else [])
                  no_click []];
             span [] label]) legend)].

Definition RangeBtn (label : string) (active : bool) (onClick : PanelClick) (accent : bool) : view :=
  el "button"
    [("border", "1px solid " +:+ if active then (if accent then "#6366f1" else "#64748b") else "var(--border)");
     ("background", if active then (if accent then "#6366f1" else "#334155") else "var(--bg-surface)");
     ("color", if active then "#fff" else "var(--text-muted)")]
    (on_click onClick) [text label].

Definition Chip (color label : string) : view :=
  el "span" [("border", "1px solid " +:+ color +:+ "40"); ("color", color)] no_click [text label].

Definition close_button : view := el "button" [] (on_click PClose) [text "✕"].

(** The resource cards of a service. *)
Definition node_metrics (svc : option ServiceSnapshot) : list (string * number * string) := [
  ("CPU", (Svc.cpu_pct <$> svc) ?? N[0], "#dc2626");
  ("IO Wait", (Svc.io_wait_pct <$> svc) ?? N[0], "#7c3aed");
  ("Mem Pressure", (Svc.mem_pressure_pct <$> svc) ?? N[0], "#ea580c");
  ("CPU Throttle", (Svc.cpu_throttle_pct <$> svc) ?? N[0], "#f59e0b")].

Definition metric_card (m : string * number * string) : view :=
  let '(label, value, color) := m in
  el "div" [("key", label)] no_click
    [el "div" [] no_click [text label];
     el "div" [("color", if value >? N[70] then color else "var(--text-primary)")] no_click
       [text (toFixed value 2); text "%"];
     el "div" [] no_click
       [el "div" [("width", percent_of (nmin N[100] value));
                  ("background", if value >? N[70] then color else "#94a3b8")] no_click []]].

Definition NodePanel (name : string) (svc : option ServiceSnapshot) : view :=
  div_
    (div_ [el "div" [] no_click [text "Service"]; div_ [span [] name; close_button]]
     :: match svc with
        | None => [el "div" [] no_click [text "리소스 데이터 수집 중…"]]
        | Some s =>
            [div_ (map metric_card (node_metrics svc));
             div_ [ChartHeader "Resource History"
                     [("#dc2626", "CPU", false); ("#7c3aed", "IO wait", false); ("#ea580c", "Mem", false)]];
             div_ [ResourceChart (Svc.history s)]]
        end).

Definition empty_panel : view :=
  div_ [el "svg" [] no_click [el "circle" [] no_click []; el "path" [] no_click []; el "circle" [] no_click []];
        div_ [el "div" [] no_click [text "연결 또는 서비스를 선택하세요"];
              el "div" [] no_click [text "엣지 클릭 → latency 분석 · 노드 클릭 → 서비스 리소스"]]].

(** The evidence chips of the cause banner. *)
Definition evidence (snap : StatSnapshot) : list string :=
  let chip (o : option number) (limit : number) (name : string) :=
    if (o ?? N[0]) >? limit
    then [name +:+ ": " +:+ ((λ n, toFixed n 0) <$> o) ?? "undefined" +:+ "%"] else [] in
  chip (Snap.dst_cpu_pct snap) N[50] "CPU"
  ++ chip (Snap.dst_io_wait_pct snap) N[20] "IO wait"
  ++ chip (Snap.dst_mem_pressure_pct snap) N[50] "Mem"
  ++ (if Snap.retransmit_count snap >? N[0]
      then ["Retrans: " +:+ show_num (Snap.retransmit_count snap)] else []).

Definition cause_banner (snap : StatSnapshot) : list view :=
  match Snap.is_spike snap, CAUSE_META <$> Snap.cause_kind snap with
  | true, Some meta =>
      let c := Meta.color meta in
      [el "div" [("background", "linear-gradient(135deg, " +:+ c +:+ "0d, " +:+ c +:+ "05)");
                 ("border", "1px solid " +:+ c +:+ "40"); ("borderLeft", "3px solid " +:+ c)] no_click
        [div_ (span [] "Root Cause Candidate"
               :: when_number (Snap.baseline_us snap) (λ b,
                    el "span" [] no_click [text (toFixed (Snap.p99_us snap / b) 1); text "× baseline"]));
         el "div" [("color", c)] no_click [text (Meta.icon meta); text " "; text (Meta.label meta)];
         el "div" [] no_click [text (Meta.desc meta)];
         div_ (map (Chip c) (evidence snap))]]
  | _, _ => []
  end.

Definition percentile_cards (snap : StatSnapshot) : view :=
  div_ (map (λ '(label, value, color),
          el "div" [("key", label)] no_click
            [el "div" [] no_click [text label];
             el "div" [("color", color)] no_click [text (fmtUs value)]])
    [("AVG", Snap.avg_us snap, "#2563eb"); ("P50", Snap.p50_us snap, "#16a34a");
     ("P95", Snap.p95_us snap, "#d97706");
     ("P99", Snap.p99_us snap, STATUS_COLOR (latencyStatus (Snap.p99_us snap)))]).

Definition secondary_metrics (snap : StatSnapshot) : view :=
  div_ (map (λ '(label, value, color),
          el "div" [("key", label)] no_click
            [el "div" [] no_click [text label]; el "div" [("color", color)] no_click [text value]])
    [("Jitter", fmtUs (Snap.jitter_us snap), "var(--text-muted)");
     ("Retransmits", show_num (Snap.retransmit_count snap),
        if Snap.retransmit_count snap >? N[0] then "#ea580c" else "var(--text-muted)");
     ("Samples", show_num (Snap.sample_count snap), "var(--text-muted)");
     ("Threshold", fmtUs (Snap.spike_threshold_us snap), "var(--text-muted)")]).

Definition snap_close_total (snap : StatSnapshot) : number :=
  let cs := Snap.close_states snap in
  close_total ((Close.fin <$> cs) ?? N[0]) ((Close.rst <$> cs) ?? N[0]) ((Close.timeout <$> cs) ?? N[0]).

Definition close_bar (snap : StatSnapshot) : list view :=
  let total := snap_close_total snap in
  match Snap.close_states snap with
  | Some cs =>
      when (total >? N[0])
        (div_
          [el "div" [] no_click [text "Close states · "; text (show_num total); text " total"];
           div_ [el "div" [("width", percent_of (close_width (Close.fin cs) total)); ("background", "#16a34a")] no_click [];
                 el "div" [("width", percent_of (close_width (Close.rst cs) total)); ("background", "#dc2626")] no_click [];
                 el "div" [("width", percent_of (close_width (Close.timeout cs) total)); ("background", "#ea580c")] no_click []];
           div_ (map (λ '(color, label, n),
                   el "div" [("key", label)] no_click
                     [el "div" [("background", color)] no_click [];
                      span [] label; span [] (show_num n)])
              [("#16a34a", "FIN", Close.fin cs); ("#dc2626", "RST", Close.rst cs);
               ("#ea580c", "TIMEOUT", Close.timeout cs)])])
  | None => []
  end.

Definition range_buttons (range : option RangeKey) : view :=
  div_ (RangeBtn "Live" (bool_decide (range = None)) PLive true
        :: map (λ '(key, label), RangeBtn label (bool_decide (range = Some key)) (PRange key) false)
             RANGE_LABELS).

Definition connection_panel (snap : StatSnapshot) (history : list HistoryPoint) (p : Panel) : view :=
  div_
    (div_ [el "div" [] no_click [text "Connection"];
           div_ [div_ [span [] (Snap.src_service snap); el "svg" [] no_click [el "path" [] no_click []];
                       span [] (Snap.dst_service snap)];
                 close_button]]
     :: cause_banner snap
     ++ [percentile_cards snap; secondary_metrics snap]
     ++ close_bar snap
     ++ [div_ [div_ [ChartHeader "Latency"
                       [("#2563eb", "AVG", true); ("#16a34a", "P50", false); ("#d97706", "P95", false);
                        ("#ea580c", "P99", false)];
                     range_buttons (Dt.range p)]];
         div_ [LatencyChart (displayHistory p history) (Snap.is_spike snap)]]).

Definition DetailPanel (snap : option StatSnapshot) (history : list HistoryPoint)
    (selectedNode : option string) (nodeService : option ServiceSnapshot) (p : Panel) : view :=
  match truthy selectedNode with
  | Some name => NodePanel name nodeService
  | None => match snap with
            | None => empty_panel
            | Some snap => connection_panel snap history p
            end
  end.
End DetailView.
