(* ===== verification/DetailFacts.v ===== *)
(** * Facts on the detail panel

    What history the panel shows, used patiently (no new request while one is
    in flight) and in general; the request reads back as the connection and the
    range; the close-state bar is full. *)

From Stdlib Require Import Ascii.
From S2P Require Import FloatRound TopoFacts.
From S2P Require Export Detail.
From stdpp Require Import base list.

(** ** Which history is shown *)
Section Panel.
Context (server : Request → option (list Row)).

(** The panels a user reaches while every response is the server's answer to
    its request.  Buttons act on the committed connection.  A patient user
    starts no request and leaves no connection while one is in flight. *)
Inductive reachable (patient : bool) : Panel → Prop :=
  | at_mount : reachable patient panel_init
  | on_props p snap :
      reachable patient p →
      (patient = true → snap_ends snap = Dt.deps p ∨ Dt.inflight p = []) →
      reachable patient (panel_step (DProps snap) p)
  | on_range p snap r :
      reachable patient p → snap_ends (Some snap) = Dt.deps p →
      (patient = true → Dt.inflight p = []) →
      reachable patient (panel_step (DRange (Some snap) r) p)
  | on_live p : reachable patient p → reachable patient (panel_step DLive p)
  | on_answer p i q :
      reachable patient p → Dt.inflight p !! i = Some q →
      reachable patient (panel_step (DResponse i (server q)) p).

(** The rows the selection asks for. *)
Definition wanted (p : Panel) : option (list HistoryPoint) :=
  match Dt.range p, Dt.deps p with
  | Some r, Some (s, d) => map row_point <$> server (Dt.mkReq s d r)
  | _, _ => None
  end.

Record patient_ok (p : Panel) : Prop := {
  one_request : length (Dt.inflight p) <= 1;
  answered : Dt.inflight p = [] → Dt.range p ≠ None → Dt.dbHistory p = wanted p;
  asked q : q ∈ Dt.inflight p → ∀ r, Dt.range p = Some r → Dt.deps p = Some (Dt.src q, Dt.dst q) ∧ Dt.rng q = r;
}.

Lemma patient_reachable p :
  (∀ q, is_Some (server q)) → reachable true p → patient_ok p.
Proof.
  intros Hs. induction 1 as [|p snap _ [H1 H2 H3] Hp|p snap r _ [H1 H2 H3] Hd Hp|p _ [H1 H2 H3]|p i q _ [H1 H2 H3] Hi].
  - split; simpl; [lia|done|by intros q ?%elem_of_nil].
  - unfold panel_step, reset_effect. case_bool_decide as Hd; [done|].
    destruct (Hp eq_refl) as [?|Hq]; [done|]. split; simpl; rewrite Hq; [simpl; lia|done|].
    by intros q ?%elem_of_nil.
  - simpl. rewrite (Hp eq_refl). split; simpl; [lia|done|].
    intros q ->%list_elem_of_singleton r' [= <-]. by rewrite <-Hd.
  - by split.
  - simpl. rewrite Hi. destruct (Hs q) as [rows Hrows].
    destruct (Dt.inflight p) as [|q' [|? ?]] eqn:E; simpl in H1; try (by destruct i); [|lia].
    destruct i as [|i]; [|by destruct i]. simpl in Hi. simplify_eq.
    rewrite Hrows. split; simpl; [lia| |by intros ? ?%elem_of_nil].
    intros _ Hr. unfold wanted. simpl. destruct (Dt.range p) as [r|]; [|done].
    destruct (H3 q ltac:(by apply list_elem_of_singleton) r eq_refl) as [-> <-]. destruct q. simpl.
    by rewrite Hrows.
Qed.

(** What the panel stores is the answer to a request of its own. *)
Lemma stored_is_answer b p h :
  reachable b p → Dt.dbHistory p = Some h → ∃ q, map row_point <$> server q = Some h.
Proof.
  intros Hr. revert h. induction Hr as [|p snap _ IH _|p snap r _ IH _ _|p _ IH|p i q _ IH Hi];
    intros h; simpl; try done.
  - unfold reset_effect. case_bool_decide; [apply IH|done].
  - apply IH.
  - rewrite Hi. destruct (server q) as [rows|] eqn:E; simpl; [|apply IH].
    intros [= <-]. exists q. by rewrite E.
Qed.

(** C17: the panel used patiently with an answering collector: without a range
    it shows the live history, and with a range, once the response is in, the
    rows of the selected connection and range, converted. *)
Theorem panel_shows_selection (p : Panel) (live : list HistoryPoint) :
  (∀ q, is_Some (server q)) → reachable true p →
  (Dt.range p = None → displayHistory p live = live)
  ∧ (Dt.inflight p = [] → Dt.range p ≠ None → Dt.deps p ≠ None →
       Some (displayHistory p live) = wanted p).
Proof.
  intros Hs Hr. unfold displayHistory. split; [by intros ->|]. intros Hq Hne Hd.
  pose proof (answered p (patient_reachable p Hs Hr) Hq Hne) as Ha. revert Ha.
  unfold wanted. destruct (Dt.range p) as [r|]; [|done]. destruct (Dt.deps p) as [[s d]|]; [|done].
  destruct (Hs (Dt.mkReq s d r)) as [rows ->]. by intros ->.
Qed.

(** C32: nothing ties a response to the selection: the answer to an earlier
    request, for another connection and another range, can be the last to
    arrive, and then it is what the panel shows, with no request left to
    correct it. *)
Theorem stale_response_shown (a b : StatSnapshot) (ra rb : RangeKey) (rows_a rows_b : list Row) :
  snap_ends (Some a) ≠ snap_ends (Some b) →
  server (Dt.mkReq (Snap.src_service a) (Snap.dst_service a) ra) = Some rows_a →
  server (Dt.mkReq (Snap.src_service b) (Snap.dst_service b) rb) = Some rows_b →
  ∃ p, reachable false p ∧ Dt.inflight p = [] ∧ Dt.deps p = snap_ends (Some b) ∧ Dt.range p = Some rb
       ∧ ∀ live, displayHistory p live = map row_point rows_a.
Proof.
  intros Hne Ha Hb.
  set (p1 := panel_step (DRange (Some a) ra) (panel_step (DProps (Some a)) panel_init)).
  set (p2 := panel_step (DRange (Some b) rb) (panel_step (DProps (Some b)) p1)).
  assert (reachable false p1) as R1.
  { apply on_range; [|done|done]. by apply on_props; [constructor|]. }
  assert (p2 = Dt.mkPanel (Some rb) None (snap_ends (Some b))
    [Dt.mkReq (Snap.src_service a) (Snap.dst_service a) ra;
     Dt.mkReq (Snap.src_service b) (Snap.dst_service b) rb]) as E2.
  { subst p2 p1. simpl. unfold reset_effect. simpl.
    rewrite bool_decide_eq_false_2; [done|]. simpl. intros [= E1 E2]. apply Hne. simpl. congruence. }
  assert (reachable false p2) as R2.
  { apply on_range; [by apply on_props| |done].
    subst p1. simpl. unfold reset_effect. by case_bool_decide. }
  rewrite E2 in R2. clearbody p2. clear E2.
  pose proof (on_answer false _ 1 _ R2 eq_refl) as R3. simpl in R3. rewrite Hb in R3.
  pose proof (on_answer false _ 0 _ R3 eq_refl) as R4. simpl in R4. rewrite Ha in R4.
  eexists. split; [exact R4|done].
Qed.
End Panel.

(** ** Requests that fail *)

(** What an event does that the page can notice: an answer counts with the
    request it answers, and a failure does not count. *)
Inductive Noticed :=
  | NProps (snap : option StatSnapshot)
  | NRange (snap : option StatSnapshot) (r : RangeKey)
  | NLive
  | NRows (q : Request) (rows : list Row).

Definition noticed_step (e : PanelEvent) (p : Panel) : list Noticed :=
  match e with
  | DProps snap => [NProps snap]
  | DRange snap r => [NRange snap r]
  | DLive => [NLive]
  | DResponse i (Some rows) => (λ q, NRows q rows) <$> option_list (Dt.inflight p !! i)
  | DResponse _ None => []
  end.
Fixpoint noticed (es : list PanelEvent) (p : Panel) : list Noticed :=
  match es with
  | [] => []
  | e :: es => noticed_step e p ++ noticed es (panel_step e p)
  end.

Definition failure (e : PanelEvent) : bool :=
  match e with DResponse _ None => true | _ => false end.

(** The same panel, but for requests that the first has given up. *)
Record given_up (p p' : Panel) : Prop := {
  gu_range : Dt.range p = Dt.range p';
  gu_rows : Dt.dbHistory p = Dt.dbHistory p';
  gu_deps : Dt.deps p = Dt.deps p';
  gu_inflight : sublist (Dt.inflight p) (Dt.inflight p');
}.

Lemma sublist_delete_lookup {A} (l k : list A) i x :
  sublist l k → l !! i = Some x → ∃ j, k !! j = Some x ∧ sublist (delete i l) (delete j k).
Proof.
  intros H. revert i. induction H as [|y l k H IH|y l k H IH]; intros i Hi.
  - done.
  - destruct i as [|i]; simplify_eq/=; [by exists 0|].
    destruct (IH i Hi) as (j & Hj & Hs). exists (S j). split; [done|by apply sublist_skip].
  - destruct (IH i Hi) as (j & Hj & Hs). exists (S j). split; [done|by apply sublist_cons].
Qed.

(** One event of the one panel is at most one event of the other, no failure. *)
Lemma given_up_step e p p' :
  given_up p p' → ∃ es', Forall (λ e, failure e = false) es' ∧ noticed es' p' = noticed_step e p
    ∧ given_up (panel_step e p) (panel_run es' p').
Proof.
  destruct p as [r h d q], p' as [r' h' d' q']. intros [Hr Hh Hd Hs]. simpl in *. subst r' h' d'.
  destruct e as [snap|[snap|] rg| |i rows].
  - exists [DProps snap]. split; [by repeat constructor|]. split; [done|].
    cbn. unfold reset_effect. simpl. by case_bool_decide.
  - exists [DRange (Some snap) rg]. split; [by repeat constructor|]. split; [done|].
    by split; simpl; [..|apply sublist_app].
  - exists [DRange None rg]. by split; [repeat constructor|].
  - exists [DLive]. by split; [repeat constructor|].
  - simpl. destruct (q !! i) as [x|] eqn:E; [|by exists []; destruct rows].
    destruct (sublist_delete_lookup _ _ _ _ Hs E) as (j & Hj & Hd).
    destruct rows as [rows|].
    + exists [DResponse j (Some rows)]. split; [by repeat constructor|]. simpl. by rewrite Hj.
    + exists []. do 2 (split; [done|]). split; try done. simpl.
      etransitivity; [apply sublist_delete|exact Hs].
Qed.

Lemma noticed_app es es' p : noticed (es ++ es') p = noticed es p ++ noticed es' (panel_run es p).
Proof. revert p. induction es as [|e es IH]; intros p; [done|]. simpl. by rewrite IH, app_assoc. Qed.

Lemma given_up_run es p p' :
  given_up p p' → ∃ es', Forall (λ e, failure e = false) es' ∧ noticed es' p' = noticed es p
    ∧ given_up (panel_run es p) (panel_run es' p').
Proof.
  revert p p'. induction es as [|e es IH]; intros p p' H; [by exists []|].
  destruct (given_up_step e p p' H) as (es1 & F1 & N1 & H1).
  destruct (IH _ _ H1) as (es2 & F2 & N2 & H2).
  exists (es1 ++ es2). split; [by apply Forall_app|]. split.
  - by rewrite noticed_app, N1, N2.
  - unfold panel_run in *. by rewrite foldl_app.
Qed.

Lemma given_up_view LC RC snap history node svc p p' :
  given_up p p' → DetailPanel LC RC snap history node svc p = DetailPanel LC RC snap history node svc p'.
Proof.
  destruct p, p'. intros [Hr Hh _ _]. simpl in *. subst.
  unfold DetailPanel, connection_panel, displayHistory. by destruct (truthy node), snap.
Qed.

(** C33: a failed request leaves no trace.  Over any sequence of commits,
    clicks, answers and failures, what the panel shows is what it shows in a
    run with the same commits and clicks and the same answers to the same
    requests, in which nothing fails and the failed requests are never
    answered: a failure cannot be told from a slow collector.  In particular,
    from any panel, when a new range is picked and its request fails, the
    button of the new range is lit over whatever rows are stored (those of an
    earlier range, or an answer that came while the panel was live), and over
    the live history when none are. *)
Theorem failed_request_is_silent LC RC (es : list PanelEvent) :
  (∃ es', Forall (λ e, failure e = false) es'
     ∧ noticed es' panel_init = noticed es panel_init
     ∧ sublist (Dt.inflight (panel_run es panel_init)) (Dt.inflight (panel_run es' panel_init))
     ∧ ∀ snap history node svc,
         DetailPanel LC RC snap history node svc (panel_run es panel_init)
         = DetailPanel LC RC snap history node svc (panel_run es' panel_init))
  ∧ (∀ snap r, let p := panel_run es panel_init in
       let p' := panel_run [DRange (Some snap) r; DResponse (length (Dt.inflight p)) None] p in
       p' = Dt.mkPanel (Some r) (Dt.dbHistory p) (Dt.deps p) (Dt.inflight p)
       ∧ ∀ live, displayHistory p' live = default live (Dt.dbHistory p)).
Proof.
  split.
  - destruct (given_up_run es panel_init panel_init) as (es' & F & N & H); [done|].
    exists es'. split_and!; [done|done|apply H|]. intros. by apply given_up_view.
  - intros snap r p p'.
    assert (p' = Dt.mkPanel (Some r) (Dt.dbHistory p) (Dt.deps p) (Dt.inflight p)) as E.
    { subst p'. destruct p as [r0 h d q]. cbn. rewrite list_lookup_middle by done. simpl. f_equal.
      by rewrite delete_middle, app_nil_r. }
    rewrite E. split; [done|]. intros live. simpl. by destruct (Dt.dbHistory p).
Qed.

(** ** The request reads back *)
Definition hex_value (a : ascii) : option nat :=
  let n := nat_of_ascii a in
  if ((48 <=? n) && (n <=? 57))%nat then Some (n - 48)
  else if ((65 <=? n) && (n <=? 70))%nat then Some (n - 55)
  else if ((97 <=? n) && (n <=? 102))%nat then Some (n - 87)
  else None.

(** Percent-decoding of a query component, as a server does it. *)
Fixpoint query_unescape (s : string) : option string :=
  match s with
  | EmptyString => Some EmptyString
  | String "%" (String h (String l s)) =>
      match hex_value h, hex_value l, query_unescape s with
      | Some h, Some l, Some s => Some (String (ascii_of_nat (16 * h + l)) s)
      | _, _, _ => None
      end
  | String "%" _ => None
  | String "+" s => String " " <$> query_unescape s
  | String a s => String a <$> query_unescape s
  end.

(** [s] cut at the first [c]. *)
Fixpoint cut (c : ascii) (s : string) : string * option string :=
  match s with
  | EmptyString => (EmptyString, None)
  | String a s =>
      if bool_decide (a = c) then (EmptyString, Some s)
      else let '(h, t) := cut c s in (String a h, t)
  end.
Fixpoint split_all (fuel : nat) (c : ascii) (s : string) : list string :=
  match fuel with
  | 0 => [s]
  | S fuel => match cut c s with (h, None) => [h] | (h, Some t) => h :: split_all fuel c t end
  end.
Definition parse_pair (s : string) : option (string * string) :=
  let '(k, v) := cut "=" s in
  match query_unescape k, query_unescape (v ?? "") with Some k, Some v => Some (k, v) | _, _ => None end.
Definition parse_query (s : string) : list (option (string * string)) :=
  map parse_pair (split_all (String.length s) "&" s).

Lemma hex_round (a : ascii) :
  let h := hex_digit (nat_of_ascii a / 16) in let l := hex_digit (nat_of_ascii a mod 16) in
  hex_value h = Some (nat_of_ascii a / 16) ∧ hex_value l = Some (nat_of_ascii a mod 16)
  ∧ h ≠ "&"%char ∧ l ≠ "&"%char ∧ h ≠ "="%char ∧ l ≠ "="%char
  ∧ ascii_of_nat (16 * (nat_of_ascii a / 16) + nat_of_ascii a mod 16) = a.
Proof.
  destruct a as [[] [] [] [] [] [] [] []]; vm_compute; split_and!; (reflexivity || discriminate).
Qed.

Lemma unreserved_plain a : unreserved a = true → a ≠ "%"%char ∧ a ≠ "+"%char ∧ a ≠ "&"%char ∧ a ≠ "="%char.
Proof. intros H. split_and!; intros ->; discriminate H. Qed.

Lemma query_unescape_plain a s :
  a ≠ "%"%char → a ≠ "+"%char → query_unescape (String a s) = String a <$> query_unescape s.
Proof.
  intros H1 H2. destruct a as [[] [] [] [] [] [] [] []]; try done.
Qed.

Lemma unescape_encode s : query_unescape (encodeURIComponent s) = Some s.
Proof.
  induction s as [|a s IH]; [done|]. cbn [encodeURIComponent]. destruct (unreserved a) eqn:E.
  - apply unreserved_plain in E as (?&?&_). by rewrite query_unescape_plain, IH.
  - destruct (hex_round a) as (Hh&Hl&_&_&_&_&Ha). cbn [query_unescape]. rewrite Hh, Hl, IH.
    by rewrite Ha.
Qed.

Lemma cut_app c s t : cut c s = (s, None) → cut c (s +:+ String c t) = (s, Some t).
Proof.
  induction s as [|a s IH]; simpl; [by rewrite bool_decide_eq_true_2|].
  case_bool_decide; [done|]. destruct (cut c s) as [h o]. intros [= -> ->]. by rewrite IH.
Qed.

Lemma cut_encode c s : c = "&"%char ∨ c = "="%char → cut c (encodeURIComponent s) = (encodeURIComponent s, None).
Proof.
  intros Hc. induction s as [|a s IH]; [done|]. cbn [encodeURIComponent]. destruct (unreserved a) eqn:E.
  - apply unreserved_plain in E as (_&_&?&?). cbn [cut].
    rewrite bool_decide_eq_false_2 by naive_solver. by rewrite IH.
  - destruct (hex_round a) as (_&_&?&?&?&?&_). cbn [cut].
    rewrite !bool_decide_eq_false_2 by naive_solver. by rewrite IH.
Qed.

Lemma cut_none_app c s t : cut c s = (s, None) → cut c t = (t, None) → cut c (s +:+ t) = (s +:+ t, None).
Proof.
  intros Hs Ht. induction s as [|a s IH]; [done|]. revert Hs. simpl.
  case_bool_decide; [done|]. destruct (cut c s) as [h o]. intros [= -> ->]. by rewrite IH.
Qed.

Lemma split_all_more n c s t : cut c s = (s, None) → split_all (S n) c (s +:+ String c t) = s :: split_all n c t.
Proof. intros H. simpl. by rewrite cut_app. Qed.
Lemma split_all_last n c s : cut c s = (s, None) → split_all n c s = [s].
Proof. intros H. destruct n; simpl; [done|]. by rewrite H. Qed.

Lemma parse_pair_field k e v :
  cut "=" k = (k, None) → query_unescape k = Some k → query_unescape e = Some v →
  parse_pair (k +:+ String "=" e) = Some (k, v).
Proof. intros Hc Hk He. unfold parse_pair. rewrite cut_app by done. simpl. by rewrite Hk, He. Qed.

(** C30: the request's query string reads back, whatever bytes the names
    contain, as exactly the selected source, destination and range. *)
Theorem history_url_parses (hostname src dst : string) (r : RangeKey) :
  cut "?" hostname = (hostname, None) →
  cut "?" (history_url hostname src dst r)
    = (COLLECTOR_BASE hostname +:+ "/api/history", Some (history_query src dst r))
  ∧ parse_query (history_query src dst r)
    = [Some ("src", src); Some ("dst", dst); Some ("range", range_text r)].
Proof.
  intros Hh. split.
  - unfold history_url.
    replace (COLLECTOR_BASE hostname +:+ "/api/history?" +:+ history_query src dst r)
      with ((COLLECTOR_BASE hostname +:+ "/api/history") +:+ String "?" (history_query src dst r))
      by (by rewrite str_app_assoc).
    apply cut_app. unfold COLLECTOR_BASE. repeat apply cut_none_app; done.
  - unfold parse_query.
    replace (history_query src dst r) with
      (("src=" +:+ encodeURIComponent src) +:+ String "&"
        (("dst=" +:+ encodeURIComponent dst) +:+ String "&" ("range=" +:+ range_text r)))
      by (unfold history_query; by rewrite !str_app_assoc).
    change (String.length _) with (S (S (S (String.length
      (String "=" (encodeURIComponent src) +:+ String "&"
        (("dst=" +:+ encodeURIComponent dst) +:+ String "&" ("range=" +:+ range_text r))))))).
    assert (∀ p s, cut "&" p = (p, None) → cut "&" (p +:+ encodeURIComponent s) = (p +:+ encodeURIComponent s, None))
      as Hfield by (intros; apply cut_none_app; [done|by apply cut_encode; left]).
    rewrite split_all_more by by apply Hfield.
    rewrite split_all_more by by apply Hfield.
    rewrite split_all_last by by destruct r.
    unfold map.
    f_equal; [|f_equal; [|f_equal]].
    + by apply (parse_pair_field "src"), unescape_encode.
    + by apply (parse_pair_field "dst"), unescape_encode.
    + by destruct r.
Qed.

(** ** The close-state bar *)

(** In exact arithmetic the three segments of the bar are non-negative
    and fill it whenever the bar is shown. *)
Theorem close_bar_full (fin rst timeout : Q) :
  (0 <= fin)%Q → (0 <= rst)%Q → (0 <= timeout)%Q →
  let total := close_total fin rst timeout in
  (0 < total)%Q →
  (0 <= close_width fin total ∧ 0 <= close_width rst total ∧ 0 <= close_width timeout total)%Q
  ∧ (close_width fin total + close_width rst total + close_width timeout total == 100)%Q.
Proof.
  intros Hf Hr Ht total Hpos.
  assert (∀ n, (0 <= n)%Q → (0 <= close_width n total)%Q) as Hn.
  { intros n Hn. unfold close_width. simpl. apply Qmult_le_0_compat; [|done].
    apply Qle_shift_div_l; [done|]. by rewrite Qmult_0_l. }
  split; [by auto|]. unfold close_width; subst total; unfold close_total in *; simpl in *.
  field. intros E. rewrite E in Hpos. by apply Qlt_irrefl in Hpos.
Qed.

(** ** The buttons *)
Lemma range_buttons_events range :
  click_events (range_buttons range) = PLive :: map (λ p, PRange p.1) RANGE_LABELS.
Proof. done. Qed.

Lemma connection_panel_events LC snap history p :
  (∀ h b, click_events (LC h b) = []) →
  click_events (connection_panel LC snap history p) = PClose :: PLive :: map (λ q, PRange q.1) RANGE_LABELS.
Proof.
  intros HLC. unfold connection_panel. cbn [click_events div_ flat_map app].
  rewrite !flat_map_app. cbn [flat_map app].
  assert (flat_map click_events (cause_banner snap) = []) as ->.
  { unfold cause_banner. destruct (Snap.is_spike snap), (CAUSE_META <$> Snap.cause_kind snap); try done.
    cbn [flat_map click_events div_ span app]. rewrite no_events_map by done.
    unfold when_number. destruct (Snap.baseline_us snap); [|done]. by case_if. }
  rewrite flat_map_app. assert (flat_map click_events (close_bar snap) = []) as ->.
  { unfold close_bar. destruct (Snap.close_states snap); [|done]. by apply no_events_when. }
  cbn [app flat_map click_events div_]. rewrite HLC. done.
Qed.

(** With children that raise nothing, the panel of a service can only be
    closed, the empty panel raises nothing, and the panel of a connection is
    closed, sent back to live, or sent to one of the five ranges. *)
Theorem panel_buttons LC RC snap history node svc p :
  (∀ h b, click_events (LC h b) = []) → (∀ h, click_events (RC h) = []) →
  click_events (DetailPanel LC RC snap history node svc p)
  = match truthy node, snap with
    | Some _, _ => [PClose]
    | None, None => []
    | None, Some _ => PClose :: PLive :: map (λ q, PRange q.1) RANGE_LABELS
    end.
Proof.
  intros HLC HRC. unfold DetailPanel. destruct (truthy node) as [name|].
  - unfold NodePanel. destruct svc as [s|]; [|done]. simpl. by rewrite HRC.
  - destruct snap as [snap|]; [by apply connection_panel_events|done].
Qed.

(** Witnesses: a collector that answers with one row. *)
Definition ex_row (z : Z) : Row := Row.mkRow N[z]%num N[1]%num N[2]%num N[3]%num N[4]%num N[5]%num.
Definition ex_server (q : Request) : option (list Row) :=
  Some [ex_row (match Dt.rng q with R1h => 1 | _ => 2 end)].
Definition ex_conn : StatSnapshot := ex_snap "a" "b".
Definition ex_answered : Panel :=
  panel_step (DResponse 0 (ex_server (Dt.mkReq "a" "b" R1h)))
    (panel_step (DRange (Some ex_conn) R1h) (panel_step (DProps (Some ex_conn)) panel_init)).

Lemma panel_shows_selection_witness :
  (Dt.range ex_answered = None → displayHistory ex_answered [] = [])
  ∧ (Dt.inflight ex_answered = [] → Dt.range ex_answered ≠ None → Dt.deps ex_answered ≠ None →
       Some (displayHistory ex_answered []) = wanted ex_server ex_answered).
Proof.
  apply (panel_shows_selection ex_server ex_answered []); [by eexists|].
  apply (on_answer ex_server true (panel_step (DRange (Some ex_conn) R1h)
    (panel_step (DProps (Some ex_conn)) panel_init)) 0 (Dt.mkReq "a" "b" R1h)); [|reflexivity].
  apply on_range; [|reflexivity|reflexivity]. apply on_props; [apply at_mount|right; reflexivity].
Defined.

Lemma stale_response_shown_witness :
  ∃ p, reachable ex_server false p ∧ Dt.inflight p = []
    ∧ Dt.deps p = snap_ends (Some (ex_snap "c" "d")) ∧ Dt.range p = Some R6h
    ∧ ∀ live, displayHistory p live = map row_point [ex_row 1].
Proof.
  apply (stale_response_shown ex_server ex_conn (ex_snap "c" "d") R1h R6h [ex_row 1] [ex_row 2]);
    [discriminate|reflexivity|reflexivity].
Defined.

(** A range, back to live, the late answer, then a range whose request fails:
    the display goes from the live history to the rows of the first range, and
    the run in which the second request is never answered shows the same. *)
Definition ex_late : list PanelEvent :=
  [DProps (Some ex_conn); DRange (Some ex_conn) R1h; DLive; DResponse 0 (Some [ex_row 1])].
Lemma failed_request_is_silent_witness :
  let p := panel_run ex_late panel_init in
  let p' := panel_run [DRange (Some ex_conn) R6h; DResponse 0 None] p in
  Dt.range p' = Some R6h ∧ displayHistory p [] = [] ∧ displayHistory p' [] = map row_point [ex_row 1].
Proof.
  destruct (proj2 (failed_request_is_silent (λ _ _, text "") (λ _, text "") ex_late)
    ex_conn R6h) as [H1 H2].
  split; [exact (f_equal Dt.range H1)|]. split; [reflexivity|exact (H2 [])].
Defined.

Lemma history_url_parses_witness :
  cut "?" (history_url "localhost" "a&b" "c=d%" R6h)
    = (COLLECTOR_BASE "localhost" +:+ "/api/history", Some (history_query "a&b" "c=d%" R6h))
  ∧ parse_query (history_query "a&b" "c=d%" R6h)
    = [Some ("src", "a&b"); Some ("dst", "c=d%"); Some ("range", "6h")].
Proof. apply (history_url_parses "localhost" "a&b" "c=d%" R6h). reflexivity. Defined.

Lemma close_bar_full_witness :
  ((0 <= close_width 6 8 ∧ 0 <= close_width 1 8 ∧ 0 <= close_width 1 8)
   ∧ close_width 6 8 + close_width 1 8 + close_width 1 8 == 100)%Q.
Proof. apply (close_bar_full 6 1 1); [discriminate|discriminate|discriminate|reflexivity]. Defined.

Lemma panel_buttons_witness :
  click_events (DetailPanel (λ _ _, text "chart") (λ _, text "chart") (Some ex_conn) [] None None panel_init)
  = PClose :: PLive :: map (λ q, PRange q.1) RANGE_LABELS.
Proof. apply (panel_buttons _ _ (Some ex_conn) [] None None); reflexivity. Defined.
