(* ===== verification/ListView.v ===== *)
(** * The connection list: [frontend/src/components/ConnectionListView.tsx]

    A filter, a sort column and a direction over the snapshots of the store;
    a click on a row selects its connection. *)

From S2P Require Export View.
From S2P Require Import FloatRound FloatInterval.
From stdpp Require Import base list.

Inductive FilterMode := FAll | FSpiking | FStressed.
Inductive SortCol := SConnection | SP50 | SP95 | SP99 | SRetrans.
Inductive SortDir := Asc | Desc.
#[export] Instance FilterMode_eq_dec : EqDecision FilterMode.
Proof. solve_decision. Defined.
#[export] Instance SortCol_eq_dec : EqDecision SortCol.
Proof. solve_decision. Defined.
#[export] Instance SortDir_eq_dec : EqDecision SortDir.
Proof. solve_decision. Defined.

Module Ls.
Record ListState := mkList { filter : FilterMode; sortCol : SortCol; sortDir : SortDir }.
End Ls.
Abbreviation ListState := Ls.ListState.
Definition list_init : ListState := Ls.mkList FAll SP99 Desc.

Inductive ListEvent := LFilter (m : FilterMode) | LSort (c : SortCol) | LSelect (key : string).

Definition flip (d : SortDir) : SortDir := match d with Asc => Desc | Desc => Asc end.
Definition handleSort (col : SortCol) (s : ListState) : ListState :=
  if bool_decide (col = Ls.sortCol s)
  then Ls.mkList (Ls.filter s) (Ls.sortCol s) (flip (Ls.sortDir s))
  else Ls.mkList (Ls.filter s) col Desc.

(** The state after an event, and the argument of [onSelect] if it is called. *)
Definition list_step (e : ListEvent) (s : ListState) : ListState * option string :=
  match e with
  | LFilter m => (Ls.mkList m (Ls.sortCol s) (Ls.sortDir s), None)
  | LSort c => (handleSort c s, None)
  | LSelect key => (s, Some key)
  end.

Section List.
Local Open Scope num_scope.
(** [a.localeCompare(b)]: the collation of the browser's locale. *)
Variable localeCompare : string → string → number.

Definition stressed (s : StatSnapshot) : bool :=
  ((Snap.dst_cpu_pct s ?? N[0]) >? N[70]) || ((Snap.dst_io_wait_pct s ?? N[0]) >? N[30])
  || ((Snap.dst_mem_pressure_pct s ?? N[0]) >? N[70]).

Definition spikingCount (snaps : list StatSnapshot) : nat := length (List.filter Snap.is_spike snaps).
Definition stressedCount (snaps : list StatSnapshot) : nat :=
  length (List.filter (λ s, bool_decide (is_Some (Snap.dst_cpu_pct s)) && stressed s) snaps).

Definition keep (m : FilterMode) (s : StatSnapshot) : bool :=
  match m with FAll => true | FSpiking => Snap.is_spike s | FStressed => stressed s end.

Definition sort_value (c : SortCol) (s : StatSnapshot) : number :=
  match c with
  | SP50 => Snap.p50_us s | SP95 => Snap.p95_us s | SP99 => Snap.p99_us s
  | SRetrans => Snap.retransmit_count s
  | SConnection => N[0]
  end.

(** The comparator; [a] goes after [b] when it is positive. *)
Definition row_cmp (c : SortCol) (d : SortDir) (a b : StatSnapshot) : number :=
  match c with
  | SConnection =>
      let ak := snap_key a in
      let bk := snap_key b in
      match d with Asc => localeCompare ak bk | Desc => localeCompare bk ak end
  | _ =>
      let av := sort_value c a in
      let bv := sort_value c b in
      match d with Asc => av - bv | Desc => bv - av end
  end.
Definition row_gt (c : SortCol) (d : SortDir) (a b : StatSnapshot) : bool := row_cmp c d a b >? N[0].

Definition filtered (snaps : list StatSnapshot) (s : ListState) : list StatSnapshot :=
  js_sort (row_gt (Ls.sortCol s) (Ls.sortDir s)) (List.filter (keep (Ls.filter s)) snaps).

(** ** The view *)
Abbreviation view := (html ListEvent).

Definition sortIcon (s : ListState) (col : SortCol) : string :=
  if bool_decide (Ls.sortCol s = col)
  then match Ls.sortDir s with Asc => " ▲" | Desc => " ▼" end else "".

Definition th (s : ListState) (col : SortCol) (name : string) : view :=
  el "th" [("textAlign", if bool_decide (col = SConnection) then "left" else "right")]
    (on_click (LSort col)) [text name; text (sortIcon s col)].

Definition chips (snaps : list StatSnapshot) : list (FilterMode * string * string) := [
  (FAll, "all", "All · " +:+ pretty (length snaps));
  (FSpiking, "spiking", "🔴 Spiking · " +:+ pretty (spikingCount snaps));
  (FStressed, "stressed", "⚡ Stressed · " +:+ pretty (stressedCount snaps))].

Definition chip_view (s : ListState) (c : FilterMode * string * string) : view :=
  let '(mode, key, label) := c in
  let on := bool_decide (Ls.filter s = mode) in
  el "button"
    [("key", key); ("borderColor", if on then "#2563eb" else "var(--border)");
     ("background", if on then "#eff6ff" else "var(--bg-surface)");
     ("color", if on then "#2563eb" else "var(--text-secondary)")]
    (on_click (LFilter mode)) [text label].

Definition CausePill (cause : option CauseKind) : list view :=
  when_some cause (λ c,
    let meta := CAUSE_META c in
    el "span" [("background", Meta.color meta +:+ "14"); ("border", "1px solid " +:+ Meta.color meta +:+ "40");
               ("color", Meta.color meta)] no_click [text (Meta.icon meta); text " "; text (Meta.label meta)]).

Definition row_view (selectedKey : option string) (snap : StatSnapshot) : view :=
  let key := snap_key snap in
  let selected := bool_decide (selectedKey = Some key) in
  let status := latencyStatus (Snap.p99_us snap) in
  let isExt := bool_decide (Snap.dst_type snap = ExternalNode) in
  let cell attrs s := el "td" attrs no_click [text s] in
  el "tr"
    ([("key", key)] ++ (if selected then [("background", "#eff6ff")] else [])
     ++ [("borderLeft", if selected then "3px solid #2563eb" else "3px solid transparent")])
    (on_click (LSelect key))
    [el "td" [] no_click
       [div_ (when (Snap.is_spike snap) (span [("background", "#dc2626")] "")
              ++ [el "span" [] no_click [text (Snap.src_service snap); text " → "; text (Snap.dst_service snap)]]
              ++ when isExt (span [] "EXT"))];
     cell [] (fmtUs (Snap.p50_us snap));
     cell [] (fmtUs (Snap.p95_us snap));
     cell [("color", STATUS_COLOR status)] (fmtUs (Snap.p99_us snap));
     cell [("color", if Snap.retransmit_count snap >? N[0] then "#ea580c" else "var(--text-faint)")]
       (number_toString (Snap.retransmit_count snap));
     el "td" [] no_click
       (match Snap.is_spike snap, Snap.cause_kind snap with
        | true, Some c => CausePill (Some c)
        | _, _ => [span [("background", STATUS_BG status); ("color", STATUS_COLOR status)] (status_text status)]
        end)].

Definition ConnectionListView (snapshots : SnapshotMap) (selectedKey : option string) (s : ListState) : view :=
  let snaps := obj_values snapshots in
  div_
    [div_ (map (chip_view s) (chips snaps) ++ [span [] "click column header to sort"]);
     div_ [el "table" [] no_click
       [el "colgroup" [] no_click (replicate 6 (el "col" [] no_click []));
        el "thead" [] no_click
          [el "tr" [] no_click
             [th s SConnection "Connection"; th s SP50 "P50"; th s SP95 "P95"; th s SP99 "P99";
              th s SRetrans "Retrans"; el "th" [("textAlign", "center")] no_click [text "Status"]]];
        el "tbody" [] no_click (map (row_view selectedKey) (filtered snaps s))]]].
End List.

(** ** The rows *)

(** The order of the columns: by value, or by the collation of the names. *)
Definition in_order (localeCompare : string → string → number) (c : SortCol) (d : SortDir)
    (a b : StatSnapshot) : Prop :=
  let '(x, y) := match d with Asc => (a, b) | Desc => (b, a) end in
  match c with
  | SConnection => nltb N[0]%num (localeCompare (snap_key x) (snap_key y)) = false
  | _ => nleb (sort_value c x) (sort_value c y) = true
  end.

Section Rows.
Context (localeCompare : string → string → number).
Context (Hlc : consistent (λ _, True) (λ a b, nltb N[0]%num (localeCompare a b))).

Definition sortable (c : SortCol) (s : StatSnapshot) : Prop := finite (sort_value c s).

Lemma row_gt_in_order c d a b :
  sortable c a → sortable c b → row_gt localeCompare c d a b = false ↔ in_order localeCompare c d a b.
Proof.
  unfold sortable, row_gt, in_order, row_cmp.
  destruct c, d; intros Ha Hb; first [done | exact (by_difference_le _ _ Ha Hb) | exact (by_difference_le _ _ Hb Ha)].
Qed.

Lemma consistent_on {A B} (P : A → Prop) (Q : B → Prop) (f : A → B) (gt : B → B → bool) :
  consistent Q gt → (∀ a, P a → Q (f a)) → consistent P (λ x y, gt (f x) (f y)).
Proof. intros [H1 H2] Hf. split; eauto. Qed.

Lemma consistent_converse {A} (P : A → Prop) (gt : A → A → bool) :
  consistent P gt → consistent P (λ x y, gt y x).
Proof. intros [H1 H2]. split; eauto. Qed.

Lemma row_gt_consistent c d : consistent (sortable c) (row_gt localeCompare c d).
Proof.
  assert (∀ f : StatSnapshot → number, consistent (λ s, finite (f s)) (λ a b, by_difference (f a) (f b)))
    as Hv by (intros f; by eapply consistent_on; [apply by_difference_consistent|]).
  assert (consistent (sortable SConnection)
    (λ a b, nltb N[0]%num (localeCompare (snap_key a) (snap_key b)))) as Hk
    by exact (consistent_on _ (λ _, True) snap_key (λ a b, nltb N[0]%num (localeCompare a b)) Hlc (λ _ _, I)).
  destruct c, d.
  - exact Hk.
  - exact (consistent_converse _ _ Hk).
  - exact (Hv Snap.p50_us).
  - exact (consistent_converse _ _ (Hv Snap.p50_us)).
  - exact (Hv Snap.p95_us).
  - exact (consistent_converse _ _ (Hv Snap.p95_us)).
  - exact (Hv Snap.p99_us).
  - exact (consistent_converse _ _ (Hv Snap.p99_us)).
  - exact (Hv Snap.retransmit_count).
  - exact (consistent_converse _ _ (Hv Snap.retransmit_count)).
Qed.

(** C19: the rows are exactly the snapshots the filter keeps, each once, and
    every row is in the chosen order with every later one, when the values of
    the column are finite and the collation is a consistent comparator. *)
Theorem list_rows (snaps : list StatSnapshot) (s : ListState) :
  Forall (sortable (Ls.sortCol s)) snaps →
  filtered localeCompare snaps s ≡ₚ List.filter (keep (Ls.filter s)) snaps
  ∧ ∀ i j a b, i < j → filtered localeCompare snaps s !! i = Some a →
      filtered localeCompare snaps s !! j = Some b →
      in_order localeCompare (Ls.sortCol s) (Ls.sortDir s) a b.
Proof.
  intros Hs. split; [apply js_sort_perm|]. intros i j a b Hij Hi Hj.
  assert (Forall (sortable (Ls.sortCol s)) (filtered localeCompare snaps s)) as Hf.
  { unfold filtered. rewrite js_sort_perm. rewrite Forall_forall in Hs. apply Forall_forall.
    intros x Hx%list_elem_of_In%filter_In. apply Hs. apply list_elem_of_In. tauto. }
  rewrite Forall_forall in Hf.
  apply row_gt_in_order; [by eapply Hf, list_elem_of_lookup_2..|].
  eapply (ordered_lookup _ (filtered localeCompare snaps s)); [|exact Hij|done|done].
  apply (js_sort_ordered (sortable (Ls.sortCol s))); [apply row_gt_consistent|].
  apply Forall_forall. rewrite Forall_forall in Hs. intros x Hx%list_elem_of_In%filter_In.
  apply Hs. apply list_elem_of_In. tauto.
Qed.
End Rows.

(** ** The chips *)

(** The chips announce the rows of their filter: all of them for "all"
    and "spiking", and for "stressed" all but the stressed connections that
    report no CPU figure, which are listed and not counted. *)
Theorem chip_counts lc (snaps : list StatSnapshot) (c : SortCol) (d : SortDir) :
  let rows m := length (filtered lc snaps (Ls.mkList m c d)) in
  rows FAll = length snaps
  ∧ rows FSpiking = spikingCount snaps
  ∧ rows FStressed = stressedCount snaps
      + length (List.filter (λ s, bool_decide (Snap.dst_cpu_pct s = None) && stressed s) snaps).
Proof.
  simpl. unfold filtered. rewrite !length_js_sort. cbn [Ls.filter]. split_and!.
  - induction snaps as [|s l IH]; [done|]. simpl in *. by rewrite IH.
  - done.
  - unfold stressedCount, keep. induction snaps as [|s l IH]; [done|]. simpl.
    destruct (Snap.dst_cpu_pct s) eqn:E, (stressed s) eqn:Es; simpl; rewrite ?IH; simpl; try lia.
Qed.

(** ** The column headers *)

(** The first click on a header sorts by that column, largest first, and
    every further click reverses the direction; nothing else changes. *)
Theorem header_clicks (col : SortCol) (s : ListState) (n : nat) :
  col ≠ Ls.sortCol s →
  Nat.iter (S n) (λ s, (list_step (LSort col) s).1) s
  = Ls.mkList (Ls.filter s) col (if Nat.even n then Desc else Asc).
Proof.
  intros Hc. induction n as [|n IH].
  - simpl. unfold handleSort. by rewrite bool_decide_eq_false_2.
  - change (Nat.iter (S (S n)) ?f s) with (f (Nat.iter (S n) f s)). rewrite IH.
    replace (Nat.even (S n)) with (negb (Nat.even n)) by (by rewrite Nat.even_succ, Nat.negb_even).
    cbn [list_step fst]. unfold handleSort. cbn [Ls.sortCol Ls.sortDir Ls.filter].
    rewrite bool_decide_eq_true_2 by done. by destruct (Nat.even n).
Qed.

(** ** Clicks on rows *)
Lemma row_inert selectedKey snap :
  match row_view selectedKey snap with el _ _ _ kids => forallb inert kids = true | _ => False end.
Proof.
  unfold row_view. simpl. by destruct (Snap.is_spike snap), (Snap.cause_kind snap), (bool_decide _).
Qed.

(** A click anywhere in the row of a connection selects that connection. *)
Theorem row_click lc snapshots selectedKey s (i : nat) (path : list nat) (snap : StatSnapshot) :
  filtered lc (obj_values snapshots) s !! i = Some snap →
  clicks_at ([1; 0; 2; i] ++ path) (ConnectionListView lc snapshots selectedKey s)
  = [LSelect (snap_key snap)].
Proof.
  intros Hi. unfold clicks_at, ConnectionListView, div_. cbn [app].
  do 3 (erewrite bubble_through by reflexivity).
  erewrite bubble_through by (rewrite lookup_map, Hi; reflexivity).
  pose proof (row_inert selectedKey snap) as Hr. unfold row_view in *. by rewrite bubble_on.
Qed.

(** Witnesses: three connections, collation by code units. *)
Definition ex_collate (a b : string) : number :=
  if string_gt a b then N[1]%num else if string_gt b a then N[-1]%num else N[0]%num.
Lemma ex_collate_consistent :
  consistent (λ _, True) (λ a b, nltb N[0]%num (ex_collate a b)).
Proof.
  assert (∀ a b, nltb N[0]%num (ex_collate a b) = string_gt a b) as E.
  { intros a b. unfold ex_collate. destruct (string_gt a b); [reflexivity|].
    by destruct (string_gt b a). }
  destruct string_gt_consistent as [H1 H2]. split; intros *; rewrite !E; eauto.
Qed.

Definition ex_stat (src dst : string) (p99 : Z) (spike : bool) (cpu mem : option number) : StatSnapshot :=
  Snap.mkStat src dst Internal Internal N[0]%num N[0]%num N[0]%num N[0]%num N[p99]%num N[0]%num
    N[0]%num N[0]%num spike N[0]%num None None cpu None mem None.
Definition ex_rows : list StatSnapshot := [
  ex_stat "a" "b" 10 false (Some N[10]%num) None;
  ex_stat "b" "c" 30 true (Some N[90]%num) None;
  ex_stat "c" "d" 20 false None (Some N[90]%num)].
Definition ex_by_p99 : ListState := Ls.mkList FAll SP99 Desc.

Lemma list_rows_witness :
  filtered ex_collate ex_rows ex_by_p99 ≡ₚ List.filter (keep FAll) ex_rows
  ∧ ∀ i j a b, i < j → filtered ex_collate ex_rows ex_by_p99 !! i = Some a →
      filtered ex_collate ex_rows ex_by_p99 !! j = Some b → in_order ex_collate SP99 Desc a b.
Proof.
  apply (list_rows ex_collate ex_collate_consistent ex_rows ex_by_p99).
  repeat apply Forall_cons_2; [reflexivity..|apply Forall_nil_2].
Defined.

Lemma header_clicks_witness :
  Nat.iter 2 (λ s, (list_step (LSort SP50) s).1) list_init = Ls.mkList FAll SP50 Asc.
Proof. apply (header_clicks SP50 list_init 1). discriminate. Defined.

Lemma row_click_witness :
  clicks_at [1; 0; 2; 0; 0; 0] (ConnectionListView ex_collate (map (λ s, (snap_key s, s)) ex_rows) None ex_by_p99)
  = [LSelect (conn_key "b" "c")].
Proof.
  apply (row_click ex_collate (map (λ s, (snap_key s, s)) ex_rows) None ex_by_p99 0 [0; 0]
    (ex_stat "b" "c" 30 true (Some N[90]%num) None)).
  vm_compute. reflexivity.
Defined.
