(* ===== verification/Heatmap.v ===== *)
(** * The adjacency matrix: [frontend/src/components/HeatmapMatrixView.tsx]

    One row per source, one column per destination, one coloured cell per
    connection. *)

From S2P Require Export Store View.
From stdpp Require Import base list.

#[local] Arguments String.append : simpl nomatch.

Definition src_set (snaps : list StatSnapshot) : list string :=
  set_add_all [] (map Snap.src_service snaps).
Definition dst_set (snaps : list StatSnapshot) : list string :=
  set_add_all [] (map Snap.dst_service snaps).
(** [[...set].sort()] *)
Definition matrix_srcs (snapshots : SnapshotMap) : list string :=
  js_sort string_gt (src_set (obj_values snapshots)).
Definition matrix_dsts (snapshots : SnapshotMap) : list string :=
  js_sort string_gt (dst_set (obj_values snapshots)).
Definition snapMap (snaps : list StatSnapshot) : jsobj StatSnapshot :=
  foldl (λ m s, obj_set m (snap_key s) s) [] snaps.

(** [svc?.stress_kind !== null]: [undefined] is not [null]. *)
Definition isStressed (services : ServiceMap) (name : string) : bool :=
  match obj_get services name with
  | None => true
  | Some svc => bool_decide (Svc.stress_kind svc ≠ None)
  end.

Abbreviation view := (html string).            (* a click selects a key *)
Definition CELL : string := "30".

Definition label_style (services : ServiceMap) (name : string) : list (string * string) :=
  [("color", if isStressed services name then "#dc2626" else "var(--text-muted)");
   ("fontWeight", if isStressed services name then "600" else "400")].
Definition column_label (services : ServiceMap) (dst : string) : view :=
  el "th" [("key", dst); ("minWidth", CELL)] no_click
    [el "div" (label_style services dst) no_click [text dst]].
Definition row_label (services : ServiceMap) (src : string) : view :=
  el "td" (label_style services src) no_click [text src].

Definition newline : string := String (Ascii.ascii_of_nat 10) EmptyString.

Definition cell (snapMap : jsobj StatSnapshot) (selectedKey : option string) (src dst : string) : view :=
  let key := conn_key src dst in
  match obj_get snapMap key with
  | None =>
      el "td" [("key", dst)] no_click
        [el "div" [("width", CELL); ("height", CELL); ("background", "#f8fafc")] no_click []]
  | Some snap =>
      let selected := bool_decide (selectedKey = Some key) in
      let spike := Snap.is_spike snap in
      let status := latencyStatus (Snap.p99_us snap) in
      el "td" [("key", dst)] no_click
        [el "div"
          ([("title", src +:+ " → " +:+ dst +:+ newline +:+ "P99 " +:+ fmtUs (Snap.p99_us snap) +:+ " · "
                      +:+ if spike then "SPIKE" else status_text status);
            ("width", CELL); ("height", CELL); ("background", STATUS_COLOR status);
            ("border", if selected then "2px solid #0f172a"
                       else if spike then "2px solid #dc2626" else "1px solid transparent")]
           ++ (if selected then [("boxShadow", "0 0 0 2px #2563eb55")] else [])
           ++ (if spike then [("animation", "matrixPulse 1.2s infinite")] else []))
          (on_click key)
          (when spike (el "div" [("background", "#ffffff")] no_click []))]
  end.

Definition matrix_row (services : ServiceMap) (snapMap : jsobj StatSnapshot)
    (selectedKey : option string) (dsts : list string) (src : string) : view :=
  el "tr" [("key", src)] no_click
    (row_label services src :: map (cell snapMap selectedKey src) dsts).

Definition matrix_legend : view :=
  div_ (map (λ '(color, label),
    el "div" [("key", label)] no_click [el "div" [("background", color)] no_click []; span [] label])
    [("#16a34a", "OK"); ("#d97706", "Warn"); ("#ea580c", "High"); ("#dc2626", "Critical")]).

Definition HeatmapMatrixView (snapshots : SnapshotMap) (services : ServiceMap)
    (selectedKey : option string) : view :=
  let srcs := matrix_srcs snapshots in
  let dsts := matrix_dsts snapshots in
  let m := snapMap (obj_values snapshots) in
  div_
    [div_ [span [] "Adjacency matrix — row=source, column=destination, color=P99"; matrix_legend];
     div_ [el "table" [] no_click
       [el "thead" [] no_click
          [el "tr" [] no_click
             (el "th" [("minWidth", "100")] no_click [] :: map (column_label services) dsts)];
        el "tbody" [] no_click (map (matrix_row services m selectedKey dsts) srcs)]]].

(** ** Every connection has its cell *)

(** What the cell in row [i] and column [j] shows. *)
Definition shown_at (snapshots : SnapshotMap) (i j : nat) : option StatSnapshot :=
  match matrix_srcs snapshots !! i, matrix_dsts snapshots !! j with
  | Some src, Some dst => obj_get (snapMap (obj_values snapshots)) (conn_key src dst)
  | _, _ => None
  end.

Lemma snapMap_get snaps k s :
  obj_get (snapMap snaps) k = Some s → s ∈ snaps ∧ snap_key s = k.
Proof.
  unfold snapMap. induction snaps as [|x snaps IH] using rev_ind; [done|].
  rewrite foldl_app. simpl. destruct (decide (snap_key x = k)) as [<-|Hne].
  - rewrite obj_get_set_eq. intros [= <-]. set_solver.
  - rewrite obj_get_set_ne by done. intros [? ?]%IH. set_solver.
Qed.

Lemma snapMap_unique snaps s :
  s ∈ snaps → (∀ t, t ∈ snaps → snap_key t = snap_key s → t = s) →
  obj_get (snapMap snaps) (snap_key s) = Some s.
Proof.
  intros Hs Hu. destruct (obj_get (snapMap snaps) (snap_key s)) as [t|] eqn:E.
  - apply snapMap_get in E as [Ht Hk]. by rewrite (Hu t Ht Hk).
  - exfalso. revert Hs E. clear Hu. unfold snapMap.
    induction snaps as [|x snaps IH] using rev_ind; [by intros ?%elem_of_nil|].
    rewrite elem_of_app, list_elem_of_singleton, foldl_app. simpl.
    destruct (decide (snap_key x = snap_key s)) as [->|Hne].
    + by rewrite obj_get_set_eq.
    + rewrite obj_get_set_ne by done. intros [Hs| ->]; [by apply IH|done].
Qed.

Lemma sorted_set_NoDup xs : NoDup (js_sort string_gt (set_add_all [] xs)).
Proof. rewrite js_sort_perm. apply set_add_all_NoDup, NoDup_nil_2. Qed.
Lemma sorted_set_ordered xs : ordered string_gt (js_sort string_gt (set_add_all [] xs)).
Proof.
  apply (js_sort_ordered (λ _, True)); [apply string_gt_consistent|].
  by apply Forall_forall.
Qed.
Lemma sorted_set_elem xs x : x ∈ js_sort string_gt (set_add_all [] xs) ↔ x ∈ xs.
Proof. rewrite js_sort_perm, elem_of_set_add_all. set_solver. Qed.

Section Matrix.
Context (snapshots : SnapshotMap) (Hwf : obj_wf snapshots).
Context (Hkey : ∀ k s, obj_get snapshots k = Some s → snap_key s = k).

Lemma value_unique s t :
  s ∈ obj_values snapshots → t ∈ obj_values snapshots → snap_key t = snap_key s → t = s.
Proof.
  rewrite !obj_values_elem by done. intros [k Hk] [k' Hk'] Heq.
  rewrite (Hkey _ _ Hk), (Hkey _ _ Hk') in Heq. subst. by simplify_eq.
Qed.
End Matrix.

Lemma run_keyed tr k s : obj_get (Store.snapshots (run tr)) k = Some s → snap_key s = k.
Proof. intros Hk. symmetry. by apply (inv_keyed _ (run_inv tr)). Qed.

Lemma shown_at_elim snapshots i j s :
  shown_at snapshots i j = Some s →
  s ∈ obj_values snapshots ∧ ∃ src dst, matrix_srcs snapshots !! i = Some src
    ∧ matrix_dsts snapshots !! j = Some dst ∧ snap_key s = conn_key src dst.
Proof.
  unfold shown_at. destruct (matrix_srcs snapshots !! i) as [src|]; [|done].
  destruct (matrix_dsts snapshots !! j) as [dst|]; [|done].
  intros [Hin Hk]%snapMap_get. eauto 6.
Qed.

(** C20: the matrix of every store the dashboard reaches, for names without an
    arrow: its rows and columns are the sources and the destinations, each
    once, in code unit order, and every connection is shown in exactly one
    cell, the one of its source and its destination. *)
Theorem matrix_cells (tr : Trace) :
  let snapshots := Store.snapshots (run tr) in
  Forall (λ s, arrow_free (Snap.src_service s) = true) (obj_values snapshots) →
  (ordered string_gt (matrix_srcs snapshots) ∧ ordered string_gt (matrix_dsts snapshots))
  ∧ (∀ s, s ∈ obj_values snapshots →
       ∃ i j, shown_at snapshots i j = Some s
         ∧ ∀ i' j', shown_at snapshots i' j' = Some s → i' = i ∧ j' = j)
  ∧ (∀ i j s, shown_at snapshots i j = Some s →
       matrix_srcs snapshots !! i = Some (Snap.src_service s)
       ∧ matrix_dsts snapshots !! j = Some (Snap.dst_service s)).
Proof.
  intros snapshots Haf. rewrite Forall_forall in Haf.
  assert (∀ i j s, shown_at snapshots i j = Some s →
       matrix_srcs snapshots !! i = Some (Snap.src_service s)
       ∧ matrix_dsts snapshots !! j = Some (Snap.dst_service s)) as Hback.
  { intros i j s (Hin&src&dst&Hi&Hj&Hk)%shown_at_elim.
    apply conn_key_inj in Hk as [<- <-]; [done|by apply Haf|].
    apply list_elem_of_lookup_2, sorted_set_elem, list_elem_of_In, in_map_iff in Hi as (t&<-&Ht).
    by apply Haf, list_elem_of_In. }
  split; [split; apply sorted_set_ordered|]. split; [|done]. intros s Hs.
  assert (Snap.src_service s ∈ matrix_srcs snapshots) as [i Hi]%list_elem_of_lookup.
  { apply sorted_set_elem, list_elem_of_In, in_map, list_elem_of_In, Hs. }
  assert (Snap.dst_service s ∈ matrix_dsts snapshots) as [j Hj]%list_elem_of_lookup.
  { apply sorted_set_elem, list_elem_of_In, in_map, list_elem_of_In, Hs. }
  exists i, j. split.
  - unfold shown_at. rewrite Hi, Hj. apply snapMap_unique; [done|].
    intros t Ht. apply (value_unique snapshots (inv_snapshots_wf _ (run_inv tr)) (run_keyed tr)); done.
  - intros i' j' [Hi' Hj']%Hback. split.
    + by apply (NoDup_lookup (matrix_srcs snapshots) _ _ (Snap.src_service s) (sorted_set_NoDup _)).
    + by apply (NoDup_lookup (matrix_dsts snapshots) _ _ (Snap.dst_service s) (sorted_set_NoDup _)).
Qed.

(** A click on a coloured cell selects the connection it shows; an empty
    cell does nothing. *)
Theorem matrix_click (snapshots : SnapshotMap) services selectedKey (i j : nat) (path : list nat) :
  i < length (matrix_srcs snapshots) → j < length (matrix_dsts snapshots) →
  clicks_at ([1; 0; 1; i; S j; 0] ++ path) (HeatmapMatrixView snapshots services selectedKey)
  = match shown_at snapshots i j with Some s => [snap_key s] | None => [] end.
Proof.
  intros [src Hi]%lookup_lt_is_Some_2 [dst Hj]%lookup_lt_is_Some_2.
  unfold clicks_at, HeatmapMatrixView, div_. cbn [app].
  do 3 (erewrite bubble_through by reflexivity).
  erewrite bubble_through by (rewrite lookup_map, Hi; reflexivity).
  unfold matrix_row. erewrite bubble_through by exact (lookup_map_S _ _ _ _ _ Hj).
  unfold shown_at, cell. rewrite Hi, Hj.
  destruct (obj_get _ (conn_key src dst)) as [s|] eqn:Es; erewrite bubble_through by reflexivity.
  - rewrite bubble_on by by apply inert_when. by apply snapMap_get in Es as [_ ->].
  - by rewrite bubble_inert.
Qed.

(** With the real collector a row or column label of the matrix is red
    exactly when the collector has sent no resource data for the service:
    [undefined !== null], and no service it has data for is ever stressed. *)
Theorem red_means_unknown (tr : Trace) (name : string) :
  find_attr "color" (label_style (Store.services (run tr)) name) = Some "#dc2626"
  ↔ obj_get (Store.services (run tr)) name = None.
Proof.
  simpl. unfold isStressed. destruct (obj_get _ name) as [svc|] eqn:E; [|done].
  rewrite (run_no_stress tr name svc E). rewrite bool_decide_eq_false_2; [done|]. intros H; by apply H.
Qed.

Lemma matrix_cells_witness :
  (ordered string_gt (matrix_srcs (Store.snapshots (run sample_trace)))
   ∧ ordered string_gt (matrix_dsts (Store.snapshots (run sample_trace))))
  ∧ (∀ s, s ∈ obj_values (Store.snapshots (run sample_trace)) →
       ∃ i j, shown_at (Store.snapshots (run sample_trace)) i j = Some s
         ∧ ∀ i' j', shown_at (Store.snapshots (run sample_trace)) i' j' = Some s → i' = i ∧ j' = j)
  ∧ (∀ i j s, shown_at (Store.snapshots (run sample_trace)) i j = Some s →
       matrix_srcs (Store.snapshots (run sample_trace)) !! i = Some (Snap.src_service s)
       ∧ matrix_dsts (Store.snapshots (run sample_trace)) !! j = Some (Snap.dst_service s)).
Proof. apply (matrix_cells sample_trace). repeat apply Forall_cons_2; [reflexivity..|apply Forall_nil_2]. Defined.

Lemma matrix_click_witness :
  clicks_at [1; 0; 1; 0; 1; 0] (HeatmapMatrixView [(conn_key "a" "b", sample_snap "a" "b" 3 true)] [] None)
  = [conn_key "a" "b"].
Proof.
  apply (matrix_click [(conn_key "a" "b", sample_snap "a" "b" 3 true)] [] None 0 0 []);
    vm_compute; repeat constructor.
Defined.
