(* ===== verification/Metrics.v ===== *)
(** * The figures and the log

    [frontend/src/components/StatCard.tsx], [GlobalMetrics.tsx], [TopBar.tsx]
    with its clock, and [SpikeLog.tsx]. *)

From S2P Require Export Store View.
From stdpp Require Import base list gmap.

Local Open Scope num_scope.

(** ** [StatCard] *)
Definition StatCard {E} (label value : string) (color sub : option string) (highlight : bool) : html E :=
  let color := color ?? "var(--text-primary)" in
  el "div"
    [("borderTop", if highlight then "2px solid " +:+ color else "1px solid var(--border)");
     ("boxShadow", if highlight then "0 1px 3px " +:+ color +:+ "22" else "var(--shadow-card)")] no_click
    (el "div" [] no_click [text label]
     :: el "div" [("color", color)] no_click [text value]
     :: when_some (truthy sub) (λ s, el "div" [] no_click [text s])).

(** ** The figures *)

(** [snaps.length > 0 ? snaps.reduce((s, v) => s + f(v), 0) / snaps.length : 0] *)
Definition mean {T} `{Num T} {A} (f : A → T) (l : list A) : T :=
  if (0 <? length l)%nat then nsum (map f l) / N[Z.of_nat (length l)] else N[0].

Definition spikeCount (snaps : list StatSnapshot) : nat := length (List.filter Snap.is_spike snaps).
Definition retransmits (snaps : list StatSnapshot) : number := nsum (map Snap.retransmit_count snaps).
Definition stressedCount (svcs : list ServiceSnapshot) : nat :=
  length (List.filter (λ s, bool_decide (Svc.stress_kind s ≠ None)) svcs).
Definition kindCount (k : Stress) (svcs : list ServiceSnapshot) : nat :=
  length (List.filter (λ s, bool_decide (Svc.stress_kind s = Some k)) svcs).
Definition serviceNames (snaps : list StatSnapshot) : list string :=
  foldl (λ acc s, set_add (set_add acc (Snap.src_service s)) (Snap.dst_service s)) [] snaps.

Definition GlobalMetrics {E} (snapshots : SnapshotMap) (services : ServiceMap) : html E :=
  let snaps := obj_values snapshots in
  let gp95 := mean Snap.p95_us snaps in
  let gp99 := mean Snap.p99_us snaps in
  let spikes := spikeCount snaps in
  let svcList := obj_values services in
  let stressed := stressedCount svcList in
  let retrans := retransmits snaps in
  div_
    ([StatCard "Global P95" (fmtUs gp95) (Some "#d97706") None false;
      StatCard "Global P99" (fmtUs gp99) (Some (STATUS_COLOR (latencyStatus gp99))) None (gp99 >? N[20000]);
      StatCard "Active Spikes" (pretty spikes)
        (Some (if (0 <? spikes)%nat then "#dc2626" else "var(--text-faint)"))
        (Some (if (0 <? spikes)%nat then "analyzing causes…" else "all normal")) (0 <? spikes)%nat]
     ++ when (0 <? length svcList)%nat
          (StatCard "Stressed Svcs" (pretty stressed)
             (Some (if (0 <? stressed)%nat then "#ea580c" else "var(--text-faint)"))
             (if (0 <? stressed)%nat
              then Some ("CPU:" +:+ pretty (kindCount StressCpu svcList) +:+ " IO:"
                         +:+ pretty (kindCount StressIo svcList) +:+ " MEM:"
                         +:+ pretty (kindCount StressMemory svcList))
              else None) (0 <? stressed)%nat)
     ++ [StatCard "Retransmits" (number_toString retrans)
           (Some (if retrans >? N[20] then "#ea580c" else "var(--text-secondary)")) (Some "cumulative") false;
         StatCard "Connections" (pretty (length snaps)) (Some "#2563eb")
           (Some (pretty (length (serviceNames snaps)) +:+ " svcs")) false]).

(** ** The top bar *)
Section Local.
Variable local_offset : Z → Z.
Variable zone_suffix : Z → string.

(** The clock's state: set at mount and by its interval, once a second. *)
Definition clock_text (now : number) : string :=
  String.substring 0 8 (toTimeString local_offset zone_suffix now).
Definition clock_run (mounted_at : number) (readings : list number) : string :=
  foldl (λ _ now, clock_text now) (clock_text mounted_at) readings.
Definition TopBar_Clock {E} (time : string) : html E := span [] time.

Definition badge {E} (attrs : list (string * string)) (parts : list string) : html E :=
  el "span" attrs no_click (map text parts).

Definition TopBar {E} (connected : bool) (snapshots : SnapshotMap) (services : ServiceMap)
    (time : string) : html E :=
  let snaps := obj_values snapshots in
  let spikes := spikeCount snaps in
  let stressed := stressedCount (obj_values services) in
  el "header" [] no_click
    [el "svg" [] no_click [el "circle" [] no_click []; el "line" [] no_click []; el "line" [] no_click []];
     span [] "MicroTrace"; span [] "v0.3"; div_ []; span [] "Latency Root-Cause Profiler";
     div_ [el "span" [("background", if connected then "#16a34a" else "#dc2626");
                      ("boxShadow", if connected then "0 0 0 2px #16a34a33" else "0 0 0 2px #dc262633")]
             no_click [];
           span [] (if connected then "collector connected" else "reconnecting…")];
     div_ (badge [] [pretty (length (serviceNames snaps)); " services"]
           :: when (0 <? stressed)%nat (badge [] ["⚡ "; pretty stressed; " stressed"])
           ++ when (0 <? spikes)%nat
                (badge [] ["🔴 "; pretty spikes; " spike"; if (1 <? spikes)%nat then "s" else ""]));
     div_ [span [] "LIVE"; TopBar_Clock time]].

(** ** The spike log *)
Definition log_row (now : number) (ev : SpikeEvent) : html string :=
  let meta := CAUSE_META (Spike.cause_kind ev) in
  let isCrit := bool_decide (Spike.severity ev = Critical) in
  let dotColor := if isCrit then "#dc2626" else "#d97706" in
  el "div" [("key", Spike.id ev); ("cursor", "pointer")] (on_click (Spike.key ev))
    [span [("background", dotColor); ("boxShadow", "0 0 5px " +:+ dotColor +:+ "88")] "";
     span [] (fmtTime local_offset zone_suffix (Spike.timestamp ev));
     el "span" [] no_click [text (Spike.src ev); text " → "; text (Spike.dst ev)];
     el "span" [("background", Meta.color meta +:+ "14"); ("border", "1px solid " +:+ Meta.color meta +:+ "40");
                ("color", Meta.color meta)] no_click
       [text (Meta.icon meta); text " "; text (Meta.label meta)];
     div_ [];
     el "span" [("color", dotColor)] no_click [text "P99 "; text (fmtUs (Spike.p99_us ev))];
     span [("background", if isCrit then "#fef2f2" else "#fef3c7"); ("color", dotColor)]
       (if Spike.baseline_us ev >? N[0]
        then toFixed (Spike.p99_us ev / Spike.baseline_us ev) 1 +:+ "×" else "—");
     span [] (timeAgo now (Spike.timestamp ev))].

(** [now] is the clock at the last render: the store's, or the 10 s interval's. *)
Definition SpikeLog (now : number) (events : list SpikeEvent) : html string :=
  match events with
  | [] => div_ [span [("background", "#16a34a")] ""; text "스파이크 이벤트 없음 — 모든 연결 정상"]
  | _ => div_ (map (log_row now) events)
  end.
End Local.

(** ** Facts *)
Lemma foldl_set_add_elem snaps acc n :
  n ∈ foldl (λ acc s, set_add (set_add acc (Snap.src_service s)) (Snap.dst_service s)) acc snaps
  ↔ n ∈ acc ∨ ∃ s, s ∈ snaps ∧ (n = Snap.src_service s ∨ n = Snap.dst_service s).
Proof.
  revert acc. induction snaps as [|s snaps IH]; intros acc; simpl; [set_solver|].
  rewrite IH, !elem_of_set_add. set_solver.
Qed.

Lemma foldl_set_add_NoDup snaps acc :
  NoDup acc → NoDup (foldl (λ acc s, set_add (set_add acc (Snap.src_service s)) (Snap.dst_service s)) acc snaps).
Proof. revert acc. induction snaps; intros acc Hacc; simpl; auto with js. Qed.

(** The end points of the connections, as a set. *)
Definition endpoints (snaps : list StatSnapshot) : gset string :=
  list_to_set (map Snap.src_service snaps) ∪ list_to_set (map Snap.dst_service snaps).

Lemma serviceNames_size snaps : length (serviceNames snaps) = size (endpoints snaps).
Proof.
  rewrite <-(size_list_to_set (C:=gset string)) by (apply foldl_set_add_NoDup, NoDup_nil_2).
  f_equal. apply set_eq. intros n. unfold endpoints, serviceNames.
  rewrite elem_of_list_to_set, foldl_set_add_elem, elem_of_union, !elem_of_list_to_set.
  rewrite !list_elem_of_In, !in_map_iff. setoid_rewrite list_elem_of_In. set_solver.
Qed.

Lemma count_perm {A} (p : A → bool) (l k : list A) :
  l ≡ₚ k → length (List.filter p l) = length (List.filter p k).
Proof. induction 1; simpl; repeat case_if; simpl; congruence. Qed.

Lemma count_values {V} (p : V → bool) (o : jsobj V) :
  obj_wf o →
  length (List.filter p (obj_values o)) = size (filter (λ q : string * V, p q.2 = true) (obj_to_map o)).
Proof.
  intros Hwf. rewrite (count_perm p _ o.*2) by apply obj_values_perm.
  induction o as [|[k v] o IH]; [done|].
  unfold obj_wf in Hwf. rewrite fmap_cons in Hwf. apply NoDup_cons in Hwf as [Hk Hwf].
  specialize (IH Hwf). unfold obj_to_map in *. simpl.
  assert (list_to_map (M:=gmap string V) o !! k = None) as Hn by (by apply not_elem_of_list_to_map_1).
  destruct (p v) eqn:E.
  - rewrite map_filter_insert_True by done. rewrite map_size_insert_None; [simpl; f_equal; exact IH|].
    rewrite map_lookup_filter_None. by left.
  - rewrite map_filter_insert_False by (simpl; congruence).
    rewrite delete_id by done. exact IH.
Qed.

(** The figures agree with each other and with the store: the three causes
    split the stressed services, the service badge and card both show the
    number of distinct end points, and after any run the number of active
    spikes is the number of connections whose last snapshot is spiking. *)
Theorem figures_agree (tr : Trace) (services : ServiceMap) :
  let snaps := obj_values (Store.snapshots (run tr)) in
  let svcs := obj_values services in
  stressedCount svcs = (kindCount StressCpu svcs + kindCount StressIo svcs + kindCount StressMemory svcs)%nat
  ∧ length (serviceNames snaps) = size (endpoints snaps)
  ∧ spikeCount snaps
    = size (filter (λ p : string * StatSnapshot, Snap.is_spike p.2 = true)
              (obj_to_map (Store.snapshots (run tr)))).
Proof.
  intros snaps svcs. split_and!; [|apply serviceNames_size|].
  - unfold stressedCount, kindCount. induction svcs as [|s l IH]; [done|].
    simpl. destruct (Svc.stress_kind s) as [[]|]; simpl; lia.
  - apply count_values, inv_snapshots_wf, run_inv.
Qed.

(** ** The clock *)
Lemma two_digits_length n : (0 <= n < 100)%Z → String.length (two_digits n) = 2.
Proof.
  intros Hn. assert (n ∈ seqZ 0 100) as Hin by (apply elem_of_seqZ; lia). clear Hn.
  assert (forallb (λ n, String.length (two_digits n) =? 2)%nat (seqZ 0 100) = true) as H by (vm_compute; reflexivity).
  rewrite forallb_forall in H. by apply Nat.eqb_eq, H, list_elem_of_In.
Qed.

Lemma fmtTime_text local_offset zone_suffix (ms : number) (t : Z) :
  time_clip ms = Some t →
  let l := local_time local_offset t in
  fmtTime local_offset zone_suffix ms
  = two_digits (hour_from l) +:+ ":" +:+ two_digits (min_from l) +:+ ":" +:+ two_digits (sec_from l)
  ∧ clock_text local_offset zone_suffix ms = fmtTime local_offset zone_suffix ms
  ∧ String.length (fmtTime local_offset zone_suffix ms) = 8.
Proof.
  intros Ht l. unfold clock_text, fmtTime, toTimeString. rewrite Ht. fold l.
  pose proof (two_digits_length (hour_from l)
    ltac:(unfold hour_from; pose proof (Z.mod_pos_bound (l / 3600000) 24); lia)) as H1.
  pose proof (two_digits_length (min_from l)
    ltac:(unfold min_from; pose proof (Z.mod_pos_bound (l / 60000) 60); lia)) as H2.
  pose proof (two_digits_length (sec_from l)
    ltac:(unfold sec_from; pose proof (Z.mod_pos_bound (l / 1000) 60); lia)) as H3.
  set (hms := two_digits (hour_from l) +:+ ":" +:+ two_digits (min_from l) +:+ ":" +:+ two_digits (sec_from l)).
  assert (String.length hms = 8) as H8
    by (unfold hms; rewrite !str_length_app, H1, H2, H3; reflexivity).
  replace (two_digits (hour_from l) +:+ ":" +:+ two_digits (min_from l) +:+ ":"
             +:+ two_digits (sec_from l) +:+ zone_suffix l)
    with (hms +:+ zone_suffix l) by (unfold hms; by rewrite !str_app_assoc).
  assert (String.substring 0 8 (hms +:+ zone_suffix l) = hms) as ->
    by (rewrite <-H8; apply str_substring_prefix).
  done.
Qed.

(** For every date in range, [fmtTime] and the clock of the top bar show
    exactly the local hour, minute and second, two digits each. *)
Theorem fmtTime_hms local_offset zone_suffix (ms : number) (t : Z) :
  time_clip ms = Some t →
  let l := local_time local_offset t in
  fmtTime local_offset zone_suffix ms
  = two_digits (hour_from l) +:+ ":" +:+ two_digits (min_from l) +:+ ":" +:+ two_digits (sec_from l)
  ∧ clock_text local_offset zone_suffix ms = fmtTime local_offset zone_suffix ms
  ∧ String.length (fmtTime local_offset zone_suffix ms) = 8.
Proof. apply fmtTime_text. Qed.

(** ** The log *)
Lemma log_row_inert lo zs now ev :
  match log_row lo zs now ev with el _ _ _ kids => forallb inert kids = true | _ => False end.
Proof. done. Qed.

(** A click anywhere on the [i]-th row of the log selects the connection that
    spiked. *)
Lemma log_row_click lo zs (now : number) (events : list SpikeEvent) (i : nat) (path : list nat) (ev : SpikeEvent) :
  events !! i = Some ev → clicks_at (i :: path) (SpikeLog lo zs now events) = [Spike.key ev].
Proof.
  intros Hi. unfold clicks_at, SpikeLog. destruct events as [|e es]; [done|]. unfold div_.
  erewrite bubble_through by (rewrite lookup_map, Hi; reflexivity).
  unfold log_row. by rewrite bubble_on.
Qed.

Definition ex_offset (_ : Z) : Z := 3600000.
Definition ex_zone (_ : Z) : string := " GMT+0100".
Lemma fmtTime_hms_witness :
  fmtTime ex_offset ex_zone 45296000 = "13:34:56"
  ∧ clock_text ex_offset ex_zone 45296000 = fmtTime ex_offset ex_zone 45296000
  ∧ String.length (fmtTime ex_offset ex_zone 45296000) = 8.
Proof.
  destruct (fmtTime_hms ex_offset ex_zone 45296000 45296000) as (E & H); [vm_compute; reflexivity|].
  split; [|exact H]. rewrite E. vm_compute. reflexivity.
Defined.

