(* ===== verification/App.v ===== *)
(** * The dashboard: [frontend/src/App.tsx]

    The store, the selection, the mounted view with its own state, and the
    detail panel, composed as [App] composes them, with the small components
    [SectionHeader.tsx] and [ViewSwitcher.tsx].  An event is handled, then the
    commit runs the effects of the children: the map places new services, the
    panel resets itself when the connection it shows has changed. *)

From S2P Require Export Store Topo Detail ListView Heatmap Metrics.
From stdpp Require Import base list.

Inductive ViewMode := MGraph | MList | MMatrix.
#[export] Instance ViewMode_eq_dec : EqDecision ViewMode.
Proof. solve_decision. Defined.
#[export] Instance PanelClick_eq_dec : EqDecision PanelClick.
Proof. solve_decision. Defined.

(** ** [SectionHeader] and [ViewSwitcher] *)
Definition SectionHeader {E} (label : string) (count : option string) (children : list (html E)) : html E :=
  div_ (span [] label
        :: when_some count (λ c, span [] c)
        ++ match children with [] => [] | _ => [div_ children] end).

Definition TABS : list (ViewMode * string * string) :=
  [(MGraph, "Graph", "M"); (MList, "List", "L"); (MMatrix, "Matrix", "H")].
Definition TabIcon {E} (type : string) : html E :=
  let shape tag := el tag [] no_click [] in
  el "svg" [] no_click
    (if bool_decide (type = "M") then
       [shape "circle"; shape "circle"; shape "circle"; shape "line"; shape "line"]
     else if bool_decide (type = "L") then [shape "rect"; shape "rect"; shape "rect"]
     else [shape "rect"; shape "rect"; shape "rect"; shape "rect"]).
Definition ViewSwitcher (value : ViewMode) : html ViewMode :=
  div_ (map (λ '(mode, label, icon),
    let active := bool_decide (mode = value) in
    el "button"
      [("background", if active then "#ffffff" else "transparent");
       ("color", if active then "var(--text-primary)" else "var(--text-muted)")]
      (on_click mode) [TabIcon icon; text label]) TABS).

(** ** State *)

(** The mounted view: its local state is lost when another is mounted. *)
Inductive ViewState := VGraph (t : Topo number) | VList (l : ListState) | VMatrix.
Definition mode_of (v : ViewState) : ViewMode :=
  match v with VGraph _ => MGraph | VList _ => MList | VMatrix => MMatrix end.
Definition fresh_view (m : ViewMode) : ViewState :=
  match m with MGraph => VGraph topo_init | MList => VList list_init | MMatrix => VMatrix end.

Module Ap.
Record App := mkApp {
  store : Store;
  selectedKey : option string;
  selectedNode : option string;
  view : ViewState;
  panel : Panel;
}.
End Ap.
Abbreviation App := Ap.App.

Definition app_init : App := Ap.mkApp initial_store None None (fresh_view MGraph) panel_init.

Definition selectedSnap (a : App) : option StatSnapshot :=
  truthy (Ap.selectedKey a) ≫= obj_get (Store.snapshots (Ap.store a)).
Definition selectedHist (a : App) : list HistoryPoint :=
  match truthy (Ap.selectedKey a) with
  | Some key => obj_get (Store.history (Ap.store a)) key ?? []
  | None => []
  end.
Definition nodeService (a : App) : option ServiceSnapshot :=
  truthy (Ap.selectedNode a) ≫= obj_get (Store.services (Ap.store a)).

Definition select (key node : option string) (a : App) : App :=
  Ap.mkApp (Ap.store a) key node (Ap.view a) (Ap.panel a).
Definition handleSelectEdge (key : option string) (a : App) : App := select key None a.
Definition handleSelectNode (name : option string) (a : App) : App := select None name a.
Definition setSelected (key : option string) (a : App) : App := select key (Ap.selectedNode a) a.
Definition onClose (a : App) : App := select None None a.

(** ** Events *)
Inductive AppEvent :=
  | AMessage (clk : Clock) (msg : OutboundMsg)
  | AMap (e : TopoEvent number)
  | AList (e : ListEvent)
  | AMatrix (key : string)
  | AView (m : ViewMode)
  | APanel (c : PanelClick)
  | AResponse (i : nat) (rows : option (list Row))
  | ALog (key : string).

Definition set_view (v : ViewState) (a : App) : App :=
  Ap.mkApp (Ap.store a) (Ap.selectedKey a) (Ap.selectedNode a) v (Ap.panel a).
Definition set_panel (p : Panel) (a : App) : App :=
  Ap.mkApp (Ap.store a) (Ap.selectedKey a) (Ap.selectedNode a) (Ap.view a) p.

Section App.
Variables (cos sin : number → number) (PI : number).

Definition apply_call (a : App) (c : Call) : App :=
  match c with OnSelect key => handleSelectEdge key a | OnSelectNode name => handleSelectNode name a end.

(** The handlers, each on the component it belongs to; an event of a view that
    is not mounted does nothing. *)
Definition app_apply (e : AppEvent) (a : App) : App :=
  match e, Ap.view a with
  | AMessage clk msg, _ =>
      Ap.mkApp (on_message clk msg (Ap.store a)) (Ap.selectedKey a) (Ap.selectedNode a) (Ap.view a) (Ap.panel a)
  | AMap (TServices _), _ => a                         (* raised by the commit *)
  | AMap e, VGraph t =>
      let '(t, calls) := topo_step cos sin PI e t in
      foldl apply_call (set_view (VGraph t) a) calls
  | AList e, VList l =>
      let '(l, selected) := list_step e l in
      match selected with
      | Some key => handleSelectEdge (Some key) (set_view (VList l) a)
      | None => set_view (VList l) a
      end
  | AMatrix key, VMatrix => handleSelectEdge (Some key) a
  | AView m, v => if bool_decide (mode_of v = m) then a else set_view (fresh_view m) a
  | APanel (PRange r), _ => set_panel (panel_step (DRange (selectedSnap a) r) (Ap.panel a)) a
  | APanel PLive, _ => set_panel (panel_step DLive (Ap.panel a)) a
  | APanel PClose, _ => onClose a
  | AResponse i rows, _ => set_panel (panel_step (DResponse i rows) (Ap.panel a)) a
  | ALog key, _ => setSelected (Some key) a
  | _, _ => a
  end.

(** The effects of the children after a render. *)
Definition commit (a : App) : App :=
  let view :=
    match Ap.view a with
    | VGraph t =>
        VGraph (topo_step cos sin PI (TServices (all_names (obj_values (Store.snapshots (Ap.store a))))) t).1
    | v => v
    end in
  set_panel (panel_step (DProps (selectedSnap a)) (Ap.panel a)) (set_view view a).

(** One commit per event.  React may also render several messages at once, with
    one commit at the end; the store is the same, the effects see only the last
    state. *)
Definition app_step (a : App) (e : AppEvent) : App := commit (app_apply e a).
Definition app_run (es : list AppEvent) : App := foldl app_step (commit app_init) es.

(** The messages among the events: the trace the store has seen. *)
Definition messages (es : list AppEvent) : Trace :=
  flat_map (λ e, match e with AMessage clk msg => [(clk, msg)] | _ => [] end) es.

(** ** The view *)
Variable LatencyChart : list HistoryPoint → bool → html PanelClick.
Variable ResourceChart : list ResourcePoint → html PanelClick.
Variable localeCompare : string → string → number.
Variable local_offset : Z → Z.
Variable zone_suffix : Z → string.

Definition detail_view (a : App) : html PanelClick :=
  DetailPanel LatencyChart ResourceChart (selectedSnap a) (selectedHist a) (Ap.selectedNode a)
    (nodeService a) (Ap.panel a).

Definition middle_view (a : App) : html AppEvent :=
  let s := Ap.store a in
  match Ap.view a with
  | VGraph t =>
      html_map AMap (TopoGraph (Store.snapshots s) (Store.services s) (Ap.selectedKey a) (Ap.selectedNode a) t)
  | VList l => html_map AList (ConnectionListView localeCompare (Store.snapshots s) (Ap.selectedKey a) l)
  | VMatrix => html_map AMatrix (HeatmapMatrixView (Store.snapshots s) (Store.services s) (Ap.selectedKey a))
  end.

Definition app_view (connected : bool) (now : number) (time : string) (a : App) : html AppEvent :=
  let s := Ap.store a in
  let edgeCount := length (obj_keys (Store.snapshots s)) in
  let events := Store.events s in
  div_
    [TopBar connected (Store.snapshots s) (Store.services s) time;
     GlobalMetrics (Store.snapshots s) (Store.services s);
     div_
       [div_ [SectionHeader "Service Topology" (Some (pretty edgeCount +:+ " edges"))
                [html_map AView (ViewSwitcher (mode_of (Ap.view a)))];
              div_ [middle_view a]];
        div_ [SectionHeader "Detail · Root-cause Analysis" None [];
              html_map APanel (detail_view a)]];
     div_ [SectionHeader "Spike Event Log"
             (if (0 <? length events)%nat then Some (pretty (length events)) else None) [];
           html_map ALog (SpikeLog local_offset zone_suffix now events)]].
End App.
