(* ===== verification/AppFacts.v ===== *)
(** * Facts on the dashboard

    The selection, the panel and the store together: what is shown after a
    click, a message, a removal. *)

From S2P Require Import DetailFacts.
From S2P Require Export App.
From stdpp Require Import base list.

(** ** Handlers touch only their own part *)
Lemma calls_frame cs a :
  let a' := foldl apply_call a cs in
  Ap.store a' = Ap.store a ∧ Ap.view a' = Ap.view a ∧ Ap.panel a' = Ap.panel a.
Proof. revert a. induction cs as [|[] cs IH]; intros a; simpl; [done| |]; exact (IH _). Qed.

Lemma stats_snapshot clk s st :
  obj_get (Store.snapshots (on_message clk (stats_msg s) st)) (snap_key s) = Some s.
Proof. unfold on_message. simpl. apply obj_get_set_eq. Qed.
Lemma stats_first_point clk s st :
  obj_get (Store.history st) (snap_key s) = None →
  obj_get (Store.history (on_message clk (stats_msg s) st)) (snap_key s) = Some [stat_point clk s].
Proof. intros Hn. unfold on_message. simpl. unfold history_updater. by rewrite Hn, obj_get_set_eq. Qed.

(** The connection [key] is not in the store; [e] does not bring it back. *)
Definition absent (key : string) (st : Store) : Prop :=
  obj_get (Store.snapshots st) key = None ∧ obj_get (Store.history st) key = None.
Definition away (key : string) (e : AppEvent) : Prop :=
  match e with
  | AMessage _ msg =>
      match dispatch msg with
      | AStats snap => snap_key snap ≠ key
      | AHistory conns => Forall (λ c, Conn.key c ≠ key) conns
      | _ => True
      end
  | _ => True
  end.

Lemma away_absent key clk msg st :
  away key (AMessage clk msg) → absent key st → absent key (on_message clk msg st).
Proof.
  unfold away, absent, on_message. intros Ha [Hs Hh]. revert Ha.
  destruct (dispatch msg) as [snap|conns|r|k|]; simpl; intros Ha; try done.
  - unfold history_updater. by rewrite !obj_get_set_ne.
  - split; [done|]. rewrite history_of_msg_get. unfold last_conn. by rewrite list_filter_none.
  - rewrite !obj_get_delete. by repeat case_bool_decide.
Qed.

Section Session.
Context (cos sin : number → number) (PI : number).
#[local] Abbreviation app_apply := (app_apply cos sin PI).
#[local] Abbreviation app_step := (app_step cos sin PI).
#[local] Abbreviation app_run := (app_run cos sin PI).
#[local] Abbreviation commit := (commit cos sin PI).

Lemma apply_store e a : Ap.store (app_apply e a) = run_from (Ap.store a) (messages [e]).
Proof.
  destruct e as [clk msg|e|e|key|m|c|i rows|key]; unfold App.app_apply; try done.
  - destruct e, (Ap.view a) as [t|l|]; try done; destruct (topo_step _ _ _ _ t) as [t' cs];
      apply (calls_frame cs (set_view (VGraph t') a)).
  - destruct (Ap.view a) as [t|l|]; try done. by destruct e.
  - by destruct (Ap.view a).
  - by case_bool_decide.
  - by destruct c.
Qed.

(** What the panel sees of a handler. *)
Definition panel_events (e : AppEvent) (a : App) : list PanelEvent :=
  match e with
  | APanel (PRange r) => [DRange (selectedSnap a) r]
  | APanel PLive => [DLive]
  | AResponse i rows => [DResponse i rows]
  | _ => []
  end.
Lemma apply_panel e a : Ap.panel (app_apply e a) = panel_run (panel_events e a) (Ap.panel a).
Proof.
  destruct e as [clk msg|e|e|key|m|c|i rows|key]; unfold App.app_apply; try done.
  - destruct e, (Ap.view a) as [t|l|]; try done; destruct (topo_step _ _ _ _ t) as [t' cs];
      apply (calls_frame cs (set_view (VGraph t') a)).
  - destruct (Ap.view a) as [t|l|]; try done. by destruct e.
  - by destruct (Ap.view a).
  - by case_bool_decide.
  - by destruct c.
Qed.

Lemma commit_store a : Ap.store (commit a) = Ap.store a.
Proof. done. Qed.
Lemma commit_selectedSnap a : selectedSnap (commit a) = selectedSnap a.
Proof. done. Qed.
Lemma commit_deps a : Dt.deps (Ap.panel (commit a)) = snap_ends (selectedSnap a).
Proof. simpl. unfold reset_effect. by case_bool_decide. Qed.

Lemma app_run_snoc es e : app_run (es ++ [e]) = app_step (app_run es) e.
Proof. unfold App.app_run. by rewrite foldl_app. Qed.

Lemma app_run_store es : Ap.store (app_run es) = run (messages es).
Proof.
  induction es as [|e es IH] using rev_ind; [done|].
  rewrite app_run_snoc. unfold App.app_step. rewrite commit_store, apply_store, IH.
  unfold messages, run, run_from. by rewrite flat_map_app, foldl_app.
Qed.

Lemma app_run_deps es : Dt.deps (Ap.panel (app_run es)) = snap_ends (selectedSnap (app_run es)).
Proof.
  induction es as [|e es IH] using rev_ind; [done|]. rewrite app_run_snoc.
  exact (commit_deps (app_apply e (app_run es))).
Qed.

(** ** Facts on the selection *)
Lemma conn_key_truthy src dst : truthy (Some (conn_key src dst)) = Some (conn_key src dst).
Proof. unfold conn_key. by destruct src. Qed.
Lemma snap_key_truthy s : truthy (Some (snap_key s)) = Some (snap_key s).
Proof. apply conn_key_truthy. Qed.

(** A click that picks the connection [key]: a row of the list, a cell of the
    matrix, an edge of the map that was not dragged. *)
Inductive picks (key : string) : AppEvent → ViewState → Prop :=
  | picks_row l : picks key (AList (LSelect key)) (VList l)
  | picks_cell : picks key (AMatrix key) VMatrix
  | picks_edge tg t :
      edge_key tg = Some key → Tg.didDrag t = false → picks key (AMap (TClick tg)) (VGraph t).

Lemma picks_apply key e a :
  picks key e (Ap.view a) →
  app_apply e a = handleSelectEdge (Some key) a.
Proof.
  destruct a as [st k n v p]. simpl. inversion 1 as [l Hv|Hv|tg t Hk Hd Hv]; subst; [done|done|].
  unfold App.app_apply. simpl. unfold onSvgClick. by rewrite Hd, Hk.
Qed.

Lemma shown_connection LC RC a key s :
  Ap.selectedKey a = Some key → truthy (Ap.selectedNode a) = None → truthy (Some key) = Some key →
  obj_get (Store.snapshots (Ap.store a)) key = Some s →
  detail_view LC RC a = connection_panel LC s (obj_get (Store.history (Ap.store a)) key ?? []) (Ap.panel a).
Proof.
  intros Hk Hn Ht Hs. unfold detail_view, DetailPanel, selectedSnap, selectedHist.
  rewrite Hn, Hk, Ht. simpl. by rewrite Hs.
Qed.

Lemma commit_fresh a s :
  selectedSnap a = Some s → Dt.deps (Ap.panel a) ≠ snap_ends (Some s) →
  Dt.range (Ap.panel (commit a)) = None ∧ Dt.dbHistory (Ap.panel (commit a)) = None.
Proof.
  intros Hs Hd. simpl. rewrite Hs. unfold reset_effect. by rewrite bool_decide_eq_false_2.
Qed.
Lemma commit_keeps a : snap_ends (selectedSnap a) = Dt.deps (Ap.panel a) → Ap.panel (commit a) = Ap.panel a.
Proof. intros Hd. simpl. unfold reset_effect. by rewrite bool_decide_eq_true_2. Qed.

Lemma stats_selected clk s a :
  Ap.selectedKey a = Some (snap_key s) → selectedSnap (app_apply (AMessage clk (stats_msg s)) a) = Some s.
Proof.
  intros Hk. unfold selectedSnap. change (Ap.selectedKey _) with (Ap.selectedKey a).
  rewrite Hk, snap_key_truthy. apply stats_snapshot.
Qed.

Lemma selected_apply e a :
  (∀ key, e ≠ ALog key) → (Ap.selectedKey a = None ∨ Ap.selectedNode a = None) →
  Ap.selectedKey (app_apply e a) = None ∨ Ap.selectedNode (app_apply e a) = None.
Proof.
  intros He Ha. assert (∀ cs b, Ap.selectedKey b = None ∨ Ap.selectedNode b = None →
    Ap.selectedKey (foldl apply_call b cs) = None ∨ Ap.selectedNode (foldl apply_call b cs) = None) as Hcs.
  { induction cs as [|[] cs IH]; intros b Hb; simpl; [done|apply IH; by right|apply IH; by left]. }
  destruct e as [clk msg|e|e|key|m|c|i rows|key]; unfold App.app_apply; try done.
  - destruct e, (Ap.view a) as [t|l|]; try done; destruct (topo_step _ _ _ _ t) as [t' cs]; by apply Hcs.
  - destruct (Ap.view a) as [t|l|]; try done. destruct e; simpl; try done. by right.
  - destruct (Ap.view a); try done. by right.
  - by case_bool_decide.
  - destruct c; try done. by left.
  - by destruct (He key).
Qed.

(** ** Sessions whose responses are the collector's *)
Section Collector.
Context (server : Request → option (list Row)).

Definition answers (a : App) (e : AppEvent) : Prop :=
  match e with
  | AResponse i rows => ∃ q, Dt.inflight (Ap.panel a) !! i = Some q ∧ rows = server q
  | _ => True
  end.

Inductive session : list AppEvent → Prop :=
  | session_nil : session []
  | session_snoc es e : session es → answers (app_run es) e → session (es ++ [e]).

Lemma session_quiet es : Forall (λ e, ∀ i rows, e ≠ AResponse i rows) es → session es.
Proof.
  induction es as [|e es IH] using rev_ind; [constructor|].
  intros [Hes [He _]%Forall_cons]%Forall_app. apply session_snoc; [by apply IH|].
  destruct e; try done. by destruct (He i rows).
Qed.

Lemma session_panel es : session es → reachable server false (Ap.panel (app_run es)).
Proof.
  induction 1 as [|es e _ IH He].
  { apply (on_props server false panel_init None); [constructor|done]. }
  rewrite app_run_snoc. unfold App.app_step.
  change (Ap.panel (commit ?a)) with (panel_step (DProps (selectedSnap a)) (Ap.panel a)).
  apply on_props; [|done]. rewrite apply_panel.
  destruct e as [clk msg|e|e|key|m|c|i rows|key]; try exact IH; simpl.
  - destruct c; try exact IH; simpl; [|by apply on_live].
    destruct (selectedSnap (app_run es)) as [s|] eqn:Es; [|exact IH].
    apply (on_range server false); [exact IH| |done]. by rewrite app_run_deps, Es.
  - destruct He as (q & Hq & ->). by apply (on_answer server false _ i q).
Qed.
End Collector.

(** ** Properties *)

(** C4: the panel inside the dashboard is a run of the panel machine on its
    own: range buttons always act on the connection of the last commit, and in
    every session whose responses are the collector's, the stored rows are the
    converted answer to some request the panel made. *)
Theorem app_refines_panel (server : Request → option (list Row)) (es : list AppEvent) :
  session server es →
  Ap.store (app_run es) = run (messages es)
  ∧ reachable server false (Ap.panel (app_run es))
  ∧ Dt.deps (Ap.panel (app_run es)) = snap_ends (selectedSnap (app_run es))
  ∧ ∀ h, Dt.dbHistory (Ap.panel (app_run es)) = Some h → ∃ q, map row_point <$> server q = Some h.
Proof.
  intros Hs. pose proof (session_panel server es Hs) as Hr.
  split_and!; [apply app_run_store|done|apply app_run_deps|].
  intros h. by apply (stored_is_answer server false).
Qed.

(** C3: picking a connection in any of the three views opens the panel of its
    last snapshot, on the last 3600 points received for it, and on live data
    when another connection was shown before. *)
Theorem picked_connection_is_shown LC RC (es : list AppEvent) (e : AppEvent) (key : string) (s : StatSnapshot) :
  let a := app_run es in let a' := app_step a e in
  picks key e (Ap.view a) → last_stat key (messages es) = Some s → history_bounded (messages es) →
  detail_view LC RC a' = connection_panel LC s (lastn 3600 (all_points key (messages es))) (Ap.panel a')
  ∧ (snap_ends (selectedSnap a) ≠ snap_ends (Some s) → Dt.range (Ap.panel a') = None).
Proof.
  intros a a' Hp Hs Hb. rewrite <-run_snapshots in Hs.
  assert (truthy (Some key) = Some key) as Ht by (rewrite <-(run_keyed _ _ _ Hs); apply snap_key_truthy).
  assert (a' = commit (handleSelectEdge (Some key) a)) as Ea
    by (unfold a', App.app_step; by rewrite (picks_apply key)).
  assert (Ap.store a = run (messages es)) as Est by apply app_run_store.
  assert (selectedSnap (handleSelectEdge (Some key) a) = Some s) as Hsel
    by (unfold selectedSnap; cbn [handleSelectEdge select Ap.selectedKey Ap.store]; rewrite Ht, Est; exact Hs).
  rewrite Ea. split.
  - rewrite <-run_history, <-Est in * by done.
    exact (shown_connection LC RC (commit (handleSelectEdge (Some key) a)) key s eq_refl eq_refl Ht Hs).
  - intros Hne. apply (commit_fresh _ s); [exact Hsel|]. intros E. apply Hne.
    rewrite <-E. symmetry. apply app_run_deps.
Qed.

(** Without clicks in the spike log, a connection and a service are never
    selected together. *)
Theorem selection_exclusive (es : list AppEvent) :
  Forall (λ e, ∀ key, e ≠ ALog key) es →
  Ap.selectedKey (app_run es) = None ∨ Ap.selectedNode (app_run es) = None.
Proof.
  induction es as [|e es IH] using rev_ind; [by left|].
  intros [Hes [He _]%Forall_cons]%Forall_app. rewrite app_run_snoc.
  exact (selected_apply e _ He (IH Hes)).
Qed.

(** A click in the spike log while a service is selected selects the
    connection and leaves the panel of the service on display. *)
Theorem log_click_hidden LC RC (es : list AppEvent) (key name : string) :
  truthy (Ap.selectedNode (app_run es)) = Some name →
  let a' := app_step (app_run es) (ALog key) in
  Ap.selectedKey a' = Some key
  ∧ detail_view LC RC a' = NodePanel RC name (nodeService (app_run es)).
Proof.
  intros Hn a'. split; [done|]. unfold detail_view, DetailPanel.
  change (Ap.selectedNode a') with (Ap.selectedNode (app_run es)). by rewrite Hn.
Qed.

(** What the panel shows over a connection view [v]: a selected service comes
    first. *)
Definition unless_service RC (a : App) (v : html PanelClick) : html PanelClick :=
  match truthy (Ap.selectedNode a) with Some name => NodePanel RC name (nodeService a) | None => v end.

Lemma detail_connection LC RC a key s :
  Ap.selectedKey a = Some key → truthy (Some key) = Some key →
  obj_get (Store.snapshots (Ap.store a)) key = Some s →
  detail_view LC RC a
  = unless_service RC a (connection_panel LC s (obj_get (Store.history (Ap.store a)) key ?? []) (Ap.panel a)).
Proof.
  intros Hk Ht Hs. unfold unless_service. destruct (truthy (Ap.selectedNode a)) eqn:Hn.
  - unfold detail_view, DetailPanel. by rewrite Hn.
  - by apply shown_connection.
Qed.
Lemma detail_returned LC RC a clk s :
  let a' := commit (app_apply (AMessage clk (stats_msg s)) a) in
  Ap.selectedKey a = Some (snap_key s) → obj_get (Store.history (Ap.store a)) (snap_key s) = None →
  detail_view LC RC a' = unless_service RC a' (connection_panel LC s [stat_point clk s] (Ap.panel a')).
Proof.
  intros a' Hk Hh.
  rewrite (detail_connection LC RC a' (snap_key s) s); [|done|apply snap_key_truthy|apply stats_snapshot].
  pose proof (stats_first_point clk s _ Hh) as E.
  change (obj_get (Store.history (Ap.store a')) (snap_key s) = Some [stat_point clk s]) in E. by rewrite E.
Qed.
Lemma detail_empty LC RC a : selectedSnap a = None → detail_view LC RC a = unless_service RC a empty_panel.
Proof. intros Hs. unfold detail_view, DetailPanel, unless_service. by rewrite Hs. Qed.

Lemma run_absent es clk rm mid key :
  dispatch rm = ARemove key → Forall (away key) mid →
  absent key (Ap.store (app_run (es ++ AMessage clk rm :: mid))).
Proof.
  intros Hrm. rewrite app_run_store. unfold messages. rewrite flat_map_app. simpl.
  unfold run, run_from. rewrite foldl_app. simpl.
  set (st := foldl _ _ (flat_map _ es)). clearbody st.
  assert (absent key (on_message clk rm st)) as H0.
  { unfold absent, on_message. rewrite Hrm. simpl. rewrite !obj_get_delete. by rewrite !bool_decide_eq_true_2. }
  revert H0. generalize (on_message clk rm st). induction mid as [|e mid IH]; [done|].
  intros st' H [He Hmid]%Forall_cons. destruct e; try (by apply IH). simpl. by apply IH; [apply away_absent|].
Qed.

(** C31: when a connection is removed and is still selected (or selected
    again) after any events that do not bring it back, the panel shows no
    connection: it is empty, or it is the panel of a service when one is
    selected too (a click in the spike log selects a connection over a
    service).  When the connection is back it is on display again, under the
    same proviso, with its history started afresh from the one point received
    and with no range and no rows of before.  The exception is a render that
    takes the removal and the return together, as React may do: the history
    starts afresh all the same, but the panel sees the same end points, and
    keeps the range and the rows it had. *)
Theorem removed_and_back LC RC (es mid : list AppEvent) clk clk' (rm : OutboundMsg) (s : StatSnapshot) :
  let key := snap_key s in
  let a := app_run (es ++ AMessage clk rm :: mid) in
  let a' := app_step a (AMessage clk' (stats_msg s)) in
  let before := app_run es in
  let batched := commit (app_apply (AMessage clk' (stats_msg s)) (app_apply (AMessage clk rm) before)) in
  let back a := unless_service RC a (connection_panel LC s [stat_point clk' s] (Ap.panel a)) in
  dispatch rm = ARemove key → Forall (away key) mid →
  (Ap.selectedKey a = Some key →
     detail_view LC RC a = unless_service RC a empty_panel
     ∧ detail_view LC RC a' = back a'
     ∧ Dt.range (Ap.panel a') = None ∧ Dt.dbHistory (Ap.panel a') = None)
  ∧ (Ap.selectedKey before = Some key →
     detail_view LC RC batched = back batched
     ∧ (snap_ends (selectedSnap before) = snap_ends (Some s) → Ap.panel batched = Ap.panel before)).
Proof.
  intros key a a' before batched back Hrm Hmid. unfold key in *.
  split; intros Hk.
  - destruct (run_absent es clk rm mid _ Hrm Hmid) as [Hs Hh].
    assert (selectedSnap a = None) as Hsel by (unfold selectedSnap; by rewrite Hk, snap_key_truthy).
    split; [by apply detail_empty|]. split; [by apply detail_returned|].
    apply (commit_fresh _ s); [by apply stats_selected|].
    change (Dt.deps (Ap.panel a) ≠ snap_ends (Some s)). unfold a. rewrite app_run_deps. fold a. by rewrite Hsel.
  - pose proof (run_absent es clk rm [] _ Hrm (Forall_nil_2 _)) as [_ Hh]. rewrite app_run_snoc in Hh.
    split.
    + by apply detail_returned.
    + intros He. apply (commit_keeps (app_apply (AMessage clk' (stats_msg s)) (app_apply (AMessage clk rm) before))).
      rewrite stats_selected by done.
      change (snap_ends (Some s) = Dt.deps (Ap.panel before)). unfold before. by rewrite app_run_deps.
Qed.
End Session.

(** ** Clicks on the page *)
Lemma clicks_map {E F} (f : E → F) path (h : html E) : clicks_at path (html_map f h) = map f (clicks_at path h).
Proof. unfold clicks_at. by rewrite bubble_map. Qed.
Lemma clicks_through {E} i path tag attrs kids (k : html E) :
  kids !! i = Some k → clicks_at (i :: path) (el tag attrs no_click kids) = clicks_at path k.
Proof. intros Hi. unfold clicks_at. by rewrite (bubble_through _ _ _ _ _ k). Qed.

Lemma lookup_layout {A} (x p q y z : A) c b :
  (x :: c ++ [p; q] ++ b ++ [y; z]) !! (3 + length c + length b) = Some y.
Proof.
  replace (x :: c ++ [p; q] ++ b ++ [y; z]) with ((x :: c ++ [p; q] ++ b) ++ y :: [z])
    by (simpl; rewrite <-!app_assoc; reflexivity).
  apply list_lookup_middle. simpl. rewrite !length_app. simpl. lia.
Qed.

Lemma tab_click value i m label icon p :
  TABS !! i = Some (m, label, icon) → clicks_at (i :: p) (ViewSwitcher value) = [m].
Proof.
  intros Hi. unfold ViewSwitcher, div_. erewrite clicks_through by (rewrite lookup_map, Hi; reflexivity).
  unfold clicks_at. rewrite bubble_on; [done|]. simpl. by repeat case_bool_decide.
Qed.

Lemma control_click i title label e p :
  controls !! i = Some (title, label, e) → clicks_at (i :: p) Controls = [e].
Proof.
  intros Hi. unfold Controls, div_. erewrite clicks_through by (rewrite lookup_map, Hi; reflexivity).
  unfold clicks_at. by rewrite bubble_on.
Qed.

Section Page.
Context (LC : list HistoryPoint → bool → html PanelClick) (RC : list ResourcePoint → html PanelClick).
Context (lc : string → string → number) (lo : Z → Z) (zs : Z → string).
#[local] Abbreviation app_view := (app_view LC RC lc lo zs).

Lemma click_middle connected now time a path :
  clicks_at ([2; 0; 1; 0] ++ path) (app_view connected now time a) = clicks_at path (middle_view lc a).
Proof. unfold App.app_view, div_. cbn [app]. by do 4 (erewrite clicks_through by reflexivity). Qed.

Lemma click_detail connected now time a path :
  clicks_at ([2; 1; 1] ++ path) (app_view connected now time a)
  = map APanel (clicks_at path (detail_view LC RC a)).
Proof.
  unfold App.app_view, div_. cbn [app]. do 3 (erewrite clicks_through by reflexivity). apply clicks_map.
Qed.

Lemma click_range snap history p (i : nat) (r : RangeKey) (label : string) path :
  RANGE_LABELS !! i = Some (r, label) →
  clicks_at ([3 + length (cause_banner snap) + length (close_bar snap); 0; 1; S i] ++ path)
    (connection_panel LC snap history p) = [PRange r].
Proof.
  intros Hi. unfold connection_panel, div_. cbn [app].
  erewrite clicks_through by apply lookup_layout.
  do 2 (erewrite clicks_through by reflexivity). unfold range_buttons, div_.
  erewrite clicks_through by exact (lookup_map_S _ _ _ _ _ Hi).
  unfold RangeBtn, clicks_at. by rewrite bubble_on.
Qed.

(** C23: a click on the page raises the event of what is under it: a list row
    or a matrix cell its connection, a log row the connection that spiked, a
    range button its range, the close button [onClose], a tab its view, a button
    over the map its zoom. *)
Theorem page_clicks connected now time (a : App) :
  let click path := clicks_at path (app_view connected now time a) in
  let snapshots := Store.snapshots (Ap.store a) in
  (∀ l i s p, Ap.view a = VList l → filtered lc (obj_values snapshots) l !! i = Some s →
     click ([2; 0; 1; 0; 1; 0; 2; i] ++ p) = [AList (LSelect (snap_key s))])
  ∧ (∀ i j s p, Ap.view a = VMatrix → shown_at snapshots i j = Some s →
     click ([2; 0; 1; 0; 1; 0; 1; i; S j; 0] ++ p) = [AMatrix (snap_key s)])
  ∧ (∀ i ev p, Store.events (Ap.store a) !! i = Some ev → click ([3; 1; i] ++ p) = [ALog (Spike.key ev)])
  ∧ (∀ s i r label p, truthy (Ap.selectedNode a) = None → selectedSnap a = Some s →
     RANGE_LABELS !! i = Some (r, label) →
     click ([2; 1; 1; 3 + length (cause_banner s) + length (close_bar s); 0; 1; S i] ++ p) = [APanel (PRange r)]
     ∧ click [2; 1; 1; 0; 1; 1] = [APanel PClose])
  ∧ (∀ i m label icon p, TABS !! i = Some (m, label, icon) → click ([2; 0; 0; 2; 0; i] ++ p) = [AView m])
  ∧ (∀ t i title label e p, Ap.view a = VGraph t → controls !! i = Some (title, label, e) →
     click ([2; 0; 1; 0; 1; i] ++ p) = [AMap e]).
Proof.
  intros click snapshots. split_and!.
  - intros l i s p Hv Hi. unfold click. etransitivity; [exact (click_middle connected now time a ([1; 0; 2; i] ++ p))|].
    unfold middle_view. rewrite Hv, clicks_map. by rewrite (row_click lc snapshots _ l i p s).
  - intros i j s p Hv Hs. unfold click. etransitivity; [exact (click_middle connected now time a ([1; 0; 1; i; S j; 0] ++ p))|].
    unfold middle_view. rewrite Hv, clicks_map.
    pose proof (shown_at_elim _ _ _ _ Hs) as (_ & src & dst & Hi & Hj & _).
    rewrite matrix_click by (by eapply lookup_lt_Some). fold snapshots. by rewrite Hs.
  - intros i ev p Hi. unfold click, App.app_view, div_. cbn [app].
    do 2 (erewrite clicks_through by reflexivity). rewrite clicks_map. by rewrite (log_row_click lo zs now _ i p ev).
  - intros s i r label p Hn Hs Hi. unfold click. split.
    + etransitivity; [exact (click_detail connected now time a ([_; 0; 1; S i] ++ p))|]. unfold detail_view, DetailPanel.
      rewrite Hn, Hs. by rewrite (click_range s _ _ i r label p).
    + etransitivity; [exact (click_detail connected now time a [0; 1; 1])|]. unfold detail_view, DetailPanel. by rewrite Hn, Hs.
  - intros i m label icon p Hi. unfold click, App.app_view, SectionHeader, div_. cbn [app when_some].
    do 5 (erewrite clicks_through by reflexivity). rewrite clicks_map. by rewrite (tab_click _ i m label icon p Hi).
  - intros t i title label e p Hv Hi. unfold click.
    etransitivity; [exact (click_middle connected now time a ([1; i] ++ p))|].
    unfold middle_view. rewrite Hv, clicks_map. unfold TopoGraph. cbn [app]. erewrite clicks_through by reflexivity.
    by rewrite (control_click i title label e p Hi).
Qed.
End Page.

(** Witnesses: the sample trace, on the matrix, with plain children. *)
Definition ex_cos (x : number) : number := x.
Definition ex_pi : number := N[3]%num.
Definition ex_LC (_ : list HistoryPoint) (_ : bool) : html PanelClick := text "latency".
Definition ex_RC (_ : list ResourcePoint) : html PanelClick := text "resources".
#[local] Abbreviation ex_run := (app_run ex_cos ex_cos ex_pi).
#[local] Abbreviation ex_step := (app_step ex_cos ex_cos ex_pi).

Definition ex_traffic : list AppEvent := map (λ m, AMessage m.1 m.2) sample_trace ++ [AView MMatrix].
Definition ex_selected : list AppEvent := ex_traffic ++ [AMatrix "a→b"].
Definition ex_ranged : list AppEvent := ex_selected ++ [APanel (PRange R1h)].
Definition ex_stat_ab : StatSnapshot := sample_snap "a" "b" 99000 true.
Definition ex_remove : OutboundMsg := Out.mkOut MRemove None (Some "a→b") None None.

Definition ex_answered_range : list AppEvent :=
  ex_ranged ++ [AResponse 0 (ex_server (Dt.mkReq "a" "b" R1h))].
Lemma app_refines_panel_witness :
  Ap.store (ex_run ex_answered_range) = run (messages ex_answered_range)
  ∧ reachable ex_server false (Ap.panel (ex_run ex_answered_range))
  ∧ Dt.deps (Ap.panel (ex_run ex_answered_range)) = snap_ends (selectedSnap (ex_run ex_answered_range))
  ∧ ∀ h, Dt.dbHistory (Ap.panel (ex_run ex_answered_range)) = Some h →
      ∃ q, map row_point <$> ex_server q = Some h.
Proof.
  apply (app_refines_panel ex_cos ex_cos ex_pi ex_server). apply session_snoc.
  - apply session_quiet. repeat (apply Forall_cons; split; [discriminate|]). apply Forall_nil_2.
  - eexists. split; [vm_compute; reflexivity|reflexivity].
Defined.

Lemma picked_connection_is_shown_witness :
  detail_view ex_LC ex_RC (ex_step (ex_run ex_traffic) (AMatrix "a→b"))
  = connection_panel ex_LC ex_stat_ab (lastn 3600 (all_points "a→b" (messages ex_traffic)))
      (Ap.panel (ex_step (ex_run ex_traffic) (AMatrix "a→b")))
  ∧ (snap_ends (selectedSnap (ex_run ex_traffic)) ≠ snap_ends (Some ex_stat_ab) →
     Dt.range (Ap.panel (ex_step (ex_run ex_traffic) (AMatrix "a→b"))) = None).
Proof.
  apply (picked_connection_is_shown ex_cos ex_cos ex_pi ex_LC ex_RC ex_traffic (AMatrix "a→b") "a→b").
  - exact (picks_cell "a→b").
  - reflexivity.
  - unfold history_bounded. repeat (apply Forall_cons; split); try exact I; try apply Forall_nil_2.
    simpl. lia.
Defined.

Lemma selection_exclusive_witness :
  Ap.selectedKey (ex_run ex_ranged) = None ∨ Ap.selectedNode (ex_run ex_ranged) = None.
Proof.
  apply (selection_exclusive ex_cos ex_cos ex_pi).
  repeat (apply Forall_cons; split; [discriminate|]). apply Forall_nil_2.
Defined.

Definition ex_node_click : list AppEvent :=
  [AMap (TClick (mkTarget None (Some "b")))].
Lemma log_click_hidden_witness :
  Ap.selectedKey (ex_step (ex_run ex_node_click) (ALog "a→b")) = Some "a→b"
  ∧ detail_view ex_LC ex_RC (ex_step (ex_run ex_node_click) (ALog "a→b"))
    = NodePanel ex_RC "b" (nodeService (ex_run ex_node_click)).
Proof. apply (log_click_hidden ex_cos ex_cos ex_pi ex_LC ex_RC ex_node_click "a→b" "b"). reflexivity. Defined.

(** Removed and back in one render, with the range the panel had. *)
Definition ex_back_at : Clock := mkClock 5 5 5.
Definition ex_removed : list AppEvent := ex_ranged ++ [AMessage (mkClock 4 4 4) ex_remove; APanel PLive].
Lemma removed_and_back_witness :
  detail_view ex_LC ex_RC (ex_run ex_removed) = empty_panel
  ∧ Dt.range (Ap.panel (ex_step (ex_run ex_removed) (AMessage ex_back_at (stats_msg ex_stat_ab)))) = None
  ∧ Dt.range (Ap.panel (commit ex_cos ex_cos ex_pi
      (app_apply ex_cos ex_cos ex_pi (AMessage ex_back_at (stats_msg ex_stat_ab))
        (app_apply ex_cos ex_cos ex_pi (AMessage (mkClock 4 4 4) ex_remove) (ex_run ex_ranged))))) = Some R1h.
Proof.
  destruct (removed_and_back ex_cos ex_cos ex_pi ex_LC ex_RC ex_ranged [APanel PLive] (mkClock 4 4 4) ex_back_at
    ex_remove ex_stat_ab eq_refl) as [H1 H2].
  { apply Forall_singleton. exact I. }
  destruct (H1 eq_refl) as (E1 & _ & E2 & _). destruct (H2 eq_refl) as [_ E3].
  split; [exact E1|]. split; [exact E2|]. rewrite (E3 eq_refl). reflexivity.
Defined.

Lemma page_clicks_witness :
  clicks_at [2; 0; 1; 0; 1; 0; 1; 0; 1; 0]
    (app_view ex_LC ex_RC ex_collate ex_offset ex_zone true N[0]%num "" (ex_run ex_traffic))
  = [AMatrix "a→b"].
Proof.
  refine (proj1 (proj2 (page_clicks ex_LC ex_RC ex_collate ex_offset ex_zone true N[0]%num "" (ex_run ex_traffic)))
    0 0 ex_stat_ab [] _ _); vm_compute; reflexivity.
Defined.
