(* ===== verification/AppMap.v ===== *)
(** * The map inside the dashboard

    The map places the services whose names it has not seen, and decides by the
    names sorted and joined with commas whether it has to look.  For names
    without commas that is enough: whatever arrives and whatever is clicked, a
    mounted map has a place for every service of the store. *)

From S2P Require Import TopoFacts AppFacts.
From S2P Require Export App.
From stdpp Require Import base list.

(** ** Joining sorted names loses nothing *)
Fixpoint has_comma (s : string) : bool :=
  match s with
  | EmptyString => false
  | String c s => bool_decide (c = Ascii.ascii_of_nat 44) || has_comma s
  end.
Definition plain (s : string) : Prop := s ≠ "" ∧ has_comma s = false.
#[export] Instance plain_dec s : Decision (plain s).
Proof. unfold plain. apply _. Defined.

(** What follows the first name. *)
Definition join_tail (xs : list string) : string :=
  match xs with [] => "" | _ => "," +:+ str_join "," xs end.
Lemma join_cons x xs : str_join "," (x :: xs) = x +:+ join_tail xs.
Proof. destruct xs; [|done]. by rewrite str_app_nil. Qed.

Lemma cut_comma x y xs ys :
  has_comma x = false → has_comma y = false →
  x +:+ join_tail xs = y +:+ join_tail ys → x = y ∧ join_tail xs = join_tail ys.
Proof.
  revert y. induction x as [|c x IH]; intros [|d y] Hx Hy; simpl in *; [done|..].
  - destruct xs; [done|]. intros [= <- _]. by rewrite bool_decide_true in Hy.
  - destruct ys; [done|]. intros [= -> _]. by rewrite bool_decide_true in Hx.
  - apply orb_false_iff in Hx as [_ Hx], Hy as [_ Hy]. intros [= <- H].
    by destruct (IH y Hx Hy H) as [-> ->].
Qed.
Lemma str_join_inj xs ys :
  Forall plain xs → Forall plain ys → str_join "," xs = str_join "," ys → xs = ys.
Proof.
  intros Hxs. revert ys. induction Hxs as [|x xs [Hx Hcx] _ IH]; intros [|y ys] Hys.
  - done.
  - rewrite join_cons. apply Forall_cons in Hys as [[? _] _]. simpl. by destruct y.
  - rewrite join_cons. simpl. by destruct x.
  - apply Forall_cons in Hys as [[_ Hcy] Hys]. rewrite !join_cons. intros H.
    destruct (cut_comma x y xs ys Hcx Hcy H) as [-> Ht]. f_equal. apply IH; [done|].
    destruct xs as [|x' xs], ys as [|y' ys]; try done. by injection Ht.
Qed.
Lemma services_key_perm xs ys :
  Forall plain xs → Forall plain ys → services_key xs = services_key ys → xs ≡ₚ ys.
Proof.
  unfold services_key. intros Hx Hy H. apply str_join_inj in H; [|by rewrite js_sort_perm..].
  by rewrite <-(js_sort_perm string_gt xs), H, js_sort_perm.
Qed.

(** ** What the store names *)
Definition plain_snap (s : StatSnapshot) : Prop := plain (Snap.src_service s) ∧ plain (Snap.dst_service s).
Definition plain_message (m : OutboundMsg) : Prop :=
  match dispatch m with AStats s => plain_snap s | _ => True end.
Definition plain_store (s : Store) : Prop := Forall (λ ks, plain_snap ks.2) (Store.snapshots s).

Lemma plain_on_message clk m s : plain_message m → plain_store s → plain_store (on_message clk m s).
Proof.
  unfold plain_message, plain_store, on_message. intros Hm Hs.
  destruct (dispatch m) as [snap|conns|r|key|]; simpl; try done.
  - by apply Forall_obj_set.
  - rewrite Forall_forall in *. intros ks [_ Hks]%list_elem_of_filter. by apply Hs.
Qed.
Lemma all_names_elem snaps x :
  x ∈ all_names snaps ↔ Exists (λ s, Snap.src_service s = x ∨ Snap.dst_service s = x) snaps.
Proof.
  unfold all_names. enough (∀ acc, x ∈ foldl (λ acc s, set_add (set_add acc (Snap.src_service s)) (Snap.dst_service s)) acc snaps
    ↔ x ∈ acc ∨ Exists (λ s, Snap.src_service s = x ∨ Snap.dst_service s = x) snaps) as ->
    by (rewrite elem_of_nil; naive_solver).
  induction snaps as [|s snaps IH]; intros acc; simpl; [rewrite Exists_nil; naive_solver|].
  rewrite IH, !elem_of_set_add, Exists_cons. naive_solver.
Qed.

Lemma plain_names s : plain_store s → Forall plain (all_names (obj_values (Store.snapshots s))).
Proof.
  intros Hs. apply Forall_forall. intros x. rewrite all_names_elem, Exists_exists.
  intros (sn & Hin & Hx). rewrite obj_values_perm in Hin. apply list_elem_of_fmap in Hin as (ks & -> & Hks).
  unfold plain_store in Hs. rewrite Forall_forall in Hs. destruct (Hs ks Hks). naive_solver.
Qed.

(** ** The places of the map *)
Section Placed.
Context (cos sin : number → number) (PI : number).
#[local] Abbreviation app_step := (app_step cos sin PI).
#[local] Abbreviation app_run := (app_run cos sin PI).

Definition placed (t : Topo number) (n : string) : Prop := n ∈ (Tg.positions t).*1.
(** The names the map has seen last are plain and placed. *)
Definition seen_placed (t : Topo number) : Prop :=
  match Tg.placedKey t with
  | None => True
  | Some key => ∃ names, key = services_key names ∧ Forall plain names ∧ Forall (placed t) names
  end.

(** No event takes a place away or changes the names seen, but a commit. *)
Lemma topo_step_keeps e t :
  let t' := (topo_step cos sin PI e t).1 in
  (∀ n, placed t n → placed t' n)
  ∧ (Tg.placedKey t' = Tg.placedKey t ∨ ∃ names, e = TServices names).
Proof.
  destruct e as [names|dy cx cy r|tg cx cy|cx cy| |tg| | | |]; cbn [topo_step fst]; try (split; [done|by left]).
  - split; [|by right; exists names]. case_bool_decide; [done|]. unfold placed. cbn [Tg.positions]. rewrite place_new_eq.
    intros n. rewrite fmap_app. set_solver.
  - unfold onMouseDown. split; [|left]; by case_match.
  - unfold onMouseMove. case_match; [|split; [|left]; by case_match].
    split; [|by left]. unfold placed. cbn [Tg.positions]. intros m Hm. rewrite obj_set_keys.
    case_bool_decide; set_solver.
Qed.

Lemma seen_step e t : (∀ names, e ≠ TServices names) → seen_placed t → seen_placed (topo_step cos sin PI e t).1.
Proof.
  intros He. destruct (topo_step_keeps e t) as [Hp [Hk|[names ->]]]; [|by destruct (He names)].
  unfold seen_placed. rewrite Hk. destruct (Tg.placedKey t) as [key|]; [|done].
  intros (names & ? & ? & Hn). exists names. split_and!; [done..|]. eapply Forall_impl; [exact Hn|]. apply Hp.
Qed.

(** The effect of a commit: afterwards every name is placed. *)
Lemma seen_services names t :
  Forall plain names → seen_placed t →
  let t' := (topo_step cos sin PI (TServices names) t).1 in seen_placed t' ∧ Forall (placed t') names.
Proof.
  intros Hpl Ht. cbn [topo_step fst]. case_bool_decide as Hk.
  - split; [done|]. unfold seen_placed in Ht. rewrite Hk in Ht. destruct Ht as (old & E & Hold & Hpos).
    by rewrite (services_key_perm names old).
  - assert (Forall (placed (Tg.mkTopo (Tg.transform t) (place_new cos sin PI names (Tg.positions t)) (Tg.panRef t)
      (Tg.nodeDragRef t) (Tg.didDrag t) (Some (services_key names)))) names) as Hall.
    { apply Forall_forall. intros n Hn. unfold placed. cbn [Tg.positions]. rewrite place_new_eq, fmap_app, elem_of_app.
      destruct (decide (n ∈ (Tg.positions t).*1)) as [|Hne]; [by left|]. right.
      assert (n ∈ unplaced (Tg.positions t).*1 names) as [i Hi]%list_elem_of_lookup by (by apply unplaced_elem).
      apply list_elem_of_fmap. eexists (n, _). split; [done|]. apply list_elem_of_lookup. exists i.
      rewrite list_lookup_imap, Hi. done. }
    split; [|exact Hall]. by exists names.
Qed.

(** ** Sessions of the dashboard *)
Definition plain_event (e : AppEvent) : Prop := match e with AMessage _ m => plain_message m | _ => True end.
Definition seen_view (a : App) : Prop := match Ap.view a with VGraph t => seen_placed t | _ => True end.

Lemma seen_apply e a : seen_view a → seen_view (app_apply cos sin PI e a).
Proof.
  unfold seen_view. intros Ha. destruct e as [clk m|te|le|key|m|c|i rows|key]; unfold App.app_apply; try done.
  - destruct (Ap.view a) as [t| |] eqn:Ev; try by destruct te; simpl; rewrite Ev.
    assert (∀ te, (∀ names, te ≠ TServices names) →
      match Ap.view (let '(t, calls) := topo_step cos sin PI te t in foldl apply_call (App.set_view (VGraph t) a) calls)
      with VGraph t => seen_placed t | _ => True end) as H.
    { intros te' He. pose proof (seen_step te' t He Ha) as Hs. destruct (topo_step cos sin PI te' t) as [t' cs].
      by rewrite (proj1 (proj2 (calls_frame cs (App.set_view (VGraph t') a)))). }
    destruct te; try (by apply H); simpl; by rewrite Ev.
  - destruct (Ap.view a) as [t|l|] eqn:Ev; try by (simpl; rewrite Ev). by destruct le.
  - destruct (Ap.view a) eqn:Ev; simpl; by rewrite ?Ev.
  - case_bool_decide; [done|]. by destruct m.
  - by destruct c.
Qed.

Lemma commit_places a :
  plain_store (Ap.store a) → seen_view a →
  let a' := App.commit cos sin PI a in
  seen_view a'
  ∧ ∀ t, Ap.view a' = VGraph t → Forall (placed t) (all_names (obj_values (Store.snapshots (Ap.store a')))).
Proof.
  intros Hp Ha. unfold seen_view in *. unfold App.commit. cbn [App.set_panel App.set_view Ap.view Ap.store].
  destruct (Ap.view a) as [t|l|]; try (split; [done|by intros t]).
  destruct (seen_services _ t (plain_names _ Hp) Ha) as [Hs Hall]. split; [exact Hs|]. by intros t' [= <-].
Qed.

Lemma run_plain es : Forall plain_event es → plain_store (Ap.store (app_run es)).
Proof.
  rewrite app_run_store. unfold run. assert (plain_store initial_store) as H by (by apply Forall_nil).
  revert H. generalize initial_store. induction es as [|e es IH]; intros s Hs; [done|].
  intros [He Hes]%Forall_cons. destruct e; try (by apply IH). simpl. apply IH; [|done]. by apply plain_on_message.
Qed.

Lemma run_seen es :
  Forall plain_event es →
  seen_view (app_run es)
  ∧ ∀ t, Ap.view (app_run es) = VGraph t →
      Forall (placed t) (all_names (obj_values (Store.snapshots (Ap.store (app_run es))))).
Proof.
  induction es as [|e es IH] using rev_ind; intros Hes.
  - by apply (commit_places app_init); [apply Forall_nil|].
  - pose proof (run_plain _ Hes) as Hp. rewrite app_run_snoc in *. unfold App.app_step in *.
    rewrite commit_store in Hp. apply Forall_app in Hes as [Hes _]. apply commit_places; [done|].
    by apply seen_apply, IH.
Qed.

(** C7: the well-formedness of the dashboard.  Whatever messages arrive, whose
    service names are not empty and have no comma, and whatever is clicked,
    dragged and answered in any order: the store is well formed, the panel has
    reset itself for the connection that is selected, and a map on display has a
    place of its own for every service at an end of a connection in the store. *)
Theorem dashboard_well_formed (es : list AppEvent) :
  Forall plain_event es →
  let a := app_run es in
  store_inv (Ap.store a)
  ∧ Dt.deps (Ap.panel a) = snap_ends (selectedSnap a)
  ∧ ∀ t n, Ap.view a = VGraph t → n ∈ all_names (obj_values (Store.snapshots (Ap.store a))) →
    is_Some (obj_get (Tg.positions t) n).
Proof.
  intros Hes a. split; [unfold a; rewrite app_run_store; apply run_inv|]. split; [apply app_run_deps|].
  intros t n Hv Hn. destruct (run_seen es Hes) as [_ Hall]. specialize (Hall t Hv).
  rewrite Forall_forall in Hall. specialize (Hall n Hn). unfold placed in Hall.
  destruct (obj_get (Tg.positions t) n) eqn:E; [by eexists|]. by apply obj_get_None in E.
Qed.
End Placed.

(** Two services the map did not know, after a zoom and a change of view. *)
Definition ex_new_services : list AppEvent :=
  map (λ m, AMessage m.1 m.2) sample_trace ++ [AMap TZoomIn; AView MList; AView MGraph].
Lemma dashboard_well_formed_witness :
  let a := App.app_run ex_cos ex_cos ex_pi ex_new_services in
  store_inv (Ap.store a)
  ∧ Dt.deps (Ap.panel a) = snap_ends (selectedSnap a)
  ∧ ∀ t n, Ap.view a = VGraph t → n ∈ all_names (obj_values (Store.snapshots (Ap.store a))) →
    is_Some (obj_get (Tg.positions t) n).
Proof.
  apply (dashboard_well_formed ex_cos ex_cos ex_pi ex_new_services).
  unfold ex_new_services, sample_trace. simpl map. repeat (apply Forall_cons; split); try exact I; try by apply Forall_nil.
  - split; by apply (bool_decide_unpack _).
  - split; by apply (bool_decide_unpack _).
Defined.
