(* ===== verification/Hub.v ===== *)
(** * The hub of the collector: [collector/hub/hub.go]

    The Go side of the WebSocket: the set of connected clients and the buffered
    channel of messages to broadcast.  [ServeWs] registers a connection and
    writes the history to it under one lock; one iteration of [Run] takes a
    message off the channel and writes it to every client under the same lock;
    [Broadcast] never blocks, it drops the message when the buffer is full.
    Messages are bytes here: [json.Marshal] is a parameter. *)

From S2P Require Export Prelude.
From stdpp Require Import gmap.

Definition BUFFER : nat := 512.

Section Hub.
Context {Msg Conns Data : Type} (marshal : Msg → option Data) (history_msg : list Conns → Msg).

(** A client is named by its connection. *)
Record Hub := mkHub { clients : gset nat; broadcast : list Data }.
Definition hub_new : Hub := mkHub ∅ [].

(** The writes of one critical section: the connection and what is written. *)
Abbreviation Writes := (list (nat * Data)).

(** [historyFn] is [None] until it is registered; an empty history is not sent. *)
Definition opening (history : option (list Conns)) : list Data :=
  match history with
  | Some ((_ :: _) as h) => option_list (marshal (history_msg h))
  | _ => []
  end.
Definition ServeWs (conn : nat) (history : option (list Conns)) (h : Hub) : Hub * Writes :=
  (mkHub ({[conn]} ∪ clients h) (broadcast h), map (pair conn) (opening history)).

Definition Broadcast (msg : Msg) (h : Hub) : Hub :=
  match marshal msg with
  | None => h
  | Some data =>
      if (length (broadcast h) <? BUFFER)%nat then mkHub (clients h) (broadcast h ++ [data]) else h
  end.

(** One iteration of the loop; the connections of [failed] report an error and
    are forgotten.  [None]: the channel is empty and the loop waits.  The source
    takes the message off the channel before it has the lock; here taking and
    writing are one step, at the time of the write, so that a message the loop
    holds while it waits for the lock still counts as one of the channel's. *)
Definition Run (failed : gset nat) (h : Hub) : option (Hub * Writes) :=
  match broadcast h with
  | [] => None
  | msg :: rest =>
      let ok := clients h ∖ failed in
      Some (mkHub ok rest, map (λ c, (c, msg)) (elements ok))
  end.

(** [client.close]: the reader of the connection has returned. *)
Definition close (conn : nat) (h : Hub) : Hub := mkHub (clients h ∖ {[conn]}) (broadcast h).

Definition ClientCount (h : Hub) : nat := size (clients h).

(** ** What is written to a connection *)
Definition written (conn : nat) (ws : Writes) : list Data :=
  omap (λ w, if bool_decide (w.1 = conn) then Some w.2 else None) ws.

Lemma written_app conn ws1 ws2 : written conn (ws1 ++ ws2) = written conn ws1 ++ written conn ws2.
Proof. apply omap_app. Qed.

Lemma written_other conn ws : (∀ w, w ∈ ws → w.1 ≠ conn) → written conn ws = [].
Proof.
  intros H. induction ws as [|w ws IH]; [done|]. unfold written. simpl.
  rewrite bool_decide_eq_false_2 by (apply H; set_solver). apply IH. set_solver.
Qed.

Lemma written_pair conn c (ds : list Data) :
  written conn (map (pair c) ds) = if bool_decide (c = conn) then ds else [].
Proof.
  case_bool_decide as E.
  - subst. induction ds as [|d ds IH]; [done|]. unfold written in *. simpl.
    rewrite bool_decide_eq_true_2 by done. by f_equal.
  - apply written_other. intros w (d&->&_)%list_elem_of_fmap. done.
Qed.

(** A broadcast reaches every client once. *)
Lemma written_all conn (cs : list nat) (d : Data) :
  NoDup cs → written conn (map (λ c, (c, d)) cs) = if bool_decide (conn ∈ cs) then [d] else [].
Proof.
  intros Hnd. case_bool_decide as Hin.
  - apply list_elem_of_split in Hin as (l1&l2&->). rewrite map_app, written_app. simpl.
    apply NoDup_app in Hnd as (_ & H1 & [H2 _]%NoDup_cons).
    rewrite (written_other conn (map _ l1)).
    2:{ intros w (c&->&Hc)%list_elem_of_fmap Hw. simpl in Hw. subst c. apply (H1 _ Hc). by left. }
    unfold written. simpl. rewrite bool_decide_eq_true_2 by done. f_equal.
    apply written_other. intros w (c&->&Hc)%list_elem_of_fmap Hw. simpl in Hw. by subst c.
  - apply written_other. intros w (c&->&Hc)%list_elem_of_fmap Hw. simpl in Hw. by subst c.
Qed.

Lemma written_elements conn (ok : gset nat) (d : Data) :
  written conn (map (λ c, (c, d)) (elements ok)) = if bool_decide (conn ∈ ok) then [d] else [].
Proof.
  rewrite written_all by apply NoDup_elements. by rewrite (bool_decide_ext _ _ (elem_of_elements ok conn)).
Qed.

(** The buffer is never over its capacity. *)
Definition hub_inv (h : Hub) : Prop := length (broadcast h) ≤ BUFFER.

Lemma Broadcast_inv msg h : hub_inv h → hub_inv (Broadcast msg h).
Proof.
  unfold hub_inv, Broadcast. intros H. destruct (marshal msg); [|done]. case_if; [|done].
  bool_to_prop. simpl. rewrite length_app. simpl. lia.
Qed.
Lemma Run_inv failed h h' ws : hub_inv h → Run failed h = Some (h', ws) → hub_inv h'.
Proof. unfold hub_inv, Run. destruct (broadcast h); intros H [= <- _]. simpl in *. lia. Qed.
End Hub.
Arguments Hub : clear implicits.
