(* ===== verification/Live.v ===== *)
(** * The dashboard live: hub, socket and page in one machine

    The composition of the connection ([Socket]), the page ([App]) and the hub
    of the collector ([Hub]) through the bytes in flight on each connection.
    [connect] installs the message handler on the socket it creates and nothing
    in the handler looks at [wsRef]: that messages only ever come from the
    present connection, in session order, is a theorem here, not a guard.

    The connection the collector sees and the socket of the browser have the
    same number.  A connection is ordered and loses nothing as long as both ends
    are up; after a failed write it stays broken (gorilla/websocket). *)

From S2P Require Export Hub Socket AppFacts.
From stdpp Require Import gmap sorting.

Section Live.
Context {Data Msg Conns : Type}.
Variables (marshal : Msg → option Data) (history_msg : list Conns → Msg).
(** [JSON.parse]; [None] when it throws, which leaves the hooks alone. *)
Variable parse : Data → option OutboundMsg.
Variables (cos sin : number → number) (PI : number).

Record Sys := mkSys {
  net : Net;
  app : App;
  hub : Hub Data;
  wire : gmap nat (list Data);    (* accepted connections, with the bytes in flight *)
  broken : gset nat;              (* connections whose writes fail *)
}.
(** The page is mounted and its effect has run: one socket is connecting. *)
Definition sys_init : Sys := mkSys net_mounted (app_run cos sin PI []) hub_new ∅ ∅.

Inductive SysEvent :=
  | SOpen (i : nat) | SClose (i : nat) | STimer            (* the browser *)
  | SServe (i : nat) (history : option (list Conns)) (ok : bool)
  | SBroadcast (msg : Msg) | SRun (failed : gset nat) | SGone (i : nat)   (* the collector *)
  | SDeliver (i : nat) (clk : Clock)                       (* [onmessage] of socket [i] *)
  | SUser (e : AppEvent).                                  (* the user, responses *)

(** What a step shows: for the statements, not part of the state. *)
Inductive Label :=
  | LServed (i : nat) (history : option (list Conns))
  | LTook (d : Data)
  | LWrote (i : nat) (d : Data)
  | LGot (i : nat) (clk : Clock) (d : Data)
  | LUser (e : AppEvent).

(** What the writes of the hub add to the wires. *)
Definition send (ws : list (nat * Data)) (w : gmap nat (list Data)) : gmap nat (list Data) :=
  foldl (λ w p, alter (λ ds, ds ++ [p.2]) p.1 w) w ws.
Definition wrote_labels (ws : list (nat * Data)) : list Label := map (λ p, LWrote p.1 p.2) ws.

Definition set_net (n : Net) (s : Sys) : Sys := mkSys n (app s) (hub s) (wire s) (broken s).

(** The handler of one message on the page. *)
Definition page_message (clk : Clock) (d : Data) (a : App) : App :=
  match parse d with Some msg => app_step cos sin PI a (AMessage clk msg) | None => a end.

Definition sys_step (e : SysEvent) (s : Sys) : option (Sys * list Label) :=
  match e with
  | SOpen i =>
      match wire s !! i with
      | Some _ => n ← net_step (EOpen i) (net s); Some (set_net n s, [])
      | None => None
      end
  | SClose i => n ← net_step (EClose i) (net s); Some (set_net n s, [])
  | STimer => n ← net_step ETimer (net s); Some (set_net n s, [])
  | SServe i history ok =>
      match sockets (net s) !! i, wire s !! i with
      | Some _, None =>
          let '(h, ws) := ServeWs marshal history_msg i history (hub s) in
          let ws := if ok then ws else [] in
          Some (mkSys (net s) (app s) h (send ws (<[i := []]> (wire s)))
                  (if ok then broken s else {[i]} ∪ broken s),
                LServed i history :: wrote_labels ws)
      | _, _ => None
      end
  | SBroadcast msg => Some (mkSys (net s) (app s) (Broadcast marshal msg (hub s)) (wire s) (broken s), [])
  | SRun failed =>
      let failed := broken s ∪ failed in
      match broadcast (hub s), Run failed (hub s) with
      | d :: _, Some (h, ws) =>
          Some (mkSys (net s) (app s) h (send ws (wire s)) failed, LTook d :: wrote_labels ws)
      | _, _ => None
      end
  | SGone i => Some (mkSys (net s) (app s) (close i (hub s)) (wire s) (broken s), [])
  | SDeliver i clk =>
      match sockets (net s) !! i, wire s !! i with
      | Some (Sock.mkSocket Open _), Some (d :: rest) =>
          Some (mkSys (net s) (page_message clk d (app s)) (hub s) (<[i := rest]> (wire s)) (broken s),
                [LGot i clk d])
      | _, _ => None
      end
  | SUser (AMessage _ _) => None
  | SUser e => Some (mkSys (net s) (app_step cos sin PI (app s) e) (hub s) (wire s) (broken s), [LUser e])
  end.

Fixpoint sys_run (es : list SysEvent) (s : Sys) : option (Sys * list Label) :=
  match es with
  | [] => Some (s, [])
  | e :: es =>
      '(s1, l1) ← sys_step e s;
      '(s2, l2) ← sys_run es s1;
      Some (s2, l1 ++ l2)
  end.

(** Reachable states, with what led there and what was seen. *)
Inductive reaches : list SysEvent → Sys → list Label → Prop :=
  | reaches_init : reaches [] sys_init []
  | reaches_step es s ls e s' l :
      reaches es s ls → sys_step e s = Some (s', l) → reaches (es ++ [e]) s' (ls ++ l).

Lemma sys_run_snoc es e s s1 l1 s2 l2 :
  sys_run es s = Some (s1, l1) → sys_step e s1 = Some (s2, l2) →
  sys_run (es ++ [e]) s = Some (s2, l1 ++ l2).
Proof.
  revert s l1. induction es as [|e' es IH]; intros s l1; simpl.
  - intros [= -> <-] ->. simpl. by rewrite app_nil_r.
  - destruct (sys_step e' s) as [[s' l']|]; [simpl|done].
    destruct (sys_run es s') as [[s'' l'']|] eqn:E; [simpl|done]. intros [= -> <-] He.
    rewrite (IH s' l'' E He). simpl. by rewrite app_assoc.
Qed.

Lemma sys_run_inv_snoc es e s s2 l :
  sys_run (es ++ [e]) s = Some (s2, l) →
  ∃ s1 l1 l2, sys_run es s = Some (s1, l1) ∧ sys_step e s1 = Some (s2, l2) ∧ l = l1 ++ l2.
Proof.
  revert s l. induction es as [|e' es IH]; intros s l; simpl.
  - destruct (sys_step e s) as [[s' l']|] eqn:E; [|done]. simpl. intros [= <- <-].
    exists s, [], l'. by rewrite app_nil_r.
  - destruct (sys_step e' s) as [[s' l']|] eqn:E; [|done]. simpl.
    destruct (sys_run (es ++ [e]) s') as [[s'' l'']|] eqn:E'; [|done]. simpl. intros [= <- <-].
    destruct (IH _ _ E') as (s1&l1&l2&H1&H2&->). exists s1, (l' ++ l1), l2.
    rewrite H1. simpl. by rewrite app_assoc.
Qed.

Lemma sys_run_reaches es s ls : sys_run es sys_init = Some (s, ls) → reaches es s ls.
Proof.
  revert s ls. induction es as [|e es IH] using rev_ind; intros s ls.
  - intros [= <- <-]. constructor.
  - intros (s1&l1&l2&H1&H2&->)%sys_run_inv_snoc. econstructor; eauto.
Qed.

(** ** Projections to the components *)
Definition net_event (e : SysEvent) : list NetEvent :=
  match e with SOpen i => [EOpen i] | SClose i => [EClose i] | STimer => [ETimer] | _ => [] end.
Definition app_event (l : Label) : list AppEvent :=
  match l with
  | LGot _ clk d => match parse d with Some msg => [AMessage clk msg] | None => [] end
  | LUser e => [e]
  | _ => []
  end.
Definition net_events : list SysEvent → list NetEvent := flat_map net_event.
Definition app_events : list Label → list AppEvent := flat_map app_event.

(** The sockets messages came from, what socket [i] received, what was written to it. *)
Definition got_sockets : list Label → list nat :=
  omap (λ l, match l with LGot i _ _ => Some i | _ => None end).
Definition gots (i : nat) : list Label → list Data :=
  omap (λ l, match l with LGot j _ d => if bool_decide (j = i) then Some d else None | _ => None end).
Definition wrote (i : nat) : list Label → list Data :=
  omap (λ l, match l with LWrote j d => if bool_decide (j = i) then Some d else None | _ => None end).

(** What the hub owes a connection: the history it was accepted with, and every
    message taken off the channel since. *)
Definition owed_step (i : nat) (cur : option (list Data)) (l : Label) : option (list Data) :=
  match l with
  | LServed j history => if bool_decide (j = i) then Some (opening marshal history_msg history) else cur
  | LTook d => (λ ds, ds ++ [d]) <$> cur
  | _ => cur
  end.
Definition owed (i : nat) (ls : list Label) : option (list Data) := foldl (owed_step i) None ls.

Lemma app_events_app l1 l2 : app_events (l1 ++ l2) = app_events l1 ++ app_events l2.
Proof. apply flat_map_app. Qed.
Lemma got_sockets_app l1 l2 : got_sockets (l1 ++ l2) = got_sockets l1 ++ got_sockets l2.
Proof. apply omap_app. Qed.
Lemma gots_app i l1 l2 : gots i (l1 ++ l2) = gots i l1 ++ gots i l2.
Proof. apply omap_app. Qed.
Lemma wrote_app i l1 l2 : wrote i (l1 ++ l2) = wrote i l1 ++ wrote i l2.
Proof. apply omap_app. Qed.
Lemma owed_app i l1 l2 : owed i (l1 ++ l2) = foldl (owed_step i) (owed i l1) l2.
Proof. apply foldl_app. Qed.

(** The labels of the writes of a step. *)
Lemma writes_quiet ws i :
  app_events (wrote_labels ws) = [] ∧ got_sockets (wrote_labels ws) = [] ∧ gots i (wrote_labels ws) = []
  ∧ wrote i (wrote_labels ws) = written i ws ∧ ∀ cur, foldl (owed_step i) cur (wrote_labels ws) = cur.
Proof.
  induction ws as [|[j d] ws (IH1&IH2&IH3&IH4&IH5)]; [done|].
  split_and!; try done. unfold wrote, written in *. simpl in *. by case_bool_decide; [f_equal|].
Qed.

Lemma send_lookup ws w i : send ws w !! i = (λ ds, ds ++ written i ws) <$> w !! i.
Proof.
  unfold send. revert w. induction ws as [|[j d] ws IH]; intros w; simpl.
  - destruct (w !! i); simpl; by rewrite ?app_nil_r.
  - rewrite IH. unfold written at 2. simpl. case_bool_decide as E.
    + subst. rewrite lookup_alter_eq. destruct (w !! i); simpl; [by rewrite <-app_assoc|done].
    + by rewrite lookup_alter_ne.
Qed.
(** ** Each step is a step, or none, of each component *)
Lemma wrote_labels_app_events ws : app_events (wrote_labels ws) = [].
Proof. apply (writes_quiet ws 0). Qed.

Ltac step_cases Hs :=
  repeat match type of Hs with
  | context [match ?x with _ => _ end] => let E := fresh "E" in destruct x eqn:E; try done
  end; injection Hs as <- <-.

Lemma sys_step_net e s s' l : sys_step e s = Some (s', l) → net_run (net_event e) (net s) = Some (net s').
Proof.
  destruct e as [i|i| |i h ok|m|failed|i|i clk|e]; unfold sys_step, net_run; cbn [net_event foldl]; intros Hs.
  1: destruct (wire s !! i); [|done].
  1-3: cbn [mbind option_bind] in *; destruct (net_step _ (net s)); [|done]; by injection Hs as <- <-.
  - destruct (sockets (net s) !! i), (wire s !! i); try done. cbn in Hs. by injection Hs as <- <-.
  - by injection Hs as <- <-.
  - destruct (broadcast (hub s)); [done|]. destruct (Run _ _) as [[? ?]|]; [|done]. by injection Hs as <- <-.
  - by injection Hs as <- <-.
  - step_cases Hs. done.
  - step_cases Hs; done.
Qed.

Lemma sys_step_app e s s' l :
  sys_step e s = Some (s', l) → app s' = foldl (app_step cos sin PI) (app s) (app_events l).
Proof.
  destruct e as [i|i| |i h ok|m|failed|i|i clk|e]; unfold sys_step; intros Hs.
  1: destruct (wire s !! i); [|done].
  1-3: destruct (net_step _ (net s)); [|done]; by injection Hs as <- <-.
  - destruct (sockets (net s) !! i), (wire s !! i); try done. cbn in Hs. injection Hs as <- <-.
    unfold app_events. simpl. fold app_events. by rewrite wrote_labels_app_events.
  - by injection Hs as <- <-.
  - destruct (broadcast (hub s)); [done|]. destruct (Run _ _) as [[? ?]|]; [|done]. injection Hs as <- <-.
    unfold app_events. simpl. fold app_events. by rewrite wrote_labels_app_events.
  - by injection Hs as <- <-.
  - step_cases Hs. unfold app_events. simpl. unfold page_message. by destruct (parse _).
  - step_cases Hs; done.
Qed.

(** Only an open socket hands over a message. *)
Lemma sys_step_got e s s' l :
  sys_step e s = Some (s', l) →
  got_sockets l = []
  ∨ ∃ i clk d b, e = SDeliver i clk ∧ l = [LGot i clk d] ∧ net s' = net s
      ∧ sockets (net s) !! i = Some (Sock.mkSocket Open b).
Proof.
  destruct e as [i|i| |i h ok|m|failed|i|i clk|e]; unfold sys_step; intros Hs.
  1: destruct (wire s !! i); [|done].
  1-3: destruct (net_step _ (net s)); [|done]; injection Hs as <- <-; by left.
  - destruct (sockets (net s) !! i), (wire s !! i); try done. cbn in Hs. injection Hs as <- <-.
    left. apply (writes_quiet _ 0).
  - injection Hs as <- <-. by left.
  - destruct (broadcast (hub s)); [done|]. destruct (Run _ _) as [[? ?]|]; [|done]. injection Hs as <- <-.
    left. apply (writes_quiet _ 0).
  - injection Hs as <- <-. by left.
  - step_cases Hs. right. by repeat eexists.
  - step_cases Hs; by left.
Qed.

(** ** The sessions of a page *)

(** [wsRef] is the socket created last. *)
Definition newest (n : Net) : Prop := ∃ i, wsRef n = Some i ∧ length (sockets n) = S i.

Lemma connect_newest n : newest (connect n).
Proof. exists (length (sockets n)). simpl. rewrite length_app. simpl. split; [done|lia]. Qed.

Lemma net_event_browser e : Forall (λ e, browser_event e = true) (net_event e).
Proof. by destruct e; repeat constructor. Qed.
Lemma net_events_browser es : Forall (λ e, browser_event e = true) (net_events es).
Proof. induction es as [|e es IH]; [constructor|]. apply Forall_app. split; [apply net_event_browser|done]. Qed.

(** A browser event takes no socket away, and the newest stays the newest. *)
Lemma net_step_length e n n' :
  browser_event e = true → net_step e n = Some n' → length (sockets n) ≤ length (sockets n').
Proof.
  intros He. destruct e as [|i|i| |]; simpl; try done.
  - destruct (sockets n !! i) as [[[] b]|]; intros [= <-]. simpl. by rewrite length_set_ready.
  - destruct (sockets n !! i) as [[[] []]|]; intros [= <-]; simpl; by rewrite length_set_ready.
  - destruct (timers n); intros [= <-]. simpl. rewrite length_app. lia.
Qed.
Lemma net_step_newest e n n' :
  browser_event e = true → newest n → net_step e n = Some n' → newest n'.
Proof.
  intros He Hn. destruct e as [|i|i| |]; simpl in *; try done.
  - destruct (sockets n !! i) as [[[] b]|]; intros [= <-]. unfold newest. simpl. by rewrite length_set_ready.
  - destruct (sockets n !! i) as [[[] []]|]; intros [= <-]; unfold newest; simpl; by rewrite length_set_ready.
  - destruct (timers n); intros [= <-]. apply connect_newest.
Qed.
Lemma net_run_newest e n n' :
  newest n → net_run (net_event e) n = Some n' → newest n' ∧ length (sockets n) ≤ length (sockets n').
Proof.
  intros Hn. pose proof (net_event_browser e) as Hb. destruct e; unfold net_run; cbn [net_event foldl];
    try (intros [= <-]; split; [done|lia]); apply Forall_cons in Hb as [Hb _]; intros Hs; cbn in Hs;
    (split; [by eapply net_step_newest|by eapply net_step_length]).
Qed.

Record live_inv (es : list SysEvent) (s : Sys) (ls : list Label) : Prop := {
  live_net : net_run (EMount :: net_events es) net_init = Some (net s);
  live_newest : newest (net s);
  live_app : app s = app_run cos sin PI (app_events ls);
  live_sorted : StronglySorted le (got_sockets ls);
  live_known : Forall (λ i, i < length (sockets (net s))) (got_sockets ls);
}.

Lemma live_net_inv es s ls : live_inv es s ls → net_inv (net s).
Proof. intros H. exact (net_run_mounted_inv _ _ (net_events_browser es) (live_net _ _ _ H)). Qed.

(** The open socket is the one in [wsRef], and no later one exists. *)
Lemma open_is_current es s ls i b :
  live_inv es s ls → sockets (net s) !! i = Some (Sock.mkSocket Open b) →
  wsRef (net s) = Some i ∧ connected (net s) = true ∧ length (sockets (net s)) = S i.
Proof.
  intros H Hi. pose proof (live_net_inv _ _ _ H) as Hn.
  destruct (net_inv_live _ _ _ Hn Hi eq_refl) as (_&_&Href&_).
  destruct (live_newest _ _ _ H) as (j&Hj&Hlen). split_and!; [done| |congruence].
  apply (inv_connected _ Hn). by exists i, (Sock.mkSocket Open b).
Qed.

Lemma reaches_live es s ls : reaches es s ls → live_inv es s ls.
Proof.
  induction 1 as [|es s ls e s' l Hr IH Hstep].
  { split; [done|apply connect_newest|done|constructor|constructor]. }
  destruct (net_run_newest e _ _ (live_newest _ _ _ IH) (sys_step_net _ _ _ _ Hstep)) as [Hnew Hlen].
  assert (Forall (λ i, i < length (sockets (net s'))) (got_sockets ls)) as Hold.
  { eapply Forall_impl; [exact (live_known _ _ _ IH)|]. simpl. lia. }
  split; [| exact Hnew | | |].
  - unfold net_events. rewrite flat_map_app. simpl. rewrite app_nil_r, app_comm_cons, net_run_app.
    fold (net_events es). pose proof (live_net _ _ _ IH) as ->. exact (sys_step_net _ _ _ _ Hstep).
  - rewrite app_events_app. unfold App.app_run. rewrite foldl_app, (sys_step_app _ _ _ _ Hstep).
    by rewrite (live_app _ _ _ IH).
  - rewrite got_sockets_app. destruct (sys_step_got _ _ _ _ Hstep) as [->|(i&clk&d&b&->&->&Hn&Hi)].
    { rewrite app_nil_r. apply IH. }
    destruct (open_is_current _ _ _ _ _ IH Hi) as (_&_&Hl). simpl.
    apply StronglySorted_app_2; [|apply IH|repeat constructor].
    intros x y Hx ->%list_elem_of_singleton. pose proof (live_known _ _ _ IH) as Hk.
    rewrite Forall_forall in Hk. specialize (Hk x Hx). simpl in Hk. lia.
  - rewrite got_sockets_app. apply Forall_app. split; [done|].
    destruct (sys_step_got _ _ _ _ Hstep) as [->|(i&clk&d&b&->&->&->&Hi)]; [constructor|].
    repeat constructor. by apply lookup_lt_Some in Hi.
Qed.
(** ** The bytes in flight *)

(** For connection [i]: the wire holds what was written and not received yet;
    what was written is a prefix of what the hub owes, all of it while the hub
    counts the connection among its clients and its writes succeed. *)
Definition conn_inv (i : nat) (s : Sys) (ls : list Label) : Prop :=
  match wire s !! i with
  | None => gots i ls = [] ∧ wrote i ls = [] ∧ owed i ls = None ∧ i ∉ clients (hub s)
  | Some ds =>
      i < length (sockets (net s)) ∧ wrote i ls = gots i ls ++ ds
      ∧ ∃ due, owed i ls = Some due ∧ wrote i ls `prefix_of` due
          ∧ (i ∈ clients (hub s) → i ∉ broken s → wrote i ls = due)
  end.

(** A step that writes nothing, takes nothing and delivers nothing. *)
Lemma conn_inv_quiet i s s' ls :
  conn_inv i s ls → length (sockets (net s)) ≤ length (sockets (net s')) →
  wire s' = wire s → broken s' = broken s → clients (hub s') ⊆ clients (hub s) →
  conn_inv i s' ls.
Proof.
  unfold conn_inv. intros H Hlen -> -> Hsub. destruct (wire s !! i) as [ds|].
  - destruct H as (?&?&due&?&?&?). split_and!; [lia|done|]. exists due. split_and!; auto.
  - destruct H as (?&?&?&?). split_and!; auto.
Qed.

Lemma gots_other i j clk d : j ≠ i → gots i [LGot j clk d] = [].
Proof. intros. unfold gots. simpl. by rewrite bool_decide_eq_false_2. Qed.

Lemma gots_same i clk d : gots i [LGot i clk d] = [d].
Proof. unfold gots. simpl. by rewrite bool_decide_eq_true_2. Qed.

Lemma conn_inv_served i s ls j history ok :
  conn_inv i s ls → wire s !! j = None → j < length (sockets (net s)) →
  let ws := if ok : bool then map (pair j) (opening marshal history_msg history) else [] in
  conn_inv i
    (mkSys (net s) (app s) (mkHub ({[j]} ∪ clients (hub s)) (broadcast (hub s)))
       (send ws (<[j := []]> (wire s))) (if ok then broken s else {[j]} ∪ broken s))
    (ls ++ LServed j history :: wrote_labels ws).
Proof.
  intros H Hj Hlen ws. unfold conn_inv in *. simpl.
  rewrite send_lookup, gots_app, wrote_app, owed_app. simpl.
  destruct (writes_quiet ws i) as (_&_&Hg&Hw&Ho).
  change (gots i (LServed j history :: wrote_labels ws)) with (gots i (wrote_labels ws)).
  change (wrote i (LServed j history :: wrote_labels ws)) with (wrote i (wrote_labels ws)).
  rewrite Hg, Hw, Ho.
  assert (written i ws = if bool_decide (j = i) then if ok then opening marshal history_msg history else [] else [])
    as ->.
  { unfold ws. destruct ok; [apply written_pair|by case_bool_decide]. }
  case_bool_decide as E.
  - subst j. rewrite lookup_insert_eq. rewrite Hj in H. destruct H as (->&->&_&Hc). simpl.
    split_and!; [done|done|]. exists (opening marshal history_msg history).
    destruct ok; split_and!; try done; [apply prefix_nil|set_solver].
  - rewrite lookup_insert_ne by done. destruct (wire s !! i) as [ds|]; simpl.
    + destruct H as (?&->&due&?&?&?). rewrite !app_nil_r. split_and!; [done..|].
      exists due. split_and!; [done..|]. intros. destruct ok; set_solver.
    + destruct H as (->&->&->&?). split_and!; set_solver.
Qed.

Lemma conn_inv_ran i s ls failed d ok rest :
  conn_inv i s ls → ok = clients (hub s) ∖ (broken s ∪ failed) →
  let ws := map (λ c, (c, d)) (elements ok) in
  conn_inv i (mkSys (net s) (app s) (mkHub ok rest) (send ws (wire s)) (broken s ∪ failed))
    (ls ++ LTook d :: wrote_labels ws).
Proof.
  intros H Hok ws. unfold conn_inv in *. simpl.
  rewrite send_lookup, gots_app, wrote_app, owed_app. simpl.
  destruct (writes_quiet ws i) as (_&_&Hg&Hw&Ho).
  change (gots i (LTook d :: wrote_labels ws)) with (gots i (wrote_labels ws)).
  change (wrote i (LTook d :: wrote_labels ws)) with (wrote i (wrote_labels ws)).
  rewrite Hg, Hw, Ho. unfold ws. rewrite written_elements, app_nil_r.
  destruct (wire s !! i) as [ds|]; simpl.
  - destruct H as (?&Hwr&due&->&Hpre&Hall). simpl. split_and!; [done|by rewrite Hwr, app_assoc|].
    exists (due ++ [d]). split; [done|]. case_bool_decide as Hin.
    + rewrite Hall by set_solver. split; done.
    + rewrite app_nil_r. split; [by apply prefix_app_r|]. done.
  - destruct H as (->&->&->&?). rewrite bool_decide_eq_false_2 by set_solver.
    split_and!; [done..|set_solver].
Qed.

Lemma conn_inv_got i s ls j clk d rest a :
  conn_inv i s ls → wire s !! j = Some (d :: rest) →
  conn_inv i (mkSys (net s) a (hub s) (<[j := rest]> (wire s)) (broken s)) (ls ++ [LGot j clk d]).
Proof.
  intros H Hj. unfold conn_inv in *. rewrite gots_app, wrote_app, owed_app.
  cbn [hub wire broken net app foldl owed_step]. change (wrote i [LGot j clk d]) with (@nil Data). rewrite app_nil_r.
  destruct (decide (j = i)) as [->|Hne].
  - rewrite Hj in H. rewrite lookup_insert_eq. destruct H as (?&Hwr&due&?&?&?).
    split_and!; [done| |by exists due].
    by rewrite Hwr, gots_same, <-app_assoc.
  - rewrite lookup_insert_ne, gots_other, app_nil_r by done. exact H.
Qed.

Lemma reaches_conn es s ls i : reaches es s ls → conn_inv i s ls.
Proof.
  induction 1 as [|es s ls e s' l Hr IH Hstep].
  { unfold conn_inv. simpl. rewrite lookup_empty. split_and!; [done..|set_solver]. }
  destruct (net_run_newest e _ _ (live_newest _ _ _ (reaches_live _ _ _ Hr)) (sys_step_net _ _ _ _ Hstep)) as [_ Hlen].
  destruct e as [j|j| |j h ok|m|failed|j|j clk|e]; unfold sys_step in Hstep.
  1: destruct (wire s !! j); [|done].
  1-3: destruct (net_step _ (net s)); [|done]; injection Hstep as <- <-;
    rewrite app_nil_r; by eapply conn_inv_quiet.
  - destruct (sockets (net s) !! j) eqn:Ej; [|done]. destruct (wire s !! j) eqn:Ew; [done|]. cbn in Hstep.
    injection Hstep as <- <-. apply lookup_lt_Some in Ej. by apply conn_inv_served.
  - injection Hstep as <- <-. rewrite app_nil_r. eapply conn_inv_quiet; try done.
    unfold Broadcast. simpl. destruct (marshal m); [case_if|]; done.
  - unfold Run in Hstep. destruct (broadcast (hub s)) as [|d rest]; [done|]. cbn in Hstep.
    injection Hstep as <- <-. by apply conn_inv_ran.
  - injection Hstep as <- <-. rewrite app_nil_r. eapply conn_inv_quiet; try done. set_solver.
  - step_cases Hstep. by apply conn_inv_got.
  - assert (l = [LUser e] ∧ wire s' = wire s ∧ broken s' = broken s ∧ hub s' = hub s ∧ net s' = net s)
      as (->&Hw&Hb&Hh&Hn) by (destruct e; try done; injection Hstep as <- <-; split_and!; reflexivity).
    assert (conn_inv i s' ls) as IH' by (apply (conn_inv_quiet i s); rewrite ?Hh, ?Hn; auto with lia).
    unfold conn_inv. rewrite gots_app, wrote_app, owed_app. simpl.
    change (gots i [LUser e]) with (@nil Data). change (wrote i [LUser e]) with (@nil Data).
    rewrite !app_nil_r. exact IH'.
Qed.

Lemma reaches_hub es s ls : reaches es s ls → hub_inv (hub s).
Proof.
  induction 1 as [|es s ls e s' l Hr IH Hstep]; [unfold hub_inv; simpl; lia|].
  destruct e as [j|j| |j h ok|m|failed|j|j clk|e]; unfold sys_step in Hstep.
  1: destruct (wire s !! j); [|done].
  1-3: destruct (net_step _ (net s)); [|done]; by injection Hstep as <- <-.
  - destruct (sockets (net s) !! j), (wire s !! j); try done. cbn in Hstep. by injection Hstep as <- <-.
  - injection Hstep as <- <-. by apply Broadcast_inv.
  - destruct (broadcast (hub s)); [done|]. destruct (Run _ _) as [[h ws]|] eqn:E; [|done].
    injection Hstep as <- <-. by eapply Run_inv.
  - by injection Hstep as <- <-.
  - by step_cases Hstep.
  - by step_cases Hstep.
Qed.
(** ** A connection removed while the page was away *)

(** The message of [d] does not mention connection [k]. *)
Definition silent_on (k : string) (d : Data) : Prop :=
  match parse d with
  | None => True
  | Some msg =>
      match dispatch msg with
      | AStats snap => snap_key snap ≠ k
      | ARemove key => key ≠ k
      | AHistory conns => Forall (λ c, Conn.key c ≠ k) conns
      | _ => True
      end
  end.
(** Nothing the collector sends from this event mentions [k]. *)
Definition event_silent_on (k : string) (e : SysEvent) : Prop :=
  match e with
  | SBroadcast msg => ∀ d, marshal msg = Some d → silent_on k d
  | SServe _ history _ => Forall (silent_on k) (opening marshal history_msg history)
  | _ => True
  end.
(** A ['history'] message was received. *)
Definition history_came (l : Label) : Prop :=
  match l with
  | LGot _ _ d =>
      match dispatch <$> parse d with Some (AHistory _) => True | _ => False end
  | _ => False
  end.

Definition snapshot_at (s : Sys) (k : string) := obj_get (Store.snapshots (Ap.store (app s))) k.
Definition history_at (s : Sys) (k : string) := obj_get (Store.history (Ap.store (app s))) k.

Lemma page_message_store clk d a :
  Ap.store (page_message clk d a)
    = match parse d with Some msg => on_message clk msg (Ap.store a) | None => Ap.store a end.
Proof.
  unfold page_message. destruct (parse d); [|done]. unfold App.app_step. by rewrite commit_store.
Qed.

Lemma silent_message k clk d a :
  silent_on k d →
  let a' := page_message clk d a in
  obj_get (Store.snapshots (Ap.store a')) k = obj_get (Store.snapshots (Ap.store a)) k
  ∧ (history_came (LGot 0 clk d) ∨ obj_get (Store.history (Ap.store a)) k = None →
     obj_get (Store.history (Ap.store a')) k = None).
Proof.
  unfold silent_on, history_came. cbv zeta. rewrite !page_message_store.
  destruct (parse d) as [msg|]; simpl; [|naive_solver].
  unfold on_message. destruct (dispatch msg) as [snap|conns|r|key|]; simpl; intros Hs; try naive_solver.
  - unfold history_updater. rewrite !obj_get_set_ne by done. naive_solver.
  - split; [done|]. intros _. rewrite history_of_msg_get. unfold last_conn.
    by rewrite list_filter_none.
  - rewrite !obj_get_delete. rewrite !bool_decide_eq_false_2 by done. naive_solver.
Qed.

(** No user event changes the store. *)
Lemma user_store e s s' l : sys_step (SUser e) s = Some (s', l) → Ap.store (app s') = Ap.store (app s).
Proof.
  unfold sys_step. intros Hs. destruct e; try done; injection Hs as <- <-; cbn [app];
    unfold App.app_step; by rewrite commit_store, apply_store.
Qed.

(** A socket that is live after a browser event was live before, or is new. *)
Lemma net_step_live e n n' j sk :
  browser_event e = true → net_step e n = Some n' → sockets n' !! j = Some sk → live sk = true →
  (∃ sk0, sockets n !! j = Some sk0 ∧ live sk0 = true) ∨ length (sockets n) ≤ j.
Proof.
  intros He. destruct e as [|i|i| |]; simpl in *; try done.
  - destruct (sockets n !! i) as [[[] b]|] eqn:Ei; intros [= <-]; simpl. rewrite set_ready_lookup.
    case_decide as E; [|by left; eexists]. subst. rewrite Ei. intros _ _. left. by eexists.
  - destruct (sockets n !! i) as [[[] []]|] eqn:Ei; intros [= <-]; simpl; rewrite set_ready_lookup;
      (case_decide as E; [|by left; eexists]); subst; rewrite Ei; intros [= <-]; done.
  - destruct (timers n); intros [= <-]; simpl. intros [H|[H _]]%lookup_app_Some; [by left; eexists|by right].
Qed.
(** What the page can still receive does not mention [k]. *)
Record silent_sys (k : string) (s : Sys) : Prop := {
  silent_queue : Forall (silent_on k) (broadcast (hub s));
  silent_wires : ∀ i sk ds, sockets (net s) !! i = Some sk → live sk = true →
    wire s !! i = Some ds → Forall (silent_on k) ds;
  wires_known : ∀ i ds, wire s !! i = Some ds → i < length (sockets (net s));
}.

Lemma silent_net k e s n :
  browser_event e = true → net_step e (net s) = Some n → silent_sys k s → silent_sys k (set_net n s).
Proof.
  intros He Hn Hs. split; [apply Hs| |]; simpl.
  - intros i sk ds Hi Hl Hw. destruct (net_step_live _ _ _ _ _ He Hn Hi Hl) as [(sk0&?&?)|Hge].
    + by eapply (silent_wires _ _ Hs).
    + pose proof (wires_known _ _ Hs _ _ Hw). lia.
  - intros i ds Hw. pose proof (wires_known _ _ Hs _ _ Hw).
    pose proof (net_step_length _ _ _ He Hn). lia.
Qed.

Lemma written_silent k i (ws : list (nat * Data)) :
  Forall (λ w, silent_on k w.2) ws → Forall (silent_on k) (written i ws).
Proof.
  intros H. apply Forall_forall. intros d (w&Hw&Hd)%list_elem_of_omap. rewrite Forall_forall in H.
  specialize (H w Hw). case_bool_decide; simplify_eq. done.
Qed.

Lemma silent_send k s h ws w br :
  silent_sys k s → Forall (silent_on k) (broadcast h) → Forall (λ w, silent_on k w.2) ws →
  (∀ i, w !! i = wire s !! i ∨ w !! i = Some [] ∧ i < length (sockets (net s))) →
  silent_sys k (mkSys (net s) (app s) h (send ws w) br).
Proof.
  intros Hs Hh Hws Hw. split; [done| |]; simpl.
  - intros i sk ds Hi Hl. rewrite send_lookup. intros (ds0&Hds&->)%fmap_Some.
    apply Forall_app. split; [|by apply written_silent].
    destruct (Hw i) as [E|[E _]]; rewrite E in Hds; [by eapply (silent_wires _ _ Hs)|by injection Hds as <-].
  - intros i ds. rewrite send_lookup. intros (ds0&Hds&_)%fmap_Some.
    destruct (Hw i) as [E|[E ?]]; rewrite E in Hds; [by eapply (wires_known _ _ Hs)|done].
Qed.

Lemma wrote_no_history ws : ¬ Exists history_came (wrote_labels ws).
Proof. rewrite Exists_exists. by intros (x&(p&->&_)%list_elem_of_fmap&[]). Qed.

(** Handing over the first message of a live wire. *)
Lemma silent_got k s j b d rest a :
  silent_sys k s → sockets (net s) !! j = Some (Sock.mkSocket Open b) → wire s !! j = Some (d :: rest) →
  silent_on k d ∧ silent_sys k (mkSys (net s) a (hub s) (<[j := rest]> (wire s)) (broken s)).
Proof.
  intros Hs Ej Ew. pose proof (silent_wires _ _ Hs _ _ _ Ej eq_refl Ew) as [Hd Hrest]%Forall_cons.
  split; [done|]. split; [apply Hs| |]; simpl.
  - intros i sk ds Hi Hl. destruct (decide (j = i)) as [<-|?].
    + rewrite lookup_insert_eq. by intros [= <-].
    + rewrite lookup_insert_ne by done. by eapply (silent_wires _ _ Hs).
  - intros i ds. destruct (decide (j = i)) as [<-|?].
    + intros _. by apply lookup_lt_Some in Ej.
    + rewrite lookup_insert_ne by done. apply (wires_known _ _ Hs).
Qed.

Lemma silent_step k e s s' l :
  event_silent_on k e → sys_step e s = Some (s', l) → silent_sys k s →
  silent_sys k s' ∧ snapshot_at s' k = snapshot_at s k
  ∧ (Exists history_came l ∨ history_at s k = None → history_at s' k = None).
Proof.
  unfold snapshot_at, history_at. intros He Hstep Hs.
  destruct e as [j|j| |j h ok|m|failed|j|j clk|e].
  1-3: unfold sys_step in Hstep.
  1: destruct (wire s !! j); [|done].
  1-3: match type of Hstep with context [net_step ?e _] =>
      destruct (net_step e (net s)) eqn:En; [|done]; injection Hstep as <- <-;
      split_and!; [exact (silent_net k e s _ eq_refl En Hs)|done|by intros [H%Exists_nil|]]
    end.
  - unfold sys_step in Hstep. destruct (sockets (net s) !! j) eqn:Ej; [|done].
    destruct (wire s !! j) eqn:Ew; [done|]. cbn in Hstep.
    injection Hstep as <- <-. split_and!; [|done|].
    + apply silent_send; [done|apply Hs| |].
      * destruct ok; [|constructor]. apply Forall_map. eapply Forall_impl; [exact He|done].
      * intros i. destruct (decide (j = i)) as [<-|?]; [right|left].
        { rewrite lookup_insert_eq. apply lookup_lt_Some in Ej. done. }
        by rewrite lookup_insert_ne.
    + intros [[[]|H%wrote_no_history]%Exists_cons|]; done.
  - unfold sys_step in Hstep. injection Hstep as <- <-. split_and!; [|done|by intros [H%Exists_nil|]].
    split; [|apply Hs|apply Hs]. unfold Broadcast. simpl. simpl in He.
    destruct (marshal m) as [d|]; [|apply Hs]. case_if; [|apply Hs]. simpl.
    apply Forall_app. split; [apply Hs|]. repeat constructor. by apply He.
  - unfold sys_step, Run in Hstep. pose proof (silent_queue _ _ Hs) as Hq.
    destruct (broadcast (hub s)) as [|d rest]; [done|]. cbn in Hstep.
    injection Hstep as <- <-. apply Forall_cons in Hq as [Hd Hq]. split_and!; [|done|].
    + apply silent_send; [done|done| |by intros; left]. apply Forall_map, Forall_forall. done.
    + intros [[[]|H%wrote_no_history]%Exists_cons|]; done.
  - unfold sys_step in Hstep. injection Hstep as <- <-. split_and!; [|done|by intros [H%Exists_nil|]].
    split; apply Hs.
  - unfold sys_step in Hstep. destruct (sockets (net s) !! j) as [[[] b]|] eqn:Ej; try done.
    destruct (wire s !! j) as [[|d rest]|] eqn:Ew; try done. injection Hstep as <- <-.
    destruct (silent_got k s j b d rest (page_message clk d (app s)) Hs Ej Ew) as [Hd Hs'].
    destruct (silent_message k clk d (app s) Hd) as [Hsn Hh]. split_and!; [exact Hs'|exact Hsn|].
    intros [H|H]; apply Hh; [left|by right]. apply Exists_cons in H as [H|H%Exists_nil]; done.
  - rewrite (user_store _ _ _ _ Hstep). unfold sys_step in Hstep. split_and!; [|done|].
    + destruct e; try done; injection Hstep as <- <-; split; apply Hs.
    + assert (l = [LUser e]) as -> by (destruct e; try done; by injection Hstep as <- <-).
      intros [[[]|H%Exists_nil]%Exists_cons|]; done.
Qed.
Lemma silent_run k es s s' ls :
  Forall (event_silent_on k) es → sys_run es s = Some (s', ls) → silent_sys k s →
  snapshot_at s' k = snapshot_at s k
  ∧ (Exists history_came ls ∨ history_at s k = None → history_at s' k = None).
Proof.
  revert s ls. induction es as [|e es IH]; intros s ls Hes; simpl.
  { intros [= <- <-] _. split; [done|]. by intros [H%Exists_nil|]. }
  apply Forall_cons in Hes as [He Hes].
  destruct (sys_step e s) as [[s1 l1]|] eqn:E1; [|done]. simpl.
  destruct (sys_run es s1) as [[s2 l2]|] eqn:E2; [|done]. simpl. intros [= -> <-] Hs.
  destruct (silent_step k e s s1 l1 He E1 Hs) as (Hs1&<-&Hh1).
  destruct (IH s1 l2 Hes E2 Hs1) as [-> Hh2]. split; [done|].
  rewrite Exists_app. tauto.
Qed.

(** While no socket is live and the timer does not fire, nothing reaches the page. *)
Lemma down_step e s s' l :
  live_count (sockets (net s)) = 0 → e ≠ STimer → sys_step e s = Some (s', l) →
  live_count (sockets (net s')) = 0 ∧ Ap.store (app s') = Ap.store (app s).
Proof.
  intros Hz He Hstep.
  assert (∀ j sk, sockets (net s) !! j = Some sk → live sk = false) as Hdead.
  { intros j sk Hj. by eapply live_count_zero. }
  destruct e as [j|j| |j h ok|m|failed|j|j clk|e]; try done; try (rewrite (user_store _ _ _ _ Hstep));
    unfold sys_step in Hstep.
  - destruct (wire s !! j); [|done]. cbn in Hstep.
    destruct (sockets (net s) !! j) as [[[] b]|] eqn:Ej; try done. by apply Hdead in Ej.
  - cbn in Hstep. destruct (sockets (net s) !! j) as [[[] b]|] eqn:Ej; try done; by apply Hdead in Ej.
  - destruct (sockets (net s) !! j), (wire s !! j); try done. cbn in Hstep. by injection Hstep as <- <-.
  - by injection Hstep as <- <-.
  - unfold Run in Hstep. destruct (broadcast (hub s)); [done|]. cbn in Hstep. by injection Hstep as <- <-.
  - by injection Hstep as <- <-.
  - destruct (sockets (net s) !! j) as [[[] b]|] eqn:Ej; try done. by apply Hdead in Ej.
  - destruct e; try done; by injection Hstep as <- <-.
Qed.

Lemma down_run es s s' ls :
  live_count (sockets (net s)) = 0 → STimer ∉ es → sys_run es s = Some (s', ls) →
  live_count (sockets (net s')) = 0 ∧ Ap.store (app s') = Ap.store (app s).
Proof.
  revert s ls. induction es as [|e es IH]; intros s ls Hz Hes; simpl; [by intros [= <- <-]|].
  apply not_elem_of_cons in Hes as [He Hes].
  destruct (sys_step e s) as [[s1 l1]|] eqn:E1; [|done]. simpl.
  destruct (sys_run es s1) as [[s2 l2]|] eqn:E2; [|done]. simpl. intros [= -> <-].
  destruct (down_step e s s1 l1 Hz (not_eq_sym He) E1) as [Hz1 <-]. by eapply IH.
Qed.

Lemma reaches_run es es' s s' ls ls' :
  reaches es s ls → sys_run es' s = Some (s', ls') → reaches (es ++ es') s' (ls ++ ls').
Proof.
  intros Hr. revert s' ls'. induction es' as [|e es' IH] using rev_ind; intros s' ls'.
  - intros [= <- <-]. by rewrite !app_nil_r.
  - intros (s1&l1&l2&H1&H2&->)%sys_run_inv_snoc. rewrite !app_assoc. econstructor; eauto.
Qed.

(** *** Properties *)

(** C5: the live page is its components put together.  Whatever the browser, the
    hub and the user do, in any order: the connection is a run of the connection
    machine, the page a run of the dashboard on the messages received and the
    user's events, its store the store of those messages; and the messages come
    session by session, never one of an earlier socket after one of a later. *)
Theorem live_refines (es : list SysEvent) (s : Sys) (ls : list Label) :
  sys_run es sys_init = Some (s, ls) →
  net_run (EMount :: net_events es) net_init = Some (net s)
  ∧ app s = app_run cos sin PI (app_events ls)
  ∧ Ap.store (app s) = run (messages (app_events ls))
  ∧ StronglySorted le (got_sockets ls).
Proof.
  intros Hr%sys_run_reaches%reaches_live. split_and!; try apply Hr.
  rewrite (live_app _ _ _ Hr). apply app_run_store.
Qed.

(** C12: messages come from the present connection only.  The handler does not
    look at [wsRef], and yet whenever a message is handled, the socket it came
    from is the one in [wsRef] and the page shows itself connected. *)
Theorem messages_from_current_socket (es : list SysEvent) (s s' : Sys) (ls l : list Label) (i : nat) (clk : Clock) :
  sys_run es sys_init = Some (s, ls) → sys_step (SDeliver i clk) s = Some (s', l) →
  wsRef (net s) = Some i ∧ connected (net s) = true ∧ timers (net s) = 0.
Proof.
  intros Hr%sys_run_reaches%reaches_live Hs.
  destruct (sys_step_got _ _ _ _ Hs) as [Hl|(i'&clk'&d&b&[= <- <-]&_&_&Hi)].
  { exfalso. unfold sys_step in Hs. step_cases Hs. done. }
  destruct (open_is_current _ _ _ _ _ Hr Hi) as (?&?&_). split_and!; [done..|].
  by destruct (net_inv_live _ _ _ (live_net_inv _ _ _ Hr) Hi eq_refl).
Qed.

(** C6: what a connection gets is a prefix of what it is owed: the history it was
    accepted with, then every message the hub took off its channel since, each
    once and in order.  When the hub still counts the connection, its writes
    succeed and nothing is in flight, it is all of it.  The channel never holds
    more than its 512 places. *)
Theorem connection_in_order (es : list SysEvent) (s : Sys) (ls : list Label) (i : nat) :
  sys_run es sys_init = Some (s, ls) →
  gots i ls `prefix_of` default [] (owed i ls)
  ∧ (i ∈ clients (hub s) → i ∉ broken s → wire s !! i = Some [] → owed i ls = Some (gots i ls))
  ∧ length (broadcast (hub s)) ≤ BUFFER.
Proof.
  intros Hr%sys_run_reaches. pose proof (reaches_conn _ _ _ i Hr) as Hc. unfold conn_inv in Hc.
  split_and!; [| |by eapply reaches_hub].
  - destruct (wire s !! i) as [ds|].
    + destruct Hc as (_&Hw&due&->&Hp&_). simpl. etrans; [|exact Hp]. rewrite Hw. by apply prefix_app_r.
    + destruct Hc as (->&_). apply prefix_nil.
  - intros Hi Hb Hw. rewrite Hw in Hc. destruct Hc as (_&Hwr&due&->&_&Hall).
    by rewrite <-(Hall Hi Hb), Hwr, app_nil_r.
Qed.

(** C11: a connection removed while the page is disconnected is shown for ever.
    The page holds a snapshot of [k] when its socket is down; before the
    reconnection timer fires the hub broadcasts what it likes, such as the
    removal of [k]; from then on the collector does not mention [k] any more.
    Whatever happens afterwards, reconnection included, the snapshot stays; and
    once the new connection has sent its history, the chart of [k] is empty. *)
Theorem outage_keeps_removed (k : string) (snap : StatSnapshot)
    (es1 es2 es3 : list SysEvent) (s1 s2 s3 : Sys) (ls1 ls2 ls3 : list Label) :
  sys_run es1 sys_init = Some (s1, ls1) → timers (net s1) = 1 → snapshot_at s1 k = Some snap →
  sys_run es2 s1 = Some (s2, ls2) → STimer ∉ es2 → Forall (silent_on k) (broadcast (hub s2)) →
  sys_run es3 s2 = Some (s3, ls3) → Forall (event_silent_on k) es3 →
  snapshot_at s3 k = Some snap ∧ (Exists history_came ls3 → history_at s3 k = None).
Proof.
  intros Hr%sys_run_reaches Ht Hsnap H2 Hes2 Hq H3 Hes3.
  pose proof (inv_single _ (live_net_inv _ _ _ (reaches_live _ _ _ Hr))) as Hone.
  destruct (down_run es2 s1 s2 ls2 ltac:(lia) Hes2 H2) as [Hz Hst].
  pose proof (reaches_run _ _ _ _ _ _ Hr H2) as Hr2.
  assert (silent_sys k s2) as Hs.
  { split; [done| |].
    - intros i sk ds Hi Hl. by rewrite (live_count_zero _ _ _ Hz Hi) in Hl.
    - intros i ds Hw. pose proof (reaches_conn _ _ _ i Hr2) as Hc. unfold conn_inv in Hc.
      rewrite Hw in Hc. apply Hc. }
  destruct (silent_run k es3 s2 s3 ls3 Hes3 H3 Hs) as [Hsn Hh]. split; [|auto].
  rewrite Hsn. unfold snapshot_at in *. by rewrite Hst.
Qed.
End Live.

(** ** Concrete sessions *)
Definition ex_history (h : list ConnHistory) : OutboundMsg := Out.mkOut MHistory None None (Some h) None.
Definition ex_stats : OutboundMsg := stats_msg (sample_snap "a" "b" 500 false).
Definition ex_remove : OutboundMsg := Out.mkOut MRemove None (Some "a→b") None None.
Definition ex_conn (key : string) : ConnHistory :=
  Conn.mkConn key [stat_point (mkClock 0 0 0) (sample_snap "a" "b" 500 false)].

#[local] Abbreviation ex_init := (sys_init (Data := OutboundMsg) ex_cos ex_cos ex_pi).
#[local] Abbreviation ex_run :=
  (sys_run (Msg := OutboundMsg) (Conns := ConnHistory) Some ex_history Some ex_cos ex_cos ex_pi).
#[local] Abbreviation Event := (SysEvent (Msg := OutboundMsg) (Conns := ConnHistory)).

(** Connect, get the history and a snapshot of [a→b]; the connection fails. *)
Definition ex_up : list Event :=
  [SServe 0 (Some [ex_conn "a→b"]) true; SOpen 0; SBroadcast ex_stats; SRun ∅;
   SDeliver 0 (mkClock 1 1 1); SDeliver 0 (mkClock 2 2 2)].
Definition ex_outage : list Event := ex_up ++ [SClose 0].
(** The removal is broadcast while the page is away; the hub notices. *)
Definition ex_away : list Event := [SBroadcast ex_remove; SRun {[0]}].
(** The timer fires and a second connection starts with its own history. *)
Definition ex_back : list Event :=
  [STimer; SServe 1 (Some [ex_conn "c→d"]) true; SOpen 1; SDeliver 1 (mkClock 9 9 9)].

Definition outcome (es : list Event) (s : Sys (Data := OutboundMsg)) : Sys * list Label :=
  default (s, []) (ex_run es s).

Lemma live_refines_witness :
  let s := (outcome (ex_outage ++ ex_away ++ ex_back) ex_init).1 in
  let ls := (outcome (ex_outage ++ ex_away ++ ex_back) ex_init).2 in
  got_sockets ls = [0; 0; 1]
  ∧ net_run (EMount :: net_events (ex_outage ++ ex_away ++ ex_back)) net_init = Some (net s)
  ∧ app s = App.app_run ex_cos ex_cos ex_pi (app_events Some ls)
  ∧ Ap.store (app s) = run (messages (app_events Some ls))
  ∧ StronglySorted le (got_sockets ls).
Proof.
  intros s ls. split; [vm_compute; reflexivity|].
  apply (live_refines Some ex_history Some ex_cos ex_cos ex_pi (ex_outage ++ ex_away ++ ex_back) s ls).
  vm_compute. reflexivity.
Defined.

Lemma messages_from_current_socket_witness :
  let s := (outcome (ex_outage ++ ex_away ++ take 3 ex_back) ex_init).1 in
  wsRef (net s) = Some 1 ∧ connected (net s) = true ∧ timers (net s) = 0.
Proof.
  intros s.
  apply (messages_from_current_socket Some ex_history Some ex_cos ex_cos ex_pi
    (ex_outage ++ ex_away ++ take 3 ex_back) s (outcome (drop 3 ex_back) s).1
    (outcome (ex_outage ++ ex_away ++ take 3 ex_back) ex_init).2
    (outcome (drop 3 ex_back) s).2 1 (mkClock 9 9 9)); vm_compute; reflexivity.
Defined.

Lemma connection_in_order_witness :
  let s := (outcome ex_up ex_init).1 in
  let ls := (outcome ex_up ex_init).2 in
  gots 0 ls = [ex_history [ex_conn "a→b"]; ex_stats]
  ∧ gots 0 ls `prefix_of` default [] (owed Some ex_history 0 ls)
  ∧ (0 ∈ clients (hub s) → 0 ∉ broken s → wire s !! 0 = Some [] → owed Some ex_history 0 ls = Some (gots 0 ls))
  ∧ length (broadcast (hub s)) ≤ BUFFER.
Proof.
  intros s ls. split; [vm_compute; reflexivity|].
  apply (connection_in_order Some ex_history Some ex_cos ex_cos ex_pi ex_up s ls).
  vm_compute. reflexivity.
Defined.

Lemma outage_keeps_removed_witness :
  let s1 := (outcome ex_outage ex_init).1 in
  let s2 := (outcome ex_away s1).1 in
  let s3 := (outcome ex_back s2).1 in
  let ls3 := (outcome ex_back s2).2 in
  snapshot_at s3 "a→b" = Some (sample_snap "a" "b" 500 false)
  ∧ (Exists (history_came Some) ls3 → history_at s3 "a→b" = None).
Proof.
  intros s1 s2 s3 ls3.
  apply (outage_keeps_removed Some ex_history Some ex_cos ex_cos ex_pi "a→b" _ ex_outage ex_away ex_back
    s1 s2 s3 (outcome ex_outage ex_init).2 (outcome ex_away s1).2 ls3).
  all: try (vm_compute; reflexivity).
  - intros [[=]|[[=]|[]%elem_of_nil]%elem_of_cons]%elem_of_cons.
  - apply Forall_nil_2.
  - repeat first [exact I | apply Forall_nil_2 | apply Forall_cons_2]. discriminate.
Defined.
