(* ===== verification/Recovery.v ===== *)
(** * The dashboard comes back

    Progress of the live system ([Live]): whatever has happened, the page is never
    stuck.  A live socket can fail, a pending timer can fire, and with a collector
    that accepts the connection and sends its history, four more events make the
    page connected, with exactly that history on its charts. *)

From S2P Require Export Live.
From stdpp Require Import gmap.

Lemma live_count_pos ss : 0 < live_count ss → ∃ i s, ss !! i = Some s ∧ live s = true.
Proof.
  induction ss as [|s ss IH]; [by intros ?%Nat.lt_irrefl|]. rewrite live_count_cons.
  destruct (live s) eqn:E; [by exists 0, s|]. intros (i & s' & ? & ?)%IH. by exists (S i), s'.
Qed.

Section Recovery.
Context {Data Msg Conns : Type}.
Variables (marshal : Msg → option Data) (history_msg : list Conns → Msg).
Variable parse : Data → option OutboundMsg.
Variables (cos sin : number → number) (PI : number).
Abbreviation Sys := (Sys (Data := Data)).
Abbreviation SysEvent := (SysEvent (Msg := Msg) (Conns := Conns)).
Abbreviation sys_step := (sys_step marshal history_msg parse cos sin PI).
Abbreviation sys_run := (sys_run marshal history_msg parse cos sin PI).
Abbreviation reaches := (reaches marshal history_msg parse cos sin PI).
Abbreviation sys_init := (sys_init (Data := Data) cos sin PI).

(** No bytes are in flight on a connection whose socket is yet to be made. *)
Lemma future_wires (es : list SysEvent) (s : Sys) ls i :
  reaches es s ls → length (sockets (net s)) ≤ i → wire s !! i = None.
Proof.
  intros Hr. revert i. induction Hr as [|es s ls e s' l Hr IH Hs]; intros i Hi; [apply lookup_empty|].
  assert (newest (net s)) as Hnew by (eapply live_newest, reaches_live, Hr).
  assert (length (sockets (net s)) ≤ length (sockets (net s'))) as Hlen
    by (eapply net_run_newest; [exact Hnew|eapply sys_step_net, Hs]).
  assert (wire s !! i = None) as Hw by (apply IH; lia). clear IH.
  destruct e as [j|j| |j h ok|m|failed|j|j clk|e]; unfold Live.sys_step in Hs.
  1: destruct (wire s !! j); [|done].
  1-3: destruct (net_step _ (net s)); [|done]; by injection Hs as <- <-.
  - destruct (sockets (net s) !! j) eqn:Ej, (wire s !! j); try done. cbn in Hs. injection Hs as <- <-.
    cbn [wire net] in *. rewrite send_lookup, lookup_insert_ne, Hw; [done|].
    apply lookup_lt_Some in Ej. lia.
  - by injection Hs as <- <-.
  - destruct (broadcast (hub s)); [done|]. destruct (Run _ _) as [[? ?]|]; [|done]. injection Hs as <- <-.
    cbn [wire]. by rewrite send_lookup, Hw.
  - by injection Hs as <- <-.
  - destruct (sockets (net s) !! j) as [[[] ?]|]; try done.
    destruct (wire s !! j) as [[|d rest]|] eqn:Ej; try done. injection Hs as <- <-. cbn [wire].
    rewrite lookup_insert_ne; [done|]. intros ->. by rewrite Hw in Ej.
  - destruct e; try done; by injection Hs as <- <-.
Qed.

(** The page and its connection, brought back: the timer, the collector that
    accepts with [h], the socket that opens, the first message. *)
Definition comeback (h : list Conns) (clk : Clock) (s : Sys) : list SysEvent :=
  let i := length (sockets (net s)) in
  [STimer; SServe i (Some h) true; SOpen i; SDeliver i clk].
(** When no timer is pending, the socket in [wsRef] must fail first. *)
Definition down (s : Sys) : list SysEvent :=
  match timers (net s), wsRef (net s) with 0, Some i => [SClose i] | _, _ => [] end.

Definition recovered (conns : list ConnHistory) (s s' : Sys) : Prop :=
  let i := length (sockets (net s)) in
  wsRef (net s') = Some i ∧ connected (net s') = true ∧ timers (net s') = 0
  ∧ i ∈ clients (hub s') ∧ wire s' !! i = Some []
  ∧ Store.history (Ap.store (Live.app s')) = history_of_msg conns
  ∧ Store.snapshots (Ap.store (Live.app s')) = Store.snapshots (Ap.store (Live.app s))
  ∧ Ap.selectedKey (Live.app s') = Ap.selectedKey (Live.app s).

Lemma set_ready_app i r ss sk : length ss = i → set_ready i r (ss ++ [sk]) = ss ++ [Sock.mkSocket r (Sock.onclose sk)].
Proof. intros <-. unfold set_ready. rewrite alter_app_r_alt by lia. by rewrite Nat.sub_diag. Qed.

Lemma sys_run_cons e es s s1 l1 s2 l2 :
  sys_step e s = Some (s1, l1) → sys_run es s1 = Some (s2, l2) → sys_run (e :: es) s = Some (s2, l1 ++ l2).
Proof. intros H1 H2. cbn [Live.sys_run]. rewrite H1. cbn. by rewrite H2. Qed.

Lemma history_message_store clk d msg conns a :
  parse d = Some msg → dispatch msg = AHistory conns →
  let a' := page_message parse cos sin PI clk d a in
  Ap.store a' = Store.mkStore (Store.snapshots (Ap.store a)) (Store.services (Ap.store a))
    (history_of_msg conns) (Store.events (Ap.store a))
  ∧ Ap.selectedKey a' = Ap.selectedKey a.
Proof.
  intros Hp Hd a'. unfold a', page_message. rewrite Hp. unfold App.app_step. split; [|done].
  rewrite commit_store, apply_store. cbn [messages flat_map]. unfold run_from. simpl.
  unfold on_message. by rewrite Hd.
Qed.

Ltac sys_cbn := cbn [Live.sys_step net_step net set_net connect sockets wire hub Live.app broken timers
  wsRef connected mounted mbind option_bind].

Lemma comeback_run s h d msg conns clk :
  timers (net s) = 1 → wire s !! length (sockets (net s)) = None → h ≠ [] →
  marshal (history_msg h) = Some d → parse d = Some msg → dispatch msg = AHistory conns →
  ∃ s' l, sys_run (comeback h clk s) s = Some (s', l) ∧ recovered conns s s'.
Proof.
  intros Ht Hw Hh Hm Hp Hd. unfold comeback. set (i := length (sockets (net s))) in *.
  set (ss := sockets (net s) ++ [Sock.mkSocket Connecting true]).
  assert (∀ b sk, (sockets (net s) ++ [Sock.mkSocket b sk]) !! i = Some (Sock.mkSocket b sk)) as Hi.
  { intros b sk. unfold i. by rewrite lookup_app_r, Nat.sub_diag. }
  assert (ServeWs marshal history_msg i (Some h) (hub s)
    = (mkHub ({[i]} ∪ clients (hub s)) (broadcast (hub s)), [(i, d)])) as Hserve.
  { unfold ServeWs, opening. destruct h; [done|]. by rewrite Hm. }
  set (w := send [(i, d)] (<[i:=[]]> (wire s))).
  assert (w !! i = Some [d]) as Hwi.
  { unfold w. rewrite send_lookup, lookup_insert_eq. unfold written. simpl. by rewrite bool_decide_true. }
  pose proof (history_message_store clk d msg conns (Live.app s) Hp Hd) as [Hst Hsel].
  eexists _, _. split.
  - eapply sys_run_cons; [sys_cbn; rewrite Ht; reflexivity|].
    eapply sys_run_cons.
    { sys_cbn. rewrite Hi, Hw, Hserve. reflexivity. }
    eapply sys_run_cons.
    { sys_cbn. fold w. rewrite Hwi. sys_cbn.
      rewrite Hi. reflexivity. }
    eapply sys_run_cons; [|reflexivity].
    sys_cbn. fold w. rewrite Hwi.
    rewrite set_ready_app by done. rewrite Hi. reflexivity.
  - unfold recovered. fold i. cbn. rewrite Hst, Hsel, lookup_insert_eq. cbn. split_and!; try done. set_solver.
Qed.

Lemma down_run_ok es s ls :
  reaches es s ls →
  ∃ s' l, sys_run (down s) s = Some (s', l) ∧ timers (net s') = 1
    ∧ length (sockets (net s')) = length (sockets (net s))
    ∧ wire s' = wire s ∧ Live.app s' = Live.app s.
Proof.
  intros Hr. assert (net_inv (net s)) as Hn by (eapply live_net_inv, reaches_live, Hr).
  unfold down. pose proof (inv_single _ Hn) as Hone. destruct (timers (net s)) as [|[|t]] eqn:Et; [|by exists s, []|lia].
  destruct (live_count_pos (sockets (net s)) ltac:(lia)) as (i & [r b] & Hi & Hl).
  destruct (inv_handlers _ Hn i _ Hi Hl) as [-> Hb]. simpl in Hb. subst b.
  eexists _, _. split.
  - eapply sys_run_cons; [|reflexivity]. sys_cbn. rewrite Hi.
    destruct r; [reflexivity..|done].
  - cbn. rewrite length_set_ready. split_and!; [lia|done..].
Qed.

Lemma sys_run_app es1 es2 s s1 l1 s2 l2 :
  sys_run es1 s = Some (s1, l1) → sys_run es2 s1 = Some (s2, l2) → sys_run (es1 ++ es2) s = Some (s2, l1 ++ l2).
Proof.
  revert s l1. induction es1 as [|e es1 IH]; intros s l1; [by intros [= -> <-]|].
  cbn [app Live.sys_run]. destruct (sys_step e s) as [[s' l']|]; [cbn|done].
  destruct (sys_run es1 s') as [[s'' l'']|] eqn:E; [cbn|done]. intros [= -> <-] H2.
  rewrite (IH s' l'' E H2). cbn. by rewrite <-app_assoc.
Qed.

(** C10: the page is never stuck.  In every reachable state, whatever the browser,
    the hub and the user have done, at most five events bring the page back: the
    live socket, if any, fails; the timer fires; the collector accepts the new
    connection with a history that its own marshalling can carry; the socket
    opens; the first message arrives.  Each of them is possible when its turn
    comes, and then the page is connected through that socket, the hub counts
    it, the charts hold exactly the history sent, and the connections on display
    and the selection are what they were. *)
Theorem reconnection_recovers (es : list SysEvent) (s : Sys) (ls : list Label)
    (h : list Conns) (d : Data) (msg : OutboundMsg) (conns : list ConnHistory) (clk : Clock) :
  sys_run es sys_init = Some (s, ls) → h ≠ [] →
  marshal (history_msg h) = Some d → parse d = Some msg → dispatch msg = AHistory conns →
  ∃ s' l, sys_run (down s ++ comeback h clk s) s = Some (s', l) ∧ recovered conns s s'.
Proof.
  intros Hr%sys_run_reaches Hh Hm Hp Hd. destruct (down_run_ok _ _ _ Hr) as (s1 & l1 & H1 & Ht & Hlen & Hw & Ha).
  destruct (comeback_run s1 h d msg conns clk Ht) as (s2 & l2 & H2 & Hrec); try done.
  { rewrite Hw, Hlen. by eapply future_wires. }
  unfold comeback in H2. unfold recovered in *. rewrite Hlen in H2, Hrec. rewrite Ha in Hrec.
  exists s2, (l1 ++ l2). split; [|done]. by eapply sys_run_app.
Qed.
End Recovery.

#[local] Abbreviation ex_init := (sys_init (Data := OutboundMsg) ex_cos ex_cos ex_pi).
#[local] Abbreviation ex_run :=
  (sys_run (Msg := OutboundMsg) (Conns := ConnHistory) Some ex_history Some ex_cos ex_cos ex_pi).

(** From the connected page of [ex_up]: its socket fails, and it comes back. *)
Lemma reconnection_recovers_witness :
  let s := (outcome ex_up ex_init).1 in
  down (Msg := OutboundMsg) (Conns := ConnHistory) s = [SClose 0]
  ∧ ∃ s' l, ex_run (down s ++ comeback [ex_conn "c→d"] (mkClock 9 9 9) s) s = Some (s', l)
      ∧ recovered [ex_conn "c→d"] s s'.
Proof.
  intros s. split; [vm_compute; reflexivity|].
  apply (reconnection_recovers Some ex_history Some ex_cos ex_cos ex_pi ex_up s (outcome ex_up ex_init).2
    [ex_conn "c→d"] (ex_history [ex_conn "c→d"]) (ex_history [ex_conn "c→d"]) [ex_conn "c→d"] (mkClock 9 9 9)).
  - vm_compute. reflexivity.
  - discriminate.
  - reflexivity.
  - reflexivity.
  - reflexivity.
Defined.
