(* ===== verification/DesignEngine.v ===== *)
(** * The data engine of the prototype: [design_handoff_microtrace/mt-data.js]

    The engine mutates the fields of its service and connection objects one
    assignment at a time; here every assignment is a setter applied to the
    object, in the order of the source.  Nothing but the types of the fields,
    the tapes and the published service figures is shared with [Mock], the
    simulated source of the dashboard, which was written from this file and
    computes its updates as one expression each. *)

From S2P Require Export Mock View.
From stdpp Require Import base list.

Local Open Scope num_scope.

(** ** Tables *)
Definition d_INTERNAL_SERVICES : list string :=
  ["api-gateway"; "auth-svc"; "order-svc"; "payment-svc"; "inventory-svc"; "notif-svc"].
Definition d_EXTERNAL_SERVICES : list string := ["postgres"; "redis"; "kafka"; "stripe-api"].

Definition d_CONN_DEFS : list ConnDef := [
  Def.mkDef "api-gateway" "auth-svc"      N[3]         (nlit 15 10);
  Def.mkDef "api-gateway" "order-svc"     N[5]         N[2];
  Def.mkDef "auth-svc"    "redis"         (nlit 15 10) (nlit 5 10);
  Def.mkDef "order-svc"   "payment-svc"   N[8]         N[3];
  Def.mkDef "order-svc"   "inventory-svc" N[4]         N[2];
  Def.mkDef "order-svc"   "notif-svc"     N[6]         N[2];
  Def.mkDef "order-svc"   "postgres"      N[9]         N[4];
  Def.mkDef "payment-svc" "postgres"      N[12]        N[5];
  Def.mkDef "payment-svc" "stripe-api"    N[45]        N[15];
  Def.mkDef "notif-svc"   "kafka"         N[3]         N[1]
].

(** Positions between 0 and 1. *)
Section Positions.
Context {T : Type} `{Num T}.
Definition d_NODE_POS : jsobj (Point T) := [
  ("api-gateway", pt 50 8);
  ("auth-svc", pt 18 35);
  ("order-svc", pt 78 35);
  ("redis", pt 5 66);
  ("payment-svc", pt 50 64);
  ("inventory-svc", pt 95 66);
  ("notif-svc", pt 78 93);
  ("postgres", pt 28 93);
  ("kafka", pt 96 96);
  ("stripe-api", pt 52 93)
].
End Positions.

(** ** Assignments to the fields of a service *)
Section ServiceSetters.
Import SS.
Definition set_cpu v s := mkSS (name s) v (io_wait_pct s) (mem_pressure_pct s) (cpu_throttle_pct s) (stressKind s) (stressTimer s) (history s).
Definition set_io v s := mkSS (name s) (cpu_pct s) v (mem_pressure_pct s) (cpu_throttle_pct s) (stressKind s) (stressTimer s) (history s).
Definition set_mem v s := mkSS (name s) (cpu_pct s) (io_wait_pct s) v (cpu_throttle_pct s) (stressKind s) (stressTimer s) (history s).
Definition set_throttle v s := mkSS (name s) (cpu_pct s) (io_wait_pct s) (mem_pressure_pct s) v (stressKind s) (stressTimer s) (history s).
Definition set_stressKind v s := mkSS (name s) (cpu_pct s) (io_wait_pct s) (mem_pressure_pct s) (cpu_throttle_pct s) v (stressTimer s) (history s).
Definition set_stressTimer v s := mkSS (name s) (cpu_pct s) (io_wait_pct s) (mem_pressure_pct s) (cpu_throttle_pct s) (stressKind s) v (history s).
Definition set_usage v s := mkSS (name s) (cpu_pct s) (io_wait_pct s) (mem_pressure_pct s) (cpu_throttle_pct s) (stressKind s) (stressTimer s) v.
End ServiceSetters.

(** ** Assignments to the fields of a connection *)
Section ConnSetters.
Import CS.
Definition set_isSpike v s := mkCS (src s) (dst s) (key s) (baseMs s) (noiseMs s) v (spikeTimer s) (retransmitCount s) (sampleCount s) (fin s) (rst s) (timeout s) (history s) (causeKind s).
Definition set_spikeTimer v s := mkCS (src s) (dst s) (key s) (baseMs s) (noiseMs s) (isSpike s) v (retransmitCount s) (sampleCount s) (fin s) (rst s) (timeout s) (history s) (causeKind s).
Definition set_retransmits v s := mkCS (src s) (dst s) (key s) (baseMs s) (noiseMs s) (isSpike s) (spikeTimer s) v (sampleCount s) (fin s) (rst s) (timeout s) (history s) (causeKind s).
Definition set_samples v s := mkCS (src s) (dst s) (key s) (baseMs s) (noiseMs s) (isSpike s) (spikeTimer s) (retransmitCount s) v (fin s) (rst s) (timeout s) (history s) (causeKind s).
Definition set_fin v s := mkCS (src s) (dst s) (key s) (baseMs s) (noiseMs s) (isSpike s) (spikeTimer s) (retransmitCount s) (sampleCount s) v (rst s) (timeout s) (history s) (causeKind s).
Definition set_rst v s := mkCS (src s) (dst s) (key s) (baseMs s) (noiseMs s) (isSpike s) (spikeTimer s) (retransmitCount s) (sampleCount s) (fin s) v (timeout s) (history s) (causeKind s).
Definition set_timeout v s := mkCS (src s) (dst s) (key s) (baseMs s) (noiseMs s) (isSpike s) (spikeTimer s) (retransmitCount s) (sampleCount s) (fin s) (rst s) v (history s) (causeKind s).
Definition set_points v s := mkCS (src s) (dst s) (key s) (baseMs s) (noiseMs s) (isSpike s) (spikeTimer s) (retransmitCount s) (sampleCount s) (fin s) (rst s) (timeout s) v (causeKind s).
Definition set_causeKind v s := mkCS (src s) (dst s) (key s) (baseMs s) (noiseMs s) (isSpike s) (spikeTimer s) (retransmitCount s) (sampleCount s) (fin s) (rst s) (timeout s) (history s) v.
End ConnSetters.

(** ** State *)
Module DSnap.
Record DesignSnap := mkDSnap {
  key : string;
  src_service : string; dst_service : string;
  src_type : NodeType; dst_type : NodeType;
  perc : Percs;                                  (* ...perc *)
  retransmit_count : Z; sample_count : Z;
  is_spike : bool;
  spike_threshold_us : number;
  history : list (number * Percs);
  cause_kind : option CauseKind;
  fin : Z; rst : Z; timeout : Z;                 (* close_states *)
  dst_cpu_pct : number; dst_io_wait_pct : number; dst_mem_pressure_pct : number;
}.
End DSnap.
Abbreviation DesignSnap := DSnap.DesignSnap.

Module En.
Record Engine := mkEngine {
  serviceState : jsobj ServiceState;
  connState : jsobj ConnState;
  allSpikeEvents : list SpikeEvent;
  eventCounter : Z;
}.
Record TickResult := mkResult {
  snapshots : jsobj DesignSnap;
  services : ServiceMap;
  newEvents : list SpikeEvent;
  allEvents : list SpikeEvent;
}.
(** The locals of a tick and the two globals it updates. *)
Record Local := mkLocal {
  l_snapshots : jsobj DesignSnap;
  l_newEvents : list SpikeEvent;
  l_allSpikeEvents : list SpikeEvent;
  l_eventCounter : Z;
}.
End En.
Abbreviation Engine := En.Engine.

Definition d_SAMPLES : nat := 30.

Definition d_classifyCause (svcs : jsobj ServiceState) (state : ConnState) (dstSvc : string) : CauseKind :=
  match obj_get svcs dstSvc with
  | None => Network
  | Some dstState =>
      if bool_decide (dstSvc ∈ d_EXTERNAL_SERVICES) && (CS.baseMs state >? N[30]) then External
      else match SS.stressKind dstState with
           | Some StressCpu => Cpu
           | Some StressIo => Io
           | Some StressMemory => Memory
           | None => Network
           end
  end.

Definition d_svc_type (name : string) : NodeType :=
  if bool_decide (name ∈ d_INTERNAL_SERVICES) then Internal else ExternalNode.

Section Engine.
Variable rand : nat → number.
Variable now : nat → Z.
#[local] Abbreviation random := (random rand).
#[local] Abbreviation date_now := (date_now now).

Definition d_rnd (lo hi : number) : M number := r ← random; mret (lo + r * (hi - lo)).

(** ** [genPercs] *)

(** [arr[Math.max(0, Math.floor(pct / 100 * (arr.length - 1)))]] *)
Definition d_percentile (arr : list number) (pct : Z) : number :=
  arr_get arr (nmax N[0] (nfloor (N[pct] / N[100] * (N[Z.of_nat (length arr)] - N[1])))).

Definition d_genPercs (state : ConnState) : M Percs :=
  base ← (if CS.isSpike state then r ← d_rnd N[8] N[25]; mret (CS.baseMs state * r)
          else mret (CS.baseMs state));
  let noise := if CS.isSpike state then CS.baseMs state * N[5] else CS.noiseMs state in
  arr ← replicateM d_SAMPLES
    (r ← d_rnd (nneg noise * nlit 8 10) (noise * nlit 12 10); mret (nmax (nlit 1 10) (base + r)));
  let arr := js_sort (λ a b, a - b >? N[0]) arr in
  let p := d_percentile arr in
  let avg := nsum arr / N[Z.of_nat (length arr)] in
  mret (Perc.mkPercs (avg * N[1000]) (p 50%Z * N[1000]) (p 95%Z * N[1000]) (p 99%Z * N[1000])
          ((p 75%Z - p 25%Z) * N[1000])).

(** ** [tickService] *)
Definition d_stress (s : ServiceState) : M ServiceState :=
  if (0 <? SS.stressTimer s)%Z then
    let s := set_stressTimer (SS.stressTimer s - 1)%Z s in
    mret (if (SS.stressTimer s =? 0)%Z then set_stressKind None s else s)
  else
    r ← random;
    if r <? nlit 8 1000 then
      r ← random;
      let s := set_stressKind (nfloorZ (r * N[3]) ≫= js_at [StressCpu; StressIo; StressMemory]) s in
      t ← d_rnd N[5] N[14];
      mret (set_stressTimer (nfloorZ t ?? 0%Z) s)
    else mret s.

(** The four [let]s of the base levels and the three [if]s that override them. *)
Definition d_targets (kind : StressKind) : M (number * number * number * number) :=
  r ← random; let targetCpu := N[15] + r * N[25] in
  r ← random; let targetIo := N[2] + r * N[6] in
  r ← random; let targetMem := N[5] + r * N[15] in
  let targetThrottle := N[0] in
  '(targetCpu, targetThrottle) ←
    (if bool_decide (kind = Some StressCpu)
     then r ← random; let cpu := N[85] + r * N[14] in r ← random; mret (cpu, N[20] + r * N[60])
     else mret (targetCpu, targetThrottle));
  targetIo ←
    (if bool_decide (kind = Some StressIo) then r ← random; mret (N[35] + r * N[40]) else mret targetIo);
  '(targetMem, targetCpu) ←
    (if bool_decide (kind = Some StressMemory)
     then r ← random; let mem := N[75] + r * N[22] in r ← random; mret (mem, N[50] + r * N[30])
     else mret (targetMem, targetCpu));
  mret (targetCpu, targetIo, targetMem, targetThrottle).

Definition d_tickService (s : ServiceState) : M ServiceState :=
  s ← d_stress s;
  '(targetCpu, targetIo, targetMem, targetThrottle) ← d_targets (SS.stressKind s);
  let s := set_cpu (SS.cpu_pct s + (targetCpu - SS.cpu_pct s) * nlit 4 10) s in
  let s := set_io (SS.io_wait_pct s + (targetIo - SS.io_wait_pct s) * nlit 5 10) s in
  let s := set_mem (SS.mem_pressure_pct s + (targetMem - SS.mem_pressure_pct s) * nlit 3 10) s in
  let s := set_throttle (SS.cpu_throttle_pct s + (targetThrottle - SS.cpu_throttle_pct s) * nlit 5 10) s in
  time ← date_now;
  mret (set_usage (js_slice (SS.history s) (-300) None
          ++ [RPoint.mkRPoint N[time] (SS.cpu_pct s) (SS.io_wait_pct s) (SS.mem_pressure_pct s) (SS.cpu_throttle_pct s)]) s).

(** ** The body of the loop over the connections *)
Definition d_close (s : ConnState) : M ConnState :=
  r ← random;
  if r <? nlit 15 100 then
    r ← random;
    mret (if r <? nlit 33 100 then set_rst (CS.rst s + 1)%Z s
          else if r <? nlit 66 100 then set_timeout (CS.timeout s + 1)%Z s
          else set_fin (CS.fin s + 1)%Z s)
  else mret (set_fin (CS.fin s + 1)%Z s).

Definition d_spike (dstStressed : bool) (s : ConnState) : M ConnState :=
  if CS.isSpike s then
    let s := set_spikeTimer (CS.spikeTimer s - 1)%Z s in
    mret (if (CS.spikeTimer s <=? 0)%Z then set_isSpike false s else s)
  else
    let p := if dstStressed then nlit 18 100 else nlit 8 1000 in
    r ← random;
    if r <? p then
      let s := set_isSpike true s in
      t ← d_rnd N[3] N[8];
      let s := set_spikeTimer (nfloorZ t ?? 0%Z) s in
      c ← d_rnd N[1] N[5];
      let s := set_retransmits (CS.retransmitCount s + (nfloorZ c ?? 0))%Z s in
      d_close s
    else mret s.

Definition d_snapshot (s : ConnState) (perc : Percs) (dst : ServiceState) : DesignSnap :=
  DSnap.mkDSnap (CS.key s) (CS.src s) (CS.dst s) (d_svc_type (CS.src s)) (d_svc_type (CS.dst s)) perc
    (CS.retransmitCount s) (CS.sampleCount s) (CS.isSpike s) (CS.baseMs s * N[5] * N[1000])
    (CS.history s) (CS.causeKind s) (CS.fin s) (CS.rst s) (CS.timeout s)
    (SS.cpu_pct dst) (SS.io_wait_pct dst) (SS.mem_pressure_pct dst).

(** [cause_kind] is typed as never null; it is set, since the state spikes. *)
Definition d_event (s : ConnState) (perc : Percs) (dst : ServiceState)
    (t_id t_ts counter : Z) : SpikeEvent :=
  Spike.mkSpike (CS.key s +:+ "-" +:+ pretty t_id +:+ "-" +:+ pretty counter)
    N[t_ts] (CS.key s) (CS.src s) (CS.dst s) (Perc.p99_us perc) (CS.baseMs s * N[1000])
    (if Perc.p99_us perc >? N[80000] then Critical else Warning) (CS.causeKind s ?? Network)
    (SS.cpu_pct dst) (SS.io_wait_pct dst) (SS.mem_pressure_pct dst).

(** The body of the loop over the connections: [serviceState[state.dst]] is
    read without a guard. *)
Definition d_tick_conn (svcs : jsobj ServiceState) (state : ConnState) (a : En.Local)
    : M (ConnState * En.Local) :=
  let wasSpike := CS.isSpike state in
  match obj_get svcs (CS.dst state) with
  | None => throw
  | Some dstState =>
      state ← d_spike (bool_decide (SS.stressKind dstState ≠ None)) state;
      perc ← d_genPercs state;
      let state := set_samples (CS.sampleCount state + Z.of_nat d_SAMPLES)%Z state in
      let state := set_causeKind
        (if CS.isSpike state then Some (d_classifyCause svcs state (CS.dst state)) else None) state in
      time ← date_now;
      let state := set_points (js_slice (CS.history state) (-300) None ++ [(N[time], perc)]) state in
      let a := En.mkLocal (obj_set (En.l_snapshots a) (CS.key state) (d_snapshot state perc dstState))
                 (En.l_newEvents a) (En.l_allSpikeEvents a) (En.l_eventCounter a) in
      if CS.isSpike state && negb wasSpike then
        t_id ← date_now;
        let counter := (En.l_eventCounter a + 1)%Z in
        t_ts ← date_now;
        let ev := d_event state perc dstState t_id t_ts counter in
        mret (state, En.mkLocal (En.l_snapshots a) (En.l_newEvents a ++ [ev])
                       (js_slice (ev :: En.l_allSpikeEvents a) 0 (Some 100%Z)) counter)
      else mret (state, a)
  end.

Fixpoint d_tick_conns (svcs : jsobj ServiceState) (conns : jsobj ConnState) (a : En.Local)
    : M (jsobj ConnState * En.Local) :=
  match conns with
  | [] => mret ([], a)
  | (k, s) :: conns =>
      '(s', a) ← d_tick_conn svcs s a;
      '(conns', a) ← d_tick_conns svcs conns a;
      mret ((k, s') :: conns', a)
  end.

(** The service-level snapshot. *)
Definition d_services (svcs : jsobj ServiceState) : ServiceMap :=
  foldl (λ services s, obj_set services (SS.name s)
      (Svc.mkSvc (SS.name s) (SS.cpu_pct s) (SS.io_wait_pct s) (SS.mem_pressure_pct s)
         (SS.cpu_throttle_pct s) (SS.stressKind s) (SS.history s)))
    obj_empty svcs.*2.

Definition d_tick (e : Engine) : M (En.TickResult * Engine) :=
  svcs ← mapM_list (λ ks : string * ServiceState, s ← d_tickService ks.2; mret (ks.1, s))
           (En.serviceState e);
  '(conns, a) ← d_tick_conns svcs (En.connState e)
                  (En.mkLocal obj_empty [] (En.allSpikeEvents e) (En.eventCounter e));
  mret (En.mkResult (En.l_snapshots a) (d_services svcs) (En.l_newEvents a) (En.l_allSpikeEvents a),
        En.mkEngine svcs conns (En.l_allSpikeEvents a) (En.l_eventCounter a)).

(** The initial objects, filed one after the other. *)
Fixpoint d_init_services (names : list string) (acc : jsobj ServiceState) : M (jsobj ServiceState) :=
  match names with
  | [] => mret acc
  | svc :: names =>
      r ← random; let cpu := N[15] + r * N[25] in
      r ← random; let io := N[2] + r * N[6] in
      r ← random; let mem := N[5] + r * N[15] in
      d_init_services names (obj_set acc svc (SS.mkSS svc cpu io mem N[0] None 0%Z []))
  end.
Definition d_init_conns : jsobj ConnState :=
  foldl (λ acc d,
    let key := Def.src d +:+ "→" +:+ Def.dst d in
    obj_set acc key
      (CS.mkCS (Def.src d) (Def.dst d) key (Def.baseMs d) (Def.noiseMs d) false 0 0 0 0 0 0 [] None))
    obj_empty d_CONN_DEFS.
Definition d_init : M Engine :=
  svcs ← d_init_services (d_INTERNAL_SERVICES ++ d_EXTERNAL_SERVICES) obj_empty;
  mret (En.mkEngine svcs d_init_conns [] 0).

(** The result of the last of [S n] ticks. *)
Fixpoint d_ticks (n : nat) (e : Engine) : M (En.TickResult * Engine) :=
  '(r, e) ← d_tick e;
  match n with O => mret (r, e) | S n => d_ticks n e end.
Definition d_run (n : nat) : option (En.TickResult * Engine) :=
  fst <$> (e ← d_init; d_ticks n e) (mkWorld 0 0).
End Engine.
