(* ===== verification/Design.v ===== *)
(** * The design hand-off: formats and derived data

    The number formats of the prototype and the derived data of its list,
    matrix, figures and detail panel ([mt-views.jsx], [mt-panels.jsx],
    [mt-topology.jsx], [mt-chart.jsx]). *)

From S2P Require Export DesignEngine.
From stdpp Require Import base list.

Local Open Scope num_scope.

(** ** Number formats *)

(** Each file of the prototype has its own copies: [vFmtUs] and [vLatencyStatus]
    in the views, [fmtUs] in the panels, [fmtUs] (here [map_fmtUs], always one
    decimal) and [latencyStatus] in the map.  None has the branch for seconds
    of [utils/format.ts]. *)
Definition vFmtUs (us : number) : string :=
  if us >=? N[1000] then toFixed (us / N[1000]) (if us >=? N[10000] then 1 else 2) +:+ "ms"
  else number_toString (nround us) +:+ "µs".
Definition vLatencyStatus (p99_us : number) : Status :=
  if p99_us <? N[5000] then Ok
  else if p99_us <? N[20000] then Warn
  else if p99_us <? N[100000] then High
  else Crit.
Definition d_fmtUs (us : number) : string :=
  if us >=? N[1000] then toFixed (us / N[1000]) (if us >=? N[10000] then 1 else 2) +:+ "ms"
  else number_toString (nround us) +:+ "µs".
Definition map_fmtUs (us : number) : string :=
  if us >=? N[1000] then toFixed (us / N[1000]) 1 +:+ "ms" else number_toString (nround us) +:+ "µs".
Definition d_latencyStatus (p99_us : number) : Status :=
  if p99_us <? N[5000] then Ok
  else if p99_us <? N[20000] then Warn
  else if p99_us <? N[100000] then High
  else Crit.
(** The colour of P99 in the figures and the panel. *)
Definition d_p99Color (p : number) : string :=
  if p >? N[100000] then "#dc2626" else if p >? N[20000] then "#ea580c"
  else if p >? N[5000] then "#d97706" else "#16a34a".

(** The axis labels of the charts, the ages of the log. *)
Definition d_fmtYLabel (us : number) : string :=
  if us >=? N[1000000] then toFixed (us / N[1000000]) 1 +:+ "s"
  else if us >=? N[1000] then toFixed (us / N[1000]) (if us >=? N[10000] then 0 else 1) +:+ "ms"
  else number_toString (nround us) +:+ "µs".
Definition d_timeAgo (now ts : number) : string :=
  let s := nfloor ((now - ts) / N[1000]) in
  if s <? N[60] then number_toString s +:+ "s ago"
  else if s <? N[3600] then number_toString (nfloor (s / N[60])) +:+ "m ago"
  else number_toString (nfloor (s / N[3600])) +:+ "h ago".

(** ** Colour tables, one per file of the prototype *)
Definition V_STATUS_COLOR (s : Status) : string :=
  match s with Ok => "#16a34a" | Warn => "#d97706" | High => "#ea580c" | Crit => "#dc2626" end.
Definition V_STATUS_BG (s : Status) : string :=
  match s with Ok => "#dcfce7" | Warn => "#fef3c7" | High => "#fed7aa" | Crit => "#fee2e2" end.
Definition V_CAUSE_META (c : CauseKind) : string * string * string :=      (* label, color, icon *)
  match c with
  | Network => ("Network", "#2563eb", "🌐")
  | Cpu => ("CPU", "#dc2626", "🔥")
  | Io => ("I/O", "#7c3aed", "💾")
  | Memory => ("Memory", "#ea580c", "🧠")
  | External => ("External", "#d97706", "🔌")
  end.
Definition d_STATUS_COLOR (s : Status) : string :=
  match s with Ok => "#16a34a" | Warn => "#d97706" | High => "#ea580c" | Crit => "#dc2626" end.
Definition d_CAUSE_COLOR (c : CauseKind) : string :=
  match c with
  | Network => "#2563eb" | Cpu => "#dc2626" | Io => "#7c3aed" | Memory => "#ea580c" | External => "#d97706"
  end.
Definition d_CAUSE_META (c : CauseKind) : Meta.CauseMeta :=
  match c with
  | Network => Meta.mkMeta "Network" "#2563eb" "🌐" "TCP/네트워크 지연 또는 재전송"
  | Cpu => Meta.mkMeta "CPU" "#dc2626" "🔥" "CPU throttling 또는 포화"
  | Io => Meta.mkMeta "Disk I/O" "#7c3aed" "💾" "I/O wait 대기 시간 증가"
  | Memory => Meta.mkMeta "Memory" "#ea580c" "🧠" "Memory pressure 발생"
  | External => Meta.mkMeta "External API" "#d97706" "🔌" "외부 의존성 지연"
  end.

(** The charts' [fmtTime]: [n.toString().padStart(2, '0')]. *)
Definition padStart2 (s : string) : string :=
  match String.length s with 0 => "00" | 1 => "0" +:+ s | _ => s end.
Definition d_fmtTime (local_offset : Z → Z) (ms : number) : string :=
  match time_clip ms with
  | None => "NaN:NaN:NaN"
  | Some t =>
      let t := local_time local_offset t in
      padStart2 (pretty (hour_from t)) +:+ ":" +:+ padStart2 (pretty (min_from t)) +:+ ":"
        +:+ padStart2 (pretty (sec_from t))
  end.

(** ** The list *)
Inductive DFilter := DAll | DSpike | DStressed.
Inductive DSortKey := DKSrc | DKP50 | DKP95 | DKP99 | DKRetrans.

(** The fields the list and the panel read: an interface of the prototype's
    snapshots and of the dashboard's. *)
Class RowLike (A : Type) := {
  rl_src : A → string;
  rl_spike : A → bool;
  rl_p50 : A → number; rl_p95 : A → number; rl_p99 : A → number;
  rl_retransmits : A → number;
  rl_cpu : A → option number; rl_io : A → option number; rl_mem : A → option number;
}.
#[export] Instance stat_row : RowLike StatSnapshot := {|
  rl_src := Snap.src_service; rl_spike := Snap.is_spike;
  rl_p50 := Snap.p50_us; rl_p95 := Snap.p95_us; rl_p99 := Snap.p99_us;
  rl_retransmits := Snap.retransmit_count;
  rl_cpu := Snap.dst_cpu_pct; rl_io := Snap.dst_io_wait_pct; rl_mem := Snap.dst_mem_pressure_pct;
|}.
#[export] Instance design_row : RowLike DesignSnap := {|
  rl_src := DSnap.src_service; rl_spike := DSnap.is_spike;
  rl_p50 s := Perc.p50_us (DSnap.perc s); rl_p95 s := Perc.p95_us (DSnap.perc s);
  rl_p99 s := Perc.p99_us (DSnap.perc s);
  rl_retransmits s := N[DSnap.retransmit_count s];
  rl_cpu s := Some (DSnap.dst_cpu_pct s); rl_io s := Some (DSnap.dst_io_wait_pct s);
  rl_mem s := Some (DSnap.dst_mem_pressure_pct s);
|}.

(** [undefined > 70] is false. *)
Definition opt_gt (o : option number) (limit : number) : bool :=
  match o with Some v => v >? limit | None => false end.

Section Rows.
Context {A : Type} `{RowLike A}.

Definition d_stressed (s : A) : bool :=
  opt_gt (rl_cpu s) N[70] || opt_gt (rl_io s) N[30] || opt_gt (rl_mem s) N[70].
Definition d_keep (f : DFilter) (s : A) : bool :=
  match f with DAll => true | DSpike => rl_spike s | DStressed => d_stressed s end.
Definition d_chip_count (f : DFilter) (snaps : list A) : nat :=
  length (List.filter (d_keep f) snaps).

(** [va - vb] on the values of the sort key; the subtraction turns a name into
    a number, [to_number] (ToNumber): NaN unless the name reads as a numeral. *)
Definition d_sort_value (to_number : string → number) (k : DSortKey) (s : A) : number :=
  match k with
  | DKSrc => to_number (rl_src s)
  | DKP50 => rl_p50 s | DKP95 => rl_p95 s | DKP99 => rl_p99 s
  | DKRetrans => rl_retransmits s
  end.
Definition d_row_gt (to_number : string → number) (k : DSortKey) (asc : bool) (a b : A) : bool :=
  let va := d_sort_value to_number k a in
  let vb := d_sort_value to_number k b in
  (if asc then va - vb else vb - va) >? N[0].
Definition d_rows (to_number : string → number) (f : DFilter) (k : DSortKey) (asc : bool)
    (snaps : list A) : list A :=
  js_sort (d_row_gt to_number k asc) (List.filter (d_keep f) snaps).

(** The evidence chips of the panel. *)
Definition d_evidence (snap : A) : list (string * string * string) :=
  let chip (o : option number) (limit : number) (label color : string) :=
    match o with
    | Some v => if v >? limit then [(label, toFixed v 0 +:+ "%", color)] else []
    | None => []
    end in
  chip (rl_cpu snap) N[70] "CPU" "#dc2626"
  ++ chip (rl_io snap) N[30] "IO wait" "#7c3aed"
  ++ chip (rl_mem snap) N[70] "Mem" "#ea580c"
  ++ (if rl_retransmits snap >? N[0]
      then [("Retrans", number_toString (rl_retransmits snap), "#2563eb")] else []).
End Rows.

(** ** The matrix: a label is red when [services?.[name]?.stress_kind] is truthy *)
Definition d_label_stressed (services : ServiceMap) (name : string) : bool :=
  match obj_get services name with
  | Some s => bool_decide (Svc.stress_kind s ≠ None)
  | None => false
  end.

(** ** The figures *)
Definition hotCount (value : ServiceSnapshot → number) (limit : number) (svcs : list ServiceSnapshot) : nat :=
  length (List.filter (λ s, value s >? limit) svcs).

(** ** The panel *)

(** [closeTotal ? (rst + timeout) / closeTotal * 100 : 0] *)
Definition errorRate (cs : CloseStates) : number :=
  let closeTotal := Close.fin cs + Close.rst cs + Close.timeout cs in
  if nnan closeTotal || (closeTotal === N[0]) then N[0]
  else (Close.rst cs + Close.timeout cs) / closeTotal * N[100].
