(* ===== verification/DesignFacts.v ===== *)
(** * The dashboard against its design

    The simulated source computes what the design's data engine computes, draw
    for draw; the formats, lists and labels agree with the design's where the
    theorems say so, and exactly there. *)

From S2P Require Import ListView Heatmap Metrics MockFacts.
From S2P Require Export Design.
From stdpp Require Import base list.

Local Open Scope num_scope.

(** ** Two computations on the same tapes *)
Definition rel2 {A B} (R : A → B → Prop) (x : option (A * World)) (y : option (B * World)) : Prop :=
  match x, y with
  | Some (a, w), Some (b, w') => R a b ∧ w = w'
  | None, None => True
  | _, _ => False
  end.

Lemma rel2_ret {A B} (R : A → B → Prop) a b w : R a b → rel2 R ((mret a : M A) w) ((mret b : M B) w).
Proof. done. Qed.
Lemma rel2_refl {A} (x : option (A * World)) : rel2 eq x x.
Proof. by destruct x as [[a w]|]. Qed.
Lemma rel2_fst {A B} (R : A → B → Prop) x y m d a :
  rel2 R x y → m = fst <$> x → d = fst <$> y → m = Some a → ∃ b, d = Some b ∧ R a b.
Proof.
  intros H -> ->. destruct x as [[a' w]|], y as [[b w']|]; simpl in *; try done.
  destruct H as [HR <-]. intros [= ->]. by exists b.
Qed.
Lemma rel2_bind {A B C D} (R : A → B → Prop) (S : C → D → Prop)
    (m : M A) (n : M B) (f : A → M C) (g : B → M D) w :
  rel2 R (m w) (n w) → (∀ a b w, R a b → rel2 S (f a w) (g b w)) → rel2 S ((m ≫= f) w) ((n ≫= g) w).
Proof.
  intros Hm Hf. unfold mbind, M_bind. revert Hm.
  destruct (m w) as [[a w1]|], (n w) as [[b w2]|]; simpl; try done. intros [HR <-]. by apply Hf.
Qed.
Lemma rel2_same {A C D} (S : C → D → Prop) (m : M A) (f : A → M C) (g : A → M D) w :
  (∀ a w, rel2 S (f a w) (g a w)) → rel2 S ((m ≫= f) w) ((m ≫= g) w).
Proof. intros H. eapply rel2_bind; [apply rel2_refl|]. by intros a ? w' <-. Qed.

(** What every result of a computation satisfies. *)
Definition keeps {A} (m : M A) (P : A → Prop) : Prop := ∀ w a w', m w = Some (a, w') → P a.
Lemma keeps_ret {A} (a : A) (P : A → Prop) : P a → keeps (mret a) P.
Proof. by intros Ha w b w' [= <- <-]. Qed.
Lemma keeps_bind {A B} (m : M A) (f : A → M B) P : (∀ a, keeps (f a) P) → keeps (m ≫= f) P.
Proof.
  intros Hf w b w'. unfold mbind, M_bind. destruct (m w) as [[a w1]|]; [|done]. apply Hf.
Qed.
Lemma rel2_same_keeps {A C D} (S : C → D → Prop) (P : A → Prop) (m : M A) (f : A → M C) (g : A → M D) w :
  keeps m P → (∀ a w, P a → rel2 S (f a w) (g a w)) → rel2 S ((m ≫= f) w) ((m ≫= g) w).
Proof.
  intros Hk Hf. unfold mbind, M_bind. destruct (m w) as [[a w1]|] eqn:E; [|done].
  apply Hf. by eapply Hk.
Qed.

(** ** Statement by statement

    Every routine of the engine computes what the routine of the simulated
    source does, with the same draws: assignments one by one against one
    expression. *)
Lemma bind_ext {A B} (P : A → Prop) (m m' : M A) (f g : A → M B) w :
  keeps m P → m w = m' w → (∀ a w, P a → f a w = g a w) → (m ≫= f) w = (m' ≫= g) w.
Proof.
  intros Hk Hm Hf. unfold mbind, M_bind. destruct (m w) as [[a w1]|] eqn:E; rewrite <-Hm; [|done].
  apply Hf. by eapply Hk.
Qed.
Lemma keeps_true {A} (m : M A) : keeps m (λ _, True).
Proof. by intros w a w' _. Qed.
Lemma keeps_bind_with {A B} (Q : A → Prop) (m : M A) (f : A → M B) P :
  keeps m Q → (∀ a, Q a → keeps (f a) P) → keeps (m ≫= f) P.
Proof.
  intros Hm Hf w b w'. unfold mbind, M_bind. destruct (m w) as [[a w1]|] eqn:E; [|done].
  apply Hf. by eapply Hm.
Qed.
Lemma replicateM_length {A} n (m : M A) : keeps (replicateM n m) (λ l, length l = n).
Proof.
  induction n as [|n IH]; [by apply keeps_ret|]. apply keeps_bind. intros x.
  eapply keeps_bind_with; [exact IH|]. intros xs Hxs. apply keeps_ret. simpl. by rewrite Hxs.
Qed.
Lemma mapM_list_ext {A B} (f g : A → M B) l w : (∀ x w, f x w = g x w) → mapM_list f l w = mapM_list g l w.
Proof.
  intros Hf. revert w. induction l as [|x l IH]; intros w; [done|]. simpl.
  apply (bind_ext (λ _, True)); [apply keeps_true|apply Hf|]. intros y w1 _.
  apply (bind_ext (λ _, True)); [apply keeps_true|apply IH|reflexivity].
Qed.

Section Statements.
Context (rand : nat → number) (now : nat → Z).

Lemma percentile_eq (arr : list number) (pct : Z) :
  length arr = 30 →
  d_percentile arr pct = arr_get arr (nmax N[0] (nfloor (N[pct] / N[100] * N[Z.of_nat (length arr) - 1]))).
Proof. intros Hl. unfold d_percentile. rewrite Hl. reflexivity. Qed.

Lemma d_genPercs_eq s w : d_genPercs rand s w = genPercs rand s w.
Proof.
  unfold d_genPercs, genPercs. apply (bind_ext (λ _, True)); [apply keeps_true|reflexivity|].
  intros base w1 _. apply (bind_ext (λ l, length l = 30)); [apply replicateM_length|reflexivity|].
  intros arr w2 Hl. unfold percs_of. by rewrite !percentile_eq by (by rewrite length_js_sort).
Qed.

Lemma d_tickService_eq s w : d_tickService rand now s w = tickService rand now s w.
Proof.
  unfold d_tickService, tickService, d_stress, tick_stress. destruct s as [n c i m t k tm h].
  unfold mbind, M_bind, mret, M_ret. cbn [SS.stressTimer SS.stressKind set_stressTimer set_stressKind].
  destruct (0 <? tm)%Z; [destruct (tm - 1 =? 0)%Z; [|destruct k as [[]|]]; reflexivity|].
  unfold random at 1 3. cbn beta iota zeta. case_if; [|destruct k as [[]|]; reflexivity].
  unfold floor_rnd, rnd, d_rnd, mbind, M_bind, mret, M_ret, random. cbn beta iota zeta. fold kinds.
  destruct (option_bind _ _ _ _) as [[]|]; reflexivity.
Qed.

Lemma d_spike_eq b s w : d_spike rand b s w = tick_spike rand b s w.
Proof.
  unfold d_spike, tick_spike. destruct s as [sr ds ky ba no sp ti re sa fi rs tt hi ca].
  unfold mbind, M_bind, mret, M_ret. cbn [CS.isSpike CS.spikeTimer set_spikeTimer set_isSpike].
  destruct sp; [by destruct (ti - 1 <=? 0)%Z|].
  unfold d_close, bump_close, floor_rnd, rnd, d_rnd, mbind, M_bind, mret, M_ret, random. cbn beta iota zeta.
  repeat (case_if; try reflexivity).
Qed.

Lemma init_conns_eq : d_init_conns = map init_conn CONN_DEFS.
Proof. vm_compute. reflexivity. Qed.
Lemma init_services_eq w :
  d_init_services rand (d_INTERNAL_SERVICES ++ d_EXTERNAL_SERVICES) obj_empty w
  = mapM_list (init_service rand) (INTERNAL_SERVICES ++ EXTERNAL_SERVICES) w.
Proof. vm_compute. reflexivity. Qed.
End Statements.

(** ** The engines *)

(** A design snapshot and what the hook publishes for it. *)
Record same_conn (d : DesignSnap) (s : StatSnapshot) (h : list HistoryPoint) : Prop := {
  same_ends : DSnap.src_service d = Snap.src_service s ∧ DSnap.dst_service d = Snap.dst_service s
    ∧ DSnap.src_type d = Snap.src_type s ∧ DSnap.dst_type d = Snap.dst_type s;
  same_percs : DSnap.perc d = Perc.mkPercs (Snap.avg_us s) (Snap.p50_us s) (Snap.p95_us s) (Snap.p99_us s)
    (Snap.jitter_us s);
  same_counts : Snap.retransmit_count s = N[DSnap.retransmit_count d] ∧ Snap.sample_count s = N[DSnap.sample_count d];
  same_spike : DSnap.is_spike d = Snap.is_spike s ∧ DSnap.cause_kind d = Snap.cause_kind s
    ∧ DSnap.spike_threshold_us d = Snap.spike_threshold_us s;
  same_closes : Snap.close_states s = Some (Close.mkClose N[DSnap.fin d] N[DSnap.rst d] N[DSnap.timeout d]);
  same_resources : Snap.dst_cpu_pct s = Some (DSnap.dst_cpu_pct d)
    ∧ Snap.dst_io_wait_pct s = Some (DSnap.dst_io_wait_pct d)
    ∧ Snap.dst_mem_pressure_pct s = Some (DSnap.dst_mem_pressure_pct d);
  same_history : h = map point_of (DSnap.history d);
}.

Definition same_conns (ds : jsobj DesignSnap) (ss : SnapshotMap) (hs : HistoryMap) : Prop :=
  ds.*1 = ss.*1 ∧ ds.*1 = hs.*1
  ∧ ∀ k d, obj_get ds k = Some d →
      ∃ s h, obj_get ss k = Some s ∧ obj_get hs k = Some h ∧ same_conn d s h.

Lemma same_conns_set ds ss hs k d s h :
  same_conns ds ss hs → same_conn d s h → same_conns (obj_set ds k d) (obj_set ss k s) (obj_set hs k h).
Proof.
  intros (E1 & E2 & H) Hc. unfold same_conns. rewrite !obj_set_keys, <-E1, <-E2. split_and!; [done..|].
  intros k' d'. destruct (decide (k = k')) as [<-|Hne].
  - rewrite !obj_get_set_eq. intros [= <-]. eauto.
  - rewrite !obj_get_set_ne by done. apply H.
Qed.

Record same_acc (a : Acc.Acc) (l : En.Local) : Prop := {
  acc_conns : same_conns (En.l_snapshots l) (Acc.snapshots a) (Acc.history a);
  acc_new : En.l_newEvents l = Acc.newEvents a;
  acc_all : En.l_allSpikeEvents l = Acc.allEvents a;
  acc_counter : En.l_eventCounter l = Acc.counter a;
}.

Section Engines.
Context (rand : nat → number) (now : nat → Z).

Lemma ret_bind {A B} (a : A) (f : A → M B) w : (mret a ≫= f) w = f a w.
Proof. done. Qed.
Lemma classify_bind {B} svcs state dst (f : option CauseKind → M B) w :
  obj_get svcs (CS.dst state) = Some dst →
  ((c ← classifyCause state (Some dst); mret (Some c)) ≫= f) w
  = f (Some (d_classifyCause svcs state (CS.dst state))) w.
Proof.
  intros Hd. unfold classifyCause, d_classifyCause. rewrite Hd.
  change d_EXTERNAL_SERVICES with EXTERNAL_SERVICES. by case_if.
Qed.

Lemma tick_spike_dst b s : keeps (tick_spike rand b s) (λ s', CS.dst s' = CS.dst s).
Proof.
  unfold tick_spike. case_if; [by apply keeps_ret|]. apply keeps_bind. intros r.
  repeat case_if; try (by apply keeps_ret); do 3 (apply keeps_bind; intros ?); by apply keeps_ret.
Qed.

Lemma snapshot_same state perc dst :
  same_conn (d_snapshot state perc dst) (snapshot_of state perc (Some dst)) (map point_of (CS.history state)).
Proof. split; simpl; try reflexivity; [by split_and!|by destruct perc|by split_and!..]. Qed.

(** The body of the loop with its routines replaced. *)
Lemma d_tick_conn_eq svcs state dst l w :
  obj_get svcs (CS.dst state) = Some dst →
  d_tick_conn rand now svcs state l w
  = (s ← tick_spike rand (bool_decide (SS.stressKind dst ≠ None)) state;
     perc ← genPercs rand s;
     time ← date_now now;
     let s := finish_conn s (if CS.isSpike s then Some (d_classifyCause svcs s (CS.dst s)) else None) time perc in
     let l := En.mkLocal (obj_set (En.l_snapshots l) (CS.key s) (d_snapshot s perc dst))
                (En.l_newEvents l) (En.l_allSpikeEvents l) (En.l_eventCounter l) in
     if CS.isSpike s && negb (CS.isSpike state) then
       t_id ← date_now now;
       t_ts ← date_now now;
       let ev := d_event s perc dst t_id t_ts (En.l_eventCounter l + 1) in
       mret (s, En.mkLocal (En.l_snapshots l) (En.l_newEvents l ++ [ev])
                  (js_slice (ev :: En.l_allSpikeEvents l) 0 (Some 100%Z)) (En.l_eventCounter l + 1)%Z)
     else mret (s, l)) w.
Proof.
  intros Hd. unfold d_tick_conn. rewrite Hd. cbn zeta.
  apply (bind_ext (λ _, True)); [apply keeps_true|apply d_spike_eq|]. intros s w1 _.
  apply (bind_ext (λ _, True)); [apply keeps_true|apply d_genPercs_eq|]. intros perc w2 _.
  apply (bind_ext (λ _, True)); [apply keeps_true|reflexivity|]. intros time w3 _. reflexivity.
Qed.

(** Without new events the log is the one before. *)
Definition no_news (a a' : Acc.Acc) : Prop :=
  Acc.newEvents a' = [] → Acc.newEvents a = [] ∧ Acc.allEvents a' = Acc.allEvents a.

Lemma tick_conn_same svcs state dst a l w :
  obj_get svcs (CS.dst state) = Some dst → same_acc a l →
  rel2 (λ x y, x.1 = y.1 ∧ CS.dst x.1 = CS.dst state ∧ same_acc x.2 y.2 ∧ no_news a x.2)
    (tick_conn rand now svcs state a w) (d_tick_conn rand now svcs state l w).
Proof.
  intros Hd Ha. rewrite (d_tick_conn_eq _ _ dst) by done. unfold tick_conn. rewrite Hd. cbn zeta.
  eapply rel2_same_keeps; [apply tick_spike_dst|]. intros s w1 Hs.
  apply rel2_same. intros perc w2.
  destruct (CS.isSpike s) eqn:Esp.
  - rewrite (classify_bind svcs) by (by rewrite Hs). apply rel2_same. intros time w3. cbn [finish_conn CS.isSpike]. rewrite Esp.
    assert (same_acc
      (Acc.mkAcc (obj_set (Acc.snapshots a) (CS.key s)
          (snapshot_of (finish_conn s (Some (d_classifyCause svcs s (CS.dst s))) time perc) perc (Some dst)))
        (obj_set (Acc.history a) (CS.key s)
          (map point_of (CS.history (finish_conn s (Some (d_classifyCause svcs s (CS.dst s))) time perc))))
        (Acc.newEvents a) (Acc.allEvents a) (Acc.counter a))
      (En.mkLocal (obj_set (En.l_snapshots l) (CS.key s)
          (d_snapshot (finish_conn s (Some (d_classifyCause svcs s (CS.dst s))) time perc) perc dst))
        (En.l_newEvents l) (En.l_allSpikeEvents l) (En.l_eventCounter l))) as Hacc.
    { destruct Ha as [H1 H2 H3 H4]. split; simpl; try done. by apply same_conns_set, snapshot_same. }
    destruct (CS.isSpike state); cbn [andb negb].
    + apply rel2_ret. by split_and!.
    + apply rel2_same. intros t_id w4. apply rel2_same. intros t_ts w5. apply rel2_ret.
      destruct Hacc as [H1 H2 H3 H4]. simpl in *. split_and!; [done..| |].
      * split; simpl; rewrite ?H2, ?H3, ?H4; done.
      * unfold no_news. simpl. by destruct (Acc.newEvents a).
  - rewrite ret_bind. apply rel2_same. intros time w3. cbn [finish_conn CS.isSpike]. rewrite Esp. cbn [andb].
    apply rel2_ret. destruct Ha as [H1 H2 H3 H4]. split_and!; [done..| |done]. split; simpl; try done.
    by apply same_conns_set, snapshot_same.
Qed.

Definition known (svcs : jsobj ServiceState) (conns : jsobj ConnState) : Prop :=
  Forall (λ ks : string * ConnState, CS.dst ks.2 ∈ svcs.*1) conns.
Definition dsts (conns : jsobj ConnState) : list string := map (λ ks, CS.dst ks.2) conns.

Lemma known_dsts svcs conns : known svcs conns ↔ Forall (λ d, d ∈ svcs.*1) (dsts conns).
Proof. unfold known, dsts. by rewrite Forall_map. Qed.

Lemma tick_conns_same svcs conns a l w :
  known svcs conns → same_acc a l →
  rel2 (λ x y, x.1 = y.1 ∧ dsts x.1 = dsts conns ∧ same_acc x.2 y.2 ∧ no_news a x.2)
    (tick_conns rand now svcs conns a w) (d_tick_conns rand now svcs conns l w).
Proof.
  revert a l w. induction conns as [|[k s] conns IH]; intros a l w Hk Ha.
  { by apply rel2_ret. }
  apply Forall_cons in Hk as [Hd Hk]. apply obj_get_names in Hd as [dst Hd]. simpl in Hd.
  eapply rel2_bind; [by eapply tick_conn_same|].
  intros [s1 a1] [s2 l2] w1 (E & Hs & Ha1 & Hn1). simpl in *. subst s2.
  eapply rel2_bind; [by apply IH|].
  intros [c1 a2] [c2 l3] w2 (E & Hc & Ha2 & Hn2). simpl in *. subst c2. apply rel2_ret.
  split_and!; [done| |done|].
  - unfold dsts in *. simpl. by rewrite Hs, Hc.
  - intros H. destruct (Hn2 H) as [H1 H2]. destruct (Hn1 H1) as [H3 H4]. split; [done|]. simpl. congruence.
Qed.

Lemma services_keys (f : ServiceState → M ServiceState) (svcs : jsobj ServiceState) :
  keeps (mapM_list (λ ks : string * ServiceState, s ← f ks.2; mret (ks.1, s)) svcs)
    (λ svcs', svcs'.*1 = svcs.*1).
Proof.
  induction svcs as [|[k s] svcs IH]; [by apply keeps_ret|].
  intros w b w'. simpl. unfold mbind, M_bind. destruct (f s w) as [[s1 w1]|]; [|done]. simpl.
  destruct (mapM_list _ svcs w1) as [[l w2]|] eqn:E; [|done]. intros [= <- <-]. simpl. f_equal. by eapply IH.
Qed.

Record same_mock (m : Mock) (e : Engine) : Prop := {
  mock_services : Mk.serviceState m = En.serviceState e;
  mock_conns : Mk.connState m = En.connState e;
  mock_events : Mk.allEvents m = En.allSpikeEvents e;
  mock_counter : Mk.counter m = En.eventCounter e;
  mock_known : known (En.serviceState e) (En.connState e);
  mock_shown : Store.events (Mk.published m) = Mk.allEvents m;
}.

(** What the hook publishes is the result of the design's tick. *)
Definition publishes (r : En.TickResult) (s : Store) : Prop :=
  same_conns (En.snapshots r) (Store.snapshots s) (Store.history s)
  ∧ En.services r = Store.services s ∧ En.allEvents r = Store.events s.

Lemma d_tick_eq e w :
  d_tick rand now e w
  = (svcs ← mapM_list (λ ks : string * ServiceState, s ← tickService rand now ks.2; mret (ks.1, s)) (En.serviceState e);
     '(conns, a) ← d_tick_conns rand now svcs (En.connState e)
                     (En.mkLocal obj_empty [] (En.allSpikeEvents e) (En.eventCounter e));
     mret (En.mkResult (En.l_snapshots a) (next_services svcs) (En.l_newEvents a) (En.l_allSpikeEvents a),
           En.mkEngine svcs conns (En.l_allSpikeEvents a) (En.l_eventCounter a))) w.
Proof.
  unfold d_tick. apply (bind_ext (λ _, True)); [apply keeps_true| |reflexivity].
  apply mapM_list_ext. intros [k s] w1.
  apply (bind_ext (λ _, True)); [apply keeps_true|apply d_tickService_eq|reflexivity].
Qed.
Lemma d_init_eq w :
  d_init rand w
  = (svcs ← mapM_list (init_service rand) (INTERNAL_SERVICES ++ EXTERNAL_SERVICES);
     mret (En.mkEngine svcs (map init_conn CONN_DEFS) [] 0)) w.
Proof.
  unfold d_init. rewrite init_conns_eq.
  apply (bind_ext (λ _, True)); [apply keeps_true|apply init_services_eq|reflexivity].
Qed.

Lemma tick_same m e w :
  same_mock m e →
  rel2 (λ m' re, same_mock m' re.2 ∧ publishes re.1 (Mk.published m')) (tick rand now m w) (d_tick rand now e w).
Proof.
  intros [H1 H2 H3 H4 H5 H6]. rewrite d_tick_eq. unfold tick. rewrite H1, H2, H3, H4.
  eapply rel2_same_keeps; [apply services_keys|]. intros svcs w1 Hkeys.
  assert (known svcs (En.connState e)) as Hk by (unfold known in *; by rewrite Hkeys).
  eapply rel2_bind.
  { apply tick_conns_same; [exact Hk|]. by split. }
  intros [conns a] [conns' l] w2 (E & Hd & [Hc Hn Ha Hcnt] & Hnn). simpl in *. subst conns'. apply rel2_ret.
  assert ((if bool_decide (Acc.newEvents a = []) then Store.events (Mk.published m) else Acc.allEvents a)
          = Acc.allEvents a) as Hev.
  { case_bool_decide as Hz; [|done]. destruct (Hnn Hz) as [_ Hz']. simpl in Hz'. congruence. }
  split; [split; simpl; try done|].
  - apply known_dsts. rewrite Hd. by apply known_dsts.
  - unfold publishes. simpl. rewrite Hev. by split_and!.
Qed.

Lemma ticks_same n m e w :
  same_mock m e →
  rel2 (λ m' re, same_mock m' re.2 ∧ publishes re.1 (Mk.published m'))
    (ticks rand now (S n) m w) (d_ticks rand now n e w).
Proof.
  revert m e w. induction n as [|n IH]; intros m e w Hm.
  - eapply rel2_bind; [by apply tick_same|]. intros m' [r e'] w1 H. by apply rel2_ret.
  - eapply rel2_bind; [by apply tick_same|]. intros m' [r e'] w1 [H _]. by apply IH.
Qed.

Lemma conns_known : Forall (λ ks : string * ConnState, CS.dst ks.2 ∈ all_services) (map init_conn CONN_DEFS).
Proof. apply Forall_map. exact conn_dst_known. Qed.

Lemma init_same w : rel2 same_mock (init_mock rand w) (d_init rand w).
Proof.
  rewrite d_init_eq. apply rel2_same_keeps with (P := λ svcs : jsobj ServiceState, svcs.*1 = all_services).
  - unfold all_services. generalize (INTERNAL_SERVICES ++ EXTERNAL_SERVICES). intros l.
    induction l as [|x l IH]; [by apply keeps_ret|].
    intros w1 b w2. cbn [mapM_list]. unfold mbind, M_bind.
    destruct (init_service rand x w1) as [[[k s] w3]|] eqn:Ei; [|done].
    destruct (mapM_list _ l w3) as [[l' w4]|] eqn:E; [|done]. intros [= <- <-]. simpl. f_equal; [|by eapply IH].
    unfold init_service, draw, random in Ei. cbn in Ei. by injection Ei.
  - intros svcs w1 Hsv. apply rel2_ret. split; try done. unfold known.
    cbn [En.serviceState En.connState]. rewrite Hsv. exact conns_known.
Qed.

Lemma run_same n :
  rel2 (λ m re, same_mock m re.2 ∧ publishes re.1 (Mk.published m))
    ((m ← init_mock rand; ticks rand now (S n) m) (mkWorld 0 0))
    ((e ← d_init rand; d_ticks rand now n e) (mkWorld 0 0)).
Proof. eapply rel2_bind; [apply init_same|]. intros m e w Hm. by apply ticks_same. Qed.

Lemma run_mock_eq n :
  run_mock rand now n = fst <$> (m ← init_mock rand; ticks rand now (S n) m) (mkWorld 0 0).
Proof. unfold run_mock. reflexivity. Qed.
Lemma d_run_eq n : d_run rand now n = fst <$> (e ← d_init rand; d_ticks rand now n e) (mkWorld 0 0).
Proof. unfold d_run. reflexivity. Qed.

Lemma d_run_published n :
  (∀ i, in_unit (rand i)) →
  ∃ re m, d_run rand now n = Some re ∧ run_mock rand now n = Some m ∧ publishes re.1 (Mk.published m).
Proof.
  intros Hr. destruct (run_mock_total rand now Hr n) as (m & Hm & _).
  destruct (rel2_fst _ _ _ _ _ m (run_same n) (run_mock_eq n) (d_run_eq n) Hm) as (re & Hre & _ & Hp).
  exact (ex_intro _ re (ex_intro _ m (conj Hre (conj Hm Hp)))).
Qed.
End Engines.

(** C13: the simulation of the dashboard is the design's data engine.  On the
    same random numbers and clock readings, after any number of ticks, both
    have drawn the same numbers into the same state, and what the hook
    publishes is the engine's result field for field. *)
Theorem simulation_is_the_design (rand : nat → number) (now : nat → Z) (n : nat) :
  match run_mock rand now n, d_run rand now n with
  | Some m, Some (r, e) =>
      Mk.serviceState m = En.serviceState e ∧ Mk.connState m = En.connState e
      ∧ Mk.allEvents m = En.allSpikeEvents e ∧ Mk.counter m = En.eventCounter e
      ∧ publishes r (Mk.published m)
  | None, None => True
  | _, _ => False
  end.
Proof.
  pose proof (run_same rand now n) as H.
  unfold run_mock, d_run. revert H.
  destruct ((m ← init_mock rand; ticks rand now (S n) m) (mkWorld 0 0)) as [[m w]|],
    ((e ← d_init rand; d_ticks rand now n e) (mkWorld 0 0)) as [[[r e] w']|]; try done.
  by intros [[[? ? ? ?] ?] _].
Qed.

(** ** Formats *)
Lemma float_eqb_leb (x y : number) : nleb x y = true → nleb y x = true → neqb x y = true.
Proof.
  simpl. rewrite !float_leb_key. intros (Hx & Hy & H1) (_ & _ & H2).
  rewrite FloatAxioms.eqb_spec. unfold SFeqb. rewrite SFcompare_key, <-!float_nan_key, Hx, Hy. simpl.
  rewrite (key_compare_antisym (sf_key (Prim2SF x))) in H2.
  by destruct (key_compare (sf_key (Prim2SF x)) (sf_key (Prim2SF y))).
Qed.

(** Away from a boundary, "not below" is "above". *)
Lemma not_below (p : number) (z : Z) :
  nnan p = false → (Z.abs z < 2 ^ 62)%Z → (p === N[z]) = false → (p >? N[z]) = negb (p <? N[z]).
Proof.
  intros Hp Hz Hne. destruct (p <? N[z]) eqn:E1; simpl.
  - apply not_true_iff_false. intros E2.
    pose proof (proj1 (nltb_nleb (T:=number) _ _) E2) as [_ E3].
    exact (eq_true_false_abs _ (nltb_leb (T:=number) _ _ E1) E3).
  - pose proof (proj1 (nltb_false (T:=number) _ _ Hp (nofZ_ok (T:=number) z Hz)) E1) as E2.
    refine (proj2 (nltb_nleb (T:=number) _ _) (conj E2 _)).
    apply not_true_iff_false. intros E3. exact (eq_true_false_abs _ (float_eqb_leb _ _ E3 E2) Hne).
Qed.

Lemma two_digits_pad n : (0 <= n < 100)%Z → two_digits n = padStart2 (pretty n).
Proof.
  intros Hn. assert (n ∈ seqZ 0 100) as Hin by (apply elem_of_seqZ; lia). clear Hn.
  assert (forallb (λ n, String.eqb (two_digits n) (padStart2 (pretty n))) (seqZ 0 100) = true) as H
    by (vm_compute; reflexivity).
  rewrite forallb_forall in H. by apply String.eqb_eq, H, list_elem_of_In.
Qed.

Lemma geb_mono (us : number) (a b : Z) :
  nleb (T:=number) N[a] N[b] = true → (us >=? N[b]) = true → (us >=? N[a]) = true.
Proof. intros Hab H. exact (nleb_trans (T:=number) _ _ _ Hab H). Qed.

(** The copies of [fmtUs]. *)
Lemma latency_copies (us : number) :
  vFmtUs us = d_fmtUs us
  ∧ ((us >=? N[1000000]) = false → fmtUs us = d_fmtUs us)
  ∧ ((us >=? N[1000000]) = true →
       fmtUs us = toFixed (us / N[1000000]) 1 +:+ "s" ∧ d_fmtUs us = toFixed (us / N[1000]) 1 +:+ "ms")
  ∧ ((us >=? N[1000]) = false ∨ (us >=? N[10000]) = true → map_fmtUs us = d_fmtUs us)
  ∧ ((us >=? N[1000]) = true → (us >=? N[10000]) = false →
       map_fmtUs us = toFixed (us / N[1000]) 1 +:+ "ms" ∧ d_fmtUs us = toFixed (us / N[1000]) 2 +:+ "ms").
Proof.
  unfold vFmtUs, d_fmtUs, map_fmtUs, fmtUs. split_and!; [done|..].
  - by intros ->.
  - intros H. rewrite H. rewrite (geb_mono us 1000 1000000 eq_refl H).
    by rewrite (geb_mono us 10000 1000000 eq_refl H).
  - intros [->| H]; [done|]. by rewrite H, (geb_mono us 1000 10000 eq_refl H).
  - by intros -> ->.
Qed.

Lemma time_copies lo zs (ms : number) :
  (is_Some (time_clip ms) → fmtTime lo zs ms = d_fmtTime lo ms)
  ∧ (time_clip ms = None → fmtTime lo zs ms = "Invalid " ∧ d_fmtTime lo ms = "NaN:NaN:NaN").
Proof.
  split.
  - intros [t Ht]. rewrite (proj1 (fmtTime_text lo zs ms t Ht)). unfold d_fmtTime. rewrite Ht.
    rewrite !two_digits_pad; [done| | |];
      [pose proof (Z.mod_pos_bound (local_time lo t / 1000) 60)
      |pose proof (Z.mod_pos_bound (local_time lo t / 60000) 60)
      |pose proof (Z.mod_pos_bound (local_time lo t / 3600000) 24)];
      unfold sec_from, min_from, hour_from; lia.
  - intros Ht. unfold fmtTime, toTimeString, d_fmtTime. by rewrite Ht.
Qed.

Lemma p99_copies (us : number) :
  nnan us = false → (us === N[5000]) = false → (us === N[20000]) = false → (us === N[100000]) = false →
  STATUS_COLOR (latencyStatus us) = d_p99Color us.
Proof.
  intros Hn H5 H20 H100. unfold latencyStatus, d_p99Color.
  rewrite (not_below us 5000 Hn ltac:(done) H5), (not_below us 20000 Hn ltac:(done) H20),
    (not_below us 100000 Hn ltac:(done) H100).
  assert ((us <? N[5000]) = true → (us <? N[20000]) = true ∧ (us <? N[100000]) = true) as H1.
  { intros H. split; (eapply (nltb_trans_l (T:=number)); [exact H|reflexivity]). }
  assert ((us <? N[20000]) = true → (us <? N[100000]) = true) as H2
    by (intros H; eapply (nltb_trans_l (T:=number)); [exact H|reflexivity]).
  destruct (us <? N[5000]); [destruct (H1 eq_refl) as [-> ->]; done|].
  destruct (us <? N[20000]); [by rewrite (H2 eq_refl)|]. by destruct (us <? N[100000]).
Qed.

Lemma nan_color (us : number) :
  nnan us = true → STATUS_COLOR (latencyStatus us) = "#dc2626" ∧ d_p99Color us = "#16a34a".
Proof.
  intros Hn.
  assert (∀ b : number, (us <? b) = false ∧ (us >? b) = false) as H.
  { intros b. split; apply not_true_iff_false; intros E;
      destruct (nleb_ok (T:=number) _ _ (nltb_leb (T:=number) _ _ E)) as [H1 H2]; congruence. }
  unfold latencyStatus, d_p99Color. by rewrite !(proj1 (H _)), !(proj2 (H _)).
Qed.

(** C39: each copy of [fmtUs], [fmtYLabel], [fmtTime], [timeAgo], [latencyStatus]
    and of the tables of status and cause in the prototype, against the
    dashboard's.  The panels and the lists print latencies below a
    second as the dashboard does, and above it in milliseconds where the
    dashboard has seconds; the map prints one decimal throughout, one less than
    the others between 1 and 10 ms.  Clock times agree but for the text of an
    invalid one.  Status thresholds, axis labels, ages and status colours are
    the same; the prototype's own P99 colour agrees with the status colour but
    at the three thresholds, where it is the better one, and on a NaN.  The
    causes have the same colours and icons everywhere and the same labels, but
    for "I/O" and "External" in the list, "Disk I/O" and "External API"
    elsewhere. *)
Theorem formats_and_the_design lo zs (us ms : number) :
  (vFmtUs us = d_fmtUs us
   ∧ ((us >=? N[1000000]) = false → fmtUs us = d_fmtUs us)
   ∧ ((us >=? N[1000000]) = true →
        fmtUs us = toFixed (us / N[1000000]) 1 +:+ "s" ∧ d_fmtUs us = toFixed (us / N[1000]) 1 +:+ "ms")
   ∧ ((us >=? N[1000]) = false ∨ (us >=? N[10000]) = true → map_fmtUs us = d_fmtUs us)
   ∧ ((us >=? N[1000]) = true → (us >=? N[10000]) = false →
        map_fmtUs us = toFixed (us / N[1000]) 1 +:+ "ms" ∧ d_fmtUs us = toFixed (us / N[1000]) 2 +:+ "ms"))
  ∧ (fmtUs N[1500000] = "1.5s" ∧ d_fmtUs N[1500000] = "1500.0ms"
     ∧ fmtUs N[1234] = "1.23ms" ∧ map_fmtUs N[1234] = "1.2ms")
  ∧ ((is_Some (time_clip ms) → fmtTime lo zs ms = d_fmtTime lo ms)
     ∧ (time_clip ms = None → fmtTime lo zs ms = "Invalid " ∧ d_fmtTime lo ms = "NaN:NaN:NaN"))
  ∧ (latencyStatus us = d_latencyStatus us ∧ latencyStatus us = vLatencyStatus us)
  ∧ (nnan us = false → (us === N[5000]) = false → (us === N[20000]) = false → (us === N[100000]) = false →
       STATUS_COLOR (latencyStatus us) = d_p99Color us)
  ∧ (map (λ b, (STATUS_COLOR (latencyStatus b), d_p99Color b)) [N[5000]; N[20000]; N[100000]]
     = [("#d97706", "#16a34a"); ("#ea580c", "#d97706"); ("#dc2626", "#ea580c")])
  ∧ (nnan us = true → STATUS_COLOR (latencyStatus us) = "#dc2626" ∧ d_p99Color us = "#16a34a")
  ∧ fmtYLabel us = d_fmtYLabel us
  ∧ (∀ now ts, timeAgo now ts = d_timeAgo now ts)
  ∧ (∀ s, V_STATUS_COLOR s = STATUS_COLOR s ∧ d_STATUS_COLOR s = STATUS_COLOR s ∧ V_STATUS_BG s = STATUS_BG s)
  ∧ (∀ c, d_CAUSE_META c = CAUSE_META c ∧ d_CAUSE_COLOR c = Meta.color (CAUSE_META c)
       ∧ (V_CAUSE_META c).1.2 = Meta.color (CAUSE_META c) ∧ (V_CAUSE_META c).2 = Meta.icon (CAUSE_META c)
       ∧ ((V_CAUSE_META c).1.1 = Meta.label (CAUSE_META c) ↔ c ≠ Io ∧ c ≠ External))
  ∧ ((V_CAUSE_META Io).1.1 = "I/O" ∧ (V_CAUSE_META External).1.1 = "External"
     ∧ Meta.label (CAUSE_META Io) = "Disk I/O" ∧ Meta.label (CAUSE_META External) = "External API").
Proof.
  split; [apply latency_copies|]. split; [vm_compute; by split_and!|].
  split; [apply time_copies|]. split; [done|]. split; [apply p99_copies|].
  split; [vm_compute; reflexivity|]. split; [apply nan_color|]. do 2 (split; [done|]).
  split; [by intros []|]. split; [|done].
  intros []; split_and!; try reflexivity; simpl; naive_solver.
Qed.

(** ** The list and the matrix *)
Definition design_filter (m : FilterMode) : DFilter :=
  match m with FAll => DAll | FSpiking => DSpike | FStressed => DStressed end.
Definition design_key (c : SortCol) : DSortKey :=
  match c with SConnection => DKSrc | SP50 => DKP50 | SP95 => DKP95 | SP99 => DKP99 | SRetrans => DKRetrans end.
Definition ascending (d : SortDir) : bool := match d with Asc => true | Desc => false end.

Lemma stressed_same s : stressed s = d_stressed s.
Proof.
  unfold stressed, d_stressed, opt_gt. simpl.
  destruct (Snap.dst_cpu_pct s), (Snap.dst_io_wait_pct s), (Snap.dst_mem_pressure_pct s); reflexivity.
Qed.

Lemma js_sort_never {A} (gt : A → A → bool) l :
  (∀ x y, x ∈ l → y ∈ l → gt x y = false) → js_sort gt l = l.
Proof.
  intros Hgt. apply js_sort_id. induction l as [|x l IH]; constructor; [apply IH; set_solver|].
  apply Forall_forall. intros y Hy. apply Hgt; set_solver.
Qed.

Lemma nan_row_gt {A} `{RowLike A} tn asc (a b : A) :
  tn (rl_src a) = PrimFloat.nan → tn (rl_src b) = PrimFloat.nan →
  d_row_gt tn DKSrc asc a b = false.
Proof. intros Ha Hb. unfold d_row_gt, d_sort_value. rewrite Ha, Hb. by destruct asc. Qed.

(** The list keeps the rows of the design and, on the numeric columns,
    shows them in the design's order.  In the design itself every chip counts
    its rows and, since names are no numerals, the "Connection" header does not
    sort: a name minus a name is NaN. *)
Theorem list_is_the_design lc tn (snaps : list StatSnapshot) (s : ListState) :
  (Ls.sortCol s ≠ SConnection →
     filtered lc snaps s
     = d_rows tn (design_filter (Ls.filter s)) (design_key (Ls.sortCol s)) (ascending (Ls.sortDir s)) snaps)
  ∧ (∀ f k asc, d_chip_count f snaps = length (d_rows (A:=StatSnapshot) tn f k asc snaps))
  ∧ (Forall (λ x, tn (Snap.src_service x) = PrimFloat.nan) snaps →
     ∀ f asc, d_rows tn f DKSrc asc snaps = List.filter (d_keep f) snaps).
Proof.
  split_and!.
  - intros Hc. unfold filtered, d_rows. destruct s as [m c d]. simpl in *.
    assert (List.filter (keep m) snaps = List.filter (d_keep (design_filter m)) snaps) as ->.
    { apply List.filter_ext. intros x. destruct m; simpl; [done|done|apply stressed_same]. }
    by destruct c, d.
  - intros f k asc. unfold d_chip_count, d_rows. by rewrite length_js_sort.
  - intros Hn f asc. rewrite Forall_forall in Hn. apply js_sort_never. intros x y.
    rewrite !list_elem_of_In, !filter_In, <-!list_elem_of_In. intros [Hx _] [Hy _].
    apply nan_row_gt; auto.
Qed.

(** A matrix label is red as in the design exactly when the service is
    known; the label of an unknown service is red here and plain there. *)
Theorem labels_and_the_design (services : ServiceMap) (name : string) :
  isStressed services name = d_label_stressed services name ↔ is_Some (obj_get services name).
Proof.
  unfold isStressed, d_label_stressed. by destruct (obj_get services name).
Qed.

Definition ex_us : number := N[1500000].
Definition ex_ms : number := N[45296000].
Lemma formats_and_the_design_witness :
  [fmtUs ex_us; d_fmtUs ex_us] = ["1.5s"; "1500.0ms"]
  ∧ fmtTime ex_offset ex_zone ex_ms = d_fmtTime ex_offset ex_ms
  ∧ STATUS_COLOR (latencyStatus ex_us) = d_p99Color ex_us.
Proof.
  destruct (formats_and_the_design ex_offset ex_zone ex_us ex_ms)
    as ((_ & _ & H & _) & _ & [Ht _] & _ & Hp & _).
  destruct (H eq_refl) as [-> ->]. split; [vm_compute; reflexivity|].
  split; [apply Ht; eexists; vm_compute; reflexivity|]. apply Hp; vm_compute; reflexivity.
Defined.
