(* ===== verification/FlowGraph.v ===== *)
(** * The first topology map: [components/TopologyGraph.tsx]

    The React Flow map [TopoGraph] replaced; the repository keeps it.  Its own
    logic is the layout, the edges it derives from the snapshots, and the node
    list it keeps across commits.  Node changes made by React Flow (dragging,
    selection) are a parameter: [applyNodeChanges] is the library's.  The fixed
    example it was tried on, [TopologyTest.tsx], closes the file. *)

From S2P Require Export Types View.
From S2P Require Import Chart.
From Stdlib Require Import Qabs.
From stdpp Require Import base list.

Section Layout.
Context {T : Type} `{Num T}.
Variables (cos sin : T → T) (PI : T).
Local Open Scope num_scope.

Definition cx : T := N[400].
Definition cy : T := N[220].
Definition radius (internal : list string) : T := nmax N[130] (N[Z.of_nat (length internal)] * N[55]).
Definition internal_pos (internal : list string) (i : nat) : Point T :=
  let angle := N[2] * PI * N[Z.of_nat i] / N[Z.of_nat (length internal)] - PI / N[2] in
  Pos.mkPoint (cx + radius internal * cos angle) (cy + radius internal * sin angle).
Definition external_pos (internal external : list string) (i : nat) : Point T :=
  let externalY := cy + radius internal + N[180] in
  let spacing := N[200] in
  let startX := cx - (N[Z.of_nat (length external) - 1] * spacing) / N[2] in
  Pos.mkPoint (startX + N[Z.of_nat i] * spacing) externalY.

(** [forEach((svc, i) => positions[svc] = f(i))] *)
Definition place_all (f : nat → Point T) (names : list string) (o : jsobj (Point T)) : jsobj (Point T) :=
  (foldl (λ acc svc, (obj_set acc.1 svc (f acc.2), S acc.2)) (o, 0%nat) names).1.
Definition layoutNodes (internal external : list string) : jsobj (Point T) :=
  place_all (external_pos internal external) external (place_all (internal_pos internal) internal []).
End Layout.

(** ** Edges *)
Definition formatLatency (us : number) : string :=
  if (us >=? N[1000])%num then toFixed (us / N[1000])%num 1 +:+ "ms" else number_toString us +:+ "µs".
Definition flow_edgeColor (snap : StatSnapshot) : string :=
  if Snap.is_spike snap then "#ef4444"
  else if (Snap.p99_us snap >? N[10000])%num then "#f97316"
  else if (Snap.p99_us snap >? N[1000])%num then "#eab308"
  else "#22c55e".

Module Fl.
Record Edge := mkEdge {
  id : string; source : string; target : string; animated : bool;
  label : string; color : string; strokeWidth : number;
}.
Record Node (T : Type) := mkNode {
  nid : string; position : option (Point T); internal : bool;      (* the style *)
}.
Arguments mkNode {T}. Arguments nid {T}. Arguments position {T}. Arguments internal {T}.
Record Flow (T : Type) := mkFlow {
  nodes : list (Node T);
  edges : list Edge;
  keysRef : option string;              (* the dependency of the last node effect *)
  initialFitDone : bool;
}.
Arguments mkFlow {T}. Arguments nodes {T}. Arguments edges {T}. Arguments keysRef {T}.
Arguments initialFitDone {T}.
End Fl.
Abbreviation Flow := Fl.Flow.

Definition edge_of (entry : string * StatSnapshot) : Fl.Edge :=
  let '(key, snap) := entry in
  Fl.mkEdge key (Snap.src_service snap) (Snap.dst_service snap) (Snap.is_spike snap)
    (formatLatency (Snap.p50_us snap)) (flow_edgeColor snap)
    (if Snap.is_spike snap then N[3] else N[2])%num.
Definition flow_edges (snapshots : SnapshotMap) : list Fl.Edge := map edge_of (obj_entries snapshots).

(** ** Nodes *)

(** [internalSet] and [externalSet] *)
Definition add_typed (st : list string * list string) (name : string) (type : NodeType) :=
  match type with
  | Internal => (set_add st.1 name, st.2)
  | ExternalNode => (st.1, set_add st.2 name)
  end.
Definition typed_services (snaps : list StatSnapshot) : list string * list string :=
  foldl (λ st s, add_typed (add_typed st (Snap.src_service s) (Snap.src_type s))
                           (Snap.dst_service s) (Snap.dst_type s)) ([], []) snaps.
(** [names.slice().sort().join(',')] *)
Definition sorted_key (names : list string) : string := str_join "," (js_sort string_gt names).

Inductive FlowEvent (T : Type) :=
  | FSnapshots (snapshots : SnapshotMap)
  | FNodesChange (change : list (Fl.Node T) → list (Fl.Node T))
  | FEdgeClick (edge : Fl.Edge)
  | FPaneClick.
Arguments FSnapshots {T}. Arguments FNodesChange {T}. Arguments FEdgeClick {T}. Arguments FPaneClick {T}.

Section Flow.
Context {T : Type} `{Num T}.
Variables (cos sin : T → T) (PI : T).

Definition existingPositions (prev : list (Fl.Node T)) : jsobj (option (Point T)) :=
  foldl (λ o n, obj_set o (Fl.nid n) (Fl.position n)) [] prev.

(** The updater of the nodes; none returns [prev]. *)
Definition next_nodes (snapshots : SnapshotMap) (prev : list (Fl.Node T)) : option (list (Fl.Node T)) :=
  let '(internal, external) := typed_services (obj_values snapshots) in
  let allServices := internal ++ external in
  if bool_decide (sorted_key (map Fl.nid prev) = sorted_key allServices) then None
  else
    let existing := existingPositions prev in
    let fresh := layoutNodes cos sin PI internal external in
    Some (map (λ svc,
      Fl.mkNode svc
        (match obj_get existing svc with Some (Some p) => Some p | _ => obj_get fresh svc end)
        (bool_decide (svc ∈ internal))) allServices).

(** A commit: the edge effect, and the node effect when the keys changed; the
    argument of [onEdgeSelect] when a click calls it. *)
Definition flow_step (e : FlowEvent T) (f : Flow T) : Flow T * option (option string) :=
  match e with
  | FSnapshots snapshots =>
      let key := sorted_key (obj_keys snapshots) in
      match (if bool_decide (Fl.keysRef f = Some key) then None else next_nodes snapshots (Fl.nodes f)) with
      | None => (Fl.mkFlow (Fl.nodes f) (flow_edges snapshots) (Some key) (Fl.initialFitDone f), None)
      | Some nodes =>
          (Fl.mkFlow nodes (flow_edges snapshots) (Some key)
             (Fl.initialFitDone f || (0 <? length nodes)%nat), None)
      end
  | FNodesChange change => (Fl.mkFlow (change (Fl.nodes f)) (Fl.edges f) (Fl.keysRef f) (Fl.initialFitDone f), None)
  | FEdgeClick edge => (f, Some (Some (Fl.id edge)))
  | FPaneClick => (f, Some None)
  end.
End Flow.

Definition hasExternal (snaps : list StatSnapshot) : bool :=
  existsb (λ s, bool_decide (Snap.src_type s = ExternalNode) || bool_decide (Snap.dst_type s = ExternalNode)) snaps.

(** The canvas is React Flow's; the two labels over it appear when some end is
    external. *)
Definition TopologyGraph {T} (ReactFlow : list (Fl.Node T) → list Fl.Edge → html (FlowEvent T))
    (snapshots : SnapshotMap) (f : Flow T) : html (FlowEvent T) :=
  let legend background border label :=
    div_ [el "div" [("background", background); ("border", border)] no_click []; span [] label] in
  div_
    (ReactFlow (Fl.nodes f) (Fl.edges f)
     :: when (hasExternal (obj_values snapshots))
          (el "div" [("pointerEvents", "none")] no_click
             [legend "#ffffff" "1px solid #cbd5e1" "내부 컨테이너";
              legend "#f8fafc" "1px dashed #94a3b8" "외부 서비스"])).

(** ** The fixed example: [components/TopologyTest.tsx] *)
Definition test_nodes : list (string * (Z * Z) * string) :=      (* id, position, label *)
  [("a", (300, 100), "service-a"); ("b", (100, 300), "service-b"); ("c", (500, 300), "service-c")]%Z.
Definition test_edges : list (string * string * string * string) :=   (* id, source, target, label *)
  [("a-b", "a", "b", "2ms"); ("a-c", "a", "c", "5ms")].
(** The canvas, with its background and its zoom buttons, is React Flow's. *)
Definition TopologyTest {E} (ReactFlow : list (string * (Z * Z) * string) →
    list (string * string * string * string) → html E) : html E :=
  div_ [ReactFlow test_nodes test_edges].

(** ** The layout *)
Section LayoutFacts.
Context {T : Type}.

Definition put_step (f : nat → Point T) (acc : jsobj (Point T) * nat) (svc : string) :=
  (obj_set acc.1 svc (f acc.2), S acc.2).
Lemma put_fold f names o k :
  NoDup names →
  (∀ i svc, names !! i = Some svc → obj_get (foldl (put_step f) (o, k) names).1 svc = Some (f (k + i)))
  ∧ (∀ svc, svc ∉ names → obj_get (foldl (put_step f) (o, k) names).1 svc = obj_get o svc).
Proof.
  intros Hnd. revert o k. induction Hnd as [|n names Hn Hnd IH]; intros o k; [done|]. simpl.
  destruct (IH (obj_set o n (f k)) (S k)) as [IH1 IH2]. split.
  - intros [|i] svc; simpl.
    + intros [= <-]. unfold put_step at 2. simpl. rewrite IH2 by done. rewrite obj_get_set_eq, Nat.add_0_r. done.
    + intros Hi. rewrite Nat.add_succ_r. by apply IH1.
  - intros svc [Hne Hs]%not_elem_of_cons. unfold put_step at 2. simpl. rewrite IH2 by done.
    by apply obj_get_set_ne.
Qed.

Lemma place_all_get (f : nat → Point T) names o i svc :
  NoDup names → names !! i = Some svc → obj_get (place_all f names o) svc = Some (f i).
Proof. intros Hnd Hi. exact (proj1 (put_fold f names o 0 Hnd) i svc Hi). Qed.
Lemma place_all_frame (f : nat → Point T) names o svc :
  NoDup names → svc ∉ names → obj_get (place_all f names o) svc = obj_get o svc.
Proof. intros Hnd Hs. exact (proj2 (put_fold f names o 0 Hnd) svc Hs). Qed.

Context `{Num T} (cos sin : T → T) (PI : T).
Lemma layout_external internal external i svc :
  NoDup (internal ++ external) → external !! i = Some svc →
  obj_get (layoutNodes cos sin PI internal external) svc = Some (external_pos internal external i).
Proof. intros (_ & _ & Hnd)%NoDup_app Hi. by apply place_all_get. Qed.
Lemma layout_internal internal external i svc :
  NoDup (internal ++ external) → internal !! i = Some svc →
  obj_get (layoutNodes cos sin PI internal external) svc = Some (internal_pos cos sin PI internal i).
Proof.
  intros (Hi & Hd & He)%NoDup_app Hs. unfold layoutNodes.
  rewrite place_all_frame; [by apply place_all_get|done|]. apply Hd. by eapply list_elem_of_lookup_2.
Qed.
End LayoutFacts.

Lemma unit_le (c s : Q) : (c * c + s * s == 1 → s <= 1)%Q.
Proof.
  intros H. destruct (Qlt_le_dec 1 s) as [Hs|]; [|done]. exfalso.
  assert (0 <= c * c)%Q by (destruct (Qlt_le_dec c 0); nra). nra.
Qed.

(** The layout of the first map: with [cos] and [sin] on the unit circle
    the internal services lie on a circle of radius [r] around (400, 220), and
    the external ones in a row 180 below the circle, 200 apart, centred; every
    internal service lies at least 180 above every external one. *)
Theorem layout_geometry (cos sin : Q → Q) (PI : Q) (internal external : list string) :
  (∀ a, cos a * cos a + sin a * sin a == 1)%Q → NoDup (internal ++ external) →
  let pos := obj_get (layoutNodes cos sin PI internal external) in
  let r := radius (T:=Q) internal in
  (∀ i svc, internal !! i = Some svc → ∃ p, pos svc = Some p
     ∧ ((Pos.x p - 400) * (Pos.x p - 400) + (Pos.y p - 220) * (Pos.y p - 220) == r * r
        ∧ Pos.y p <= 220 + r)%Q)
  ∧ (∀ i svc, external !! i = Some svc → ∃ p, pos svc = Some p
     ∧ (Pos.x p == 400 + (inject_Z (Z.of_nat i) - (inject_Z (Z.of_nat (length external)) - 1) / 2) * 200
        ∧ Pos.y p == 220 + r + 180)%Q).
Proof.
  intros Hcs Hnd pos r. split; intros i svc Hi; eexists.
  - split; [by eapply layout_internal|]. unfold internal_pos, cx, cy. fold r. simpl.
    match goal with |- context [cos ?b] => set (a := b) end. specialize (Hcs a).
    assert (0 <= r)%Q as Hr.
    { unfold r, radius. eapply Qle_trans; [|apply (proj1 (nmax_Q _ _))]. discriminate. }
    generalize dependent (cos a). generalize dependent (sin a). intros s c Hcs.
    split.
    + transitivity (r * r * (c * c + s * s))%Q; [ring|]. rewrite Hcs. ring.
    + apply unit_le in Hcs. change (inject_Z 220) with 220%Q.
      assert (0 <= r * (1 - s))%Q by (apply Qmult_le_0_compat; lra). lra.
  - split; [by eapply layout_external|]. unfold external_pos, cx, cy. fold r. simpl.
    unfold Z.sub. rewrite inject_Z_plus, inject_Z_opp. change (inject_Z 1) with 1%Q.
    change (inject_Z 400) with 400%Q. change (inject_Z 220) with 220%Q.
    change (inject_Z 180) with 180%Q. change (inject_Z 200) with 200%Q. change (inject_Z 2) with 2%Q.
    split; [field|reflexivity].
Qed.

(** ** Nodes *)
Lemma add_typed_elem st n ty x :
  (x ∈ (add_typed st n ty).1 ↔ x ∈ st.1 ∨ x = n ∧ ty = Internal)
  ∧ (x ∈ (add_typed st n ty).2 ↔ x ∈ st.2 ∨ x = n ∧ ty = ExternalNode).
Proof. destruct ty; simpl; rewrite ?elem_of_set_add; naive_solver. Qed.
Lemma add_typed_NoDup st n ty :
  NoDup st.1 ∧ NoDup st.2 → NoDup (add_typed st n ty).1 ∧ NoDup (add_typed st n ty).2.
Proof. intros [? ?]. destruct ty; simpl; auto with js. Qed.

(** A snapshot names the service [x] at an end of the type [ty]. *)
Definition names_end (ty : NodeType) (x : string) (s : StatSnapshot) : Prop :=
  (Snap.src_service s = x ∧ Snap.src_type s = ty) ∨ (Snap.dst_service s = x ∧ Snap.dst_type s = ty).

Definition add_snap (st : list string * list string) (s : StatSnapshot) :=
  add_typed (add_typed st (Snap.src_service s) (Snap.src_type s)) (Snap.dst_service s) (Snap.dst_type s).
Lemma typed_fold snaps st x :
  let r := foldl add_snap st snaps in
  (x ∈ r.1 ↔ x ∈ st.1 ∨ Exists (names_end Internal x) snaps)
  ∧ (x ∈ r.2 ↔ x ∈ st.2 ∨ Exists (names_end ExternalNode x) snaps)
  ∧ (NoDup st.1 ∧ NoDup st.2 → NoDup r.1 ∧ NoDup r.2).
Proof.
  revert st. induction snaps as [|s snaps IH]; intros st; simpl.
  - rewrite !Exists_nil. naive_solver.
  - destruct (IH (add_snap st s)) as (H1 & H2 & H3). rewrite H1, H2, !Exists_cons.
    unfold add_snap, names_end.
    rewrite !(proj1 (add_typed_elem _ _ _ _)), !(proj2 (add_typed_elem _ _ _ _)).
    split_and!; [naive_solver..|]. intros ?. by apply H3, add_typed_NoDup, add_typed_NoDup.
Qed.
Lemma typed_services_elem snaps x :
  (x ∈ (typed_services snaps).1 ↔ Exists (names_end Internal x) snaps)
  ∧ (x ∈ (typed_services snaps).2 ↔ Exists (names_end ExternalNode x) snaps).
Proof. destruct (typed_fold snaps ([], []) x) as (H1 & H2 & _). set_solver. Qed.
Lemma typed_services_NoDup snaps :
  NoDup (typed_services snaps).1 ∧ NoDup (typed_services snaps).2.
Proof. apply (typed_fold snaps ([], []) ""). by split; constructor. Qed.

Section NodeFacts.
Context {T : Type} `{Num T} (cos sin : T → T) (PI : T).

Definition put_node (o : jsobj (option (Point T))) (n : Fl.Node T) := obj_set o (Fl.nid n) (Fl.position n).
Lemma existing_get (prev : list (Fl.Node T)) n o :
  NoDup (map Fl.nid prev) → n ∈ prev →
  obj_get (foldl put_node o prev) (Fl.nid n) = Some (Fl.position n).
Proof.
  assert (∀ l o x, x ∉ map Fl.nid l →
    obj_get (foldl put_node o l) x = obj_get o x) as Hframe.
  { induction l as [|m l IH]; intros o' x Hx; [done|]. simpl in *.
    apply not_elem_of_cons in Hx as [? ?]. rewrite IH by done. by apply obj_get_set_ne. }
  revert o. induction prev as [|m prev IH]; intros o; simpl; [set_solver|].
  intros [Hm Hnd]%NoDup_cons [->|Hn]%elem_of_cons; [|by apply IH].
  rewrite Hframe by done. apply obj_get_set_eq.
Qed.
Lemma layout_total internal external svc :
  NoDup internal → NoDup external → svc ∈ internal ++ external →
  is_Some (obj_get (layoutNodes cos sin PI internal external) svc).
Proof.
  intros Hi He Hs. unfold layoutNodes. destruct (decide (svc ∈ external)) as [Hx|Hx].
  - apply list_elem_of_lookup in Hx as [i Hx]. erewrite place_all_get by done. eauto.
  - rewrite place_all_frame by done.
    apply elem_of_app in Hs as [[i Hs]%list_elem_of_lookup|]; [|done].
    erewrite place_all_get by done. eauto.
Qed.
End NodeFacts.

(** C40: the nodes of the first map: when the snapshots name other services than
    the nodes on display, the new list has one node for every service at an end
    of a connection, drawn as internal exactly when some connection says so;
    every node has a place, and one that was on display keeps its own. *)
Theorem nodes_follow_services {T : Type} `{Num T} (cos sin : T → T) (PI : T)
    (snapshots : SnapshotMap) (prev next : list (Fl.Node T)) :
  next_nodes cos sin PI snapshots prev = Some next →
  let snaps := obj_values snapshots in
  (∀ x, x ∈ map Fl.nid next ↔ ∃ ty, Exists (names_end ty x) snaps)
  ∧ Forall (λ n, (Fl.internal n = true ↔ Exists (names_end Internal (Fl.nid n)) snaps)
                 ∧ is_Some (Fl.position n)) next
  ∧ (NoDup (map Fl.nid prev) → ∀ o n p, o ∈ prev → n ∈ next → Fl.nid o = Fl.nid n →
     Fl.position o = Some p → Fl.position n = Some p).
Proof.
  unfold next_nodes. destruct (typed_services (obj_values snapshots)) as [I E] eqn:HIE.
  case_bool_decide as Hk; [done|]. intros [= <-]. set (snaps := obj_values snapshots) in *.
  pose proof (typed_services_elem snaps) as Helem. pose proof (typed_services_NoDup snaps) as [HnI HnE].
  rewrite HIE in Helem, HnI, HnE. simpl in *. split_and!.
  - intros x. rewrite map_map. simpl. rewrite map_id, elem_of_app, (proj1 (Helem x)), (proj2 (Helem x)).
    split; [intros [|]; eauto|]. intros [[] ?]; auto.
  - rewrite Forall_forall. intros n Hn. apply list_elem_of_fmap in Hn as (svc & -> & Hsvc). simpl. split.
    + rewrite bool_decide_eq_true. apply Helem.
    + pose proof (layout_total cos sin PI I E svc HnI HnE Hsvc).
      by destruct (obj_get (existingPositions prev) svc) as [[]|].
  - intros Hnd o n p Ho Hn Hid Hp. apply list_elem_of_fmap in Hn as (svc & -> & _). simpl in *. subst svc.
    change (existingPositions prev) with (foldl put_node [] prev). rewrite existing_get by done. by rewrite Hp.
Qed.

(** ** Concrete graphs *)
Definition ex_sig (src dst : string) (dst_type : NodeType) : StatSnapshot :=
  Snap.mkStat src dst Internal dst_type 0 0 0 0 0 0 0 0 false 0 None None None None None None.
Definition ex_graph : SnapshotMap :=
  [("api→db", ex_sig "api" "db" ExternalNode); ("api→auth", ex_sig "api" "auth" Internal)].
Definition one (_ : Q) : Q := 1.
Definition zero (_ : Q) : Q := 0.

Lemma layout_geometry_witness :
  option_map (λ p, Qred (Pos.y p)) (obj_get (layoutNodes one zero 3%Q ["api"; "auth"] ["db"]) "db") = Some 530%Q
  ∧ ∃ p, obj_get (layoutNodes one zero 3%Q ["api"; "auth"] ["db"]) "db" = Some p
         ∧ (Pos.x p == 400 + (0 - (1 - 1) / 2) * 200 ∧ Pos.y p == 220 + 130 + 180)%Q.
Proof.
  split; [reflexivity|].
  refine (proj2 (layout_geometry one zero 3%Q ["api"; "auth"] ["db"] _ _) 0 "db" eq_refl).
  - intros a. reflexivity.
  - by apply (bool_decide_unpack _).
Defined.

(** A new service appears; the node that was dragged away stays there. *)
Definition ex_flow : Flow Q :=
  Fl.mkFlow [Fl.mkNode "api" (Some (Pos.mkPoint 5%Q 6%Q)) true; Fl.mkNode "auth" (Some (Pos.mkPoint 7%Q 8%Q)) true]
    [] None true.
Lemma nodes_follow_services_witness :
  let next := Fl.nodes (flow_step one zero 3%Q (FSnapshots ex_graph) ex_flow).1 in
  map Fl.nid next = ["api"; "auth"; "db"]
  ∧ (∀ x, x ∈ map Fl.nid next ↔ ∃ ty, Exists (names_end ty x) (obj_values ex_graph)).
Proof.
  split; [reflexivity|].
  refine (proj1 (nodes_follow_services one zero 3%Q ex_graph (Fl.nodes ex_flow) _ _)). vm_compute. reflexivity.
Defined.
