(* ===== verification/DesignCanvas.v ===== *)
(** * The prototype's charts: [design_handoff_microtrace/mt-chart.jsx]

    The prototype draws its charts on a canvas.  A drawing is the list of the
    calls on the 2D context, written over any [Num]; the text of axis labels is a
    parameter, and the quotes of a font name are single here.  What is drawn
    inside the frame of the chart, and what is not, is in [DesignFloat].  The
    small lines of the list ([MiniSpark] of [mt-views.jsx]) use the formulas of
    [Sparkline]. *)

From S2P Require Export Design.
From S2P Require Import Chart Topo.
From stdpp Require Import base list.

Inductive CanvasOp (T : Type) :=
  | SetSize (w h : T) | Scale (sx sy : T)
  | FillStyle (color : string) | StrokeStyle (color : string) | LineWidth (w : T)
  | LineDash (dash : list T) | Font (font : string) | TextAlign (align : string)
  | FillRect (x y w h : T) | StrokeRect (x y w h : T) | ClearRect (x y w h : T)
  | BeginPath | ClosePath | Stroke | Fill
  | MoveTo (x y : T) | LineTo (x y : T)
  | FillText (s : string) (x y : T).
Arguments SetSize {T}. Arguments Scale {T}. Arguments FillStyle {T}. Arguments StrokeStyle {T}.
Arguments LineWidth {T}. Arguments LineDash {T}. Arguments Font {T}. Arguments TextAlign {T}.
Arguments FillRect {T}. Arguments StrokeRect {T}. Arguments ClearRect {T}. Arguments BeginPath {T}.
Arguments ClosePath {T}. Arguments Stroke {T}. Arguments Fill {T}. Arguments MoveTo {T}.
Arguments LineTo {T}. Arguments FillText {T}.

(** A point of either history. *)
Module LP.
Record LatencyPoint (T : Type) := mkLP {
  time : T; avg_us : T; p50_us : T; p95_us : T; p99_us : T; jitter_us : T;
}.
Arguments mkLP {T}. Arguments time {T}. Arguments avg_us {T}. Arguments p50_us {T}.
Arguments p95_us {T}. Arguments p99_us {T}. Arguments jitter_us {T}.
End LP.
Module UP.
Record UsagePoint (T : Type) := mkUP { time : T; cpu_pct : T; io_wait_pct : T; mem_pressure_pct : T }.
Arguments mkUP {T}. Arguments time {T}. Arguments cpu_pct {T}. Arguments io_wait_pct {T}.
Arguments mem_pressure_pct {T}.
(** The frame of a drawing and its two scales. *)
Record Frame (T : Type) := mkFrame { cw : T; ch : T; tMin : T; tRange : T; yMin : T; yRange : T }.
Arguments mkFrame {T}. Arguments cw {T}. Arguments ch {T}. Arguments tMin {T}. Arguments tRange {T}.
Arguments yMin {T}. Arguments yRange {T}.
End UP.
Abbreviation LatencyPoint := LP.LatencyPoint.
Abbreviation UsagePoint := UP.UsagePoint.
Abbreviation Frame := UP.Frame.

Section Canvas.
Context {T : Type} `{Num T}.
Variables (fmtYLabel fmtTime : T → string) (devicePixelRatio : T).
Local Open Scope num_scope.

(** [Math.max(...xs)] and [Math.min(...xs)] on [x :: xs] *)
Definition max_of (x : T) (xs : list T) : T := foldl nmax x xs.
Definition min_of (x : T) (xs : list T) : T := foldl nmin x xs.

Definition setupCanvas (W H : T) : option (list (CanvasOp T)) :=
  let dpr := or_one devicePixelRatio in
  if (W <=? N[0]) || (H <=? N[0]) then None
  else Some [SetSize (W * dpr) (H * dpr); Scale dpr dpr].

Definition PAD_top : T := N[10].
Definition PAD_right : T := N[14].
Definition PAD_bottom : T := N[22].
Definition PAD_left : T := N[56].

Definition toX (f : Frame T) (t : T) : T := PAD_left + (t - UP.tMin f) / UP.tRange f * UP.cw f.
Definition toY (f : Frame T) (v : T) : T :=
  PAD_top + (N[1] - (v - UP.yMin f) / UP.yRange f) * UP.ch f.

(** [i === 0 ? ctx.moveTo(x, y) : ctx.lineTo(x, y)] *)
Definition polyline (ps : list (T * T)) : list (CanvasOp T) :=
  match ps with
  | [] => []
  | p :: ps => MoveTo p.1 p.2 :: map (λ p, LineTo p.1 p.2) ps
  end.
Definition grid_line (f : Frame T) (y : T) : list (CanvasOp T) :=
  [BeginPath; MoveTo PAD_left y; LineTo (PAD_left + UP.cw f) y; Stroke].
Definition grid_label (label : string) (y : T) : list (CanvasOp T) :=
  [FillStyle "#94a3b8"; Font "9px 'JetBrains Mono', monospace"; TextAlign "right";
   FillText label (PAD_left - N[6]) (y + N[3])].
Definition time_labels (f : Frame T) (H : T) : list (CanvasOp T) :=
  [FillStyle "#94a3b8"; Font "9px 'JetBrains Mono', monospace"; TextAlign "center"]
  ++ map (λ r, FillText (fmtTime (UP.tMin f + r * UP.tRange f)) (toX f (UP.tMin f + r * UP.tRange f)) (H - N[6]))
         [N[0]; nlit 5 10; N[1]].
Definition border (f : Frame T) : list (CanvasOp T) :=
  [StrokeStyle "#e2e8f0"; StrokeRect PAD_left PAD_top (UP.cw f) (UP.ch f)].

(** ** Latency *)
Definition point_values (p : LatencyPoint T) : list T :=
  [LP.avg_us p; LP.p50_us p; LP.p95_us p; LP.p99_us p].

(** The value axis of the points [p :: ps]: [yMin] and [yMax]. *)
Definition latency_axis (p : LatencyPoint T) (ps : list (LatencyPoint T)) : T * T :=
  let rest := [LP.p50_us p; LP.p95_us p; LP.p99_us p] ++ flat_map point_values ps in
  let yMax := max_of (LP.avg_us p) rest * nlit 115 100 in
  let yMin := nmax N[0] (min_of (LP.avg_us p) rest * nlit 85 100) in
  if yMax - yMin <? N[500] then (nmax N[0] (yMin - N[200]), yMax + N[500]) else (yMin, yMax).

Definition latency_frame (W H : T) (p : LatencyPoint T) (ps : list (LatencyPoint T)) : Frame T :=
  let '(yMin, yMax) := latency_axis p ps in
  UP.mkFrame (W - PAD_left - PAD_right) (H - PAD_top - PAD_bottom) (LP.time p)
    (nmax (LP.time (List.last ps p) - LP.time p) N[1]) yMin (or_one (yMax - yMin)).

(** Up along [p50 + jitter / 2], back along [p50 - jitter / 2]. *)
Definition jitter_band (f : Frame T) (pts : list (LatencyPoint T)) : list (CanvasOp T) :=
  [BeginPath]
  ++ polyline (map (λ p, (toX f (LP.time p), toY f (LP.p50_us p + LP.jitter_us p * nlit 5 10))) pts)
  ++ map (λ p, LineTo (toX f (LP.time p))
                      (toY f (nmax (UP.yMin f) (LP.p50_us p - LP.jitter_us p * nlit 5 10)))) (rev pts)
  ++ [ClosePath; FillStyle "rgba(37,99,235,0.08)"; Fill].

Definition latency_line (f : Frame T) (pts : list (LatencyPoint T))
    (line : (LatencyPoint T → T) * string * list T * T) : list (CanvasOp T) :=
  let '(key, color, dash, width) := line in
  [BeginPath; StrokeStyle color; LineWidth width; LineDash dash]
  ++ polyline (map (λ p, (toX f (LP.time p), toY f (key p))) pts)
  ++ [Stroke; LineDash []].
Definition latency_lines (isSpike : bool) : list ((LatencyPoint T → T) * string * list T * T) :=
  [(LP.avg_us, "#2563eb", [N[4]; N[3]], nlit 12 10);
   (LP.p50_us, "#16a34a", [], nlit 18 10);
   (LP.p95_us, "#d97706", [], nlit 18 10);
   (LP.p99_us, if isSpike then "#dc2626" else "#ea580c", [], nlit 24 10)].

(** The calls on a canvas of client size [W] by [H]. *)
Definition drawLatency (W H : T) (history : list (LatencyPoint T)) (isSpike : bool) : list (CanvasOp T) :=
  if (length history <? 2)%nat then []
  else match setupCanvas W H, js_slice history (-180) None with
  | Some setup, p :: ps =>
      let f := latency_frame W H p ps in
      setup ++ [FillStyle "#ffffff"; FillRect N[0] N[0] W H; StrokeStyle "#f1f5f9"; LineWidth N[1]]
      ++ flat_map (λ i,
           let v := UP.yMin f + (UP.yRange f / N[4]) * N[i] in
           grid_line f (toY f v) ++ grid_label (fmtYLabel v) (toY f v)) [0; 1; 2; 3; 4]%Z
      ++ (if isSpike then [FillStyle "rgba(220,38,38,0.04)";
                           FillRect (PAD_left + UP.cw f * nlit 82 100) PAD_top (UP.cw f * nlit 18 100) (UP.ch f)]
          else [])
      ++ jitter_band f (p :: ps)
      ++ flat_map (latency_line f (p :: ps)) (latency_lines isSpike)
      ++ time_labels f H ++ border f
  | _, _ => []
  end.

(** ** Resources *)

(** [p[key] || 0] *)
Definition or_zero (x : T) : T := if nnan x || (x === N[0]) then N[0] else x.

Definition usage_frame (W H : T) (p : UsagePoint T) (ps : list (UsagePoint T)) : Frame T :=
  UP.mkFrame (W - PAD_left - PAD_right) (H - PAD_top - PAD_bottom) (UP.time p)
    (nmax (UP.time (List.last ps p) - UP.time p) N[1]) N[0] (N[100] - N[0]).
Definition usage_line (f : Frame T) (pts : list (UsagePoint T)) (line : (UsagePoint T → T) * string) : list (CanvasOp T) :=
  [BeginPath; StrokeStyle line.2; LineWidth N[2]]
  ++ polyline (map (λ p, (toX f (UP.time p), toY f (or_zero (line.1 p)))) pts) ++ [Stroke].

Definition drawResources (W H : T) (history : list (UsagePoint T)) (label : option string) : list (CanvasOp T) :=
  if (length history <? 2)%nat then []
  else match setupCanvas W H, js_slice history (-180) None with
  | Some setup, p :: ps =>
      let f := usage_frame W H p ps in
      setup ++ [FillStyle "#ffffff"; FillRect N[0] N[0] W H;
                StrokeStyle "rgba(220,38,38,0.25)"; LineDash [N[3]; N[3]]; LineWidth N[1]]
      ++ grid_line f (toY f N[70]) ++ [LineDash []; StrokeStyle "#f1f5f9"; LineWidth N[1]]
      ++ flat_map (λ v, grid_line f (toY f N[v]) ++ grid_label (pretty v +:+ "%") (toY f N[v])) [0; 50; 100]%Z
      ++ flat_map (usage_line f (p :: ps))
           [(UP.cpu_pct, "#dc2626"); (UP.io_wait_pct, "#7c3aed"); (UP.mem_pressure_pct, "#ea580c")]
      ++ time_labels f H
      ++ match label with
         | Some s => if bool_decide (s = "") then []
                     else [FillStyle "#94a3b8"; Font "600 10px 'Inter', system-ui"; TextAlign "left";
                           FillText s (PAD_left + N[4]) (PAD_top + N[12])]
         | None => []
         end
      ++ border f
  | _, _ => []
  end.

(** ** Sparklines *)
Definition spark_points (W H : T) (values : list T) : list (T * T) :=
  match values with
  | [] => []
  | v0 :: vs =>
      let min := min_of v0 vs in
      let range := or_one (max_of v0 vs - min) in
      imap (λ i v, (N[Z.of_nat i] / N[Z.of_nat (length values) - 1] * W,
                    H - ((v - min) / range) * (H - N[4]) - N[2])) values
  end.
Definition Sparkline (W H : T) (values : list T) (color : string) : list (CanvasOp T) :=
  if (length values <? 2)%nat then []
  else match setupCanvas W H with
  | None => []
  | Some setup =>
      setup ++ [ClearRect N[0] N[0] W H; StrokeStyle color; LineWidth (nlit 15 10); BeginPath]
      ++ polyline (spark_points W H values) ++ [Stroke]
  end.

(** The points the calls visit. *)
Definition vertices (ops : list (CanvasOp T)) : list (T * T) :=
  flat_map (λ op, match op with MoveTo x y | LineTo x y => [(x, y)] | _ => [] end) ops.
End Canvas.

(** [points] of the polyline, the text of [MiniSpark]. *)
Definition MiniSpark_points (width height : number) (values : list number) : option string :=
  if (length values <? 2)%nat then None
  else Some (str_join " " (map (λ p, toFixed p.1 1 +:+ "," +:+ toFixed p.2 1) (spark_points width height values))).

(** ** The vertices of the pieces of a drawing *)
Section Vertices.
Context {T : Type} `{Num T}.
Implicit Types ops : list (CanvasOp T).
Lemma vertices_app ops1 ops2 : vertices (ops1 ++ ops2) = vertices ops1 ++ vertices ops2.
Proof. unfold vertices. by rewrite flat_map_app. Qed.
Lemma vertices_lines {A} (g : A → T * T) (l : list A) :
  vertices (map (λ a, LineTo (g a).1 (g a).2) l) = map g l.
Proof. induction l as [|a l IH]; [done|]. simpl. rewrite <-IH. by destruct (g a). Qed.
Lemma vertices_polyline (g : list (T * T)) : vertices (polyline g) = g.
Proof.
  destruct g as [|[x y] g]; [done|]. simpl. f_equal. rewrite <-(map_id g) at 2. apply (vertices_lines (λ p, p)).
Qed.
Lemma vertices_flat_map {A} (F : A → list (CanvasOp T)) (P : T * T → Prop) (l : list A) :
  (∀ a, a ∈ l → Forall P (vertices (F a))) → Forall P (vertices (flat_map F l)).
Proof.
  induction l as [|a l IH]; intros HF; [constructor|]. simpl. rewrite vertices_app, Forall_app.
  split; [apply HF; left|apply IH; intros; apply HF; by right].
Qed.
Lemma setup_vertices dpr W H' setup : setupCanvas dpr W H' = Some setup → vertices (T:=T) setup = [].
Proof. unfold setupCanvas. case_if; [done|]. by intros [= <-]. Qed.
End Vertices.

Lemma drop_history {A} (history : list A) : js_slice history (-180) None = drop (length history - 180) history.
Proof. by apply (js_slice_last history 180); lia. Qed.
