(* ===== verification/DesignFloat.v ===== *)
(** * The prototype's charts in machine arithmetic

    Where the drawings of [DesignCanvas] go on the canvas, proved of the binary64
    program: client sizes are integers up to 16384, values up to 2^31 (36
    minutes of latency in microseconds), times safe integers in order.  Ratios
    of lengths are never rounded above one, so lines stay in the plot area exactly;
    the rounding of the sums that place the grid lines is bounded by 2^-12 of a
    pixel; the upper edge of the jitter band is clamped nowhere, and reaches the
    top of the frame and beyond when P50 and half the jitter exceed the axis. *)

From S2P Require Export DesignCanvas.
From S2P Require Import Chart Topo FloatInterval.
From stdpp Require Import base list.

Local Open Scope Z_scope.
#[local] Arguments Z.pow : simpl never.
#[local] Opaque FloatRound.U g0 INF.
#[local] Abbreviation U := FloatRound.U.
#[local] Abbreviation u := (2 ^ U).

Lemma u_pos : 0 < u.
Proof. apply pow_gt0. rewrite U_val. lia. Qed.
Lemma u_split j : 0 ≤ j ≤ 1000 → u = 2 ^ j * 2 ^ (U - j).
Proof. intros. rewrite U_val, <-Z.pow_add_r by lia. f_equal. lia. Qed.
Lemma dyadic_pos j : 0 ≤ j ≤ 1000 → 0 < 2 ^ (U - j).
Proof. intros. apply pow_gt0. rewrite U_val. lia. Qed.
Lemma fixed_int n : Z.abs n < 2 ^ 53 → fixed (n * u).
Proof.
  intros Hn. destruct (decide (0 ≤ n)); [by apply fixed_repr, repr_int; lia|].
  replace (n * u) with (- (- n * u)) by lia. apply fixed_opp, fixed_repr, repr_int. lia.
Qed.
Lemma fixed_0 : fixed 0.
Proof. exact (fixed_int 0 ltac:(done)). Qed.

(** Integers among the numbers. *)
Definition at_int (x : number) (z : Z) : Prop := finite x ∧ fv x = z * u.
Lemma int_at z : Z.abs z < 2 ^ 53 → at_int (nofZ z) z.
Proof. intros [? ?]%nofZ_fv. by split. Qed.
Lemma int_sub x y a b : at_int x a → at_int y b → Z.abs (a - b) < 2 ^ 53 → at_int (x - y)%num (a - b).
Proof.
  intros [Fx Hx] [Fy Hy] Hab. pose proof (fixed_int _ Hab) as Hf.
  destruct (sub_between ((a - b) * u) ((a - b) * u) Fx Fy Hf Hf) as [F H]; [rewrite Hx, Hy; lia|].
  split; [done|lia].
Qed.
Lemma int_add x y a b : at_int x a → at_int y b → Z.abs (a + b) < 2 ^ 53 → at_int (x + y)%num (a + b).
Proof.
  intros [Fx Hx] [Fy Hy] Hab. pose proof (fixed_int _ Hab) as Hf.
  destruct (add_between ((a + b) * u) ((a + b) * u) Fx Fy Hf Hf) as [F H]; [rewrite Hx, Hy; lia|].
  split; [done|lia].
Qed.
Lemma within_ints a x b :
  Z.abs a < 2 ^ 53 → Z.abs b < 2 ^ 53 → finite x → a * u ≤ fv x ≤ b * u → within N[a]%num x N[b]%num.
Proof.
  intros [Va Fa]%nofZ_fv [Vb Fb]%nofZ_fv Fx Hx.
  split_and!; [done|rewrite nleb_fv by auto with js; apply Z.leb_le; lia..].
Qed.
Lemma within_ints_fv a x b :
  Z.abs a < 2 ^ 53 → Z.abs b < 2 ^ 53 → within N[a]%num x N[b]%num → finite x ∧ a * u ≤ fv x ≤ b * u.
Proof.
  intros [Va Fa]%nofZ_fv [Vb Fb]%nofZ_fv Hx. pose proof (within_fv _ _ _ Fa Fb Hx).
  split; [by eapply within_finite|lia].
Qed.

(** ** Minima and maxima *)
Lemma nmax_between a x b : finite a → finite x → fv a ≤ b → fv x ≤ b →
  finite (nmax a x) ∧ fv a ≤ fv (nmax a x) ≤ b ∧ fv x ≤ fv (nmax a x).
Proof.
  intros Fa Fx Ha Hx. assert (nnan a = false ∧ nnan x = false) as [Na Nx] by auto with js.
  pose proof (nmax_ub_l a x Na Nx) as H1. pose proof (nmax_ub_r a x Na Nx) as H2.
  destruct (nmax_cases a x) as [E|E]; rewrite E in *; rewrite nleb_fv in H1, H2 by done; bool_to_prop; split_and!; done || lia.
Qed.
Lemma nmin_between a x b : finite a → finite x → b ≤ fv a → b ≤ fv x →
  finite (nmin a x) ∧ b ≤ fv (nmin a x) ≤ fv a ∧ fv (nmin a x) ≤ fv x.
Proof.
  intros Fa Fx Ha Hx. assert (nnan a = false ∧ nnan x = false) as [Na Nx] by auto with js.
  pose proof (nmin_lb_l a x Na Nx) as H1. pose proof (nmin_lb_r a x Na Nx) as H2.
  destruct (nmin_cases a x) as [E|E]; rewrite E in *; rewrite nleb_fv in H1, H2 by done; bool_to_prop; split_and!; done || lia.
Qed.

Definition bounded (lo hi : Z) (v : number) : Prop := finite v ∧ lo ≤ fv v ≤ hi.

Lemma max_of_bounded lo hi x xs :
  Forall (bounded lo hi) (x :: xs) →
  bounded lo hi (max_of x xs) ∧ Forall (λ v, fv v ≤ fv (max_of x xs)) (x :: xs).
Proof.
  revert x. induction xs as [|y xs IH]; intros x; [intros Hx; split; [by inversion Hx|by constructor]|].
  rewrite !Forall_cons. intros ([Fx Hx] & [Fy Hy] & Hxs).
  destruct (nmax_between x y hi Fx Fy) as (F & H1 & H2); [lia..|].
  destruct (IH (nmax x y)) as [Hb Hall]; [by constructor; [split; [done|lia]|]|].
  unfold max_of in *. simpl. apply Forall_cons in Hall as [H3 Hall]. split; [done|]. split_and!; [lia|lia|done].
Qed.
Lemma min_of_bounded lo hi x xs :
  Forall (bounded lo hi) (x :: xs) →
  bounded lo hi (min_of x xs) ∧ Forall (λ v, fv (min_of x xs) ≤ fv v) (x :: xs).
Proof.
  revert x. induction xs as [|y xs IH]; intros x; [intros Hx; split; [by inversion Hx|by constructor]|].
  rewrite !Forall_cons. intros ([Fx Hx] & [Fy Hy] & Hxs).
  destruct (nmin_between x y lo Fx Fy) as (F & H1 & H2); [lia..|].
  destruct (IH (nmin x y)) as [Hb Hall]; [by constructor; [split; [done|lia]|]|].
  unfold min_of in *. simpl. apply Forall_cons in Hall as [H3 Hall]. split; [done|]. split_and!; [lia|lia|done].
Qed.

Lemma or_one_pos (x : number) : finite x → 0 < fv x → or_one x = x.
Proof.
  intros Fx Hx. destruct (int_at 0 ltac:(done)) as [F0 V0]. unfold or_one. rewrite finite_not_nan by done.
  rewrite neqb_fv, V0 by auto with js. by rewrite (proj2 (Z.eqb_neq _ _)) by lia.
Qed.
Lemma or_one_range (x : number) : finite x → 0 ≤ fv x → finite (or_one x) ∧ 0 < fv (or_one x) ∧ fv x ≤ fv (or_one x).
Proof.
  intros Fx Hx. destruct (decide (0 < fv x)); [rewrite or_one_pos by done; done|].
  destruct (int_at 0 ltac:(done)) as [F0 V0], (int_at 1 ltac:(done)) as [F1 V1]. pose proof u_pos.
  unfold or_one. rewrite finite_not_nan by done.
  rewrite neqb_fv, V0 by auto with js. rewrite (proj2 (Z.eqb_eq _ _)) by lia. cbn [orb].
  split_and!; [done|lia|lia].
Qed.

(** ** Ratios and scales *)
Lemma ratio_between x y :
  finite x → finite y → 0 ≤ fv x ≤ fv y → 0 < fv y → finite (x / y)%num ∧ 0 ≤ fv (x / y)%num ≤ u.
Proof.
  intros Fx Fy Hx Hy. pose proof u_pos. apply div_between; [done|done|lia|done| |nia].
  rewrite <-(Z.mul_1_l u). by apply repr_int.
Qed.
Lemma scaled_between r c n :
  finite r → 0 ≤ fv r ≤ u → at_int c n → 0 ≤ n < 2 ^ 53 → finite (r * c)%num ∧ 0 ≤ fv (r * c)%num ≤ n * u.
Proof.
  intros Fr Hr [Fc Hc] Hn. pose proof u_pos.
  apply mul_between; [done|done|apply fixed_0|apply fixed_int; lia|]. rewrite Hc.
  assert (0 ≤ fv r * (n * u) ≤ u * (n * u)); [|lia]. pose proof (Z.mul_nonneg_nonneg n u). nia.
Qed.

(** A frame on a canvas of client size [w] by [h]. *)
Record frame_ok (w h : Z) (f : Frame number) : Prop := {
  fr_cw : at_int (UP.cw f) (w - 70);
  fr_ch : at_int (UP.ch f) (h - 32);
  fr_t : finite (UP.tMin f) ∧ finite (UP.tRange f) ∧ 0 < fv (UP.tRange f);
  fr_y : finite (UP.yMin f) ∧ finite (UP.yRange f) ∧ 0 < fv (UP.yRange f);
}.
Definition size_ok (w h : Z) : Prop := 70 ≤ w ≤ 16384 ∧ 32 ≤ h ≤ 16384.

Lemma frame_sizes w h : size_ok w h →
  at_int ((N[w] - PAD_left - PAD_right)%num : number) (w - 70)
  ∧ at_int ((N[h] - PAD_top - PAD_bottom)%num : number) (h - 32).
Proof.
  intros [Hw Hh]. split.
  - replace (w - 70) with (w - 56 - 14) by lia.
    apply int_sub; [apply int_sub; [apply int_at; lia|by apply int_at|lia]|by apply int_at|lia].
  - replace (h - 32) with (h - 10 - 22) by lia.
    apply int_sub; [apply int_sub; [apply int_at; lia|by apply int_at|lia]|by apply int_at|lia].
Qed.

(** A time between the ends of the axis. *)
Definition time_in (f : Frame number) (t : number) : Prop :=
  finite (t - UP.tMin f)%num ∧ 0 ≤ fv (t - UP.tMin f)%num ≤ fv (UP.tRange f).

Lemma toX_in w h f t : size_ok w h → frame_ok w h f → time_in f t → within N[56]%num (toX f t) N[(w - 14)%Z]%num.
Proof.
  intros [Hw Hh] [Hcw _ (_ & Ft & Ht) _] [FD HD].
  destruct (ratio_between _ _ FD Ft HD Ht) as [Fr Hr].
  destruct (scaled_between _ _ _ Fr Hr Hcw ltac:(lia)) as [Fs Hs].
  destruct (int_at 56 ltac:(done)) as [F56 V56]. pose proof u_pos. unfold toX, PAD_left.
  destruct (add_between (56 * u) ((w - 14) * u) F56 Fs) as [Fa Ha];
    [apply fixed_int; lia|apply fixed_int; lia|rewrite V56; lia|].
  by apply within_ints; [lia|lia|..].
Qed.

(** The vertical place of a value: its distance from the bottom of the axis is at
    most [u + b] of the range, and at least [m] times the range. *)
Lemma toY_bounds w h f v b c m :
  size_ok w h → frame_ok w h f → finite (v - UP.yMin f)%num →
  m * fv (UP.yRange f) ≤ fv (v - UP.yMin f)%num → fv (v - UP.yMin f)%num * u ≤ (u + b) * fv (UP.yRange f) →
  0 ≤ m ≤ 1 → 0 ≤ b → repr (u + b) → fixed b → fixed c → fixed (10 * u - c) → b * (h - 32) ≤ c →
  finite (toY f v) ∧ 10 * u - c ≤ fv (toY f v) ≤ (10 + (1 - m) * (h - 32)) * u.
Proof.
  intros [_ Hh] [_ [Fch Vch] _ (_ & Fy & Hy)] FD Hlo Hhi Hm Hb Rb Xb Xc Xt Hbc. pose proof u_pos.
  set (D := (v - UP.yMin f)%num) in *. set (R := UP.yRange f) in *.
  assert (0 ≤ fv D) as HD by nia.
  destruct (div_between D R (u + b) FD Fy HD Hy Rb Hhi) as [Fq Hq].
  assert (m * u ≤ fv (D / R)%num) as Hq1.
  { apply div_above; [done|done|done|done|apply repr_int; lia|]. nia. }
  destruct (int_at 1 ltac:(done)) as [F1 V1], (int_at 10 ltac:(done)) as [F10 V10].
  destruct (sub_between (- b) ((1 - m) * u) F1 Fq) as [Fs Hs];
    [by apply fixed_opp|apply fixed_int; lia|rewrite V1; lia|].
  destruct (mul_between (- c) ((1 - m) * (h - 32) * u) Fs Fch) as [Fp Hp];
    [by apply fixed_opp|apply fixed_int; nia| |].
  { rewrite Vch. set (s := fv (N[1] - D / R)%num) in *. clearbody s.
    assert (0 ≤ (h - 32) * u) by nia.
    assert (- b * ((h - 32) * u) ≤ s * ((h - 32) * u) ≤ (1 - m) * u * ((h - 32) * u)) by nia. nia. }
  unfold toY, PAD_top. fold D R.
  apply (add_between _ _ F10 Fp); [done|apply fixed_int; nia|rewrite V10; lia].
Qed.

Definition GRID_TOP : number := (N[10] - N[1] / N[4096])%num.
Lemma grid_top_fv : finite GRID_TOP ∧ fv GRID_TOP = 10 * u - 2 ^ (U - 12).
Proof. split; vm_compute; reflexivity. Qed.

Definition plot_area (w h : Z) (top : number) (p : number * number) : Prop :=
  within N[56]%num p.1 N[(w - 14)%Z]%num ∧ within top p.2 N[(h - 22)%Z]%num.

(** On the axis; past its end by rounding; beyond its end. *)
Definition value_in (f : Frame number) (v : number) : Prop :=
  finite (v - UP.yMin f)%num ∧ 0 ≤ fv (v - UP.yMin f)%num ≤ fv (UP.yRange f).
Lemma toY_in w h f v : size_ok w h → frame_ok w h f → value_in f v →
  within N[10]%num (toY f v) N[(h - 22)%Z]%num.
Proof.
  intros Hs Hf [FD HD]. pose proof u_pos.
  destruct (toY_bounds w h f v 0 0 0) as [F H1]; [exact Hs|exact Hf|exact FD|lia|nia|lia|lia| |
    apply fixed_0|apply fixed_0| |lia|].
  - rewrite Z.add_0_r, <-(Z.mul_1_l u). by apply repr_int.
  - rewrite Z.sub_0_r. by apply fixed_int.
  - destruct Hs. apply within_ints; [lia|lia|done|lia].
Qed.

Lemma toY_slack w h f v : size_ok w h → frame_ok w h f → finite (v - UP.yMin f)%num →
  0 ≤ fv (v - UP.yMin f)%num ≤ fv (UP.yRange f) + 2 ^ (U - 18) → 2 ^ 8 * u ≤ fv (UP.yRange f) →
  within GRID_TOP (toY f v) N[(h - 22)%Z]%num.
Proof.
  intros Hs Hf FD HD HR. pose proof u_pos. pose proof (dyadic_pos 26 ltac:(lia)).
  assert (2 ^ (U - 18) = 2 ^ 8 * 2 ^ (U - 26)) as E18 by (rewrite <-Z.pow_add_r by (rewrite ?U_val; lia); f_equal; lia).
  assert (2 ^ (U - 12) = 2 ^ 14 * 2 ^ (U - 26)) as E12 by (rewrite <-Z.pow_add_r by (rewrite ?U_val; lia); f_equal; lia).
  pose proof (u_split 26 ltac:(lia)) as E26.
  destruct (toY_bounds w h f v (2 ^ (U - 26)) (2 ^ (U - 12)) 0) as [F H1];
    [exact Hs|exact Hf|exact FD|lia|nia|lia|lia|..].
  - replace (u + 2 ^ (U - 26)) with ((2 ^ 26 + 1) * 2 ^ (U - 26)) by lia. apply (repr_dyadic (2 ^ 26 + 1) 26); lia.
  - apply fixed_repr. rewrite <-(Z.mul_1_l (2 ^ (U - 26))). apply (repr_dyadic 1 26); lia.
  - apply fixed_repr. rewrite <-(Z.mul_1_l (2 ^ (U - 12))). apply (repr_dyadic 1 12); lia.
  - replace (10 * u - 2 ^ (U - 12)) with ((10 * 2 ^ 12 - 1) * 2 ^ (U - 12)); [apply fixed_repr, (repr_dyadic (10 * 2 ^ 12 - 1) 12); lia|].
    rewrite (u_split 12) by lia. lia.
  - destruct Hs. nia.
  - destruct grid_top_fv as [Fg Vg], Hs as [_ Hh], (int_at (h - 22) ltac:(lia)) as [Fh Vh].
    split_and!; [done|rewrite nleb_fv by auto with js; apply Z.leb_le; lia..].
Qed.

(** Not above the top of the frame. *)
Lemma toY_over w h f v : size_ok w h → frame_ok w h f → finite (v - UP.yMin f)%num →
  fv (UP.yRange f) ≤ fv (v - UP.yMin f)%num ≤ 2 ^ 34 * u → 2 ^ 8 * u ≤ fv (UP.yRange f) →
  finite (toY f v) ∧ nleb (toY f v) N[10]%num = true.
Proof.
  intros Hs Hf FD HD HR. pose proof u_pos.
  destruct (toY_bounds w h f v (2 ^ 34 * u) (2 ^ 48 * u) 1) as [F H1];
    [exact Hs|exact Hf|exact FD|lia|nia|lia|lia|..].
  - replace (u + 2 ^ 34 * u) with ((1 + 2 ^ 34) * u) by lia. by apply repr_int.
  - by apply fixed_int.
  - by apply fixed_int.
  - replace (10 * u - 2 ^ 48 * u) with ((10 - 2 ^ 48) * u) by lia. by apply fixed_int.
  - destruct Hs. nia.
  - split; [done|]. destruct (int_at 10 ltac:(done)) as [F10 V10].
    rewrite nleb_fv by auto with js. apply Z.leb_le. lia.
Qed.

(** ** The axis of the latency chart *)

(** A point that was measured: values from 0 to 2^31, the time a safe integer's. *)
Definition time_ok (t : number) : Prop := within N[0]%num t N[9007199254740991]%num.
Record measured (p : LatencyPoint number) : Prop := {
  ms_values : Forall (λ v, within N[0]%num v N[2147483648]%num) (point_values p);
  ms_jitter : within N[0]%num (LP.jitter_us p) N[2147483648]%num;
  ms_time : time_ok (LP.time p);
}.
Lemma value_bounded v : within N[0]%num v N[2147483648]%num → bounded 0 (2147483648 * u) v.
Proof. intros [F H]%within_ints_fv; [|lia..]. split; [done|lia]. Qed.

(** 1.15 and 0.85, as the program has them. *)
Lemma axis_factors :
  finite (nlit 115 100 : number) ∧ u ≤ fv (nlit 115 100 : number) ≤ 2 * u
  ∧ finite (nlit 85 100 : number) ∧ 0 ≤ fv (nlit 85 100 : number) ≤ u.
Proof.
  assert (∀ a b : Z, (a <=? b) = true → a ≤ b) as Hle by apply Z.leb_le.
  split_and!; (vm_compute; reflexivity) || (apply Hle; vm_compute; reflexivity).
Qed.

(** From the extremes [m] and [M] of the values: [yMin] and [yMax]. *)
Lemma axis_of_extremes (m M : number) :
  bounded 0 (2147483648 * u) m → bounded 0 (2147483648 * u) M → fv m ≤ fv M →
  let yMax := (M * nlit 115 100)%num in
  let yMin := nmax N[0]%num (m * nlit 85 100)%num in
  let axis := (if (yMax - yMin <? N[500]) then (nmax N[0] (yMin - N[200]), yMax + N[500]) else (yMin, yMax))%num in
  bounded 0 (fv m) axis.1 ∧ bounded (fv M) (2 ^ 33 * u) axis.2 ∧ bounded (2 ^ 8 * u) (2 ^ 33 * u) (axis.2 - axis.1)%num.
Proof.
  intros [Fm Hm] [FM HM] HmM yMax yMin axis. pose proof u_pos. destruct axis_factors as (F1 & V1 & F2 & V2).
  destruct (int_at 0 ltac:(done)) as [F0 V0], (int_at 200 ltac:(done)) as [F200 V200],
    (int_at 500 ltac:(done)) as [F500 V500].
  destruct (mul_between (fv M) (2 ^ 32 * u) FM F1) as [Ft Ht];
    [by apply fixed_fv|by apply fixed_int|nia|]. fold yMax in Ft, Ht.
  destruct (mul_between 0 (fv m) Fm F2) as [Fs Hs]; [apply fixed_0|by apply fixed_fv|nia|].
  destruct (nmax_between (nofZ 0) (m * nlit 85 100)%num (fv m) F0 Fs) as (Fa & Ha & _); [lia|lia|]. fold yMin in Fa, Ha.
  destruct (sub_between (- (2 ^ 33 * u)) (2 ^ 33 * u) Ft Fa) as [Fd Hd];
    [by apply fixed_opp, fixed_int|by apply fixed_int|lia|].
  unfold axis. rewrite nltb_fv, V500 by auto with js. destruct (Z.ltb_spec (fv (yMax - yMin)%num) (500 * u)) as [Hlt|Hge].
  - destruct (sub_between (- (200 * u)) (fv yMin) Fa F200) as [Fb Hb];
      [by apply fixed_opp, fixed_int|by apply fixed_fv|lia|].
    destruct (nmax_between (nofZ 0) (yMin - N[200])%num (fv yMin) F0 Fb) as (Fl & Hl & _); [lia|lia|].
    destruct (add_between (fv yMax) (2 ^ 33 * u) Ft F500) as [Fh Hh]; [by apply fixed_fv|by apply fixed_int|lia|].
    destruct (fadd_fv yMax (nofZ 500) Ft F500) as [Vh _].
    pose proof (rnd_error (fv yMax + 500 * u) (33 + U)) as Hr. rewrite <-V500, <-Vh, V500 in Hr.
    assert (2 ^ (33 + U) = 2 ^ 33 * u) as E33 by (rewrite U_val, <-Z.pow_add_r by lia; f_equal).
    assert (2 ^ (33 + U - 53) ≤ u) as E20 by (apply Z.pow_le_mono_r; lia). rewrite E33 in Hr.
    specialize (Hr ltac:(lia) ltac:(rewrite g0_val, U_val; lia)).
    cbn [fst snd]. split_and!; [split; [done|lia]..|].
    apply sub_between; [done|done|by apply fixed_int|by apply fixed_int|lia].
  - cbn [fst snd]. split_and!; (split; [done|lia]).
Qed.

Lemma latency_axis_spec p ps :
  Forall measured (p :: ps) →
  let axis := latency_axis p ps in
  bounded 0 (2 ^ 33 * u) axis.1 ∧ bounded 0 (2 ^ 33 * u) axis.2
  ∧ bounded (2 ^ 8 * u) (2 ^ 33 * u) (axis.2 - axis.1)%num
  ∧ Forall (λ q, Forall (bounded (fv axis.1) (fv axis.2)) (point_values q)) (p :: ps).
Proof.
  intros Hv axis. pose proof u_pos.
  set (rest := [LP.p50_us p; LP.p95_us p; LP.p99_us p] ++ flat_map point_values ps).
  assert (LP.avg_us p :: rest = flat_map point_values (p :: ps)) as Erest by done.
  assert (Forall (bounded 0 (2147483648 * u)) (LP.avg_us p :: rest)) as Hall.
  { rewrite Erest. apply List.Forall_flat_map. eapply Forall_impl; [exact Hv|]. intros q [Hq _ _].
    eapply Forall_impl; [exact Hq|]. apply value_bounded. }
  destruct (max_of_bounded _ _ _ _ Hall) as [HM Hub], (min_of_bounded _ _ _ _ Hall) as [Hm Hlb].
  assert (fv (min_of (LP.avg_us p) rest) ≤ fv (max_of (LP.avg_us p) rest)) as HmM.
  { apply Forall_cons in Hub as [? _], Hlb as [? _]. lia. }
  assert (bounded 0 (fv (min_of (LP.avg_us p) rest)) axis.1
    ∧ bounded (fv (max_of (LP.avg_us p) rest)) (2 ^ 33 * u) axis.2
    ∧ bounded (2 ^ 8 * u) (2 ^ 33 * u) (axis.2 - axis.1)%num) as ([Fl Hl] & [Fh Hh] & Hr)
    by exact (axis_of_extremes _ _ Hm HM HmM). clearbody axis.
  destruct Hm as [_ Hm], HM as [_ HM].
  split_and!; [split; [done|lia]..|done|].
  apply List.Forall_flat_map. rewrite <-Erest. rewrite Forall_forall in Hall, Hub, Hlb |- *. intros v Hin.
  destruct (Hall v Hin) as [Fv _]. pose proof (Hub v Hin). pose proof (Hlb v Hin). split; [done|]. simpl in *. lia.
Qed.

(** ** Histories and their frames *)

(** A history in the order of its times. *)
Definition in_time {A} (time : A → number) (l : list A) : Prop :=
  StronglySorted (λ p q, nleb (time p) (time q) = true) l.

Section Times.
Context {A : Type} (time : A → number).

Lemma in_time_drop n l : in_time time l → in_time time (drop n l).
Proof.
  intros Hs. revert n. induction Hs as [|x l Hs IH Hx]; intros [|n]; simpl; try constructor; auto.
Qed.
Lemma last_cons_default (p q : A) ps : List.last (q :: ps) p = List.last ps q.
Proof.
  revert p q. induction ps as [|r ps IH]; intros p q; [done|]. exact (eq_trans (IH p r) (eq_sym (IH q r))).
Qed.
Lemma last_in (p : A) ps : List.last ps p ∈ p :: ps.
Proof.
  revert p. induction ps as [|q ps IH]; intros p; [by left|]. rewrite last_cons_default. right. apply IH.
Qed.
Lemma in_time_ends p ps :
  in_time time (p :: ps) → Forall (λ q, time_ok (time q)) (p :: ps) →
  Forall (λ q, fv (time p) ≤ fv (time q) ≤ fv (time (List.last ps p))) (p :: ps).
Proof.
  revert p. induction ps as [|q ps IH]; intros p Hs Ht.
  - repeat constructor; simpl; lia.
  - apply StronglySorted_inv in Hs as [Hs Hp]. apply Forall_cons in Ht as [Htp Ht].
    pose proof (IH q Hs Ht) as Hq. apply Forall_cons in Hp as [Hpq _]. apply Forall_cons in Ht as [Htq _].
    assert (fv (time p) ≤ fv (time q)) as Hle.
    { rewrite nleb_fv in Hpq by (by eapply within_ok). by apply Z.leb_le. }
    rewrite last_cons_default.
    pose proof Hq as Hq'. apply Forall_cons in Hq' as [[_ Hl] _]. constructor; [lia|].
    eapply Forall_impl; [exact Hq|]. simpl. intros; lia.
Qed.

(** The time axis of [p :: ps] holds its times. *)
Lemma time_axis p ps :
  in_time time (p :: ps) → Forall (λ q, time_ok (time q)) (p :: ps) →
  let tRange := nmax (time (List.last ps p) - time p)%num N[1]%num in
  finite (time p) ∧ (finite tRange ∧ 0 < fv tRange)
  ∧ Forall (λ q, finite (time q - time p)%num ∧ 0 ≤ fv (time q - time p)%num ≤ fv tRange) (p :: ps).
Proof.
  intros Hs Ht tRange. pose proof u_pos. pose proof (in_time_ends p ps Hs Ht) as Hends.
  assert (∀ q, q ∈ p :: ps → finite (time q) ∧ 0 ≤ fv (time q) ≤ 9007199254740991 * u
    ∧ fv (time p) ≤ fv (time q) ≤ fv (time (List.last ps p))) as Hq.
  { rewrite Forall_forall in Ht, Hends. intros q Hin.
    destruct (within_ints_fv 0 (time q) 9007199254740991 ltac:(lia) ltac:(lia) (Ht q Hin)) as [F Hr].
    split; [done|]. split; [lia|]. by apply Hends. }
  assert (∀ q, q ∈ p :: ps → bounded 0 (9007199254740991 * u) (time q - time p)%num) as Hd.
  { intros q Hin. destruct (Hq q Hin) as (F & H1 & H2), (Hq p ltac:(by left)) as (Fp & H3 & _).
    apply sub_between; [done|done|apply fixed_0|by apply fixed_int|lia]. }
  destruct (int_at 1 ltac:(done)) as [F1 V1]. destruct (Hd _ (last_in p ps)) as [Fl Hl].
  destruct (nmax_between (time (List.last ps p) - time p)%num (nofZ 1) (9007199254740991 * u) Fl F1)
    as (Fm & Hm & Hm1); [lia|lia|]. fold tRange in Fm, Hm, Hm1.
  split; [by apply (Hq p); left|]. split; [split; [done|lia]|]. apply Forall_forall. intros q Hin.
  destruct (Hd q Hin) as [F H1]. split; [done|]. split; [lia|].
  destruct (Hq q Hin) as (Fq & _ & _ & H2), (Hq _ (last_in p ps)) as (Fe & _), (Hq p ltac:(by left)) as (Fp & _).
  etransitivity; [|apply Hm]. destruct (fsub_fv _ _ Fq Fp) as [-> _], (fsub_fv _ _ Fe Fp) as [-> _].
  apply rnd_mono. lia.
Qed.
End Times.

Lemma distance_in v lo hi :
  finite lo → finite hi → finite v → fv lo ≤ fv v ≤ fv hi → finite (hi - lo)%num →
  finite (v - lo)%num ∧ 0 ≤ fv (v - lo)%num ≤ fv (hi - lo)%num.
Proof.
  intros Fl Fh Fv Hv Fd. destruct (fsub_fv hi lo Fh Fl) as [E _], (fsub_fv v lo Fv Fl) as [E' N].
  pose proof (rnd_mono (fv v - fv lo) (fv hi - fv lo) ltac:(lia)). pose proof (rnd_nonneg (fv v - fv lo) ltac:(lia)).
  pose proof (finite_abs _ Fd). split; [apply finite_iff; [done|]|]; lia.
Qed.

Lemma latency_frame_ok w h p ps :
  size_ok w h → in_time LP.time (p :: ps) → Forall measured (p :: ps) →
  let f := latency_frame N[w]%num N[h]%num p ps in
  frame_ok w h f ∧ bounded 0 (2 ^ 33 * u) (UP.yMin f) ∧ bounded (2 ^ 8 * u) (2 ^ 33 * u) (UP.yRange f)
  ∧ Forall (λ q, time_in f (LP.time q)) (p :: ps)
  ∧ Forall (λ q, Forall (λ v, bounded (fv (UP.yMin f)) (2 ^ 33 * u) v ∧ value_in f v) (point_values q)) (p :: ps)
  ∧ UP.yRange f = ((latency_axis p ps).2 - UP.yMin f)%num
  ∧ finite (latency_axis p ps).2 ∧ fv (UP.yMin f) ≤ fv (latency_axis p ps).2 ≤ 2 ^ 33 * u.
Proof.
  intros Hs Ho Hv. pose proof u_pos. destruct (frame_sizes w h Hs) as [Hcw Hch].
  destruct (latency_axis_spec p ps Hv) as ([Fl Hl] & [Fh Hh] & [Fr Hr] & Hin).
  destruct (time_axis LP.time p ps Ho) as (Ft & Htr & Ht); [by eapply Forall_impl; [exact Hv|by intros q []]|].
  unfold latency_frame. destruct (latency_axis p ps) as [lo hi]. cbn [fst snd] in *. cbv zeta.
  rewrite or_one_pos by (done || lia).
  unfold time_in, value_in. cbn [UP.cw UP.ch UP.tMin UP.tRange UP.yMin UP.yRange].
  assert (fv lo ≤ fv hi) as Hlh.
  { apply Forall_cons in Hin as [Hp _]. apply Forall_cons in Hp as [[_ ?] _]. lia. }
  split.
  { split; cbn [UP.cw UP.ch UP.tMin UP.tRange UP.yMin UP.yRange]; [done|done|by destruct Htr|]. split_and!; [done|done|lia]. }
  split_and!; [done|done|done| |done|done|lia|lia].
  eapply Forall_impl; [exact Hin|]. intros q Hq. eapply Forall_impl; [exact Hq|]. intros v [Fv Hv'].
  split; [split; [done|lia]|]. by apply distance_in.
Qed.

(** ** The pieces of a drawing *)
Lemma grid_vertices w h f y top :
  size_ok w h → frame_ok w h f → within top y N[(h - 22)%Z]%num →
  Forall (plot_area w h top) (vertices (grid_line f y)).
Proof.
  intros [Hw Hh] Hf Hy. pose proof u_pos.
  assert (at_int PAD_left 56) as H56 by exact (int_at 56 ltac:(done)).
  assert (at_int (PAD_left + UP.cw f)%num (w - 14)) as [Fe Ve].
  { replace (w - 14) with (56 + (w - 70)) by lia. apply int_add; [exact H56|apply Hf|lia]. }
  destruct H56 as [F56 V56]. cbn [vertices grid_line flat_map app]. unfold plot_area. cbn [fst snd].
  repeat (apply Forall_cons; split); [..|by apply Forall_nil]; split; try exact Hy;
    (apply within_ints; [lia|lia|done|cbn [fst]]); [rewrite V56; nia|rewrite Ve; nia].
Qed.

Lemma repr_quarter x : 2 ^ 8 * u ≤ x → repr x → ∃ B, x = 4 * B ∧ repr B.
Proof.
  intros Hx (m & k & -> & Hm & Hk & Hi). exists (m * 2 ^ (k - 2)).
  assert (U - 45 < k).
  { apply (Z.pow_lt_mono_r_iff 2); [lia|rewrite g0_val in *; lia|].
    apply (Z.mul_lt_mono_pos_l (2 ^ 53)); [done|]. rewrite <-!Z.pow_add_r by (rewrite ?U_val, ?g0_val in *; lia).
    replace (53 + (U - 45)) with (8 + U) by lia. rewrite (Z.pow_add_r 2 53) by (rewrite ?U_val, ?g0_val in *; lia).
    rewrite Z.pow_add_r by (rewrite ?U_val; lia). pose proof (pow_gt0 k ltac:(rewrite g0_val in *; lia)). nia. }
  rewrite U_val, g0_val in *. assert (2 ^ k = 4 * 2 ^ (k - 2)) as E.
  { change 4 with (2 ^ 2). rewrite <-Z.pow_add_r by lia. f_equal. lia. }
  split; [rewrite E; lia|]. exists m, (k - 2). rewrite g0_val. pose proof (pow_gt0 (k - 2) ltac:(lia)).
  split_and!; lia.
Qed.

(** A quarter mark of the value axis. *)
Lemma quarter_mark a R i :
  bounded 0 (2 ^ 33 * u) a → bounded (2 ^ 8 * u) (2 ^ 33 * u) R → 0 ≤ i ≤ 4 →
  let v := (a + R / N[4] * N[i])%num in
  finite (v - a)%num ∧ 0 ≤ fv (v - a)%num ≤ fv R + 2 ^ (U - 18).
Proof.
  intros [Fa Ha] [FR HR] Hi v. pose proof u_pos. pose proof (dyadic_pos 18 ltac:(lia)).
  destruct (repr_quarter (fv R)) as (B & EB & HB); [lia|rewrite <-(Z.abs_eq (fv R)) by lia; by apply fv_repr|].
  destruct (int_at 4 ltac:(done)) as [F4 V4], (int_at i ltac:(lia)) as [Fi Vi].
  destruct (div_between R (nofZ 4) B FR F4) as [Fq Hq]; [lia|lia|done|rewrite V4; nia|].
  assert (0 ≤ fv (R / N[4])%num * i ≤ fv R) as Hqi by nia.
  destruct (mul_between 0 (fv R) Fq Fi) as [Fw Hw]; [apply fixed_0|by apply fixed_fv|rewrite Vi; nia|].
  destruct (add_between (fv a) (2 ^ 34 * u) Fa Fw) as [Fv Hv]; [by apply fixed_fv|by apply fixed_int|lia|]. fold v in Fv, Hv.
  destruct (fadd_fv a _ Fa Fw) as [Ev _]. fold v in Ev. destruct (fsub_fv v a Fv Fa) as [Ed Nd].
  assert (2 ^ (35 + U) = 2 ^ 35 * u) as E35 by (rewrite U_val, <-Z.pow_add_r by lia; f_equal).
  assert (g0 + 53 ≤ 35 + U < 3224) as Hk by (rewrite g0_val, U_val; lia).
  pose proof (rnd_error (fv a + fv (R / N[4] * N[i])%num) (35 + U) ltac:(rewrite E35; lia) Hk) as E1. rewrite <-Ev in E1.
  pose proof (rnd_error (fv v - fv a) (35 + U) ltac:(rewrite E35; lia) Hk) as E2. rewrite <-Ed in E2.
  replace (35 + U - 53) with (U - 18) in * by lia. pose proof (rnd_nonneg (fv v - fv a) ltac:(lia)) as Hnn.
  rewrite <-Ed in Hnn. assert (2 ^ (U - 18) ≤ u) by (apply Z.pow_le_mono_r; lia).
  pose proof INF_val. assert (2 ^ 36 * u < INF).
  { rewrite INF_val, U_val, <-Z.pow_add_r by lia. apply Z.pow_lt_mono_r; lia. }
  split; [apply finite_iff; [done|]|]; lia.
Qed.

(** *** Lines *)
Lemma point_in w h f t v :
  size_ok w h → frame_ok w h f → time_in f t → value_in f v → plot_area w h N[10]%num (toX f t, toY f v).
Proof. intros. split; [by apply (toX_in w h)|by apply (toY_in w h)]. Qed.
Lemma plot_area_grid w h xy : plot_area w h N[10]%num xy → plot_area w h GRID_TOP xy.
Proof.
  intros [Hx (F & H1 & H2)]. split; [done|]. split_and!; [done| |done].
  eapply nleb_trans; [|exact H1]. vm_compute. reflexivity.
Qed.
Lemma path_in {A} w h (f : Frame number) (time val : A → number) (pts : list A) :
  size_ok w h → frame_ok w h f →
  Forall (λ q, time_in f (time q)) pts → Forall (λ q, value_in f (val q)) pts →
  Forall (plot_area w h N[10]%num) (map (λ q, (toX f (time q), toY f (val q))) pts).
Proof.
  intros Hs Hf Ht Hv. rewrite Forall_forall in Ht, Hv. apply Forall_forall.
  intros xy (q & -> & Hq)%list_elem_of_fmap. apply point_in; auto.
Qed.

(** *** The jitter band *)
Definition band_top (q : LatencyPoint number) : number := (LP.p50_us q + LP.jitter_us q * nlit 5 10)%num.

Lemma half_jitter q : measured q → bounded 0 (2147483648 * u) (LP.jitter_us q * nlit 5 10)%num.
Proof.
  intros [_ [Fj Hj]%value_bounded _]. pose proof u_pos.
  assert (finite (nlit 5 10 : number) ∧ 0 ≤ fv (nlit 5 10 : number) ≤ u) as [Fh Hh].
  { assert (∀ a b : Z, (a <=? b) = true → a ≤ b) as Hle by apply Z.leb_le.
    split_and!; (vm_compute; reflexivity) || (apply Hle; vm_compute; reflexivity). }
  apply mul_between; [done|done|apply fixed_0|by apply fixed_int|nia].
Qed.

Lemma band_top_bounded q : measured q → bounded (fv (LP.p50_us q)) (2 ^ 33 * u) (band_top q).
Proof.
  intros Hq. destruct (half_jitter q Hq) as [Fj Hj]. destruct Hq as [Hv _ _].
  assert (bounded 0 (2147483648 * u) (LP.p50_us q)) as [Fp Hp].
  { apply value_bounded. rewrite Forall_forall in Hv. apply Hv. right. left. }
  apply add_between; [done|done|by apply fixed_fv|by apply fixed_int|pose proof u_pos; lia].
Qed.
Lemma band_bottom_in (f : Frame number) q :
  measured q → finite (UP.yMin f) → finite (LP.p50_us q) → fv (UP.yMin f) ≤ fv (LP.p50_us q) → value_in f (LP.p50_us q) →
  value_in f (nmax (UP.yMin f) (LP.p50_us q - LP.jitter_us q * nlit 5 10)%num).
Proof.
  intros Hq Fy Fp Hle [Fd Hd]. destruct (half_jitter q Hq) as [Fj Hj]. destruct Hq as [Hv _ _].
  assert (bounded 0 (2147483648 * u) (LP.p50_us q)) as [_ Hp].
  { apply value_bounded. rewrite Forall_forall in Hv. apply Hv. right. left. }
  destruct (sub_between (- (2147483648 * u)) (fv (LP.p50_us q)) Fp Fj) as [Fb Hb];
    [by apply fixed_opp, fixed_int|by apply fixed_fv|lia|].
  destruct (nmax_between (UP.yMin f) (LP.p50_us q - LP.jitter_us q * nlit 5 10)%num (fv (LP.p50_us q)) Fy Fb)
    as (Fm & Hm & _); [lia|lia|].
  destruct (distance_in _ _ _ Fy Fp Fm Hm Fd) as [F H]. split; [done|]. lia.
Qed.

(** A vertex of the band beyond the end of the axis: on or above the top edge. *)
Definition over_axis (w h : Z) (history : list (LatencyPoint number)) (xy : number * number) : Prop :=
  ∃ p ps q, js_slice history (-180) None = p :: ps ∧ q ∈ p :: ps
    ∧ nltb (latency_axis p ps).2 (band_top q) = true
    ∧ (let f := latency_frame N[w]%num N[h]%num p ps in xy = (toX f (LP.time q), toY f (band_top q)))
    ∧ within N[56]%num xy.1 N[(w - 14)%Z]%num ∧ nleb xy.2 N[10]%num = true.

Lemma band_top_vertex w h p ps q :
  size_ok w h → in_time LP.time (p :: ps) → Forall measured (p :: ps) → q ∈ p :: ps →
  let f := latency_frame N[w]%num N[h]%num p ps in
  let xy := (toX f (LP.time q), toY f (band_top q)) in
  plot_area w h N[10]%num xy
  ∨ nltb (latency_axis p ps).2 (band_top q) = true
    ∧ within N[56]%num xy.1 N[(w - 14)%Z]%num ∧ nleb xy.2 N[10]%num = true.
Proof.
  intros Hs Ho Hm Hq f xy. pose proof u_pos.
  destruct (latency_frame_ok w h p ps Hs Ho Hm) as (Hf & [Fy Hy] & [FR HR] & Ht & Hin & ER & Fh & Hh). fold f in Hf, Fy, Hy, FR, HR, Ht, Hin, ER, Hh.
  rewrite Forall_forall in Ht, Hin, Hm. pose proof (Ht q Hq) as Htq. destruct (band_top_bounded q (Hm q Hq)) as [Fb Hb].
  assert (fv (UP.yMin f) ≤ fv (LP.p50_us q)) as Hp.
  { pose proof (Hin q Hq) as Hv. rewrite Forall_forall in Hv. destruct (Hv (LP.p50_us q)) as [[_ ?] _]; [right; left|lia]. }
  destruct (nltb (latency_axis p ps).2 (band_top q)) eqn:E.
  - right. split; [done|]. split; [by apply (toX_in w h)|].
    rewrite nltb_fv in E by auto with js. apply Z.ltb_lt in E.
    destruct (sub_between 0 (2 ^ 34 * u) Fb Fy) as [Fd Hd]; [apply fixed_0|by apply fixed_int|lia|].
    apply (toY_over w h); [done|done|done| |lia]. split; [|lia]. rewrite ER.
    destruct (fsub_fv _ _ Fh Fy) as [-> _], (fsub_fv _ _ Fb Fy) as [-> _]. apply rnd_mono. lia.
  - left. apply point_in; [done|done|done|]. rewrite nltb_fv in E by auto with js. apply Z.ltb_ge in E.
    unfold value_in. rewrite ER. apply distance_in; [done|done|done|lia|by rewrite <-ER].
Qed.

Lemma band_vertices w h history p ps :
  size_ok w h → js_slice history (-180) None = p :: ps → in_time LP.time (p :: ps) → Forall measured (p :: ps) →
  Forall (λ xy, plot_area w h N[10]%num xy ∨ over_axis w h history xy)
    (vertices (jitter_band (latency_frame N[w]%num N[h]%num p ps) (p :: ps))).
Proof.
  intros Hs Hsl Ho Hm.
  destruct (latency_frame_ok w h p ps Hs Ho Hm) as (Hf & [Fy Hy] & _ & Ht & Hin & _).
  set (f := latency_frame N[w]%num N[h]%num p ps) in *.
  unfold jitter_band. rewrite !vertices_app, vertices_polyline, !Forall_app. split; [done|].
  split; [|split; [|done]].
  - apply Forall_forall. intros xy (q & -> & Hq)%list_elem_of_fmap.
    destruct (band_top_vertex w h p ps q Hs Ho Hm Hq) as [H|H]; [by left|right].
    exists p, ps, q. split; [done|]. split; [done|]. split; [apply H|]. split; [done|]. apply H.
  - pose proof (vertices_lines (λ q, (toX f (LP.time q),
      toY f (nmax (UP.yMin f) (LP.p50_us q - LP.jitter_us q * nlit 5 10)%num))) (rev (p :: ps))) as E.
    cbn [fst snd] in E. rewrite E. clear E.
    eapply Forall_impl; [|by left]. apply path_in; [done|done|by apply Forall_rev|]. apply Forall_rev.
    rewrite Forall_forall in Hin, Hm |- *. intros q Hq. pose proof (Hin q Hq) as Hv. rewrite Forall_forall in Hv.
    destruct (Hv (LP.p50_us q)) as [[Fp ?] Hvp]; [right; left|]. apply band_bottom_in; auto. lia.
Qed.

Lemma latency_vertices yl ft dpr w h history isSpike :
  size_ok w h → in_time LP.time history → Forall measured history →
  Forall (λ xy, plot_area w h GRID_TOP xy ∨ over_axis w h history xy)
    (vertices (drawLatency yl ft dpr N[w]%num N[h]%num history isSpike)).
Proof.
  intros Hs Ho Hm. unfold drawLatency. case_if; [constructor|].
  destruct (setupCanvas dpr N[w]%num N[h]%num) as [setup|] eqn:Hset; [|constructor].
  destruct (js_slice history (-180) None) as [|p ps] eqn:Hsl; [constructor|].
  assert (in_time LP.time (p :: ps) ∧ Forall measured (p :: ps)) as [Ho' Hm'].
  { rewrite <-Hsl, drop_history. split; [by apply in_time_drop|by apply Forall_drop]. }
  destruct (latency_frame_ok w h p ps Hs Ho' Hm') as (Hf & Hy & HR & Ht & Hin & _).
  pose proof (band_vertices w h history p ps Hs Hsl Ho' Hm') as Hband.
  set (f := latency_frame N[w]%num N[h]%num p ps) in *. cbv zeta.
  rewrite !vertices_app, (setup_vertices _ _ _ _ Hset), !Forall_app. split; [done|]. split; [done|].
  split; [|split; [by destruct isSpike|split; [|split; [|done]]]].
  - apply vertices_flat_map. intros i Hi. rewrite vertices_app, Forall_app. split; [|done].
    eapply Forall_impl; [apply (grid_vertices w h f _ GRID_TOP)|by left]; [done|done|].
    destruct (quarter_mark (UP.yMin f) (UP.yRange f) i Hy HR) as [Fd Hd].
    { repeat (apply elem_of_cons in Hi as [->|Hi]; [lia|]). by apply not_elem_of_nil in Hi. }
    apply (toY_slack w h); [done|done|done|done|apply HR].
  - eapply Forall_impl; [exact Hband|]. intros xy [H|H]; [left; by apply plot_area_grid|by right].
  - apply vertices_flat_map. intros [[[key color] dash] width] Hl. unfold latency_line.
    rewrite !vertices_app, vertices_polyline, !Forall_app. split; [done|]. split; [|done].
    eapply Forall_impl; [|intros xy Hxy; left; by apply plot_area_grid].
    apply path_in; [done|done|done|]. eapply Forall_impl; [exact Hin|]. intros q Hq. rewrite Forall_forall in Hq. apply Hq.
    unfold latency_lines in Hl. unfold point_values.
    repeat (apply elem_of_cons in Hl as [[= -> -> -> ->]|Hl]; [set_solver|]). by apply not_elem_of_nil in Hl.
Qed.

(** *** Resources *)
Record percentages (p : UsagePoint number) : Prop := {
  pc_values : Forall (λ v, within N[0]%num v N[100]%num) [UP.cpu_pct p; UP.io_wait_pct p; UP.mem_pressure_pct p];
  pc_time : time_ok (UP.time p);
}.

Lemma or_zero_within v : within N[0]%num v N[100]%num → within N[0]%num (or_zero v) N[100]%num.
Proof.
  intros Hv. unfold or_zero. case_if; [|done]. by apply (within_ints 0 _ 100); [..|vm_compute; reflexivity|].
Qed.

Lemma hundred_axis : at_int (N[100] - N[0])%num 100.
Proof. exact (int_sub _ _ 100 0 (int_at 100 ltac:(done)) (int_at 0 ltac:(done)) ltac:(done)). Qed.

Lemma usage_frame_ok w h p ps :
  size_ok w h → in_time UP.time (p :: ps) → Forall percentages (p :: ps) →
  let f := usage_frame N[w]%num N[h]%num p ps in
  frame_ok w h f ∧ Forall (λ q, time_in f (UP.time q)) (p :: ps)
  ∧ ∀ v, within N[0]%num v N[100]%num → value_in f v.
Proof.
  intros Hs Ho Hp f. pose proof u_pos. destruct (frame_sizes w h Hs) as [Hcw Hch].
  destruct (time_axis UP.time p ps Ho) as (Ft & Htr & Ht); [by eapply Forall_impl; [exact Hp|by intros q []]|].
  destruct (int_at 0 ltac:(done)) as [F0 V0], hundred_axis as [FR VR], (int_at 100 ltac:(done)) as [F100 V100].
  split; [|split; [exact Ht|]].
  - unfold f, usage_frame. split; cbn [UP.cw UP.ch UP.tMin UP.tRange UP.yMin UP.yRange]; [exact Hcw|exact Hch|exact (conj Ft Htr)|].
    split_and!; [done|done|lia].
  - intros v Hv. apply distance_in; [done|done|by eapply within_finite| |done]. apply within_fv; done.
Qed.

Lemma usage_vertices ft dpr w h history label :
  size_ok w h → in_time UP.time history → Forall percentages history →
  Forall (plot_area w h N[10]%num) (vertices (drawResources ft dpr N[w]%num N[h]%num history label)).
Proof.
  intros Hs Ho Hu. unfold drawResources. case_if; [constructor|].
  destruct (setupCanvas dpr N[w]%num N[h]%num) as [setup|] eqn:Hset; [|constructor]. rewrite drop_history.
  pose proof (in_time_drop UP.time (length history - 180) history Ho) as Ho'.
  pose proof (Forall_drop _ (length history - 180) _ Hu) as Hu'.
  destruct (drop _ history) as [|p ps]; [constructor|]. clear Ho Hu.
  destruct (usage_frame_ok w h p ps Hs Ho' Hu') as (Hf & Ht & Hin).
  set (f := usage_frame N[w]%num N[h]%num p ps) in *. cbv zeta.
  assert (∀ z, 0 ≤ z ≤ 100 → Forall (plot_area w h N[10]%num) (vertices (grid_line f (toY f N[z]%num)))) as Hg.
  { intros z Hz. apply grid_vertices; [done|done|]. apply (toY_in w h); [done|done|]. apply Hin.
    destruct (int_at z ltac:(lia)) as [Fz Vz]. apply within_ints; [lia|lia|done|]. pose proof u_pos. nia. }
  rewrite !vertices_app, (setup_vertices _ _ _ _ Hset), !Forall_app.
  split; [done|]. split; [done|]. split; [by apply Hg|]. split; [done|].
  split; [|split; [|split; [done|split; [|done]]]].
  - apply vertices_flat_map. intros z Hz. rewrite vertices_app, Forall_app. split; [|done].
    repeat (apply elem_of_cons in Hz as [->|Hz]; [by apply Hg|]). by apply not_elem_of_nil in Hz.
  - apply vertices_flat_map. intros [key color] Hl. unfold usage_line.
    rewrite !vertices_app, vertices_polyline, !Forall_app. split; [done|]. split; [|done].
    apply path_in; [done|done|done|]. eapply Forall_impl; [exact Hu'|]. intros q [Hq _]. apply Hin, or_zero_within.
    rewrite Forall_forall in Hq. apply Hq.
    repeat (apply elem_of_cons in Hl as [[= -> ->]|Hl]; [set_solver|]). by apply not_elem_of_nil in Hl.
  - destruct label as [s|]; [|done]. by case_bool_decide.
Qed.

(** *** Sparklines *)
Definition spark_area (w h : Z) (p : number * number) : Prop :=
  within N[0]%num p.1 N[w]%num ∧ within N[2]%num p.2 N[(h - 2)%Z]%num.

Lemma spark_x w i n : 0 ≤ w ≤ 16384 → 0 ≤ i ≤ n → 0 < n < 2 ^ 53 →
  within N[0]%num (N[i] / N[n] * N[w])%num N[w]%num.
Proof.
  intros Hw Hi Hn. pose proof u_pos. destruct (int_at i ltac:(lia)) as [Fi Vi], (int_at n ltac:(lia)) as [Fn Vn].
  destruct (ratio_between (nofZ i) (nofZ n) Fi Fn) as [Fr Hr]; [rewrite Vi, Vn; nia|rewrite Vn; nia|].
  destruct (scaled_between _ _ w Fr Hr (int_at w ltac:(lia))) as [Fs Hs]; [lia|].
  apply within_ints; [lia|lia|done|lia].
Qed.
Lemma spark_y h a r : 4 ≤ h ≤ 16384 → finite a → finite r → 0 ≤ fv a ≤ fv r → 0 < fv r →
  within N[2]%num (N[h] - a / r * (N[h] - N[4]) - N[2])%num N[(h - 2)%Z]%num.
Proof.
  intros Hh Fa Fr Ha Hr. pose proof u_pos. pose proof (int_at h ltac:(lia)) as Ih.
  pose proof (int_sub _ _ h 4 Ih (int_at 4 ltac:(done)) ltac:(lia)) as I4.
  destruct (ratio_between a r Fa Fr Ha Hr) as [Fq Hq].
  destruct (scaled_between _ _ (h - 4) Fq Hq I4) as [Fs Hs]; [lia|].
  destruct Ih as [Fh Vh], (int_at 2 ltac:(done)) as [F2 V2].
  destruct (sub_between (4 * u) (h * u) Fh Fs) as [Fd Hd]; [by apply fixed_int|apply fixed_int; lia|rewrite Vh; lia|].
  destruct (sub_between (2 * u) ((h - 2) * u) Fd F2) as [Fe He]; [by apply fixed_int|apply fixed_int; lia|rewrite V2; lia|].
  apply within_ints; [lia|lia|done|lia].
Qed.

Definition SPARK_MAX : Z := 2 ^ 50.
Lemma spark_inside w h values :
  0 ≤ w ≤ 16384 → 4 ≤ h ≤ 16384 → 2 ≤ Z.of_nat (length values) < 2 ^ 32 →
  Forall (λ v, within N[(- SPARK_MAX)%Z]%num v N[SPARK_MAX]%num) values →
  Forall (spark_area w h) (spark_points N[w]%num N[h]%num values).
Proof.
  intros Hw Hh Hn Hv. pose proof u_pos. destruct values as [|v0 vs]; [simpl in Hn; lia|]. unfold spark_points.
  assert (Forall (bounded (- SPARK_MAX * u) (SPARK_MAX * u)) (v0 :: vs)) as Hb.
  { eapply Forall_impl; [exact Hv|]. intros v Hin. exact (within_ints_fv (- SPARK_MAX) v SPARK_MAX eq_refl eq_refl Hin). }
  destruct (max_of_bounded _ _ _ _ Hb) as [[FM HM] Hub], (min_of_bounded _ _ _ _ Hb) as [[Fm Hm] Hlb].
  set (m := min_of v0 vs) in *. set (M := max_of v0 vs) in *. rewrite Forall_forall in Hb, Hub, Hlb.
  assert (fv m ≤ fv M) as HmM by (pose proof (Hub v0 ltac:(by left)); pose proof (Hlb v0 ltac:(by left)); simpl in *; lia).
  assert (∀ x, finite x → fv m ≤ fv x ≤ fv M → bounded 0 (2 * SPARK_MAX * u) (x - m)%num) as Hd.
  { intros x Fx Hx. apply sub_between; [done|done|apply fixed_0|by apply fixed_int|lia]. }
  destruct (Hd M FM ltac:(lia)) as [Fr Hr]. destruct (or_one_range _ Fr ltac:(lia)) as (Fo & Ho & Hro).
  apply Forall_forall. intros xy [i Hi]%list_elem_of_lookup. rewrite list_lookup_imap in Hi.
  destruct ((v0 :: vs) !! i) as [v|] eqn:Ev; [|done]. injection Hi as <-.
  pose proof (lookup_lt_Some _ _ _ Ev) as Hlt. apply list_elem_of_lookup_2 in Ev.
  destruct (Hb v Ev) as [Fv _]. pose proof (Hub v Ev) as Hvu. pose proof (Hlb v Ev) as Hvl. simpl in Hvu, Hvl.
  split; cbn [fst snd].
  - cbn [length] in Hn, Hlt. apply (spark_x w (Z.of_nat i) (Z.of_nat (S (length vs)) - 1)); [done|lia|lia].
  - destruct (Hd v Fv ltac:(lia)) as [Fa Ha]. apply spark_y; [done|done|done| |done]. split; [exact (proj1 Ha)|].
    etransitivity; [|exact Hro]. by apply distance_in.
Qed.

(** C37: where the prototype draws, in binary64, on a canvas that has room for the
    margins.  With measured values in the order of time, every vertex of the
    latency chart is in the plot area (up to 2^-12 of a pixel at the top, for the
    rounding of the grid lines) but for one case: the upper edge of the jitter band
    is clamped nowhere, and a point whose P50 plus half its jitter exceeds the axis
    is drawn on or above the top edge of the frame, still between its sides.  The
    lines of the resource chart stay in the plot area exactly (percentages), and
    those of a sparkline in its margin of two pixels (values up to 2^50). *)
Theorem drawings_stay_inside yl ft (dpr : number) (w h : Z) :
  (∀ history isSpike, size_ok w h → in_time LP.time history → Forall measured history →
     Forall (λ xy, plot_area w h GRID_TOP xy ∨ over_axis w h history xy)
       (vertices (drawLatency yl ft dpr N[w]%num N[h]%num history isSpike)))
  ∧ (∀ history label, size_ok w h → in_time UP.time history → Forall percentages history →
     Forall (plot_area w h N[10]%num) (vertices (drawResources ft dpr N[w]%num N[h]%num history label)))
  ∧ (∀ values color, 0 ≤ w ≤ 16384 → 4 ≤ h ≤ 16384 → Z.of_nat (length values) < 2 ^ 32 →
     Forall (λ v, within N[(- SPARK_MAX)%Z]%num v N[SPARK_MAX]%num) values →
     Forall (spark_area w h) (vertices (Sparkline dpr N[w]%num N[h]%num values color))).
Proof.
  split; [|split].
  - intros. by apply latency_vertices.
  - intros. by apply usage_vertices.
  - intros values color Hw Hh Hn Hv. unfold Sparkline. case_if; [constructor|]. apply Nat.ltb_ge in Hif.
    destruct (setupCanvas dpr N[w]%num N[h]%num) as [setup|] eqn:Hs; [|constructor].
    rewrite !vertices_app, (setup_vertices _ _ _ _ Hs), vertices_polyline, !Forall_app.
    split; [done|]. split; [done|]. split; [apply spark_inside; (done || lia)|done].
Qed.

(** Two calm points inside, and a burst of jitter drawn 107 pixels above the frame. *)
Definition ex_point (t avg p jitter : Z) : LatencyPoint number :=
  LP.mkLP N[t]%num N[avg]%num N[p]%num N[p]%num N[p]%num N[jitter]%num.
Definition ex_burst : list (LatencyPoint number) :=
  [ex_point 1700000000000 80000 100000 90000; ex_point 1700000001000 80000 100000 90000].
Definition ex_drawn : list (number * number) :=
  vertices (drawLatency (λ _, "") (λ _, "") N[2]%num N[400]%num N[200]%num ex_burst true).
Definition ex_inside (xy : number * number) : bool := nleb GRID_TOP xy.2.
Lemma drawings_stay_inside_witness :
  Forall (λ xy, plot_area 400 200 GRID_TOP xy ∨ over_axis 400 200 ex_burst xy) ex_drawn
  ∧ length ex_drawn = 22%nat
  ∧ map (λ xy, nfloor xy.2) (List.filter (λ xy, negb (ex_inside xy)) ex_drawn) = [N[(-98)%Z]; N[(-98)%Z]]%num.
Proof.
  split; [|split; vm_compute; reflexivity].
  refine (proj1 (drawings_stay_inside (λ _, "") (λ _, "") N[2]%num 400 200) ex_burst true _ _ _).
  - done.
  - repeat constructor.
  - repeat (apply Forall_cons; split); [..|by apply Forall_nil]; (split;
      [repeat (apply Forall_cons; split); [..|by apply Forall_nil]| |]); split_and!; vm_compute; reflexivity.
Defined.
