(* ===== verification/DesignCharts.v ===== *)
(** * The prototype's chart components: the effects of [mt-chart.jsx]

    [LatencyChart] and [ResourceChart] own a canvas.  One effect draws when the
    props change; a second one, on the same dependencies, keeps a
    [ResizeObserver] whose callback draws with the props it closed over.  The
    component is a machine over its commits and the layout of the browser, for
    any drawing function; a drawing that has calls starts by setting the size of
    the canvas, which clears it, and a drawing without calls leaves what was
    there. *)

From S2P Require Export DesignCanvas.
From stdpp Require Import base list.

Module Ch.
Record ChartEl (T P : Type) := mkChart {
  size : T * T;                     (* clientWidth, clientHeight *)
  props : option P;                 (* of the last commit; none: not mounted *)
  observed : option P;              (* what the callback of the observer closes over *)
  pending : bool;                   (* the layout changed, the observer has not fired *)
  picture : list (CanvasOp T);      (* the calls since the canvas was last cleared *)
}.
Arguments mkChart {T P}. Arguments size {T P}. Arguments props {T P}. Arguments observed {T P}.
Arguments pending {T P}. Arguments picture {T P}.
End Ch.
Abbreviation ChartEl := Ch.ChartEl.

(** [KCommit None]: rendered again, the dependencies are the same. *)
Inductive ChartEvent (T P : Type) :=
  | KMount (p : P) (size : T * T) | KCommit (p : option P) | KLayout (size : T * T) | KNotify | KUnmount.
Arguments KMount {T P}. Arguments KCommit {T P}. Arguments KLayout {T P}. Arguments KNotify {T P}.
Arguments KUnmount {T P}.

Section Component.
Context {T P : Type}.
Variable draw : T → T → P → list (CanvasOp T).

Definition chart_init (size : T * T) : ChartEl T P := Ch.mkChart size None None false [].

Definition paint (p : P) (c : ChartEl T P) : ChartEl T P :=
  let ops := draw (Ch.size c).1 (Ch.size c).2 p in
  Ch.mkChart (Ch.size c) (Ch.props c) (Ch.observed c) false
    (match ops with [] => Ch.picture c | _ => ops end).
(** The second effect: a new observer, after the cleanup of the old one. *)
Definition observe (p : P) (c : ChartEl T P) : ChartEl T P :=
  Ch.mkChart (Ch.size c) (Ch.props c) (Some p) (Ch.pending c) (Ch.picture c).
Definition set_chart_props (p : option P) (c : ChartEl T P) : ChartEl T P :=
  Ch.mkChart (Ch.size c) p (Ch.observed c) (Ch.pending c) (Ch.picture c).

Definition chart_step (e : ChartEvent T P) (c : ChartEl T P) : option (ChartEl T P) :=
  match e, Ch.props c with
  | KMount p size, None =>
      Some (observe p (paint p (Ch.mkChart size (Some p) None false [])))
  | KCommit (Some p), Some _ => Some (observe p (paint p (set_chart_props (Some p) c)))
  | KCommit None, Some _ => Some c
  | KLayout size, Some _ =>
      Some (Ch.mkChart size (Ch.props c) (Ch.observed c) true (Ch.picture c))
  | KNotify, Some _ =>
      Some (match Ch.observed c with Some p => paint p c | None => c end)
  | KUnmount, Some _ => Some (chart_init (Ch.size c))
  | _, _ => None
  end.

Definition chart_run (es : list (ChartEvent T P)) (c : ChartEl T P) : option (ChartEl T P) :=
  foldl (λ oc e, oc ≫= chart_step e) (Some c) es.

(** The observer draws what the component shows, and the picture is the drawing
    of the present props at the present size, unless the browser has yet to
    report a change of the layout or there is nothing to draw. *)
Record chart_ok (c : ChartEl T P) : Prop := {
  ok_observed : Ch.observed c = Ch.props c;
  ok_picture p : Ch.props c = Some p → Ch.pending c = false →
    draw (Ch.size c).1 (Ch.size c).2 p ≠ [] → Ch.picture c = draw (Ch.size c).1 (Ch.size c).2 p;
}.

Lemma paint_ok p c : Ch.props c = Some p → chart_ok (observe p (paint p c)).
Proof.
  intros Hp. split; simpl; [done|]. intros q. rewrite Hp. intros [= <-] _. by destruct (draw _ _ p).
Qed.
Lemma paint_observed p c : Ch.observed c = Some p → observe p (paint p c) = paint p c.
Proof. intros Ho. unfold observe, paint. simpl. by rewrite Ho. Qed.

Lemma chart_step_ok e c c' : chart_ok c → chart_step e c = Some c' → chart_ok c'.
Proof.
  intros Hc. unfold chart_step.
  destruct e as [p size|[p|]|size| |], (Ch.props c) as [q|] eqn:Hq; try done; intros [= <-].
  - by apply paint_ok.
  - by apply paint_ok.
  - done.
  - split; simpl; [rewrite <-Hq; apply Hc|done].
  - pose proof (ok_observed _ Hc) as Ho. rewrite Hq in Ho. rewrite Ho, <-(paint_observed q c Ho).
    by apply paint_ok.
  - by split.
Qed.

Lemma chart_run_ok es c c' : chart_ok c → chart_run es c = Some c' → chart_ok c'.
Proof.
  unfold chart_run. revert c. induction es as [|e es IH]; intros c Hc; simpl; [by intros [= <-]|].
  destruct (chart_step e c) as [c1|] eqn:E; [apply IH; by eapply chart_step_ok|].
  intros H. exfalso. clear -H. induction es; simpl in H; auto. discriminate.
Qed.
End Component.

(** ** The two charts *)
Section Charts.
Context {T : Type} `{Num T}.
Variables (fmtYLabel fmtTime : T → string) (devicePixelRatio : T).

Definition d_LatencyChart :
    ChartEvent T (list (LatencyPoint T) * bool) → ChartEl T (list (LatencyPoint T) * bool) →
    option (ChartEl T (list (LatencyPoint T) * bool)) :=
  chart_step (λ W H p, drawLatency fmtYLabel fmtTime devicePixelRatio W H p.1 p.2).
Definition d_ResourceChart :
    ChartEvent T (list (UsagePoint T) * option string) → ChartEl T (list (UsagePoint T) * option string) →
    option (ChartEl T (list (UsagePoint T) * option string)) :=
  chart_step (λ W H p, drawResources fmtTime devicePixelRatio W H p.1 p.2).
End Charts.

Lemma setup_some {T} `{Num T} dpr (w h : T) :
  nleb w N[0]%num = false → nleb h N[0]%num = false → is_Some (setupCanvas dpr w h).
Proof. intros HW HH. unfold setupCanvas. rewrite HW, HH. by eexists. Qed.

(** C38: the chart of the prototype follows its props and its size.  In every
    reachable state of a mounted latency chart the observer draws the props of the
    last commit; when the browser has reported every change of the layout, the
    canvas shows the drawing of these props at this size, provided there are two
    points and the canvas has a size.  With fewer points nothing is drawn: what
    the canvas showed before stays, be it of another connection. *)
Theorem chart_follows_props {T : Type} `{Num T} yl ft (dpr : T) (es : list _) (c0 c : ChartEl T _)
    (history : list (LatencyPoint T)) (isSpike : bool) :
  let draw w h := drawLatency yl ft dpr w h history isSpike in
  Ch.props c0 = None → Ch.observed c0 = None →
  foldl (λ oc e, oc ≫= d_LatencyChart yl ft dpr e) (Some c0) es = Some c →
  Ch.props c = Some (history, isSpike) →
  Ch.observed c = Some (history, isSpike)
  ∧ (Ch.pending c = false → 2 ≤ length history →
     nleb (Ch.size c).1 N[0]%num = false → nleb (Ch.size c).2 N[0]%num = false →
     Ch.picture c = draw (Ch.size c).1 (Ch.size c).2)
  ∧ (∀ h b, length h < 2 → ∃ c', d_LatencyChart yl ft dpr (KCommit (Some (h, b))) c = Some c'
       ∧ Ch.picture c' = Ch.picture c).
Proof.
  intros draw Hp0 Ho0 Hrun Hp.
  assert (chart_ok (λ W H p, drawLatency yl ft dpr W H p.1 p.2) c0) as H0.
  { split; [by rewrite Hp0, Ho0|]. by rewrite Hp0. }
  pose proof (chart_run_ok _ es c0 c H0 Hrun) as [Ho Hpic]. split_and!; [congruence| |].
  - intros Hpend Hlen HW HH. apply (Hpic _ Hp Hpend). cbn [fst snd]. unfold drawLatency.
    rewrite (proj2 (Nat.ltb_ge _ _)) by done.
    destruct (setup_some dpr _ _ HW HH) as [setup ->]. rewrite drop_history.
    destruct (drop (length history - 180) history) as [|p ps] eqn:E.
    + apply (f_equal length) in E. rewrite length_drop in E. simpl in E. lia.
    + by destruct setup.
  - intros h b Hh. unfold d_LatencyChart, chart_step. rewrite Hp. eexists. split; [done|].
    unfold observe, paint. cbn [Ch.picture Ch.size set_chart_props fst snd]. unfold drawLatency.
    by rewrite (proj2 (Nat.ltb_lt _ _)).
Qed.

Definition ex_lp (t v : Q) : LatencyPoint Q := (LP.mkLP t v v (v + 10) (v + 20) 8)%Q.
Definition ex_chart_points (v : Q) : list (LatencyPoint Q) := [ex_lp 0 v; ex_lp 60 (v + 800)].
Definition ex_chart_life : list (ChartEvent Q (list (LatencyPoint Q) * bool)) :=
  [KMount (ex_chart_points 100, false) (400, 200)%Q; KLayout (300, 150)%Q; KNotify;
   KCommit (Some (ex_chart_points 50, true)); KCommit None].
Definition ex_chart : ChartEl Q (list (LatencyPoint Q) * bool) :=
  default (chart_init (0, 0)%Q)
    (foldl (λ oc e, oc ≫= d_LatencyChart (λ _, "") (λ _, "") 2%Q e) (Some (chart_init (0, 0)%Q)) ex_chart_life).
Lemma chart_follows_props_witness :
  Ch.size ex_chart = (300, 150)%Q
  ∧ Ch.observed ex_chart = Some (ex_chart_points 50, true)
  ∧ Ch.picture ex_chart
    = drawLatency (λ _, "") (λ _, "") 2%Q (Ch.size ex_chart).1 (Ch.size ex_chart).2 (ex_chart_points 50) true.
Proof.
  destruct (chart_follows_props (λ _, "") (λ _, "") 2%Q ex_chart_life (chart_init (0, 0)%Q) ex_chart
    (ex_chart_points 50) true) as (Ho & Hpic & _); try (vm_compute; reflexivity).
  split; [vm_compute; reflexivity|]. split; [exact Ho|].
  apply Hpic; [vm_compute; reflexivity|simpl; lia|vm_compute; reflexivity|vm_compute; reflexivity].
Defined.
