(* ===== verification/DesignViews.v ===== *)
(** * The prototype's views: [mt-views.jsx], [mt-topology.jsx]

    The list, the matrix, the tabs and the map of the prototype over the
    snapshots its engine publishes, and their clicks. *)

From S2P Require Export Design DesignCanvas.
From S2P Require Import FlowGraph Topo.
From stdpp Require Import base list.

Local Open Scope num_scope.

Definition p50 (s : DesignSnap) : number := Perc.p50_us (DSnap.perc s).
Definition p95 (s : DesignSnap) : number := Perc.p95_us (DSnap.perc s).
Definition p99 (s : DesignSnap) : number := Perc.p99_us (DSnap.perc s).

(** ** The list *)
Module Dl.
Record DListState := mkDList { sortKey : DSortKey; asc : bool; filter : DFilter }.
End Dl.
Abbreviation DListState := Dl.DListState.
#[export] Instance DFilter_eq_dec : EqDecision DFilter.
Proof. solve_decision. Defined.
#[export] Instance DSortKey_eq_dec : EqDecision DSortKey.
Proof. solve_decision. Defined.

Inductive DListEvent := DSort (k : DSortKey) | DFilterTo (f : DFilter) | DRow (key : string).

Definition dlist_init : DListState := Dl.mkDList DKP99 false DAll.
Definition setSort (key : DSortKey) (s : DListState) : DListState :=
  if bool_decide (key = Dl.sortKey s) then Dl.mkDList (Dl.sortKey s) (negb (Dl.asc s)) (Dl.filter s)
  else Dl.mkDList key false (Dl.filter s).
(** The new state, and the key passed to [onSelect]. *)
Definition dlist_step (e : DListEvent) (s : DListState) : DListState * option string :=
  match e with
  | DSort k => (setSort k s, None)
  | DFilterTo f => (Dl.mkDList (Dl.sortKey s) (Dl.asc s) f, None)
  | DRow key => (s, Some key)
  end.

Section DesignList.
Variable to_number : string → number.

Definition headerCell (s : DListState) (key : DSortKey) (name : string) : html DListEvent :=
  el "th" [] (on_click (DSort key))
    [el "span" [] no_click
       (text name
        :: when (bool_decide (Dl.sortKey s = key)) (span [("color", "#2563eb")] (if Dl.asc s then "▲" else "▼")))].
Definition static_header (name : string) : html DListEvent := el "th" [] no_click [text name].

Definition filter_chips (snaps : list DesignSnap) : list (DFilter * string) :=
  [(DAll, "All · " +:+ pretty (length snaps));
   (DSpike, "🔴 Spiking · " +:+ pretty (d_chip_count DSpike snaps));
   (DStressed, "⚡ Stressed · " +:+ pretty (d_chip_count DStressed snaps))].
Definition filter_chip (s : DListState) (c : DFilter * string) : html DListEvent :=
  let on := bool_decide (Dl.filter s = c.1) in
  el "button" [("border", if on then "1px solid #2563eb" else "1px solid #e2e8f0");
               ("background", if on then "#eff6ff" else "#ffffff"); ("color", if on then "#2563eb" else "#475569")]
    (on_click (DFilterTo c.1)) [text c.2].

Definition MiniSpark {E} (values : list number) (color : string) (width height : number) : html E :=
  match MiniSpark_points width height values with
  | None => div_ []
  | Some points => el "svg" [] no_click [el "polyline" [("points", points); ("stroke", color)] no_click []]
  end.

(** [m.val > 70 || (m.lbl === 'IO' && m.val > 30)] *)
Definition hot (m : string * number * string) : bool :=
  (m.1.2 >? N[70]) || bool_decide (m.1.1 = "IO") && (m.1.2 >? N[30]).
Definition resource_bar {E} (m : string * number * string) : html E :=
  let '(lbl, val, c) := m in
  el "div" [("title", lbl +:+ " " +:+ toFixed val 0 +:+ "%")] no_click
    [span [] lbl;
     div_ [el "div" [("width", number_toString (nmin N[100] val) +:+ "%");
                     ("background", if hot m then c else "#cbd5e1")] no_click []]].

Definition d_row_view (selectedKey : option string) (snap : DesignSnap) : html DListEvent :=
  let status := vLatencyStatus (p99 snap) in
  let color := V_STATUS_COLOR status in
  let sel := bool_decide (selectedKey = Some (DSnap.key snap)) in
  let sparkVals := map (λ h, Perc.p99_us h.2) (js_slice (DSnap.history snap) (-30) None) in
  let cell attrs s := el "td" [] no_click [span attrs s] in
  el "tr" [("key", DSnap.key snap); ("background", if sel then "#eff6ff" else "transparent");
           ("borderLeft", if sel then "3px solid #2563eb" else "3px solid transparent")]
    (on_click (DRow (DSnap.key snap)))
    [el "td" [] no_click
       [div_ (when (DSnap.is_spike snap) (span [("background", "#dc2626")] "")
              ++ [span [] (DSnap.src_service snap); el "svg" [] no_click [el "path" [] no_click []];
                  span [] (DSnap.dst_service snap)]
              ++ when (bool_decide (DSnap.dst_type snap = ExternalNode)) (span [] "EXT"))];
     cell [] (vFmtUs (p50 snap)); cell [] (vFmtUs (p95 snap)); cell [("color", color)] (vFmtUs (p99 snap));
     el "td" [] no_click [div_ [MiniSpark sparkVals color N[70] N[20]]];
     cell [("color", if (10 <? DSnap.retransmit_count snap)%Z then "#ea580c" else "#94a3b8")]
       (pretty (DSnap.retransmit_count snap));
     el "td" [] no_click
       [div_ (map resource_bar [("CPU", DSnap.dst_cpu_pct snap, "#dc2626"); ("IO", DSnap.dst_io_wait_pct snap, "#7c3aed");
                                ("MEM", DSnap.dst_mem_pressure_pct snap, "#ea580c")])];
     el "td" [] no_click
       [match DSnap.is_spike snap, DSnap.cause_kind snap with
        | true, Some c =>
            let '(label, color, icon) := V_CAUSE_META c in
            el "span" [("background", color +:+ "14"); ("border", "1px solid " +:+ color +:+ "40"); ("color", color)]
              no_click [span [] icon; text label]
        | _, _ => span [("background", V_STATUS_BG status); ("color", color)] (status_text status)
        end]].

Definition DesignListView (snapshots : jsobj DesignSnap) (selectedKey : option string) (s : DListState)
    : html DListEvent :=
  let snaps := obj_values snapshots in
  let rows := d_rows to_number (Dl.filter s) (Dl.sortKey s) (Dl.asc s) snaps in
  div_
    [div_ (map (filter_chip s) (filter_chips snaps) ++ [span [] "click column header to sort"]);
     div_ [el "table" [] no_click
       [el "thead" [] no_click
          [el "tr" [] no_click
             [headerCell s DKSrc "Connection"; headerCell s DKP50 "P50"; headerCell s DKP95 "P95";
              headerCell s DKP99 "P99"; static_header "Trend"; headerCell s DKRetrans "Retrans";
              static_header "Dst Resources"; static_header "Status"]];
        el "tbody" [] no_click
          (when (length rows =? 0)%nat
             (el "tr" [] no_click [el "td" [] no_click [text "No connections match this filter"]])
           ++ map (d_row_view selectedKey) rows)]]].
End DesignList.

(** ** The matrix *)
Definition d_typed (snaps : list DesignSnap) : list string * list string :=
  foldl (λ st s, add_typed (add_typed st (DSnap.src_service s) (DSnap.src_type s))
                           (DSnap.dst_service s) (DSnap.dst_type s)) ([], []) snaps.
Definition d_axis (snaps : list DesignSnap) : list string :=
  js_sort string_gt ((d_typed snaps).1 ++ (d_typed snaps).2).
Definition pair_key (src dst : string) : string := src +:+ "|" +:+ dst.
Definition connByPair (snaps : list DesignSnap) : jsobj DesignSnap :=
  foldl (λ m s, obj_set m (pair_key (DSnap.src_service s) (DSnap.dst_service s)) s) [] snaps.

Definition d_matrix_cell (m : jsobj DesignSnap) (selectedKey : option string) (src dst : string) : html string :=
  match obj_get m (pair_key src dst) with
  | None => el "div" [("key", dst); ("background", "#f8fafc")] no_click []
  | Some snap =>
      let status := vLatencyStatus (p99 snap) in
      let sel := bool_decide (selectedKey = Some (DSnap.key snap)) in
      let spike := DSnap.is_spike snap in
      el "div"
        [("key", dst);
         ("title", src +:+ " → " +:+ dst +:+ String (Ascii.ascii_of_nat 10) "P99 " +:+ vFmtUs (p99 snap) +:+ " · "
                   +:+ if spike then "SPIKE" else status_text status);
         ("background", V_STATUS_COLOR status);
         ("border", if sel then "2px solid #0f172a" else if spike then "2px solid #dc2626" else "1px solid transparent");
         ("animation", if spike then "matrixPulse 1.2s infinite" else "none");
         ("boxShadow", if sel then "0 0 0 2px #2563eb55" else "none")]
        (on_click (DSnap.key snap)) (when spike (div_ []))
  end.
Definition d_label (services : ServiceMap) (plain name : string) : html string :=
  let stressed := d_label_stressed services name in
  el "div" [("color", if stressed then "#dc2626" else plain); ("fontWeight", if stressed then "600" else "500")]
    no_click [text name].
Definition DesignMatrixView (snapshots : jsobj DesignSnap) (services : ServiceMap) (selectedKey : option string)
    : html string :=
  let snaps := obj_values snapshots in
  let axis := d_axis snaps in
  div_
    [div_ [span [] "Adjacency matrix — row=source, column=destination, color=P99";
           el "span" [] no_click
             (map (λ '(s, l), el "span" [] no_click [span [("background", V_STATUS_COLOR s)] ""; span [] l])
                [(Ok, "<5ms"); (Warn, "5–20"); (High, "20–100ms"); (Crit, ">100ms")])];
     div_ [div_
       (div_ (div_ [] :: map (λ dst, div_ [d_label services "#475569" dst]) axis)
        :: map (λ src, div_ (d_label services "#0f172a" src
                             :: map (d_matrix_cell (connByPair snaps) selectedKey src) axis)) axis)]].

(** ** The tabs *)
Inductive DViewMode := DGraph | DList | DMatrix.
#[export] Instance DViewMode_eq_dec : EqDecision DViewMode.
Proof. solve_decision. Defined.
Definition DesignViewSwitcher (value : DViewMode) : html DViewMode :=
  div_ (map (λ '(v, name),
    let on := bool_decide (value = v) in
    el "button" [("background", if on then "#ffffff" else "transparent"); ("color", if on then "#0f172a" else "#64748b");
                 ("boxShadow", if on then "0 1px 2px rgba(15,23,42,0.08)" else "none")]
      (on_click v) [el "svg" [] no_click []; text name])
    [(DGraph, "Graph"); (DList, "List"); (DMatrix, "Matrix")]).

(** ** The map *)

Section Place.
Context {T : Type} `{Num T}.
(** The padding adapts to the size; a service without a place is centred. *)
Definition PX (w : T) : T := nmax N[58] (nmin N[92] (w * nlit 8 100)).
Definition PY (h : T) : T := nmax N[36] (nmin N[48] (h * nlit 8 100)).
Definition d_xy (w h : T) (svc : string) : Point T :=
  let p := obj_get d_NODE_POS svc ?? Pos.mkPoint (nlit 5 10) (nlit 5 10) in
  Pos.mkPoint (PX w + Pos.x p * (w - PX w * N[2])) (PY h + Pos.y p * (h - PY h * N[2])).

(** The control point of the curve, 26 beside the middle, and the label on it. *)
Definition d_control (sqrt : T → T) (src dst : Point T) : Point T :=
  let mx := (Pos.x src + Pos.x dst) / N[2] in
  let my := (Pos.y src + Pos.y dst) / N[2] in
  let dx := Pos.x dst - Pos.x src in
  let dy := Pos.y dst - Pos.y src in
  let len := or_one (sqrt (dx * dx + dy * dy)) in
  Pos.mkPoint (mx - (dy / len) * N[26]) (my + (dx / len) * N[26]).
Definition d_label_pos (src c dst : Point T) : Point T :=
  Pos.mkPoint (nlit 25 100 * Pos.x src + nlit 5 10 * Pos.x c + nlit 25 100 * Pos.x dst)
              (nlit 25 100 * Pos.y src + nlit 5 10 * Pos.y c + nlit 25 100 * Pos.y dst).
End Place.

(** The size of the map: a measurement of zero is ignored. *)
Definition dims_step (size dims : number * number) : number * number :=
  if (size.1 >? N[0]) && (size.2 >? N[0]) then size else dims.

Definition node_names (snaps : list DesignSnap) : list string :=
  foldl (λ acc s, set_add (set_add acc (DSnap.src_service s)) (DSnap.dst_service s)) [] snaps.
(** [nodeSpike[svc]] and [nodeSelected[svc]] *)
Definition node_touched (p : DesignSnap → bool) (snaps : list DesignSnap) (svc : string) : bool :=
  existsb (λ s, p s && (bool_decide (DSnap.src_service s = svc) || bool_decide (DSnap.dst_service s = svc))) snaps.

Definition service_bar (x nw y : number) (i : Z) (m : string * number * string) : html (option string) :=
  let '(lbl, val, color) := m in
  let bx := x - nw / N[2] + N[10] + N[i] * N[46] in
  let by_ := y + N[4] in
  let filled := nmax N[0] (nmin N[1] (val / N[100])) * N[36] in
  let hot := val >? N[70] in
  el "g" [("key", lbl)] no_click
    [el "text" [("x", number_toString bx); ("y", number_toString (by_ + N[2]))] no_click [text lbl];
     el "rect" [("x", number_toString (bx + N[18])); ("width", "36")] no_click [];
     el "rect" [("x", number_toString (bx + N[18])); ("width", number_toString filled);
                ("fill", if hot then color else "#94a3b8"); ("opacity", if hot then "1" else "0.55")] no_click []].

(** [pointerEvents: 'none']: a node is never the target of a click. *)
Definition ServiceNode (x y : number) (svcName : string) (svc : option ServiceSnapshot)
    (isInternal isSpike isSel : bool) : html (option string) :=
  let nw := if isInternal then N[156] else N[112] in
  let nh := if isInternal then N[56] else N[36] in
  let stressColor := svc ≫= (λ s, stress_color (Svc.stress_kind s)) in
  let halo (d : Z) color :=
    el "rect" [("x", number_toString (x - nw / N[2] - N[d])); ("y", number_toString (y - nh / N[2] - N[d]));
               ("width", number_toString (nw + N[2 * d])); ("height", number_toString (nh + N[2 * d])); ("stroke", color)]
      no_click [el "animate" [] no_click []] in
  let borderColor := if isSel then "#2563eb" else match stressColor with
                     | Some c => c | None => if isSpike then "#dc2626" else "#cbd5e1" end in
  el "g" [("pointerEvents", "none")] no_click
    (when_some stressColor (halo 4%Z)
     ++ when (isSpike && bool_decide (stressColor = None)) (halo 3%Z "#dc2626")
     ++ [el "rect" [("x", number_toString (x - nw / N[2])); ("y", number_toString (y - nh / N[2]));
                    ("width", number_toString nw); ("height", number_toString nh);
                    ("fill", if isInternal then "#ffffff" else "#f8fafc"); ("stroke", borderColor);
                    ("strokeWidth", if isSel then "2" else "1"); ("strokeDasharray", if isInternal then "none" else "5,3")]
           no_click [];
         el "text" [("x", number_toString x); ("y", number_toString (if isInternal then y - N[10] else y + N[4]));
                    ("fill", if isInternal then "#0f172a" else "#64748b")] no_click [text svcName]]
     ++ match svc with
        | Some s => when isInternal
            (el "g" [] no_click (imap (λ i m, service_bar x nw y (Z.of_nat i) m)
               [("CPU", Svc.cpu_pct s, "#dc2626"); ("IO", Svc.io_wait_pct s, "#7c3aed");
                ("MEM", Svc.mem_pressure_pct s, "#ea580c")]))
        | None => []
        end).

Definition d_edge (w h : number) (selectedKey : option string) (snap : DesignSnap) : html (option string) :=
  let src := d_xy w h (DSnap.src_service snap) in
  let dst := d_xy w h (DSnap.dst_service snap) in
  let key := DSnap.key snap in
  let status := d_latencyStatus (p99 snap) in
  let color := d_STATUS_COLOR status in
  let sel := bool_decide (selectedKey = Some key) in
  let c := d_control Math_sqrt src dst in
  let xy (p : Point number) := toFixed (Pos.x p) 1 +:+ "," +:+ toFixed (Pos.y p) 1 in
  let d := "M" +:+ xy src +:+ " Q" +:+ xy c +:+ " " +:+ xy dst in
  let l := d_label_pos src c dst in
  let arrow := ("markerEnd", "url(#arr-" +:+ status_text status +:+ ")") in
  el "g" [("key", key)] (on_click_stop (Some key))
    (el "path" [("d", d); ("stroke", "transparent")] no_click []
     :: when sel (el "path" [("d", d); ("stroke", color); ("opacity", "0.18")] no_click [])
     ++ [if DSnap.is_spike snap then
           el "path" [("d", d); ("stroke", color); ("strokeWidth", if sel then "2.5" else "2"); ("strokeDasharray", "7,4"); arrow]
             no_click [el "animate" [] no_click []]
         else
           el "path" [("d", d); ("stroke", color); ("strokeWidth", if sel then "2.4" else "1.6"); arrow;
                      ("opacity", if sel then "1" else "0.75")] no_click [];
         el "g" [] no_click
           [el "rect" [("x", number_toString (Pos.x l - N[26])); ("y", number_toString (Pos.y l - N[19]));
                       ("stroke", color); ("opacity", if sel then "1" else "0.92")] no_click [];
            el "text" [("x", number_toString (Pos.x l)); ("y", number_toString (Pos.y l - N[8])); ("fill", color);
                       ("fontWeight", if sel then "600" else "500")] no_click [text (map_fmtUs (p50 snap))]]]).

(** The [svg] of the map; a click passes a key or [null] to [onSelect]. *)
Definition d_map_svg (w h : number) (snapshots : jsobj DesignSnap) (services : ServiceMap)
    (selectedKey : option string) : html (option string) :=
  let edges := obj_values snapshots in
  el "svg" [("width", number_toString w); ("height", number_toString h)] (on_click None)
    ([el "defs" [] no_click
        (map (λ s, el "marker" [("id", "arr-" +:+ status_text s)] no_click
                     [el "path" [("fill", d_STATUS_COLOR s)] no_click []]) [Ok; Warn; High; Crit]);
      el "rect" [("width", number_toString w); ("height", number_toString h); ("fill", "url(#dotgrid)")] no_click []]
     ++ map (d_edge w h selectedKey) edges
     ++ map (λ svc,
          let p := d_xy w h svc in
          el "g" [("key", svc)] no_click
            [ServiceNode (Pos.x p) (Pos.y p) svc (obj_get services svc)
               (bool_decide (svc ∈ d_INTERNAL_SERVICES))
               (node_touched DSnap.is_spike edges svc)
               (node_touched (λ s, bool_decide (selectedKey = Some (DSnap.key s))) edges svc)])
          (node_names edges)).

(** The legend under the map. *)
Definition d_Legend : html (option string) :=
  div_ (map (λ '(s, label), div_ [el "div" [("background", d_STATUS_COLOR s)] no_click []; span [] label])
          [(Ok, "<5ms"); (Warn, "5–20ms"); (High, "20–100ms"); (Crit, ">100ms")]
        ++ [div_ []; div_ [div_ []; span [] "external"]]).
Definition DesignTopoGraph (w h : number) (snapshots : jsobj DesignSnap) (services : ServiceMap)
    (selectedKey : option string) : html (option string) :=
  div_ [d_map_svg w h snapshots services selectedKey; d_Legend].
