(* ===== verification/DesignApp.v ===== *)
(** * The prototype's panels and page: [mt-panels.jsx], [mt-app.jsx]

    The page ticks the engine eighty times, then once per timer, and hands the
    last result to the panels and to the views of [DesignViews].  Its state
    machine reads the random numbers and the clock as the engine does; the
    messages it posts to its parent window are an output. *)

From S2P Require Export DesignViews.
From S2P Require Import Metrics.
From stdpp Require Import base list.

Local Open Scope num_scope.

(** ** Panels *)
Definition d_StatCard {E} (label value color : string) (highlight : bool) (sub : option string) : html E :=
  el "div" [("borderTop", if highlight then "2px solid " +:+ color else "1px solid #e2e8f0");
            ("boxShadow", if highlight then "0 1px 3px " +:+ color +:+ "22" else "0 1px 2px rgba(15,23,42,0.04)")] no_click
    (el "div" [] no_click [text label] :: el "div" [("color", color)] no_click [text value]
     :: when_some (truthy sub) (λ s, el "div" [] no_click [text s])).

Definition d_spikes (snaps : list DesignSnap) : nat := length (List.filter DSnap.is_spike snaps).
Definition d_retrans (snaps : list DesignSnap) : Z := foldl (λ s x, s + DSnap.retransmit_count x)%Z 0%Z snaps.
(** [avg(f)]: the list is not empty there. *)
Definition d_avg (f : DesignSnap → number) (snaps : list DesignSnap) : number :=
  nsum (map f snaps) / N[Z.of_nat (length snaps)].
Definition DesignMetrics {E} (snapshots : jsobj DesignSnap) (services : ServiceMap) : list (html E) :=
  let snaps := obj_values snapshots in
  if (length snaps =? 0)%nat then []
  else
    let gp99 := d_avg p99 snaps in
    let spikes := d_spikes snaps in
    let retrans := d_retrans snaps in
    let svcArr := obj_values services in
    let stressed := stressedCount svcArr in
    let alarm (n : nat) color := if (0 <? n)%nat then color else "#94a3b8" in
    [div_
      [d_StatCard "Global P95" (d_fmtUs (d_avg p95 snaps)) "#d97706" false None;
       d_StatCard "Global P99" (d_fmtUs gp99) (d_p99Color gp99) (gp99 >? N[20000]) None;
       d_StatCard "Active Spikes" (pretty spikes) (alarm spikes "#dc2626") (0 <? spikes)%nat
         (Some (if (0 <? spikes)%nat then "analyzing causes…" else "all normal"));
       d_StatCard "Stressed Svcs" (pretty stressed) (alarm stressed "#ea580c") (0 <? stressed)%nat
         (Some ("CPU:" +:+ pretty (hotCount Svc.cpu_pct N[70] svcArr) +:+ " IO:"
                +:+ pretty (hotCount Svc.io_wait_pct N[30] svcArr) +:+ " MEM:"
                +:+ pretty (hotCount Svc.mem_pressure_pct N[70] svcArr)));
       d_StatCard "Retransmits" (pretty retrans) (if (20 <? retrans)%Z then "#ea580c" else "#475569") false (Some "cumulative");
       d_StatCard "Connections" (pretty (length snaps)) "#2563eb" false
         (Some (pretty (length d_INTERNAL_SERVICES) +:+ " svcs"))]].

Definition CauseCandidate {E} (snap : DesignSnap) : list (html E) :=
  if DSnap.is_spike snap then
    let meta := d_CAUSE_META (DSnap.cause_kind snap ?? Network) in
    let mult := toFixed (p99 snap / (DSnap.spike_threshold_us snap / N[5])) 1 in
    let evidence := d_evidence snap in
    [el "div" [("background", "linear-gradient(135deg, " +:+ Meta.color meta +:+ "0d, " +:+ Meta.color meta +:+ "05)");
               ("border", "1px solid " +:+ Meta.color meta +:+ "40"); ("borderLeft", "3px solid " +:+ Meta.color meta)] no_click
      ([div_ [span [] (Meta.icon meta); span [] "Root cause candidate"; el "span" [] no_click [text mult; text "× baseline"]];
        el "div" [("color", Meta.color meta)] no_click [text (Meta.label meta)];
        el "div" [] no_click [text (Meta.desc meta)]]
       ++ when (0 <? length evidence)%nat
            (div_ (map (λ '(name, value, color),
               el "span" [("border", "1px solid " +:+ color +:+ "40"); ("color", color)] no_click
                 [text name; text ": "; span [] value]) evidence)))]
  else [].

Definition d_closes (snap : DesignSnap) : CloseStates :=
  Close.mkClose N[DSnap.fin snap] N[DSnap.rst snap] N[DSnap.timeout snap].
Definition d_closeTotal (snap : DesignSnap) : Z := (DSnap.fin snap + DSnap.rst snap + DSnap.timeout snap)%Z.

(** [onClose] is the only event of the panel. *)
Definition DesignPanel (LatencyChart : list (number * Percs) → bool → html unit)
    (ResourceChart : list ResourcePoint → html unit) (snap : option DesignSnap) (dstService : option ServiceSnapshot)
    : html unit :=
  match snap with
  | None =>
      div_ [el "svg" [] no_click [];
            div_ [div_ [text "연결을 선택하세요"];
                  div_ [text "토폴로지에서 엣지를 클릭하면 latency + 리소스 상관관계를 분석합니다"]]]
  | Some snap =>
      let rate := errorRate (d_closes snap) in
      let jitter := Perc.jitter_us (DSnap.perc snap) in
      let card l v c := div_ [div_ [text l]; el "div" [("color", c)] no_click [text v]] in
      let segments := [("fin", DSnap.fin snap, "#16a34a", "FIN"); ("rst", DSnap.rst snap, "#dc2626", "RST");
                       ("timeout", DSnap.timeout snap, "#ea580c", "TIMEOUT")] in
      let total := d_closeTotal snap in
      div_
        ([div_ [div_ [div_ [text "Connection"];
                      div_ [span [] (DSnap.src_service snap); el "svg" [] no_click []; span [] (DSnap.dst_service snap)]];
                el "button" [] (on_click tt) [text "✕"]]]
         ++ CauseCandidate snap
         ++ [div_ [card "AVG" (d_fmtUs (Perc.avg_us (DSnap.perc snap))) "#2563eb"; card "P50" (d_fmtUs (p50 snap)) "#16a34a";
                   card "P95" (d_fmtUs (p95 snap)) "#d97706"; card "P99" (d_fmtUs (p99 snap)) (d_p99Color (p99 snap))];
             div_ [card "Jitter" (d_fmtUs jitter)
                     (if jitter >? N[5000] then "#dc2626" else if jitter >? N[1000] then "#d97706" else "#475569");
                   card "Retransmits" (pretty (DSnap.retransmit_count snap))
                     (if (10 <? DSnap.retransmit_count snap)%Z then "#ea580c" else "#475569");
                   card "Error Rate" (toFixed rate 1 +:+ "%")
                     (if rate >? N[5] then "#dc2626" else if rate >? N[1] then "#d97706" else "#475569");
                   card "Samples" (if (999 <? DSnap.sample_count snap)%Z
                                   then toFixed (N[DSnap.sample_count snap] / N[1000]) 1 +:+ "k"
                                   else pretty (DSnap.sample_count snap)) "#475569"]]
         ++ when (0 <? total)%Z
              (div_ [div_ [text "Close states · "; text (pretty total); text " total"];
                     div_ (flat_map (λ '(k, v, c, _),
                       if (v =? 0)%Z then []
                       else [el "div" [("key", k); ("background", c);
                                       ("width", number_toString (N[v] / N[total] * N[100]) +:+ "%")] no_click []]) segments);
                     div_ (map (λ '(k, v, c, name),
                       el "span" [("key", k)] no_click
                         [span [("background", c)] ""; text name; text " "; span [] (pretty v)]) segments)])
         ++ [el "hr" [] no_click [];
             div_ [div_ [span [] "Latency"]; div_ [LatencyChart (DSnap.history snap) (DSnap.is_spike snap)]];
             div_ [div_ [el "span" [] no_click [text (DSnap.dst_service snap); text " · Resources"]];
                   div_ [ResourceChart ((Svc.history <$> dstService) ?? [])]]])
  end.

Section Log.
Variable local_offset : Z → Z.
Variable zone_suffix : Z → string.

(** The pill of the cause, when the event has one (the engine's always do). *)
Definition d_log_cause {E} (cause_kind : option CauseKind) : list (html E) :=
  match d_CAUSE_META <$> cause_kind with
  | Some cause =>
      [el "span" [("background", Meta.color cause +:+ "14"); ("border", "1px solid " +:+ Meta.color cause +:+ "40");
                  ("color", Meta.color cause)] no_click [span [] (Meta.icon cause); text (Meta.label cause)]]
  | None => []
  end.
Definition d_log_row {E} (now : number) (ev : SpikeEvent) : html E :=
  let isCrit := bool_decide (Spike.severity ev = Critical) in
  let color := if isCrit then "#dc2626" else "#d97706" in
  div_
    ([span [("background", color); ("boxShadow", "0 0 5px " +:+ color +:+ "88")] "";
     span [] (fmtTime local_offset zone_suffix (Spike.timestamp ev));
     el "span" [] no_click [text (Spike.src ev); text " "; span [] "→"; text " "; text (Spike.dst ev)]]
     ++ d_log_cause (Some (Spike.cause_kind ev))
     ++ [el "span" [("color", color)] no_click [text "P99 "; text (d_fmtUs (Spike.p99_us ev))];
     el "span" [("background", if isCrit then "#fee2e2" else "#fef3c7"); ("color", color)] no_click
       [text (toFixed (Spike.p99_us ev / Spike.baseline_us ev) 0); text "×"];
     span [] (d_timeAgo now (Spike.timestamp ev))]).
Definition DesignSpikeLog {E} (now : number) (events : list SpikeEvent) : html E :=
  match events with
  | [] => div_ [span [] "●"; text "스파이크 이벤트 없음 — 모든 연결 정상"]
  | _ => div_ (map (d_log_row now) events)
  end.

Definition DesignTopBar {E} (connected : bool) (spikeCount serviceCount stressedCount : nat) (now : number) : html E :=
  div_
    [div_ [el "svg" [] no_click []; span [] "MicroTrace"; span [] "v0.3"]; div_ []; span [] "Latency Root-Cause Profiler";
     div_ [el "div" [("background", if connected then "#16a34a" else "#dc2626")] no_click [];
           span [("color", if connected then "#16a34a" else "#dc2626")]
             (if connected then "collector connected" else "reconnecting…")];
     div_ (badge [] [pretty serviceCount; " services"]
           :: when (0 <? stressedCount)%nat (badge [] ["⚡ "; pretty stressedCount; " stressed"])
           ++ when (0 <? spikeCount)%nat
                (badge [] ["🔴 "; pretty spikeCount; " spike"; if (1 <? spikeCount)%nat then "s" else ""]));
     div_ [span [] "LIVE"; span [] (clock_text local_offset zone_suffix now)]].
End Log.

(** ** The page *)
Module Pg.
Record Tweaks := mkTweaks {
  showExternal : bool; logPanelHeight : Z; tickIntervalMs : Z; primaryAccent : string;
}.
Record Page := mkPage {
  snapshots : jsobj DesignSnap;
  services : ServiceMap;
  events : list SpikeEvent;
  selectedKey : option string;
  tweaksVisible : bool;
  tweaks : Tweaks;
  viewMode : DViewMode;
  dlist : DListState;                     (* of the mounted list *)
  dims : number * number;                 (* of the mounted map *)
  engine : Engine;
  timer : option Z;                       (* the delay of the pending timeout *)
  posted : list string;                   (* types of the messages to the parent *)
}.
End Pg.
Abbreviation Page := Pg.Page.
Abbreviation Tweaks := Pg.Tweaks.

Definition TWEAK_DEFAULTS : Tweaks := Pg.mkTweaks true 168 1000 "#2563eb".

Inductive TweakChange := TTickInterval (ms : Z) | TShowExternal (b : bool) | TLogHeight (px : Z).
Inductive PageEvent :=
  | PTimer
  | PSelect (key : option string)
  | PView (m : DViewMode)
  | PList (e : DListEvent)
  | PResize (size : number * number)
  | PTweak (c : TweakChange)
  | PCloseTweaks
  | PMessage (type : string).

Definition apply_tweak (c : TweakChange) (t : Tweaks) : Tweaks :=
  match c with
  | TTickInterval ms => Pg.mkTweaks (Pg.showExternal t) (Pg.logPanelHeight t) ms (Pg.primaryAccent t)
  | TShowExternal b => Pg.mkTweaks b (Pg.logPanelHeight t) (Pg.tickIntervalMs t) (Pg.primaryAccent t)
  | TLogHeight px => Pg.mkTweaks (Pg.showExternal t) px (Pg.tickIntervalMs t) (Pg.primaryAccent t)
  end.

(** The clicks and messages that touch no data; the updater of [tweaks] posts
    to the parent, [setTweaksVisible] is called with the message's meaning. *)
Definition page_ui (e : PageEvent) (p : Page) : Page :=
  let set key visible tweaks mode dlist dims posted :=
    Pg.mkPage (Pg.snapshots p) (Pg.services p) (Pg.events p) key visible tweaks mode dlist dims (Pg.engine p)
      (Pg.timer p) posted in
  let '(Pg.mkPage _ _ _ key visible tweaks mode dlist dims _ _ posted) := p in
  match e with
  | PTimer => p
  | PSelect k => set k visible tweaks mode dlist dims posted
  | PView m =>
      if bool_decide (m = mode) then p
      else set key visible tweaks m dlist_init (N[700], N[500]) posted       (* another view is mounted *)
  | PList e =>
      let '(dlist, selected) := dlist_step e dlist in
      set (match selected with Some k => Some k | None => key end) visible tweaks mode dlist dims posted
  | PResize size => set key visible tweaks mode dlist (dims_step size dims) posted
  | PTweak c => set key visible (apply_tweak c tweaks) mode dlist dims (posted ++ ["__edit_mode_set_keys"])
  | PCloseTweaks => set key false tweaks mode dlist dims (posted ++ ["__edit_mode_dismissed"])
  | PMessage type =>
      if bool_decide (type = "__activate_edit_mode") then set key true tweaks mode dlist dims posted
      else if bool_decide (type = "__deactivate_edit_mode") then set key false tweaks mode dlist dims posted
      else p
  end.

Definition show_result (re : En.TickResult * Engine) (timer : option Z) (p : Page) : Page :=
  Pg.mkPage (En.snapshots re.1) (En.services re.1) (En.allEvents re.1) (Pg.selectedKey p) (Pg.tweaksVisible p)
    (Pg.tweaks p) (Pg.viewMode p) (Pg.dlist p) (Pg.dims p) re.2 timer (Pg.posted p).

Section Page.
Variable rand : nat → number.
Variable now : nat → Z.

(** The engine is created when its script loads; the effects of the first
    render tick it eighty times, set the timer and announce the tweaks. *)
Definition page_mount : M Page :=
  e ← d_init rand;
  re ← d_ticks rand now 79 e;
  mret (show_result re (Some (Pg.tickIntervalMs TWEAK_DEFAULTS))
    (Pg.mkPage obj_empty obj_empty [] None false TWEAK_DEFAULTS DGraph dlist_init (N[700], N[500]) re.2 None
       ["__edit_mode_available"])).

(** [loop]: a tick, then the next timer, at the interval of the last commit. *)
Definition page_step (e : PageEvent) (p : Page) : M Page :=
  match e with
  | PTimer =>
      match Pg.timer p with
      | Some _ => re ← d_tick rand now (Pg.engine p); mret (show_result re (Some (Pg.tickIntervalMs (Pg.tweaks p))) p)
      | None => mret p
      end
  | _ => mret (page_ui e p)
  end.
Fixpoint page_steps (es : list PageEvent) (p : Page) : M Page :=
  match es with [] => mret p | e :: es => p ← page_step e p; page_steps es p end.
Definition page_run (es : list PageEvent) : option Page := fst <$> (p ← page_mount; page_steps es p) (mkWorld 0 0).
End Page.

(** [clearTimeout(timeoutId)] *)
Definition page_unmount (p : Page) : Page :=
  let '(Pg.mkPage s v e k b t m l d en _ o) := p in Pg.mkPage s v e k b t m l d en None o.

(** *** What the page derives from its state *)
Definition d_selectedSnap (p : Page) : option DesignSnap := truthy (Pg.selectedKey p) ≫= obj_get (Pg.snapshots p).
Definition dstSvc (p : Page) : option ServiceSnapshot :=
  d_selectedSnap p ≫= λ s, obj_get (Pg.services p) (DSnap.dst_service s).
Definition internal_pair (s : DesignSnap) : bool :=
  bool_decide (DSnap.src_service s ∈ d_INTERNAL_SERVICES) && bool_decide (DSnap.dst_service s ∈ d_INTERNAL_SERVICES).
(** [Object.fromEntries(Object.entries(snapshots).filter(...))] *)
Definition visibleSnapshots (p : Page) : jsobj DesignSnap :=
  if Pg.showExternal (Pg.tweaks p) then Pg.snapshots p
  else foldl (λ o ks, obj_set o ks.1 ks.2) obj_empty
         (List.filter (λ ks : string * DesignSnap, internal_pair ks.2) (obj_entries (Pg.snapshots p))).

(** The panel of the tweaks: two ranges and a checkbox, and a button to close. *)
Definition TweaksPanel (t : Tweaks) : html PageEvent :=
  div_
    [div_ [span [] "Tweaks"; el "button" [] (on_click PCloseTweaks) [text "✕"]];
     div_ [span [] "Tick interval";
           div_ [el "input" [("type", "range"); ("value", pretty (Pg.tickIntervalMs t))] no_click [];
                 el "span" [] no_click [text (pretty (Pg.tickIntervalMs t)); text "ms"]]];
     div_ [span [] "Show external";
           el "label" [] no_click
             [el "input" [("type", "checkbox"); ("checked", if Pg.showExternal t then "true" else "false")] no_click [];
              span [("color", if Pg.showExternal t then "#16a34a" else "#94a3b8")] (if Pg.showExternal t then "on" else "off")]];
     div_ [span [] "Log height";
           div_ [el "input" [("type", "range"); ("value", pretty (Pg.logPanelHeight t))] no_click [];
                 el "span" [] no_click [text (pretty (Pg.logPanelHeight t)); text "px"]]]].

Section PageView.
Variable LatencyChart : list (number * Percs) → bool → html unit.
Variable ResourceChart : list ResourcePoint → html unit.
Variable to_number : string → number.
Variable local_offset : Z → Z.
Variable zone_suffix : Z → string.

Definition page_middle (p : Page) : html PageEvent :=
  let visible := visibleSnapshots p in
  let key := Pg.selectedKey p in
  match Pg.viewMode p with
  | DGraph => html_map PSelect (DesignTopoGraph (Pg.dims p).1 (Pg.dims p).2 visible (Pg.services p) key)
  | DList => html_map PList (DesignListView to_number visible key (Pg.dlist p))
  | DMatrix => html_map (λ k, PSelect (Some k)) (DesignMatrixView visible (Pg.services p) key)
  end.

Definition d_SectionHeader {E} (label : string) (count : option string) (children : list (html E)) : html E :=
  div_ (span [] label :: when_some count (span []) ++ match children with [] => [] | _ => [div_ children] end).

Definition page_view (clock now : number) (p : Page) : html PageEvent :=
  let snap := d_selectedSnap p in
  div_
    ([DesignTopBar local_offset zone_suffix true (d_spikes (obj_values (Pg.snapshots p)))
        (length (obj_keys (Pg.services p))) (stressedCount (obj_values (Pg.services p))) clock]
     ++ DesignMetrics (Pg.snapshots p) (Pg.services p)
     ++ [div_
           [div_ [d_SectionHeader "Service Topology" (Some (pretty (length (obj_keys (visibleSnapshots p))) +:+ " edges"))
                    [html_map PView (DesignViewSwitcher (Pg.viewMode p))];
                  div_ [page_middle p]];
            div_ [d_SectionHeader "Detail · Root-cause Analysis" None
                    (when (from_option DSnap.is_spike false snap) (el "span" [] no_click [span [] ""; text "SPIKE DETECTED"]));
                  html_map (λ _, PSelect None) (DesignPanel LatencyChart ResourceChart snap (dstSvc p))]];
         el "div" [("height", pretty (Pg.logPanelHeight (Pg.tweaks p)))] no_click
           [d_SectionHeader "Spike Event Log" (Some (pretty (length (Pg.events p))))
              (match Pg.events p with
               | [] => []
               | ev :: _ => [el "span" [] no_click [text "latest: "; text (fmtTime local_offset zone_suffix (Spike.timestamp ev))]]
               end);
            div_ [DesignSpikeLog local_offset zone_suffix now (Pg.events p)]]]
     ++ when (Pg.tweaksVisible p) (TweaksPanel (Pg.tweaks p))).
End PageView.
