(* ===== verification/DesignAppFacts.v ===== *)
(** * Facts on the prototype's page and map

    The page shows what the dashboard's simulated source publishes after as many
    ticks; a click on the map selects the connection under it; every service of
    the map keeps the margins. *)

From S2P Require Import FlowGraph Chart Topo MockFacts.
From S2P Require Export DesignFacts DesignApp.
From stdpp Require Import base list.

(** ** The page *)
Section Page.
Variable rand : nat → number.
Variable now : nat → Z.

Definition is_timer (e : PageEvent) : bool := match e with PTimer => true | _ => false end.
(** The timers among the events. *)
Definition timers (es : list PageEvent) : nat := length (List.filter is_timer es).

(** The data of a page are the result and the engine of the last tick. *)
Definition shows (re : En.TickResult * Engine) (p : Page) : Prop :=
  Pg.snapshots p = En.snapshots re.1 ∧ Pg.services p = En.services re.1 ∧ Pg.events p = En.allEvents re.1
  ∧ Pg.engine p = re.2 ∧ is_Some (Pg.timer p).

Lemma shows_result re d p : shows re (show_result re (Some d) p).
Proof. by repeat split. Qed.
Lemma page_ui_shows re e p : shows re p → shows re (page_ui e p).
Proof.
  destruct p. unfold shows. cbn. intros H.
  destruct e; cbn; try case_bool_decide; try case_bool_decide; cbn; try exact H. by destruct (dlist_step _ _).
Qed.

Lemma d_ticks_0 e w : d_ticks rand now 0 e w = d_tick rand now e w.
Proof. cbn [d_ticks]. unfold mbind, M_bind. by destruct (d_tick rand now e w) as [[[r e'] w']|]. Qed.
Lemma d_ticks_S n e w :
  d_ticks rand now (S n) e w
  = match d_tick rand now e w with Some (re, w') => d_ticks rand now n re.2 w' | None => None end.
Proof.
  change (d_ticks rand now (S n) e) with ('(_, e) ← d_tick rand now e; d_ticks rand now n e).
  unfold mbind, M_bind. by destruct (d_tick rand now e w) as [[[r e'] w']|].
Qed.
Lemma d_ticks_snoc n e w :
  d_ticks rand now (S n) e w
  = match d_ticks rand now n e w with Some (re, w') => d_tick rand now re.2 w' | None => None end.
Proof.
  revert e w. induction n as [|n IH]; intros e w.
  - rewrite d_ticks_S, d_ticks_0. destruct (d_tick rand now e w) as [[re w']|]; [apply d_ticks_0|done].
  - rewrite d_ticks_S, (d_ticks_S n). destruct (d_tick rand now e w) as [[re w']|]; [apply IH|done].
Qed.

(** After the events the page shows the engine's next ticks. *)
Lemma page_steps_shows es p n e w0 re w :
  d_ticks rand now n e w0 = Some (re, w) → shows re p →
  rel2 (λ p re, shows re p) (page_steps rand now es p w) (d_ticks rand now (n + timers es) e w0).
Proof.
  revert p n re w. induction es as [|ev es IH]; intros p n re w Hd Hp.
  - unfold timers. simpl. rewrite Nat.add_0_r, Hd. by split.
  - cbn [page_steps]. destruct (is_timer ev) eqn:Ht.
    + destruct ev; try done. pose proof Hp as (_ & _ & _ & He & [d Hd']). cbn [page_step]. rewrite Hd', He.
      replace (n + timers (PTimer :: es)) with (S n + timers es) by (unfold timers; simpl; lia).
      pose proof (d_ticks_snoc n e w0) as Hs. rewrite Hd in Hs. cbn beta iota in Hs.
      unfold mbind, M_bind. destruct (d_tick rand now re.2 w) as [[re' w']|].
      * eapply IH; [exact Hs|apply shows_result].
      * enough (∀ k, d_ticks rand now (S n + k) e w0 = None) as -> by done.
        induction k as [|k IHk]; [by rewrite Nat.add_0_r|]. by rewrite Nat.add_succ_r, d_ticks_snoc, IHk.
    + replace (page_step rand now ev p) with (mret (M:=M) (page_ui ev p)) by (by destruct ev).
      replace (timers (ev :: es)) with (timers es) by (unfold timers; simpl; by rewrite Ht).
      unfold mbind, M_bind, mret, M_ret. cbn beta iota. eapply IH; [exact Hd|by apply page_ui_shows].
Qed.

Lemma page_run_shows es :
  rel2 (λ p re, shows re p) ((p ← page_mount rand now; page_steps rand now es p) (mkWorld 0 0))
    ((e ← d_init rand; d_ticks rand now (79 + timers es) e) (mkWorld 0 0)).
Proof.
  unfold page_mount. generalize 79. intros n. unfold mbind, M_bind, mret, M_ret.
  destruct (d_init rand (mkWorld 0 0)) as [[e w0]|]; [|done]. destruct (d_ticks rand now n e w0) as [[re w]|] eqn:E.
  - eapply page_steps_shows; [exact E|apply shows_result].
  - enough (∀ k, d_ticks rand now (n + k) e w0 = None) as -> by done.
    induction k as [|k IHk]; [by rewrite Nat.add_0_r|]. by rewrite Nat.add_succ_r, d_ticks_snoc, IHk.
Qed.

Lemma page_run_eq es :
  page_run rand now es = fst <$> (p ← page_mount rand now; page_steps rand now es p) (mkWorld 0 0).
Proof. unfold page_run. reflexivity. Qed.
End Page.

Lemma rel2_snd {A B} (R : A → B → Prop) x y m d b :
  rel2 R x y → m = fst <$> x → d = fst <$> y → d = Some b → ∃ a, m = Some a ∧ R a b.
Proof.
  intros H -> ->. destruct x as [[a w]|], y as [[b' w']|]; simpl in *; try done.
  destruct H as [HR <-]. intros [= ->]. by exists a.
Qed.

(** C36: the prototype's page shows what the dashboard's simulated source
    publishes.  On random numbers in [[0, 1)], whatever the user clicks, resizes
    and tweaks in between, the page never fails; after [k] timers its snapshots,
    services and events are the engine's result after [80 + k] ticks, which are
    the store the hook of the dashboard has published after as many; and the next
    timer is always set. *)
Theorem page_is_the_simulation (rand : nat → number) (now : nat → Z) (es : list PageEvent) :
  (∀ i, in_unit (rand i)) →
  ∃ p m r, page_run rand now es = Some p ∧ run_mock rand now (79 + timers es) = Some m
    ∧ publishes r (Mk.published m)
    ∧ Pg.snapshots p = En.snapshots r ∧ Pg.services p = En.services r ∧ Pg.events p = En.allEvents r
    ∧ is_Some (Pg.timer p).
Proof.
  intros Hr. destruct (d_run_published rand now (79 + timers es) Hr) as (re & m & Hd & Hm & Hp).
  destruct (rel2_snd _ _ _ _ _ re (page_run_shows rand now es) (page_run_eq rand now es) (d_run_eq rand now _) Hd)
    as (p & Hpg & H1 & H2 & H3 & _ & H4).
  exact (ex_intro _ p (ex_intro _ m (ex_intro _ re.1
    (conj Hpg (conj Hm (conj Hp (conj H1 (conj H2 (conj H3 H4))))))))).
Qed.

(** ** The map *)
Lemma d_edge_kids w h key snap :
  ∃ attrs kids, d_edge w h key snap = el "g" attrs (on_click_stop (Some (DSnap.key snap))) kids
    ∧ forallb inert kids = true.
Proof.
  eexists _, _. split; [reflexivity|]. cbn [forallb inert app when]. destruct (bool_decide _), (DSnap.is_spike snap); reflexivity.
Qed.
Lemma ServiceNode_inert x y n svc i sp sel : inert (ServiceNode x y n svc i sp sel) = true.
Proof.
  unfold ServiceNode. cbn [inert]. rewrite !forallb_app. cbn [forallb inert].
  rewrite !andb_true_iff. repeat split.
  - by destruct (svc ≫= _).
  - by destruct (sp && _).
  - by destruct svc, i.
Qed.

Lemma bubble_stop_on {E} path tag attrs (e : E) kids :
  forallb inert kids = true → bubble path (el tag attrs (on_click_stop e) kids) = ([e], true).
Proof.
  intros Hk. destruct path as [|i path]; [done|]. cbn [bubble].
  destruct (kids !! i) eqn:Ei; [|done]. by rewrite bubble_inert by by eapply forallb_lookup.
Qed.

Lemma bubble_kid {E} i rest tag attrs (e : E) kids k es b :
  kids !! i = Some k → bubble rest k = (es, b) →
  bubble (i :: rest) (el tag attrs (on_click e) kids) = if b then (es, true) else (es ++ [e], false).
Proof. intros Hi Hb. cbn [bubble]. by rewrite Hi, Hb. Qed.
Lemma bubble_inert_kid {E} path tag attrs (e : E) kids :
  (∀ i rest, path = i :: rest → from_option inert true (kids !! i) = true) →
  bubble path (el tag attrs (on_click e) kids) = ([e], false).
Proof.
  intros Hk. destruct path as [|i rest]; [done|]. specialize (Hk i rest eq_refl). cbn [bubble].
  destruct (kids !! i) as [k|]; [|done]. by rewrite bubble_inert.
Qed.

Lemma lookup_two {A} (a b : A) l i : ([a; b] ++ l) !! (2 + i) = l !! i.
Proof. done. Qed.

Lemma node_pos_unit svc :
  let p := obj_get d_NODE_POS svc ?? Pos.mkPoint (nlit (T:=Q) 5 10) (nlit 5 10) in
  (0 <= Pos.x p ∧ Pos.x p <= 1 ∧ 0 <= Pos.y p ∧ Pos.y p <= 1)%Q.
Proof.
  destruct (obj_get d_NODE_POS svc) as [p|] eqn:E; [|by repeat split].
  apply obj_get_Some in E. cbn [default]. unfold d_NODE_POS in E.
  repeat (apply elem_of_cons in E as [[= -> ->]|E]; [by repeat split|]). by apply not_elem_of_nil in E.
Qed.
Lemma margin_in (m lo hi w p : Q) :
  (m = nmax lo (nmin hi (w * nlit 8 100)) → lo <= hi → 2 * lo <= w → 0 <= lo → 0 <= p → p <= 1 →
   lo <= m + p * (w - m * 2) ∧ m + p * (w - m * 2) <= w - lo)%Q.
Proof.
  intros -> Hlh Hw Hlo Hp0 Hp1. assert (w * nlit 8 100 == w * (8 # 100))%Q as E by (change (nlit 8 100) with (8 / 100)%Q; field).
  destruct (nmin_Q hi (w * nlit 8 100)%Q) as (H1 & H2 & _). set (q := nmin hi (w * nlit 8 100)%Q) in *.
  destruct (nmax_Q lo q) as (H3 & H4 & H5). set (m := nmax lo q) in *.
  assert (2 * m <= w)%Q as Hm by (destruct H5; lra).
  assert (0 <= p * (w - m * 2))%Q by nra. assert (p * (w - m * 2) <= w - m * 2)%Q by nra. split; lra.
Qed.

(** The map of the prototype: a click on any part of a connection selects
    that connection and nothing else (it is stopped before the background sees
    it), a click on a service or the background clears the selection; and every
    service, known or not, is placed at least 58 from the left and right edges
    and 36 from the top and bottom of a map that has the room. *)
Theorem prototype_map (w h : number) (snapshots : jsobj DesignSnap) (services : ServiceMap)
    (key : option string) (rest : list nat) :
  let edges := obj_values snapshots in
  let v := d_map_svg w h snapshots services key in
  (∀ i snap, edges !! i = Some snap → clicks_at (2 + i :: rest) v = [Some (DSnap.key snap)])
  ∧ (∀ path, path = [] ∨ (∃ i, path = i :: rest ∧ (i < 2 ∨ 2 + length edges ≤ i)) → clicks_at path v = [None])
  ∧ (∀ (w h : Q) svc, 116 <= w → 72 <= h →
     let p := d_xy w h svc in 58 <= Pos.x p ∧ Pos.x p <= w - 58 ∧ 36 <= Pos.y p ∧ Pos.y p <= h - 36)%Q.
Proof.
  intros edges v. split; [|split].
  - intros i snap Hi. unfold clicks_at, v, d_map_svg. fold edges.
    destruct (d_edge_kids w h key snap) as (attrs & kids & Ek & Hk).
    erewrite (bubble_kid (2 + i) rest _ _ _ _ (d_edge w h key snap) [Some (DSnap.key snap)] true); [done| |].
    + rewrite lookup_two, lookup_app_l by (rewrite length_map; by eapply lookup_lt_Some).
      by rewrite lookup_map, Hi.
    + rewrite Ek. by apply bubble_stop_on.
  - intros path Hp. unfold clicks_at, v, d_map_svg. fold edges. rewrite bubble_inert_kid; [done|].
    intros j rest' ->. destruct Hp as [|(i & [= -> ->] & Hi)]; [done|].
    destruct i as [|[|i]]; [done|done|]. rewrite (lookup_two _ _ _ i), lookup_app_r by (rewrite length_map; lia). rewrite length_map, lookup_map.
    destruct (node_names edges !! _) as [svc|]; [|done]. cbn [fmap option_fmap option_map from_option inert forallb].
    by rewrite ServiceNode_inert.
  - intros w' h' svc Hw Hh p. destruct (node_pos_unit svc) as (? & ? & ? & ?). unfold p, d_xy. cbn [Pos.x Pos.y].
    set (q := _ ?? _) in *.
    destruct (margin_in (PX w') 58 92 w' (Pos.x q)) as [? ?]; [reflexivity|discriminate|lra|discriminate|done|done|].
    destruct (margin_in (PY h') 36 48 h' (Pos.y q)) as [? ?]; [reflexivity|discriminate|lra|discriminate|done|done|].
    repeat split; assumption.
Qed.

(** ** Concrete pages *)
Lemma page_is_the_simulation_witness :
  ∃ p m r, page_run MockFacts.half Z.of_nat [PTimer; PView DList; PTweak (TShowExternal false); PTimer] = Some p
    ∧ run_mock MockFacts.half Z.of_nat 81 = Some m ∧ publishes r (Mk.published m)
    ∧ Pg.snapshots p = En.snapshots r ∧ Pg.services p = En.services r ∧ Pg.events p = En.allEvents r
    ∧ is_Some (Pg.timer p).
Proof.
  apply (page_is_the_simulation MockFacts.half Z.of_nat [PTimer; PView DList; PTweak (TShowExternal false); PTimer]).
  exact half_unit.
Defined.
